(* ===== verification/_CoqProject ===== *)
-Q . S2P
Prelude.v
Bitops.v
Hamming.v
Crc32.v
Blockcheck.v
RbTree.v
Bitmap.v
BitmapInv.v
BitmapApi.v
BitmapRange.v
Lockid.v
DirBlock.v
DirEntries.v
DirStore.v
Dir.v
DirOps.v
DirLink.v
DirSpec.v
DirInit.v
Features.v
FeaturesSpec.v
