(* ===== verification/Prelude.v ===== *)
(** HEADER PLACEHOLDER *)

From stdpp Require Export base list numbers option gmap.
From Stdlib Require Export ZArith Lia.
From Stdlib Require Import Btauto.

#[global] Open Scope Z_scope.
#[global] Set Default Proof Using "Type".

(** ** Error codes

    The [OCFS2_ET_*] codes of [libocfs2/ocfs2_err.et] that the modelled
    functions return, and the numbers the callers take for [errno] values.
    The source returns 0 for success; here success is the
    constructor [Ok] of [res]. *)
Inductive errcode : Type :=
| OCFS2_ET_NO_MEMORY
| OCFS2_ET_IO
| OCFS2_ET_INVALID_ARGUMENT
| OCFS2_ET_INVALID_BIT
| OCFS2_ET_BIT_NOT_FOUND
| OCFS2_ET_ITERATION_COMPLETE
| OCFS2_ET_INTERNAL_FAILURE
| OCFS2_ET_BAD_BLKNO
| OCFS2_ET_RO_FILESYS
| OCFS2_ET_DIR_CORRUPTED
| OCFS2_ET_NO_DIRECTORY
| OCFS2_ET_FILE_NOT_FOUND
| OCFS2_ET_DIR_NO_SPACE
| OCFS2_ET_EXPAND_DIR_ERR
| OCFS2_ET_BAD_DIR_BLOCK_MAGIC
| OCFS2_ET_TOO_MANY_SLOTS
| OCFS2_ET_CANNOT_INLINE_DATA
| OCFS2_ET_INVALID_LOCKRES
| OCFS2_ET_UNSUPP_FEATURE
| OCFS2_ET_CONFLICTING_FEATURES
| OCFS2_ET_NO_SPACE
| OCFS2_ET_SHORT_READ
| OCFS2_ET_SHORT_WRITE
| SYS_ERRNO (n : Z).

#[global] Instance errcode_eq_dec : EqDecision errcode.
Proof. solve_decision. Defined.

(** ** Outcomes

    [Ok a] is a normal return, [Err e] a non-zero [errcode_t], [Fault] what
    the C program must never do: a read or write outside a buffer, a null
    dereference, a call of [abort()]. *)
Inductive res (A : Type) : Type :=
| Ok (a : A)
| Err (e : errcode)
| Fault.
Arguments Ok {A} _.
Arguments Err {A} _.
Arguments Fault {A}.

#[global] Instance res_ret : MRet res := fun _ a => Ok a.
#[global] Instance res_bind : MBind res := fun _ _ k c =>
  match c with
  | Ok a => k a
  | Err e => Err e
  | Fault => Fault
  end.

#[global] Instance res_eq_dec {A} `{EqDecision A} : EqDecision (res A).
Proof. solve_decision. Defined.

Lemma bind_Ok {A B} (a : A) (k : A -> res B) : (Ok a ≫= k) = k a.
Proof. reflexivity. Qed.

Lemma bind_Ok_inv {A B} (c : res A) (k : A -> res B) b :
  (c ≫= k) = Ok b -> exists a, c = Ok a /\ k a = Ok b.
Proof. destruct c; cbn; intros; [eauto | discriminate..]. Qed.

Lemma bind_assoc {A B C} (c : res A) (f : A -> res B) (g : B -> res C) :
  ((c ≫= f) ≫= g) = (c ≫= (fun a => f a ≫= g)).
Proof. destruct c; reflexivity. Qed.

(** Lifts an option whose [None] is a memory fault. *)
Definition must {A} (o : option A) : res A :=
  match o with
  | Some a => Ok a
  | None => Fault
  end.

(** ** Machine integers: a w-bit unsigned value is a [Z] reduced mod 2^w *)
Definition u8 (z : Z) : Z := z mod 256.
Definition u16 (z : Z) : Z := z mod 65536.
Definition u32 (z : Z) : Z := z mod 4294967296.
Definition u64 (z : Z) : Z := z mod 18446744073709551616.

(** Conversion to a 32-bit [int]. *)
Definition s32 (z : Z) : Z := if u32 z <? 2147483648 then u32 z else u32 z - 4294967296.

Definition INT_MAX : Z := 2147483647.
Definition UINT64_MAX : Z := 18446744073709551615.

Lemma u8_small z : 0 <= z < 256 -> u8 z = z.
Proof. apply Z.mod_small. Qed.
Lemma u16_small z : 0 <= z < 65536 -> u16 z = z.
Proof. apply Z.mod_small. Qed.
Lemma u32_small z : 0 <= z < 4294967296 -> u32 z = z.
Proof. apply Z.mod_small. Qed.
Lemma u64_small z : 0 <= z < 18446744073709551616 -> u64 z = z.
Proof. apply Z.mod_small. Qed.
Lemma s32_small z : 0 <= z < 2147483648 -> s32 z = z.
Proof. intros H. unfold s32. rewrite u32_small by lia. by destruct (Z.ltb_spec z 2147483648); [| lia]. Qed.
Lemma u8_range z : 0 <= u8 z < 256.
Proof. apply Z.mod_pos_bound. lia. Qed.
Lemma u16_range z : 0 <= u16 z < 65536.
Proof. apply Z.mod_pos_bound. lia. Qed.
Lemma u32_range z : 0 <= u32 z < 4294967296.
Proof. apply Z.mod_pos_bound. lia. Qed.
Lemma u64_range z : 0 <= u64 z < 18446744073709551616.
Proof. apply Z.mod_pos_bound. lia. Qed.

(** Drops the wrap-arounds whose argument [lia] can bound. *)
Ltac unwrap :=
  repeat match goal with
  | |- context [u8 ?z] => rewrite (u8_small z) by lia
  | |- context [u16 ?z] => rewrite (u16_small z) by lia
  | |- context [u32 ?z] => rewrite (u32_small z) by lia
  | |- context [u64 ?z] => rewrite (u64_small z) by lia
  end.

(** ** Case analysis on the boolean tests of the code *)
Ltac case_test :=
  match goal with
  | |- context [if ?a =? ?b then _ else _] => destruct (Z.eqb_spec a b)
  | |- context [if ?a <? ?b then _ else _] => destruct (Z.ltb_spec a b)
  | |- context [if ?a <=? ?b then _ else _] => destruct (Z.leb_spec a b)
  | |- context [if ?b then _ else _] =>
      let E := fresh "E" in destruct b eqn:E
  end.

Ltac destruct_conjs := repeat match goal with
  | H : _ /\ _ |- _ => destruct H
  | H : exists _, _ |- _ => destruct H
  end.

(** Equality of lists up to associativity of append. *)
Ltac list_assoc :=
  repeat progress (rewrite <- ?app_assoc, ?app_nil_r, ?app_nil_l; cbn [app]); try reflexivity.

(** ** Bits of integers *)
Create HintDb bits.
Create Rewrite HintDb bits.
#[export] Hint Rewrite Z.land_spec Z.lor_spec Z.lxor_spec Z.ldiff_spec Z.bits_0
  andb_true_r andb_false_r andb_true_l andb_false_l orb_false_r orb_true_r
  orb_false_l orb_true_l xorb_false_r xorb_true_r xorb_false_l xorb_true_l : bits.
#[export] Hint Rewrite Z.lnot_spec Z.shiftr_spec Z.shiftl_spec
  using lia : bits.

(** [Z.testbit] of a power of two, at any index. *)
Lemma testbit_pow2 k n : 0 <= k -> Z.testbit (Z.shiftl 1 k) n = (k =? n).
Proof.
  intros Hk. rewrite Z.shiftl_1_l. by rewrite Z.pow2_bits_eqb.
Qed.

Lemma testbit_ones w n : 0 <= w -> 0 <= n ->
  Z.testbit (Z.shiftl 1 w - 1) n = (n <? w).
Proof.
  intros Hw Hn. rewrite Z.shiftl_1_l, <- (Z.ones_equiv w : _ = 2 ^ w - 1).
  by rewrite Z.testbit_ones_nonneg.
Qed.

Lemma testbit_u8 z n : 0 <= n -> Z.testbit (u8 z) n = (n <? 8) && Z.testbit z n.
Proof.
  intros Hn. unfold u8. change 256 with (2 ^ 8).
  destruct (Z.ltb_spec n 8).
  - by rewrite Z.mod_pow2_bits_low by lia.
  - by rewrite Z.mod_pow2_bits_high by lia.
Qed.

Lemma byte_bits_high b n : 0 <= b < 256 -> 8 <= n -> Z.testbit b n = false.
Proof.
  intros Hb Hn. rewrite <- (u8_small b) by done.
  rewrite testbit_u8 by lia. by destruct (Z.ltb_spec n 8); [lia|].
Qed.

(** Two bytes with the same eight bits are equal. *)
Lemma byte_ext a b : 0 <= a < 256 -> 0 <= b < 256 ->
  (forall n, 0 <= n < 8 -> Z.testbit a n = Z.testbit b n) -> a = b.
Proof.
  intros Ha Hb H. apply Z.bits_inj'. intros n Hn.
  destruct (Z.lt_ge_cases n 8); [by apply H |].
  by rewrite !byte_bits_high.
Qed.

Lemma lxor_cancel a b c : Z.lxor (Z.lxor a (Z.lxor b c)) (Z.lxor a b) = c.
Proof.
  apply Z.bits_inj'. intros n _. rewrite !Z.lxor_spec.
  by destruct (Z.testbit a n), (Z.testbit b n), (Z.testbit c n).
Qed.

Lemma lxor_byte a b : 0 <= a < 256 -> 0 <= b < 256 -> 0 <= Z.lxor a b < 256.
Proof.
  intros Ha Hb. assert (E : Z.lxor a b = u8 (Z.lxor a b)); [| rewrite E; apply u8_range].
  apply Z.bits_inj'. intros n Hn. rewrite testbit_u8, Z.lxor_spec by done.
  destruct (Z.ltb_spec n 8); [done |]. by rewrite !byte_bits_high.
Qed.

(** ** Byte buffers

    A [void *] buffer is the list of its bytes; a pointer into it is the
    suffix that starts there. *)
Definition byte_ok (b : Z) : Prop := 0 <= b < 256.
Definition bytes_ok (buf : list Z) : Prop := Forall byte_ok buf.
Definition zlen {A} (l : list A) : Z := Z.of_nat (length l).

(** [*p]: faults at the end of the buffer. *)
Definition deref (p : list Z) : res Z := must (head p).

(** [buf[i]] *)
Definition load (buf : list Z) (i : Z) : res Z :=
  if i <? 0 then Fault else must (buf !! Z.to_nat i).

(** [buf[i] = v] *)
Definition store (buf : list Z) (i : Z) (v : Z) : res (list Z) :=
  if (i <? 0) || (zlen buf <=? i) then Fault
  else Ok (<[Z.to_nat i := v]> buf).

Lemma zlen_nonneg {A} (l : list A) : 0 <= zlen l.
Proof. unfold zlen. lia. Qed.

Lemma zlen_cons {A} (x : A) l : zlen (x :: l) = 1 + zlen l.
Proof. unfold zlen. cbn [length]. lia. Qed.

Lemma zlen_app {A} (l k : list A) : zlen (l ++ k) = zlen l + zlen k.
Proof. unfold zlen. rewrite length_app. lia. Qed.

Lemma zlen_insert {A} (l : list A) i x : zlen (<[i:=x]> l) = zlen l.
Proof. unfold zlen. by rewrite length_insert. Qed.

Lemma zlen_drop {A} (l : list A) n : zlen (drop n l) = Z.max 0 (zlen l - Z.of_nat n).
Proof. unfold zlen. rewrite length_drop. lia. Qed.

Lemma lookup_in_range {A} (l : list A) i :
  0 <= i < zlen l -> exists x, l !! Z.to_nat i = Some x.
Proof. unfold zlen. intros. apply lookup_lt_is_Some_2. lia. Qed.

Lemma load_in_range buf i : 0 <= i < zlen buf ->
  exists b, buf !! Z.to_nat i = Some b /\ load buf i = Ok b.
Proof.
  intros Hi. destruct (lookup_in_range buf i Hi) as [b Hb].
  exists b. split; [done |]. unfold load. rewrite Hb.
  by destruct (Z.ltb_spec i 0); [lia |].
Qed.

Lemma store_in_range buf i v : 0 <= i < zlen buf ->
  store buf i v = Ok (<[Z.to_nat i := v]> buf).
Proof.
  intros Hi. unfold store.
  destruct (Z.ltb_spec i 0), (Z.leb_spec (zlen buf) i); try lia. done.
Qed.

Lemma bytes_ok_lookup buf i b : bytes_ok buf -> buf !! i = Some b -> 0 <= b < 256.
Proof. intros H Hb. by eapply (Forall_lookup_1 _ _ _ _ H). Qed.

Lemma bytes_ok_insert buf i v : bytes_ok buf -> byte_ok v -> bytes_ok (<[i:=v]> buf).
Proof. intros. by apply Forall_insert. Qed.

Lemma bytes_ok_drop buf n : bytes_ok buf -> bytes_ok (drop n buf).
Proof. apply Forall_drop. Qed.

#[export] Hint Resolve bytes_ok_insert bytes_ok_drop zlen_nonneg : bits.

(** A word as the list of its bytes, low byte first. *)
Definition cat (a b : Z) : Z := Z.lor a (Z.shiftl b 8).
Definition word (l : list Z) : Z := foldr cat 0 l.

Lemma testbit_cat a b n : byte_ok a -> 0 <= n ->
  Z.testbit (cat a b) n = if n <? 8 then Z.testbit a n else Z.testbit b (n - 8).
Proof.
  intros Ha Hn. unfold cat. rewrite Z.lor_spec, Z.shiftl_spec by done.
  destruct (Z.ltb_spec n 8).
  - by rewrite (Z.testbit_neg_r b), orb_false_r by lia.
  - by rewrite byte_bits_high.
Qed.

Lemma cat_add a b : byte_ok a -> cat a b = a + 256 * b.
Proof.
  intros Ha. unfold cat. replace (256 * b) with (Z.shiftl b 8).
  2: { rewrite Z.shiftl_mul_pow2 by lia. change (2 ^ 8) with 256. lia. }
  assert (E : Z.land a (Z.shiftl b 8) = 0).
  { apply Z.bits_inj'. intros n Hn. rewrite Z.land_spec, Z.bits_0.
    destruct (Z.lt_ge_cases n 8).
    - by rewrite Z.shiftl_spec_low, andb_false_r.
    - by rewrite byte_bits_high. }
  by rewrite <- Z.lxor_lor, <- Z.add_nocarry_lxor.
Qed.

Lemma cat_low a b : byte_ok a -> Z.land (cat a b) 255 = a.
Proof.
  intros Ha. apply Z.bits_inj'. intros n Hn. change 255 with (Z.ones 8).
  rewrite Z.land_spec, testbit_cat, Z.testbit_ones_nonneg by (done || lia).
  destruct (Z.ltb_spec n 8); [apply andb_true_r |]. by rewrite andb_false_r, byte_bits_high.
Qed.

Lemma cat_high a b : byte_ok a -> Z.shiftr (cat a b) 8 = b.
Proof.
  intros Ha. apply Z.bits_inj'. intros n Hn. rewrite Z.shiftr_spec, testbit_cat by (done || lia).
  destruct (Z.ltb_spec (n + 8) 8); [lia |]. f_equal. lia.
Qed.

Lemma word_split w : cat (w mod 256) (w / 256) = w.
Proof.
  rewrite cat_add by (apply Z.mod_pos_bound; lia). pose proof (Z.div_mod w 256). lia.
Qed.

(** ** Fields of a buffer *)

(** [memcpy(buf + off, bs)] *)
Definition splice (off : nat) (bs buf : list Z) : list Z :=
  take off buf ++ bs ++ drop (off + length bs) buf.

(** The [n] bytes at [buf + off]. *)
Definition slice (off n : nat) (buf : list Z) : list Z := take n (drop off buf).

(** The [n] little-endian bytes of a value. *)
Fixpoint le_bytes (n : nat) (v : Z) : list Z :=
  match n with
  | O => []
  | S n => v mod 256 :: le_bytes n (v / 256)
  end.

(** A little-endian field of [n] bytes, read and written with a bounds check. *)
Definition get_le (n : nat) (buf : list Z) (off : Z) : res Z :=
  if (off <? 0) || (zlen buf <? off + Z.of_nat n) then Fault
  else Ok (word (slice (Z.to_nat off) n buf)).

Definition put_bytes (buf : list Z) (off : Z) (bs : list Z) : res (list Z) :=
  if (off <? 0) || (zlen buf <? off + zlen bs) then Fault
  else Ok (splice (Z.to_nat off) bs buf).

Definition put_le (n : nat) (buf : list Z) (off v : Z) : res (list Z) :=
  put_bytes buf off (le_bytes n v).

Lemma length_le_bytes n v : length (le_bytes n v) = n.
Proof. revert v. induction n; intros; cbn; [done |]. by rewrite IHn. Qed.

Lemma le_bytes_ok n v : bytes_ok (le_bytes n v).
Proof.
  revert v. induction n; intros; cbn [le_bytes]; constructor; [| apply IHn].
  apply Z.mod_pos_bound. lia.
Qed.

Lemma word_le_bytes n v : 0 <= v < 256 ^ Z.of_nat n -> word (le_bytes n v) = v.
Proof.
  revert v. induction n as [| n IH]; intros v Hv; cbn [le_bytes word foldr].
  - cbn in Hv. lia.
  - fold (word (le_bytes n (v / 256))). rewrite IH; [apply word_split |].
    rewrite Nat2Z.inj_succ, Z.pow_succ_r in Hv by lia.
    split; [apply Z.div_pos; lia | apply Z.div_lt_upper_bound; lia].
Qed.

Lemma lookup_splice off bs buf i : (off + length bs <= length buf)%nat ->
  splice off bs buf !! i =
  if decide (off <= i < off + length bs)%nat then bs !! (i - off)%nat else buf !! i.
Proof.
  intros H. unfold splice. destruct (decide (off <= i < off + length bs)%nat).
  - rewrite lookup_app_r by (rewrite length_take; lia). rewrite length_take, Nat.min_l by lia.
    by rewrite lookup_app_l by lia.
  - destruct (decide (i < off)%nat).
    + rewrite lookup_app_l by (rewrite length_take; lia). by rewrite lookup_take_lt.
    + rewrite lookup_app_r, length_take, Nat.min_l by (rewrite ?length_take; lia).
      rewrite lookup_app_r, lookup_drop by lia. f_equal. lia.
Qed.

Lemma length_splice off bs buf : (off + length bs <= length buf)%nat ->
  length (splice off bs buf) = length buf.
Proof. intros H. unfold splice. rewrite !length_app, length_take, length_drop. lia. Qed.

Lemma splice_ok off bs buf : bytes_ok bs -> bytes_ok buf -> bytes_ok (splice off bs buf).
Proof.
  intros Hb Hbuf. unfold splice, bytes_ok.
  apply Forall_app. split; [by apply Forall_take |].
  apply Forall_app. split; [done | by apply Forall_drop].
Qed.

Lemma lookup_slice off n buf i :
  slice off n buf !! i = if decide (i < n)%nat then buf !! (off + i)%nat else None.
Proof.
  unfold slice. destruct (decide (i < n)%nat).
  - by rewrite lookup_take_lt, lookup_drop.
  - by rewrite lookup_take_ge by lia.
Qed.

(** Reading back what was just written; a write elsewhere changes nothing. *)
Lemma slice_splice_eq off bs buf : (off + length bs <= length buf)%nat ->
  slice off (length bs) (splice off bs buf) = bs.
Proof.
  intros H. apply list_eq. intros i. rewrite lookup_slice.
  destruct (decide (i < length bs)%nat).
  - rewrite lookup_splice by done. rewrite decide_True by lia. f_equal. lia.
  - symmetry. apply lookup_ge_None. lia.
Qed.

Lemma slice_splice_ne off n off' bs buf : (off' + length bs <= length buf)%nat ->
  (off + n <= off' \/ off' + length bs <= off)%nat ->
  slice off n (splice off' bs buf) = slice off n buf.
Proof.
  intros H Hd. apply list_eq. intros i. rewrite !lookup_slice.
  destruct (decide (i < n)%nat); [| done]. rewrite lookup_splice by done.
  by rewrite decide_False by lia.
Qed.

Lemma splice_splice off bs bs' buf : (off + length bs <= length buf)%nat ->
  length bs = length bs' -> splice off bs (splice off bs' buf) = splice off bs buf.
Proof.
  intros H E. apply list_eq. intros i.
  rewrite !lookup_splice by (rewrite ?length_splice; lia). rewrite E. by destruct (decide _).
Qed.

(** A write outside the spliced range commutes with it. *)
Lemma splice_insert off bs buf i v : (off + length bs <= length buf)%nat ->
  ~ (off <= i < off + length bs)%nat ->
  splice off bs (<[i := v]> buf) = <[i := v]> (splice off bs buf).
Proof.
  intros H Hi. apply list_eq. intros j.
  rewrite lookup_splice by (rewrite length_insert; lia).
  destruct (decide (i = j)) as [<- |].
  - rewrite decide_False by lia. destruct (decide (i < length buf)%nat).
    + by rewrite !list_lookup_insert_eq by (rewrite ?length_splice; lia).
    + by rewrite !list_insert_ge, lookup_splice, decide_False by (rewrite ?length_splice; lia).
  - rewrite !list_lookup_insert_ne by done. by rewrite lookup_splice by done.
Qed.

Lemma slice_insert off n buf i v : ~ (off <= i < off + n)%nat ->
  slice off n (<[i := v]> buf) = slice off n buf.
Proof.
  intros Hi. apply list_eq. intros j. rewrite !lookup_slice.
  destruct (decide (j < n)%nat); [| done]. by rewrite list_lookup_insert_ne by lia.
Qed.

Lemma get_le_ok n buf off : 0 <= off -> off + Z.of_nat n <= zlen buf ->
  get_le n buf off = Ok (word (slice (Z.to_nat off) n buf)).
Proof.
  intros. unfold get_le. by destruct (Z.ltb_spec off 0), (Z.ltb_spec (zlen buf) (off + Z.of_nat n)); try lia.
Qed.

Lemma put_bytes_ok buf off bs : 0 <= off -> off + zlen bs <= zlen buf ->
  put_bytes buf off bs = Ok (splice (Z.to_nat off) bs buf).
Proof.
  intros. unfold put_bytes. by destruct (Z.ltb_spec off 0), (Z.ltb_spec (zlen buf) (off + zlen bs)); try lia.
Qed.
