(* ===== verification/Bitops.v ===== *)
(** Bit operations on byte buffers: [libocfs2/bitops.c].

    The five primitives of [bitops.c] on buffers of bytes.  A buffer is the
    list of its bytes, a pointer is the suffix that starts there, and a read
    past the end is a [Fault].  [bit buf n] is the abstract view of a buffer
    as a map from bit numbers to booleans; every operation is specified
    against it. *)

From S2P Require Import Prelude.

(** ** The operations *)

(** libc [ffs]: one plus the index of the lowest set bit of an [int], 0 for
    none. *)
Fixpoint ffs_from (n : nat) (i x : Z) : Z :=
  match n with
  | O => 0
  | S n' => if Z.testbit x i then i + 1 else ffs_from n' (i + 1) x
  end.

Definition ffs (x : Z) : Z := ffs_from 32 0 x.

Definition ocfs2_set_bit (nr : Z) (addr : list Z) : res (bool * list Z) :=
  let ADDR := Z.shiftr nr 3 in
  let mask := Z.shiftl 1 (Z.land nr 7) in
  b ← load addr ADDR;
  let retval := negb (Z.land mask b =? 0) in
  addr' ← store addr ADDR (u8 (Z.lor b mask));
  mret (retval, addr').

Definition ocfs2_clear_bit (nr : Z) (addr : list Z) : res (bool * list Z) :=
  let ADDR := Z.shiftr nr 3 in
  let mask := Z.shiftl 1 (Z.land nr 7) in
  b ← load addr ADDR;
  let retval := negb (Z.land mask b =? 0) in
  addr' ← store addr ADDR (u8 (Z.land b (Z.lnot mask)));
  mret (retval, addr').

Definition ocfs2_test_bit (nr : Z) (addr : list Z) : res bool :=
  let ADDR := Z.shiftr nr 3 in
  let mask := Z.shiftl 1 (Z.land nr 7) in
  b ← load addr ADDR;
  mret (negb (Z.land mask b =? 0)).

(** [unsigned char tilde = ~0] and [unsigned int mask = 0U | tilde]. *)
Definition tilde : Z := 255.

(** The loop that skips bytes equal to [skip], with the pointer [p] and the
    bit number [res] of its first bit. *)
Fixpoint skip_bytes (skip size : Z) (p : list Z) (r : Z) : res (list Z * Z) :=
  if size >? r then
    match p with
    | [] => Fault
    | b :: p' => if b =? skip then skip_bytes skip size p' (u32 (r + 8)) else Ok (p, r)
    end
  else Ok (p, r).

(** The tail of the two searches, from the [while] loop on. *)
Definition scan_set (size : Z) (p : list Z) (r : Z) : res Z :=
  '(p, r) ← skip_bytes 0 size p r;
  if r >=? size then mret size else
  let mask := if r + 8 >? size then Z.shiftr tilde (8 - (size - r)) else tilde in
  b ← deref p;
  let d0 := ffs (Z.land b mask) in
  if d0 =? 0 then mret size else mret (r + d0 - 1).

Definition scan_clear (size : Z) (p : list Z) (r : Z) : res Z :=
  '(p, r) ← skip_bytes tilde size p r;
  if r >=? size then mret size else
  let mask := if r + 8 >? size then Z.shiftr tilde (8 - (size - r)) else tilde in
  b ← deref p;
  let d0 := ffs (Z.lnot (Z.land b mask)) in
  if d0 =? 0 then mret size else mret (r + d0 - 1).

Definition ocfs2_find_next_bit_set (addr : list Z) (size offset : Z) : res Z :=
  let bit := Z.land offset 7 in
  if size =? 0 then mret 0 else
  if offset <? 0 then Fault else
  let p := drop (Z.to_nat (Z.shiftr offset 3)) addr in
  let r := u32 (Z.shiftl (Z.shiftr offset 3) 3) in
  if bit =? 0 then scan_set (u32 size) p r else
  b ← deref p;
  let set := ffs (Z.land b (Z.lnot (Z.shiftl 1 bit - 1))) in
  if set =? 0 then scan_set (u32 size) (tail p) (u32 (r + 8))
  else mret (Z.land offset (Z.lnot 7) + set - 1).

Definition ocfs2_find_next_bit_clear (addr : list Z) (size offset : Z) : res Z :=
  let bit := Z.land offset 7 in
  if size =? 0 then mret 0 else
  if offset <? 0 then Fault else
  let p := drop (Z.to_nat (Z.shiftr offset 3)) addr in
  let r := u32 (Z.shiftl (Z.shiftr offset 3) 3) in
  if bit =? 0 then scan_clear (u32 size) p r else
  b ← deref p;
  let set := ffs (Z.land (Z.land (Z.lnot b) (Z.lnot (Z.shiftl 1 bit - 1))) tilde) in
  if set =? 0 then scan_clear (u32 size) (tail p) (u32 (r + 8))
  else mret (Z.land offset (Z.lnot 7) + set - 1).

Definition ocfs2_find_first_bit_set (addr : list Z) (size : Z) : res Z :=
  ocfs2_find_next_bit_set addr size 0.

Definition ocfs2_find_first_bit_clear (addr : list Z) (size : Z) : res Z :=
  ocfs2_find_next_bit_clear addr size 0.

(** ** The abstract view *)

Definition bit (buf : list Z) (n : Z) : bool :=
  match buf !! Z.to_nat (n / 8) with
  | Some b => Z.testbit b (n mod 8)
  | None => false
  end.

(** [r] is the first index from [lo] on where [f] holds, [hi] if there is
    none below [hi]. *)
Definition first_from (f : Z -> bool) (lo hi r : Z) : Prop :=
  lo <= r <= hi /\ (forall n, lo <= n < r -> f n = false) /\ (r < hi -> f r = true).

Lemma first_from_unique f lo hi r r' :
  first_from f lo hi r -> first_from f lo hi r' -> r = r'.
Proof.
  intros (H1 & H2 & H3) (H1' & H2' & H3').
  destruct (Z.lt_trichotomy r r') as [H | [H | H]]; [| done |].
  - rewrite (H2' r) in H3 by lia. discriminate H3. lia.
  - rewrite (H2 r') in H3' by lia. discriminate H3'. lia.
Qed.

(** The same search over two functions that agree. *)
Lemma first_from_ext f g lo hi r :
  (forall n, lo <= n < hi -> f n = g n) -> first_from f lo hi r -> first_from g lo hi r.
Proof.
  intros E (H1 & H2 & H3). split; [done | split].
  - intros n Hn. rewrite <- E by lia. by apply H2.
  - intros Hr. rewrite <- E by lia. by apply H3.
Qed.

(** Moving the start of a search over bits where nothing is found. *)
Lemma first_from_skip f lo mid hi r :
  lo <= mid -> (forall n, lo <= n < mid -> f n = false) ->
  first_from f mid hi r -> first_from f lo hi r.
Proof.
  intros Hle Hno (H1 & H2 & H3). split; [lia | split; [| done]].
  intros n Hn. destruct (Z.lt_ge_cases n mid); [apply Hno | apply H2]; lia.
Qed.

(** Arithmetic of the bit number: byte index and bit in byte. *)
Lemma shiftr_3 n : Z.shiftr n 3 = n / 8.
Proof. by rewrite Z.shiftr_div_pow2. Qed.

Lemma land_7 n : Z.land n 7 = n mod 8.
Proof. change 7 with (Z.ones 3). by rewrite Z.land_ones. Qed.

Lemma land_not_7 n : Z.land n (Z.lnot 7) = n - n mod 8.
Proof.
  rewrite <- Z.ldiff_land. change 7 with (Z.ones 3).
  rewrite Z.ldiff_ones_r, Z.shiftr_div_pow2, Z.shiftl_mul_pow2 by lia.
  change (2 ^ 3) with 8. pose proof (Z.div_mod n 8). lia.
Qed.

Lemma shiftl_3 n : Z.shiftl n 3 = 8 * n.
Proof. rewrite Z.shiftl_mul_pow2 by lia. lia. Qed.

Lemma bit_cons b buf n : 0 <= n ->
  bit (b :: buf) n = if n <? 8 then Z.testbit b n else bit buf (n - 8).
Proof.
  intros Hn. unfold bit. destruct (Z.ltb_spec n 8).
  - rewrite Z.div_small, Z.mod_small by lia. done.
  - replace (n - 8) with (n + (-1) * 8) by lia.
    rewrite Z.div_add, Z.mod_add by lia.
    replace (Z.to_nat (n / 8)) with (S (Z.to_nat (n / 8 + -1))); [done |].
    assert (1 <= n / 8) by (apply Z.div_le_lower_bound; lia). lia.
Qed.

Lemma bit_drop buf k n : 0 <= n ->
  bit (drop k buf) n = bit buf (8 * Z.of_nat k + n).
Proof.
  intros Hn. unfold bit. rewrite lookup_drop.
  replace (8 * Z.of_nat k + n) with (n + Z.of_nat k * 8) by lia.
  rewrite Z.div_add, Z.mod_add by lia.
  assert (0 <= n / 8) by (apply Z.div_pos; lia).
  by replace (Z.to_nat (n / 8 + Z.of_nat k)) with (k + Z.to_nat (n / 8))%nat by lia.
Qed.

(** Two well-formed buffers of the same length with the same bits are equal. *)
Lemma bit_ext buf buf' :
  bytes_ok buf -> bytes_ok buf' -> length buf = length buf' ->
  (forall n, 0 <= n < 8 * zlen buf -> bit buf n = bit buf' n) -> buf = buf'.
Proof.
  revert buf'. induction buf as [| b buf IH]; intros [| b' buf'] H H' L E;
    try discriminate; [done |].
  inversion_clear H. inversion_clear H'. rewrite zlen_cons in E. pose proof (zlen_nonneg buf).
  f_equal.
  - apply byte_ext; [done.. |]. intros n Hn. specialize (E n ltac:(lia)).
    rewrite !bit_cons in E by lia. by destruct (Z.ltb_spec n 8); [| lia].
  - apply IH; [done.. | naive_solver |]. intros n Hn. specialize (E (n + 8) ltac:(lia)).
    rewrite !bit_cons in E by lia.
    replace (n + 8 - 8) with n in E by lia.
    by destruct (Z.ltb_spec (n + 8) 8); [lia |].
Qed.

(** ** Setting, clearing and testing one bit *)

Lemma mask_test b k : 0 <= k ->
  negb (Z.land (Z.shiftl 1 k) b =? 0) = Z.testbit b k.
Proof.
  intros Hk. destruct (Z.eqb_spec (Z.land (Z.shiftl 1 k) b) 0) as [E | E]; cbn.
  - apply (f_equal (fun z => Z.testbit z k)) in E.
    rewrite Z.land_spec, testbit_pow2, Z.eqb_refl, Z.bits_0 in E by done. by symmetry.
  - destruct (Z.testbit b k) eqn:T; [done |]. destruct E.
    apply Z.bits_inj'. intros n Hn. rewrite Z.land_spec, testbit_pow2, Z.bits_0 by done.
    destruct (Z.eqb_spec k n); subst; [by rewrite T | done].
Qed.

(** The bits of a buffer after one byte is replaced. *)
Lemma bit_insert buf i v n : 0 <= i < zlen buf -> 0 <= n ->
  bit (<[Z.to_nat i := v]> buf) n = if n / 8 =? i then Z.testbit v (n mod 8) else bit buf n.
Proof.
  intros Hi Hn. unfold bit, zlen in *. assert (0 <= n / 8) by (apply Z.div_pos; lia).
  destruct (Z.eqb_spec (n / 8) i) as [-> | Hne].
  - rewrite list_lookup_insert_eq by lia. done.
  - rewrite list_lookup_insert_ne by lia. done.
Qed.

Lemma div_mod_bit n m : 0 <= n -> 0 <= m -> n / 8 = m / 8 -> (m mod 8 =? n mod 8) = (n =? m).
Proof.
  intros Hn Hm E. pose proof (Z.div_mod n 8). pose proof (Z.div_mod m 8).
  apply Bool.eq_iff_eq_true. rewrite !Z.eqb_eq. split; intros; [lia | by subst].
Qed.

Lemma bit_index nr (buf : list Z) : 0 <= nr < 8 * zlen buf -> 0 <= nr / 8 < zlen buf.
Proof.
  intros. split; [apply Z.div_pos; lia | apply Z.div_lt_upper_bound; lia].
Qed.

Lemma bit_loaded buf nr b : 0 <= nr ->
  buf !! Z.to_nat (nr / 8) = Some b -> Z.testbit b (nr mod 8) = bit buf nr.
Proof. intros _ E. unfold bit. by rewrite E. Qed.

Lemma set_bit_spec nr buf : bytes_ok buf -> 0 <= nr < 8 * zlen buf ->
  exists buf', ocfs2_set_bit nr buf = Ok (bit buf nr, buf') /\
    bytes_ok buf' /\ length buf' = length buf /\
    (forall n, 0 <= n -> bit buf' n = (n =? nr) || bit buf n).
Proof.
  intros Hok Hnr. pose proof (bit_index _ _ Hnr) as Hi.
  pose proof (Z.mod_pos_bound nr 8 ltac:(lia)).
  unfold ocfs2_set_bit. rewrite shiftr_3, land_7.
  destruct (load_in_range buf (nr / 8) Hi) as (b & Hb & ->).
  rewrite bind_Ok, mask_test, (bit_loaded buf) by (lia || done).
  rewrite store_in_range by done.
  eexists. split; [reflexivity |]. split_and!.
  - apply bytes_ok_insert; [done | apply u8_range].
  - apply length_insert.
  - intros n Hn. rewrite bit_insert by done.
    destruct (Z.eqb_spec (n / 8) (nr / 8)) as [E | E].
    + pose proof (Z.mod_pos_bound n 8 ltac:(lia)).
      rewrite testbit_u8, Z.lor_spec, testbit_pow2 by lia.
      rewrite div_mod_bit by lia. unfold bit. rewrite E, Hb.
      destruct (Z.ltb_spec (n mod 8) 8); [| lia]. apply orb_comm.
    + destruct (Z.eqb_spec n nr); subst; done.
Qed.

Lemma clear_bit_spec nr buf : bytes_ok buf -> 0 <= nr < 8 * zlen buf ->
  exists buf', ocfs2_clear_bit nr buf = Ok (bit buf nr, buf') /\
    bytes_ok buf' /\ length buf' = length buf /\
    (forall n, 0 <= n -> bit buf' n = negb (n =? nr) && bit buf n).
Proof.
  intros Hok Hnr. pose proof (bit_index _ _ Hnr) as Hi.
  pose proof (Z.mod_pos_bound nr 8 ltac:(lia)).
  unfold ocfs2_clear_bit. rewrite shiftr_3, land_7.
  destruct (load_in_range buf (nr / 8) Hi) as (b & Hb & ->).
  rewrite bind_Ok, mask_test, (bit_loaded buf) by (lia || done).
  rewrite store_in_range by done.
  eexists. split; [reflexivity |]. split_and!.
  - apply bytes_ok_insert; [done | apply u8_range].
  - apply length_insert.
  - intros n Hn. rewrite bit_insert by done.
    destruct (Z.eqb_spec (n / 8) (nr / 8)) as [E | E].
    + pose proof (Z.mod_pos_bound n 8 ltac:(lia)).
      rewrite testbit_u8, Z.land_spec, Z.lnot_spec, testbit_pow2 by lia.
      rewrite div_mod_bit by lia. unfold bit. rewrite E, Hb.
      destruct (Z.ltb_spec (n mod 8) 8); [| lia]. rewrite andb_true_l. apply andb_comm.
    + destruct (Z.eqb_spec n nr); subst; done.
Qed.

Lemma test_bit_spec nr buf : 0 <= nr < 8 * zlen buf ->
  ocfs2_test_bit nr buf = Ok (bit buf nr).
Proof.
  intros Hnr. pose proof (bit_index _ _ Hnr) as Hi.
  pose proof (Z.mod_pos_bound nr 8 ltac:(lia)).
  unfold ocfs2_test_bit. rewrite shiftr_3, land_7.
  destruct (load_in_range buf (nr / 8) Hi) as (b & Hb & ->).
  by rewrite bind_Ok, mask_test, (bit_loaded buf) by (lia || done).
Qed.

(** ** Searching for a bit *)

Lemma ffs_from_spec n i x :
  (ffs_from n i x = 0 /\ forall k, i <= k < i + Z.of_nat n -> Z.testbit x k = false) \/
  (exists k, ffs_from n i x = k + 1 /\ i <= k < i + Z.of_nat n /\ Z.testbit x k = true /\
     forall j, i <= j < k -> Z.testbit x j = false).
Proof.
  revert i. induction n as [| n IH]; intros i; cbn [ffs_from].
  - left. split; [done | lia].
  - destruct (Z.testbit x i) eqn:T.
    + right. exists i. split_and!; [done | lia | lia | done | lia].
    + destruct (IH (i + 1)) as [[-> H] | (k & -> & Hk & Tk & Hj)].
      * left. split; [done |]. intros k Hk. destruct (decide (k = i)); subst; [done |].
        apply H. lia.
      * right. exists k. split_and!; [done | lia | lia | done |].
        intros j Hj'. destruct (decide (j = i)); subst; [done |]. apply Hj. lia.
Qed.

(** [ffs] of a value whose low [w] bits decide it: either none of them is set
    and the answer is 0 or lies beyond, or it is one plus the first set one. *)
Lemma ffs_spec x :
  (ffs x = 0 /\ forall k, 0 <= k < 32 -> Z.testbit x k = false) \/
  (exists k, ffs x = k + 1 /\ 0 <= k < 32 /\ Z.testbit x k = true /\
     forall j, 0 <= j < k -> Z.testbit x j = false).
Proof. apply (ffs_from_spec 32 0 x). Qed.

(** The mask of the last, partial byte. *)
Lemma mask_bits (m j : Z) : 0 <= m <= 8 -> 0 <= j ->
  Z.testbit (Z.shiftr tilde (8 - m)) j = (j <? m).
Proof.
  intros Hm Hj. change tilde with (Z.ones 8). rewrite Z.shiftr_spec by lia.
  rewrite Z.testbit_ones_nonneg by lia.
  destruct (Z.ltb_spec (j + (8 - m)) 8), (Z.ltb_spec j m); lia || done.
Qed.

Lemma tilde_bits j : 0 <= j -> Z.testbit tilde j = (j <? 8).
Proof. intros. change tilde with (Z.ones 8). by rewrite Z.testbit_ones_nonneg by lia. Qed.

(** The mask as the code computes it for the byte at bit [r]. *)
Lemma tail_mask_bits size r j : r < size -> 0 <= j ->
  Z.testbit (if r + 8 >? size then Z.shiftr tilde (8 - (size - r)) else tilde) j
  = (j <? 8) && (r + j <? size).
Proof.
  intros Hr Hj. rewrite Z.gtb_ltb. case_test.
  - rewrite mask_bits by lia. apply Bool.eq_iff_eq_true.
    rewrite andb_true_iff, !Z.ltb_lt. lia.
  - rewrite tilde_bits by lia. apply Bool.eq_iff_eq_true.
    rewrite andb_true_iff, !Z.ltb_lt. lia.
Qed.

(** The skip loop stops at a byte that differs from [skip], or past [size];
    it never reads past a buffer that covers [size] bits. *)
Lemma skip_bytes_spec skip size p r :
  0 <= r -> size <= r + 8 * zlen p -> size < 2 ^ 31 ->
  exists k, (k <= length p)%nat /\
    skip_bytes skip size p r = Ok (drop k p, r + 8 * Z.of_nat k) /\
    (forall i, (i < k)%nat -> p !! i = Some skip) /\
    (r + 8 * Z.of_nat k < size -> exists b, p !! k = Some b /\ b <> skip) /\
    (k <> 0%nat -> r + 8 * (Z.of_nat k - 1) < size).
Proof.
  revert r. induction p as [| b p IH]; intros r Hr Hs Hmax; cbn [skip_bytes];
    rewrite Z.gtb_ltb; destruct (Z.ltb_spec r size) as [Hlt | Hge].
  - unfold zlen in Hs. cbn in Hs. lia.
  - exists 0%nat. rewrite Z.mul_0_r, Z.add_0_r. split_and!; try done; lia.
  - destruct (Z.eqb_spec b skip) as [-> | Hne].
    + rewrite u32_small by lia. rewrite zlen_cons in Hs.
      destruct (IH (r + 8)) as (k & Hk & -> & Hall & Hstop & Hlast); [lia.. |].
      exists (S k). cbn [length drop]. split_and!.
      * lia.
      * do 2 f_equal. lia.
      * intros [| i] Hi; [done |]. apply Hall. lia.
      * intros Hlt'. apply Hstop. lia.
      * intros _. destruct k; [lia |]. specialize (Hlast ltac:(done)). lia.
    + exists 0%nat. rewrite Z.mul_0_r, Z.add_0_r.
      split_and!; try done; [cbn; lia | lia | naive_solver].
  - exists 0%nat. rewrite Z.mul_0_r, Z.add_0_r. split_and!; try done; cbn; lia.
Qed.

(** Bits of the bytes the loop skipped. *)
Lemma bit_skipped p k skip n :
  (forall i, (i < k)%nat -> p !! i = Some skip) -> 0 <= n < 8 * Z.of_nat k ->
  bit p n = Z.testbit skip (n mod 8).
Proof.
  intros H Hn. unfold bit. rewrite H; [done |].
  assert (n / 8 < Z.of_nat k) by (apply Z.div_lt_upper_bound; lia).
  assert (0 <= n / 8) by (apply Z.div_pos; lia). lia.
Qed.

Lemma bit_at p k b j : p !! k = Some b -> 0 <= j < 8 ->
  bit p (8 * Z.of_nat k + j) = Z.testbit b j.
Proof.
  intros Hb Hj. unfold bit.
  replace (8 * Z.of_nat k + j) with (j + Z.of_nat k * 8) by lia.
  rewrite Z.div_add, Z.mod_add, Z.div_small, Z.mod_small by lia.
  rewrite Z.add_0_l, Nat2Z.id. by rewrite Hb.
Qed.

Lemma head_drop {A} (l : list A) k x : l !! k = Some x -> head (drop k l) = Some x.
Proof. intros H. by rewrite (drop_S l x k H). Qed.

Lemma byte_nonzero_bit b : 0 <= b < 256 -> b <> 0 -> exists j, 0 <= j < 8 /\ Z.testbit b j = true.
Proof.
  intros Hb Hne. assert (0 <= Z.log2 b < 8).
  { split; [apply Z.log2_nonneg |]. apply Z.log2_lt_pow2; change (2 ^ 8) with 256; lia. }
  exists (Z.log2 b). split; [done |]. apply Z.bit_log2. lia.
Qed.

Lemma byte_notfull_bit b : 0 <= b < 256 -> b <> tilde -> exists j, 0 <= j < 8 /\ Z.testbit b j = false.
Proof.
  intros Hb Hne.
  destruct (byte_nonzero_bit (Z.lxor tilde b)) as (j & Hj & T).
  - split; [apply Z.lxor_nonneg; unfold tilde; lia |].
    destruct (Z.eq_dec (Z.lxor tilde b) 0) as [-> | Hnz]; [lia |].
    change 256 with (2 ^ 8). apply Z.log2_lt_pow2.
    { assert (0 <= Z.lxor tilde b) by (apply Z.lxor_nonneg; unfold tilde; lia). lia. }
    eapply Z.le_lt_trans; [apply Z.log2_lxor; unfold tilde; lia |].
    apply Z.max_lub_lt; [done |]. destruct (Z.eq_dec b 0) as [-> | ?]; [done |].
    apply Z.log2_lt_pow2; change (2 ^ 8) with 256; lia.
  - intros E. apply Hne. symmetry. by apply Z.lxor_eq.
  - exists j. split; [done |]. rewrite Z.lxor_spec, tilde_bits in T by lia.
    destruct (Z.ltb_spec j 8); [| lia]. by destruct (Z.testbit b j).
Qed.

(** Two ways of putting searches together: a shifted window, and a window that
    is the prefix of a longer one. *)
Lemma first_from_shift f g c m y :
  (forall j, 0 <= j < m -> f (c + j) = g j) ->
  first_from g 0 m y -> first_from f c (c + m) (c + y).
Proof.
  intros E (H1 & H2 & H3). split; [lia | split].
  - intros n Hn. replace n with (c + (n - c)) by lia. rewrite E by lia. apply H2. lia.
  - intros Hy. rewrite E by lia. apply H3. lia.
Qed.

Lemma first_from_prefix f lo mid hi y :
  mid <= hi -> (y = mid -> mid = hi) -> first_from f lo mid y -> first_from f lo hi y.
Proof.
  intros Hle Hend (H1 & H2 & H3). split; [lia | split; [done |]].
  intros Hy. apply H3. destruct (Z.eq_dec y mid); [specialize (Hend ltac:(done)) |]; lia.
Qed.

(** The byte at bit [r], of which the first [m] bits are below [size]. *)
Definition window (size r : Z) : Z := Z.min 8 (size - r).

Lemma ffs_set size r b : byte_ok b -> b <> 0 -> r < size ->
  let mask := if r + 8 >? size then Z.shiftr tilde (8 - (size - r)) else tilde in
  let d0 := ffs (Z.land b mask) in
  exists y, first_from (Z.testbit b) 0 (window size r) y /\
    (y = window size r -> r + y = size) /\
    (d0 = 0 /\ r + y = size \/ d0 = y + 1).
Proof.
  intros Hb Hnz Hr mask d0. unfold window.
  assert (Hm : forall j, 0 <= j -> Z.testbit (Z.land b mask) j =
            Z.testbit b j && ((j <? 8) && (r + j <? size))).
  { intros j Hj. unfold mask. by rewrite Z.land_spec, tail_mask_bits by lia. }
  assert (Hin : forall j, 0 <= j < Z.min 8 (size - r) ->
            Z.testbit (Z.land b mask) j = Z.testbit b j).
  { intros j Hj. rewrite Hm by lia.
    destruct (Z.ltb_spec j 8), (Z.ltb_spec (r + j) size); try lia. apply andb_true_r. }
  destruct (ffs_spec (Z.land b mask)) as [[E Hz] | (j & E & Hj & T & Hmin)].
  - assert (size <= r + 8 -> r + Z.min 8 (size - r) = size) by lia.
    assert (size <= r + 8).
    { destruct (Z.le_gt_cases size (r + 8)); [done |]. exfalso.
      destruct (byte_nonzero_bit b Hb Hnz) as (j & Hj & T).
      rewrite <- Hin, Hz in T by lia. discriminate. }
    exists (Z.min 8 (size - r)). split; [| split; [lia | left; split; [done | lia]]].
    split; [lia | split; [| lia]]. intros n Hn. rewrite <- Hin by lia. apply Hz. lia.
  - exists j. rewrite Hm in T by lia. apply andb_true_iff in T as [T Hlt].
    apply andb_true_iff in Hlt as [Hj8%Z.ltb_lt Hjs%Z.ltb_lt].
    split; [| split; [lia | by right]].
    split; [lia | split; [| done]]. intros n Hn. rewrite <- Hin by lia. apply Hmin. lia.
Qed.

Lemma ffs_clear size r b : byte_ok b -> b <> tilde -> r < size ->
  let mask := if r + 8 >? size then Z.shiftr tilde (8 - (size - r)) else tilde in
  let d0 := ffs (Z.lnot (Z.land b mask)) in
  exists y, first_from (fun j => negb (Z.testbit b j)) 0 (window size r) y /\
    (y = window size r -> r + y = size) /\ d0 = y + 1.
Proof.
  intros Hb Hnf Hr mask d0. unfold window.
  assert (Hm : forall j, 0 <= j -> Z.testbit (Z.lnot (Z.land b mask)) j =
            negb (Z.testbit b j && ((j <? 8) && (r + j <? size)))).
  { intros j Hj. unfold mask. by rewrite Z.lnot_spec, Z.land_spec, tail_mask_bits by lia. }
  assert (Hin : forall j, 0 <= j < Z.min 8 (size - r) ->
            Z.testbit (Z.lnot (Z.land b mask)) j = negb (Z.testbit b j)).
  { intros j Hj. rewrite Hm by lia.
    destruct (Z.ltb_spec j 8), (Z.ltb_spec (r + j) size); try lia. by rewrite !andb_true_r. }
  assert (Hout : Z.testbit (Z.lnot (Z.land b mask)) (Z.min 8 (size - r)) = true).
  { rewrite Hm by lia.
    destruct (Z.ltb_spec (Z.min 8 (size - r)) 8), (Z.ltb_spec (r + Z.min 8 (size - r)) size);
      try lia; by rewrite andb_comm. }
  destruct (ffs_spec (Z.lnot (Z.land b mask))) as [[E Hz] | (j & E & Hj & T & Hmin)].
  - rewrite Hz in Hout by lia. discriminate.
  - assert (j <= Z.min 8 (size - r)).
    { destruct (Z.le_gt_cases j (Z.min 8 (size - r))); [done |].
      rewrite Hmin in Hout by lia. discriminate. }
    exists j. split; [| split; [| done]].
    + split; [lia | split]; intros; rewrite <- Hin by lia; [apply Hmin; lia | done].
    + intros Ej. destruct (Z.le_gt_cases size (r + 8)); [lia |]. exfalso.
      destruct (byte_notfull_bit b Hb Hnf) as (i & Hi & Ti).
      assert (negb (Z.testbit b i) = false) by (rewrite <- Hin by lia; apply Hmin; lia).
      by rewrite Ti in *.
Qed.

(** From the first byte that the loop does not skip to the whole search. *)
Lemma scan_assemble (f : Z -> bool) (k : nat) r size y :
  (forall n, r <= n < r + 8 * Z.of_nat k -> f n = false) ->
  (forall j, 0 <= j < 8 -> f (r + 8 * Z.of_nat k + j) = y j) ->
  r + 8 * Z.of_nat k < size -> forall x,
  first_from y 0 (window size (r + 8 * Z.of_nat k)) x ->
  (x = window size (r + 8 * Z.of_nat k) -> r + 8 * Z.of_nat k + x = size) ->
  first_from f r size (r + 8 * Z.of_nat k + x).
Proof.
  intros Hskip Hbyte Hlt x Hx Hend. unfold window in *.
  apply (first_from_skip _ _ (r + 8 * Z.of_nat k)); [lia | done |].
  eapply first_from_prefix; [| | apply (first_from_shift _ y); [| exact Hx]].
  - lia.
  - intros. rewrite <- Hend; lia.
  - intros j Hj. apply Hbyte. lia.
Qed.

Lemma scan_set_spec size p r :
  bytes_ok p -> 0 <= r -> 0 <= size < 2 ^ 31 -> size <= r + 8 * zlen p ->
  exists x, scan_set size p r = Ok x /\ (size <= r -> x = size) /\
    (r <= size -> first_from (fun n => bit p (n - r)) r size x).
Proof.
  intros Hok Hr Hs Hlen.
  destruct (skip_bytes_spec 0 size p r) as (k & Hk & E & Hall & Hstop & Hlast); [lia.. |].
  unfold scan_set. rewrite E, bind_Ok, Z.geb_leb.
  assert (Hskip : forall n, r <= n < r + 8 * Z.of_nat k -> bit p (n - r) = false).
  { intros n Hn. rewrite (bit_skipped p k 0) by (done || lia). apply Z.bits_0. }
  destruct (Z.leb_spec size (r + 8 * Z.of_nat k)) as [Hge | Hlt].
  - exists size. split; [done | split; [done |]]. intros Hle.
    split; [lia | split; [intros; apply Hskip; lia | lia]].
  - destruct (Hstop Hlt) as (b & Hb & Hnz). unfold deref.
    rewrite (head_drop _ _ _ Hb). cbn [must]. rewrite bind_Ok.
    destruct (ffs_set size (r + 8 * Z.of_nat k) b) as (y & Hy & Hend & Hd);
      [by eapply bytes_ok_lookup | done.. |].
    exists (r + 8 * Z.of_nat k + y). split; [| split].
    + cbv zeta. destruct Hd as [[-> ->] | ->]; [done |].
      destruct (Z.eqb_spec (y + 1) 0); [destruct Hy; lia |]. unfold mret, res_ret. f_equal. lia.
    + lia.
    + intros _. eapply (scan_assemble _ k _ _ (Z.testbit b)); try done.
      intros j Hj. rewrite <- (bit_at p k b) by done. f_equal. lia.
Qed.

Lemma scan_clear_spec size p r :
  bytes_ok p -> 0 <= r -> 0 <= size < 2 ^ 31 -> size <= r + 8 * zlen p ->
  exists x, scan_clear size p r = Ok x /\ (size <= r -> x = size) /\
    (r <= size -> first_from (fun n => negb (bit p (n - r))) r size x).
Proof.
  intros Hok Hr Hs Hlen.
  destruct (skip_bytes_spec tilde size p r) as (k & Hk & E & Hall & Hstop & Hlast); [lia.. |].
  unfold scan_clear. rewrite E, bind_Ok, Z.geb_leb.
  assert (Hskip : forall n, r <= n < r + 8 * Z.of_nat k -> negb (bit p (n - r)) = false).
  { intros n Hn. pose proof (Z.mod_pos_bound (n - r) 8 ltac:(lia)).
    rewrite (bit_skipped p k tilde), tilde_bits by (done || lia).
    by destruct (Z.ltb_spec ((n - r) mod 8) 8); [| lia]. }
  destruct (Z.leb_spec size (r + 8 * Z.of_nat k)) as [Hge | Hlt].
  - exists size. split; [done | split; [done |]]. intros Hle.
    split; [lia | split; [intros; apply Hskip; lia | lia]].
  - destruct (Hstop Hlt) as (b & Hb & Hnz). unfold deref.
    rewrite (head_drop _ _ _ Hb). cbn [must]. rewrite bind_Ok.
    destruct (ffs_clear size (r + 8 * Z.of_nat k) b) as (y & Hy & Hend & Hd);
      [by eapply bytes_ok_lookup | done.. |].
    exists (r + 8 * Z.of_nat k + y). split; [| split].
    + cbv zeta. rewrite Hd.
      destruct (Z.eqb_spec (y + 1) 0); [destruct Hy; lia |]. unfold mret, res_ret. f_equal. lia.
    + lia.
    + intros _. eapply (scan_assemble _ k _ _ (fun j => negb (Z.testbit b j))); try done.
      intros j Hj. rewrite <- (bit_at p k b) by done. do 2 f_equal. lia.
Qed.

(** The search of an unaligned start within its own byte. *)
Lemma ffs_head (g : Z -> bool) x m : 0 <= m < 8 ->
  (forall j, 0 <= j -> Z.testbit x j = (m <=? j) && (j <? 8) && g j) ->
  (ffs x = 0 /\ forall j, m <= j < 8 -> g j = false) \/
  (exists j, ffs x = j + 1 /\ m <= j < 8 /\ g j = true /\
     forall i, m <= i < j -> g i = false).
Proof.
  intros Hm Hx.
  assert (Hin : forall j, m <= j < 8 -> Z.testbit x j = g j).
  { intros j Hj. rewrite Hx by lia.
    destruct (Z.leb_spec m j), (Z.ltb_spec j 8); lia || done. }
  destruct (ffs_spec x) as [[-> Hz] | (j & -> & Hj & T & Hmin)].
  - left. split; [done |]. intros j Hj. rewrite <- Hin by lia. apply Hz. lia.
  - right. exists j. rewrite Hx in T by lia. rewrite !andb_true_iff, Z.leb_le, Z.ltb_lt in T.
    split; [done |]. split; [lia |]. split; [apply T |].
    intros i Hi. rewrite <- Hin by lia. apply Hmin. lia.
Qed.

(** What an unaligned start gives, from the search of its byte and the scan
    from the next one. *)
Lemma unaligned_assemble (f : Z -> bool) base m size x :
  0 <= m < 8 -> base + m <= size ->
  (forall j, m <= j < 8 -> f (base + j) = false) ->
  (size <= base + 8 -> x = size) ->
  (base + 8 <= size -> first_from f (base + 8) size x) ->
  first_from f (base + m) size x.
Proof.
  intros Hm Hs Hno Hpast Hscan. destruct (Z.le_gt_cases size (base + 8)).
  - rewrite Hpast by done. split; [lia | split; [| lia]].
    intros n Hn. replace n with (base + (n - base)) by lia. apply Hno. lia.
  - apply (first_from_skip _ _ (base + 8)); [lia | | apply Hscan; lia].
    intros n Hn. replace n with (base + (n - base)) by lia. apply Hno. lia.
Qed.

(** Where the byte of an unaligned bit number is. *)
Lemma unaligned_byte (buf : list Z) size offset :
  0 <= offset <= size -> size <= 8 * zlen buf -> offset mod 8 <> 0 ->
  exists b, buf !! Z.to_nat (offset / 8) = Some b /\
    drop (Z.to_nat (offset / 8)) buf = b :: drop (S (Z.to_nat (offset / 8))) buf.
Proof.
  intros Ho Hs Hm. pose proof (Z.div_mod offset 8 ltac:(lia)).
  pose proof (Z.mod_pos_bound offset 8 ltac:(lia)).
  destruct (lookup_in_range buf (offset / 8)) as [b Hb].
  { split; [apply Z.div_pos; lia | lia]. }
  exists b. split; [done |]. by apply drop_S.
Qed.

(** The two searches differ in the bits they look for ([h] is the identity or
    the negation), in the scan and in the expression they give to [ffs] for
    the first byte; the argument is the same. *)
Section Search.
Context (h : bool -> bool) (scan : Z -> list Z -> Z -> res Z) (hd : Z -> Z -> Z).

Definition find_next (addr : list Z) (size offset : Z) : res Z :=
  let bit := Z.land offset 7 in
  if size =? 0 then mret 0 else
  if offset <? 0 then Fault else
  let p := drop (Z.to_nat (Z.shiftr offset 3)) addr in
  let r := u32 (Z.shiftl (Z.shiftr offset 3) 3) in
  if bit =? 0 then scan (u32 size) p r else
  b ← deref p;
  let set := ffs (hd b bit) in
  if set =? 0 then scan (u32 size) (tail p) (u32 (r + 8))
  else mret (Z.land offset (Z.lnot 7) + set - 1).

Hypothesis scan_ok : forall size p r,
  bytes_ok p -> 0 <= r -> 0 <= size < 2 ^ 31 -> size <= r + 8 * zlen p ->
  exists x, scan size p r = Ok x /\ (size <= r -> x = size) /\
    (r <= size -> first_from (fun n => h (bit p (n - r))) r size x).
Hypothesis hd_ok : forall b m j, byte_ok b -> 0 <= m < 8 -> 0 <= j ->
  Z.testbit (hd b m) j = (m <=? j) && (j <? 8) && h (Z.testbit b j).

(** Scanning from the byte [k] of the buffer, in the buffer's bit numbers. *)
Lemma scan_from buf size k :
  bytes_ok buf -> 0 <= size < 2 ^ 31 -> size <= 8 * zlen buf ->
  exists x, scan size (drop k buf) (8 * Z.of_nat k) = Ok x /\
    (size <= 8 * Z.of_nat k -> x = size) /\
    (8 * Z.of_nat k <= size -> first_from (fun n => h (bit buf n)) (8 * Z.of_nat k) size x).
Proof using scan_ok.
  intros Hok Hs Hlen.
  destruct (scan_ok size (drop k buf) (8 * Z.of_nat k)) as (x & -> & Hpast & Hx);
    [auto with bits | lia | lia | rewrite zlen_drop; lia |].
  exists x. split; [done | split; [done |]]. intros Hle.
  eapply first_from_ext; [| by apply Hx]. intros i Hi. cbv beta.
  rewrite bit_drop by lia. do 2 f_equal. lia.
Qed.

Lemma find_next_spec buf size offset :
  bytes_ok buf -> 0 < size < 2 ^ 31 -> 0 <= offset <= size -> size <= 8 * zlen buf ->
  exists x, find_next buf size offset = Ok x /\
    first_from (fun n => h (bit buf n)) offset size (Z.min x size) /\
    (size < x -> h (bit buf x) = true /\ x < 8 * zlen buf /\
       forall n, offset <= n < x -> h (bit buf n) = false).
Proof using scan_ok hd_ok.
  intros Hok Hs Ho Hlen. pose proof (Z.div_mod offset 8 ltac:(lia)) as Hdm.
  pose proof (Z.mod_pos_bound offset 8 ltac:(lia)).
  assert (0 <= offset / 8) by (apply Z.div_pos; lia).
  unfold find_next. rewrite shiftr_3, land_7, shiftl_3, land_not_7. unwrap.
  destruct (Z.eqb_spec size 0); [lia |]. destruct (Z.ltb_spec offset 0); [lia |].
  assert (exists k, offset / 8 = Z.of_nat k) as [k Hk8] by (exists (Z.to_nat (offset / 8)); lia).
  rewrite Hk8 in *. rewrite Nat2Z.id.
  destruct (Z.eqb_spec (offset mod 8) 0) as [Ha | Ha].
  - destruct (scan_from buf size k) as (x & -> & _ & Hx); [done | lia.. |].
    exists x. split; [done |]. replace offset with (8 * Z.of_nat k) by lia.
    specialize (Hx ltac:(lia)). pose proof Hx as [? _].
    split; [by rewrite Z.min_l by lia | lia].
  - destruct (unaligned_byte buf size offset) as (b & Hb & Hdrop); [done.. |].
    rewrite Hk8, Nat2Z.id in Hb, Hdrop. rewrite Hdrop. unfold deref. cbn [head must tail]. rewrite bind_Ok.
    pose proof (bytes_ok_lookup _ _ _ Hok Hb) as Hbr.
    destruct (ffs_head (fun j => h (Z.testbit b j)) (hd b (offset mod 8)) (offset mod 8))
      as [[-> Hno] | (j & -> & Hj & T & Hmin)]; [lia | auto | |].
    + destruct (scan_from buf size (S k)) as (x & E & Hpast & Hx); [done | lia.. |].
      replace (8 * Z.of_nat (S k)) with (8 * Z.of_nat k + 8) in * by lia.
      exists x. split; [exact E |].
      assert (Hf : first_from (fun n => h (bit buf n)) offset size x).
      { rewrite Hdm. apply unaligned_assemble; [lia.. | | done | done].
        intros j Hj. rewrite (bit_at buf k b) by (done || lia). by apply Hno. }
      pose proof Hf as [? _]. split; [by rewrite Z.min_l by lia | lia].
    + exists (8 * Z.of_nat k + j). destruct (Z.eqb_spec (j + 1) 0); [lia |].
      split; [unfold mret, res_ret; f_equal; lia |].
      apply lookup_lt_Some in Hb as Hk. unfold zlen.
      assert (Hno : forall n, offset <= n < 8 * Z.of_nat k + j -> h (bit buf n) = false).
      { intros i Hi. replace i with (8 * Z.of_nat k + (i - 8 * Z.of_nat k)) by lia.
        rewrite (bit_at buf k b) by (done || lia). apply Hmin. lia. }
      rewrite (bit_at buf k b) by (done || lia). split; [| intros; split_and!; [done | lia | done]].
      split; [lia | split].
      * intros i Hi. apply Hno. lia.
      * intros Hlt. rewrite Z.min_l by lia. by rewrite (bit_at buf k b) by (done || lia).
Qed.
End Search.

Lemma find_next_bit_set_spec buf size offset :
  bytes_ok buf -> 0 < size < 2 ^ 31 -> 0 <= offset <= size -> size <= 8 * zlen buf ->
  exists x, ocfs2_find_next_bit_set buf size offset = Ok x /\
    first_from (bit buf) offset size (Z.min x size) /\
    (size < x -> bit buf x = true /\ x < 8 * zlen buf /\
       forall n, offset <= n < x -> bit buf n = false).
Proof.
  apply (find_next_spec id scan_set (fun b m => Z.land b (Z.lnot (Z.shiftl 1 m - 1)))).
  - apply scan_set_spec.
  - intros b m j Hb Hm Hj. rewrite Z.land_spec, Z.lnot_spec, testbit_ones by lia.
    pose proof (byte_bits_high b j Hb).
    destruct (Z.ltb_spec j m), (Z.leb_spec m j), (Z.ltb_spec j 8), (Z.testbit b j); lia || done || naive_solver.
Qed.

Lemma find_next_bit_clear_spec buf size offset :
  bytes_ok buf -> 0 < size < 2 ^ 31 -> 0 <= offset <= size -> size <= 8 * zlen buf ->
  exists x, ocfs2_find_next_bit_clear buf size offset = Ok x /\
    first_from (fun n => negb (bit buf n)) offset size (Z.min x size) /\
    (size < x -> negb (bit buf x) = true /\ x < 8 * zlen buf /\
       forall n, offset <= n < x -> negb (bit buf n) = false).
Proof.
  apply (find_next_spec negb scan_clear
           (fun b m => Z.land (Z.land (Z.lnot b) (Z.lnot (Z.shiftl 1 m - 1))) tilde)).
  - apply scan_clear_spec.
  - intros b m j Hb Hm Hj.
    rewrite !Z.land_spec, !Z.lnot_spec, testbit_ones, tilde_bits by lia.
    destruct (Z.ltb_spec j m), (Z.leb_spec m j); try lia;
      destruct (Z.ltb_spec j 8), (Z.testbit b j); done.
Qed.

(** With no stray bit set past [size] the set search is exact; with no stray
    bit clear between [size] and the end of its last byte, the clear one.  A
    buffer whose spare bits are zero makes both exact. *)
Definition spare_clear (buf : list Z) (size : Z) : Prop :=
  forall n, size <= n < 8 * zlen buf -> bit buf n = false.

Lemma find_next_bit_set_exact buf size offset :
  bytes_ok buf -> 0 < size < 2 ^ 31 -> 0 <= offset <= size -> size <= 8 * zlen buf ->
  spare_clear buf size ->
  exists x, ocfs2_find_next_bit_set buf size offset = Ok x /\
    first_from (bit buf) offset size x.
Proof.
  intros Hok Hs Ho Hlen Hsp.
  destruct (find_next_bit_set_spec buf size offset) as (x & E & Hx & Hgt); [done.. |].
  exists x. split; [done |]. rewrite Z.min_l in Hx; [done |].
  destruct (Z.le_gt_cases x size); [done |].
  destruct Hgt as [T ?]; [lia |]. rewrite Hsp in T by lia. discriminate.
Qed.

Lemma find_next_bit_clear_exact buf size offset :
  bytes_ok buf -> 0 < size < 2 ^ 31 -> 0 <= offset <= size -> size <= 8 * zlen buf ->
  spare_clear buf size ->
  exists x, ocfs2_find_next_bit_clear buf size offset = Ok x /\
    first_from (fun n => negb (bit buf n)) offset size x.
Proof.
  intros Hok Hs Ho Hlen Hsp.
  destruct (find_next_bit_clear_spec buf size offset) as (x & E & Hx & Hgt); [done.. |].
  exists x. split; [done |]. rewrite Z.min_l in Hx; [done |].
  destruct (Z.le_gt_cases x size); [done |].
  destruct Hgt as (_ & ? & Hno); [lia |]. specialize (Hno size ltac:(lia)).
  rewrite Hsp in Hno by lia. discriminate.
Qed.

(** ** Claims *)

(** C27: on a buffer that holds the bit, [ocfs2_set_bit] and [ocfs2_clear_bit]
    return the old value of the bit, change that bit and no other, and
    [ocfs2_test_bit] reads it back. *)
Theorem bit_ops_correct (nr : Z) (buf : list Z) (Hok : bytes_ok buf)
  (Hnr : 0 <= nr < 8 * zlen buf) :
  (exists buf', ocfs2_set_bit nr buf = Ok (bit buf nr, buf') /\ length buf' = length buf /\
     ocfs2_test_bit nr buf' = Ok true /\
     forall n, 0 <= n -> n <> nr -> bit buf' n = bit buf n) /\
  (exists buf', ocfs2_clear_bit nr buf = Ok (bit buf nr, buf') /\ length buf' = length buf /\
     ocfs2_test_bit nr buf' = Ok false /\
     forall n, 0 <= n -> n <> nr -> bit buf' n = bit buf n).
Proof.
  split.
  - destruct (set_bit_spec nr buf Hok Hnr) as (buf' & E & _ & L & B).
    exists buf'. split; [done |]. split; [done |]. split.
    + rewrite test_bit_spec by (unfold zlen in *; lia). by rewrite B, Z.eqb_refl by lia.
    + intros n Hn Hne. rewrite B by done. by destruct (Z.eqb_spec n nr).
  - destruct (clear_bit_spec nr buf Hok Hnr) as (buf' & E & _ & L & B).
    exists buf'. split; [done |]. split; [done |]. split.
    + rewrite test_bit_spec by (unfold zlen in *; lia). by rewrite B, Z.eqb_refl by lia.
    + intros n Hn Hne. rewrite B by done. by destruct (Z.eqb_spec n nr).
Qed.

Lemma bit_ops_correct_witness : exists buf', ocfs2_set_bit 11 [1; 6] = Ok (false, buf') /\
  ocfs2_test_bit 11 buf' = Ok true.
Proof.
  destruct (bit_ops_correct 11 [1; 6]) as [(buf' & H1 & _ & H2 & _) _].
  - repeat constructor; done.
  - done.
  - exists buf'. split; [exact H1 | exact H2].
Defined.

(** C28: when the bits between [size] and the end of the buffer are clear, as
    they are in every bitmap the library allocates, [ocfs2_find_next_bit_set]
    and [ocfs2_find_next_bit_clear] return the first set, respectively clear,
    bit at or after [offset], and [size] exactly when there is none; they never
    read outside the buffer. *)
Theorem find_next_bit_correct (buf : list Z) (size offset : Z) (Hok : bytes_ok buf)
  (Hs : 0 < size < 2 ^ 31) (Ho : 0 <= offset <= size) (Hlen : size <= 8 * zlen buf)
  (Hsp : spare_clear buf size) :
  (exists x, ocfs2_find_next_bit_set buf size offset = Ok x /\
     first_from (bit buf) offset size x) /\
  (exists x, ocfs2_find_next_bit_clear buf size offset = Ok x /\
     first_from (fun n => negb (bit buf n)) offset size x).
Proof. split; [by apply find_next_bit_set_exact | by apply find_next_bit_clear_exact]. Qed.

Lemma find_next_bit_correct_witness :
  first_from (bit [0; 10]) 2 12 9 /\ first_from (fun n => negb (bit [255; 7] n)) 3 12 11.
Proof.
  split.
  - destruct (find_next_bit_correct [0; 10] 12 2) as [(x & E & F) _].
    all: try (repeat constructor; done).
    + intros n Hn. assert (n = 12 \/ n = 13 \/ n = 14 \/ n = 15) as Hc by (unfold zlen in Hn; cbn [length] in Hn; lia).
      by destruct Hc as [-> | [-> | [-> | ->]]].
    + vm_compute in E. injection E as <-. exact F.
  - destruct (find_next_bit_correct [255; 7] 12 3) as [_ (x & E & F)].
    all: try (repeat constructor; done).
    + intros n Hn. assert (n = 12 \/ n = 13 \/ n = 14 \/ n = 15) as Hc by (unfold zlen in Hn; cbn [length] in Hn; lia).
      by destruct Hc as [-> | [-> | [-> | ->]]].
    + vm_compute in E. injection E as <-. exact F.
Defined.

(** Without that condition the searches stray.  From a start that is not
    at a byte boundary they do not mask the first byte with [size], so a set
    bit past [size] in that byte is returned although the caller compares the
    result with [size] only for equality: here bit 12 for a search of 10 bits
    from bit 9. *)
Theorem find_next_bit_set_ignores_size :
  ocfs2_find_next_bit_set [0; 16] 10 9 = Ok 12 /\
  ocfs2_find_next_bit_set [0; 16] 10 8 = Ok 10.
Proof. split; reflexivity. Qed.
