(* ===== verification/Hamming.v ===== *)
(** The Hamming code of [libocfs2/blockcheck.c]: code bit numbers, the encoder,
    the corrector, and the slow encoder the authors keep as their reference.

    Unsigned arithmetic is kept at 32 bits ([u32]); a shift by 32 or more and a
    call of [abort()] are [Fault]s. *)

From S2P Require Import Prelude Bitops.

(** ** The code *)

Definition hc_hweight32 (w : Z) : Z :=
  let r := u32 (Z.land w 0x55555555 + Z.land (Z.shiftr w 1) 0x55555555) in
  let r := u32 (Z.land r 0x33333333 + Z.land (Z.shiftr r 2) 0x33333333) in
  let r := u32 (Z.land r 0x0F0F0F0F + Z.land (Z.shiftr r 4) 0x0F0F0F0F) in
  let r := u32 (Z.land r 0x00FF00FF + Z.land (Z.shiftr r 8) 0x00FF00FF) in
  u32 (Z.land r 0x0000FFFF + Z.land (Z.shiftr r 16) 0x0000FFFF).

(** [for (; (1 << p) < (b + 1); p++) b++;] *)
Fixpoint code_bit_loop (fuel : nat) (p b : Z) : res (Z * Z) :=
  match fuel with
  | O => Fault
  | S fuel =>
      if 32 <=? p then Fault else
      if u32 (Z.shiftl 1 p) <? u32 (b + 1)
      then code_bit_loop fuel (p + 1) (u32 (b + 1))
      else Ok (b, p)
  end.

(** Returns the code bit and the new value of the cache.  The loop ends with
    [p <= 32], so 33 rounds are enough. *)
Definition calc_code_bit (i : Z) (p_cache : option Z) : res (Z * Z) :=
  let b := u32 (i + 1) in
  let p := default 0 p_cache in
  let b := u32 (b + p) in
  code_bit_loop 33 p b.

Fixpoint hamming_encode_loop (fuel : nat) (data : list Z) (d nr i p parity : Z) : res Z :=
  match fuel with
  | O => Fault
  | S fuel =>
      i ← ocfs2_find_next_bit_set data d i;
      if i <? d then
        '(b, p) ← calc_code_bit (u32 (nr + i)) (Some p);
        hamming_encode_loop fuel data d nr (u32 (i + 1)) p (Z.lxor parity b)
      else mret parity
  end.

(** The loop finds a further bit each round, so [d + 1] rounds are enough. *)
Definition ocfs2_hamming_encode (parity : Z) (data : list Z) (d nr : Z) : res Z :=
  if d =? 0 then Fault else hamming_encode_loop (S (Z.to_nat d)) data d nr 0 0 parity.

Definition ocfs2_hamming_encode_block (data : list Z) (blocksize : Z) : res Z :=
  ocfs2_hamming_encode 0 data (u32 (blocksize * 8)) 0.

(** [while (hc_hweight32(b) == 1) b++;] *)
Fixpoint skip_parity_bits (fuel : nat) (b : Z) : res Z :=
  match fuel with
  | O => Fault
  | S fuel => if hc_hweight32 b =? 1 then skip_parity_bits fuel (u32 (b + 1)) else Ok b
  end.

Fixpoint hamming_fix_loop (fuel : nat) (data : list Z) (d fix_ i b : Z) : res (list Z) :=
  match fuel with
  | O => Fault
  | S fuel =>
      if i <? d then
        b ← skip_parity_bits 4 b;
        if b =? fix_ then
          t ← ocfs2_test_bit i data;
          if (t : bool) then '(_, data) ← ocfs2_clear_bit i data; mret data
          else '(_, data) ← ocfs2_set_bit i data; mret data
        else hamming_fix_loop fuel data d fix_ (u32 (i + 1)) (u32 (b + 1))
      else mret data
  end.

Definition ocfs2_hamming_fix (data : list Z) (d nr fix_ : Z) : res (list Z) :=
  if d =? 0 then Fault else
  if hc_hweight32 fix_ =? 1 then mret data else
  '(past, _) ← calc_code_bit (u32 (nr + d)) None;
  if past <=? fix_ then mret data else
  '(b, _) ← calc_code_bit nr None;
  if fix_ <? b then mret data else
  hamming_fix_loop (S (Z.to_nat d)) data d fix_ 0 b.

Definition ocfs2_hamming_fix_block (data : list Z) (blocksize fix_ : Z) : res (list Z) :=
  ocfs2_hamming_fix data (u32 (blocksize * 8)) 0 fix_.

(** *** The authors' reference version (the [DEBUG_EXE] part of the file) *)

Fixpoint parity_bits_loop (fuel : nat) (p d : Z) : Z :=
  match fuel with
  | O => 0
  | S fuel =>
      if p <? 32 then
        if u32 (d + p + 1) <=? u32 (Z.shiftl 1 p) then p else parity_bits_loop fuel (p + 1) d
      else 0
  end.

Definition calc_parity_bits_orig (d : Z) : Z := parity_bits_loop 32 1 d.

Definition calc_code_bit_orig (i : Z) : res Z :=
  '(b, _) ← code_bit_loop 33 0 (u32 (i + 1));
  mret b.

(** [for (j = 0; j < p; j++) if (b & (1 << j)) parity ^= (1 << j);] *)
Fixpoint parity_xor_loop (n : nat) (j b parity : Z) : Z :=
  match n with
  | O => parity
  | S n =>
      let parity := if Z.land b (Z.shiftl 1 j) =? 0 then parity
                    else Z.lxor parity (Z.shiftl 1 j) in
      parity_xor_loop n (j + 1) b parity
  end.

Fixpoint hamming_encode_orig_loop (fuel : nat) (data : list Z) (p d nr i parity : Z) : res Z :=
  match fuel with
  | O => Fault
  | S fuel =>
      i ← ocfs2_find_next_bit_set data d i;
      if i <? d then
        b ← calc_code_bit_orig (u32 (nr + i));
        hamming_encode_orig_loop fuel data p d nr (u32 (i + 1))
          (parity_xor_loop (Z.to_nat p) 0 b parity)
      else mret parity
  end.

Definition hamming_encode_orig (parity : Z) (data : list Z) (d nr : Z) : res Z :=
  let p := calc_parity_bits_orig d in
  if p =? 0 then Fault else
  hamming_encode_orig_loop (S (Z.to_nat d)) data p d nr 0 parity.

(** ** Hamming weight *)

(** The number of set bits among the low [n]. *)
Fixpoint popcount (n : nat) (w : Z) : Z :=
  match n with
  | O => 0
  | S n => popcount n w + Z.b2z (Z.testbit w (Z.of_nat n))
  end.

Lemma popcount_ext n w w' :
  (forall i, 0 <= i < Z.of_nat n -> Z.testbit w i = Z.testbit w' i) ->
  popcount n w = popcount n w'.
Proof.
  induction n as [| n IH]; intros E; cbn [popcount]; [done |].
  rewrite IH, E by (lia || (intros; apply E; lia)). done.
Qed.

Lemma popcount_app m n w :
  popcount (m + n) w = popcount m w + popcount n (Z.shiftr w (Z.of_nat m)).
Proof.
  induction n as [| n IH]; [rewrite Nat.add_0_r; cbn; lia |].
  rewrite Nat.add_succ_r. cbn [popcount]. rewrite IH, Z.shiftr_spec by lia.
  rewrite Nat2Z.inj_add. rewrite (Z.add_comm (Z.of_nat m)). lia.
Qed.

Lemma popcount_range n w : 0 <= popcount n w <= Z.of_nat n.
Proof.
  induction n as [| n IH]; cbn [popcount]; [lia |].
  destruct (Z.testbit w (Z.of_nat n)); cbn; lia.
Qed.

Lemma popcount_0 n w : popcount n w = 0 -> forall i, 0 <= i < Z.of_nat n -> Z.testbit w i = false.
Proof.
  induction n as [| n IH]; cbn [popcount]; intros E i Hi; [lia |].
  pose proof (popcount_range n w). destruct (Z.testbit w (Z.of_nat n)) eqn:T; cbn in E; [lia |].
  destruct (Z.eq_dec i (Z.of_nat n)); subst; [done |]. apply IH; lia.
Qed.

Lemma popcount_pow2 n k : popcount n (2 ^ Z.of_nat k) = if (k <? n)%nat then 1 else 0.
Proof.
  induction n as [| n IH]; [done |]. cbn [popcount]. rewrite IH, Z.pow2_bits_eqb by lia.
  destruct (Nat.ltb_spec k n), (Nat.ltb_spec k (S n)), (Z.eqb_spec (Z.of_nat k) (Z.of_nat n));
    cbn; lia.
Qed.

(** A value of [n] bits has weight one exactly when it is a power of two. *)
Lemma popcount_1 n w : 0 <= w < 2 ^ Z.of_nat n ->
  popcount n w = 1 <-> exists k, 0 <= k < Z.of_nat n /\ w = 2 ^ k.
Proof.
  intros Hw. split.
  - revert w Hw. induction n as [| n IH]; intros w Hw; cbn [popcount]; [lia |].
    rewrite Nat2Z.inj_succ, Z.pow_succ_r in Hw by lia.
    destruct (Z.testbit w (Z.of_nat n)) eqn:T; cbn.
    + intros E. exists (Z.of_nat n). split; [lia |].
      apply Z.bits_inj'. intros i Hi. rewrite Z.pow2_bits_eqb by lia.
      destruct (Z.eqb_spec (Z.of_nat n) i); subst; [done |].
      destruct (Z.lt_ge_cases i (Z.of_nat n)).
      * apply (popcount_0 n); lia.
      * destruct (Z.eq_dec w 0) as [-> |]; [apply Z.bits_0 |].
        apply Z.bits_above_log2; [lia |].
        apply Z.log2_lt_pow2; [lia |].
        assert (2 ^ (Z.of_nat n + 1) <= 2 ^ i) by (apply Z.pow_le_mono_r; lia).
        rewrite Z.pow_add_r in * by lia. lia.
    + intros E. destruct (IH w) as (k & Hk & ->); [| lia | exists k; split; [lia | done]].
      split; [lia |]. destruct (Z.lt_ge_cases w (2 ^ Z.of_nat n)) as [| Hge]; [done |].
      assert (Z.testbit w (Z.of_nat n) = true); [| congruence].
      rewrite Z.testbit_true by lia.
      replace (w / 2 ^ Z.of_nat n) with 1; [done |].
      apply (Z.div_unique _ _ _ (w - 2 ^ Z.of_nat n)); lia.
  - intros (k & Hk & ->). replace k with (Z.of_nat (Z.to_nat k)) by lia.
    rewrite popcount_pow2. destruct (Nat.ltb_spec (Z.to_nat k) n); lia.
Qed.

Lemma land_byte_range a c : byte_ok c -> byte_ok (Z.land a c).
Proof.
  intros Hc. assert (E : Z.land a c = u8 (Z.land a c)); [| rewrite E; apply u8_range].
  apply Z.bits_inj'. intros n Hn. rewrite testbit_u8, Z.land_spec by done.
  destruct (Z.ltb_spec n 8); [done |]. by rewrite (byte_bits_high c), andb_false_r.
Qed.

Lemma land_shiftr_cat a b c d s : byte_ok a -> byte_ok c -> 0 <= s -> c < 2 ^ (8 - s) ->
  Z.land (Z.shiftr (cat a b) s) (cat c d) =
  cat (Z.land (Z.shiftr a s) c) (Z.land (Z.shiftr b s) d).
Proof.
  intros Ha Hc Hs Hcs. apply Z.bits_inj'. intros n Hn.
  rewrite testbit_cat, !Z.land_spec, !Z.shiftr_spec, !testbit_cat
    by (lia || done || by apply land_byte_range).
  destruct (Z.ltb_spec n 8).
  - destruct (Z.ltb_spec (n + s) 8); [done |].
    assert (E : Z.testbit c n = false); [| by rewrite E, !andb_false_r].
    destruct (Z.eq_dec c 0) as [-> |]; [apply Z.bits_0 |].
    apply Z.bits_above_log2; [apply Hc |]. apply Z.log2_lt_pow2; [unfold byte_ok in Hc; lia |].
    eapply Z.lt_le_trans; [done |]. apply Z.pow_le_mono_r; lia.
  - destruct (Z.ltb_spec (n + s) 8); [lia |].
    rewrite Z.shiftr_spec by lia. do 2 f_equal. lia.
Qed.

(** One step of the parallel sum works byte by byte. *)
Definition sum_step (m s w : Z) : Z := Z.land w m + Z.land (Z.shiftr w s) m.

Lemma sum_step_word m s l : byte_ok m -> 0 <= s -> m < 2 ^ (8 - s) ->
  Forall (fun b => byte_ok b /\ byte_ok (sum_step m s b)) l ->
  sum_step (word (replicate (length l) m)) s (word l) = word (map (sum_step m s) l).
Proof.
  intros Hm Hs Hms. induction 1 as [| b l [Hb Hsum] _ IH].
  - cbn. unfold sum_step. by rewrite Z.shiftr_0_l.
  - cbn [length replicate word foldr map]. fold (word l). fold (word (map (sum_step m s) l)).
    fold (word (replicate (length l) m)). rewrite (cat_add (sum_step m s b)) by done.
    rewrite <- IH. unfold sum_step at 1 2 3.
    rewrite <- (Z.shiftr_0_r (cat b _)) at 1.
    rewrite !land_shiftr_cat, !Z.shiftr_0_r by (done || (rewrite Z.sub_0_r; apply Hm)).
    rewrite !cat_add by (by apply land_byte_range). ring.
Qed.

Definition byte_weight (b : Z) : Z := sum_step 0x0F 4 (sum_step 0x33 2 (sum_step 0x55 1 b)).

Definition all_bytes : list Z := seqZ 0 256.

Lemma all_bytes_spec (P : Z -> bool) :
  forallb P all_bytes = true -> forall b, byte_ok b -> P b = true.
Proof.
  rewrite forallb_forall. intros H b Hb. apply H, list_elem_of_In, elem_of_seqZ.
  unfold byte_ok in Hb. lia.
Qed.

Definition byte_range (z : Z) : bool := (0 <=? z) && (z <? 256).

Lemma byte_range_spec z : byte_range z = true -> byte_ok z.
Proof. unfold byte_range, byte_ok. rewrite andb_true_iff, Z.leb_le, Z.ltb_lt. done. Qed.

(** The three byte-wise steps, checked on every byte. *)
Lemma byte_weight_spec b : byte_ok b ->
  byte_ok (sum_step 0x55 1 b) /\ byte_ok (sum_step 0x33 2 (sum_step 0x55 1 b)) /\
  byte_weight b = popcount 8 b.
Proof.
  intros Hb.
  pose proof (all_bytes_spec (fun b => byte_range (sum_step 0x55 1 b) &&
    byte_range (sum_step 0x33 2 (sum_step 0x55 1 b)) && (byte_weight b =? popcount 8 b))) as H.
  specialize (H ltac:(by vm_compute) b Hb).
  apply andb_true_iff in H as [[H1 H2]%andb_true_iff H3].
  split_and!; [by apply byte_range_spec.. | by apply Z.eqb_eq].
Qed.

Definition weights : list Z := seqZ 0 9.

Lemma forallb_weights (P : Z -> bool) h :
  0 <= h <= 8 -> forallb P weights = true -> P h = true.
Proof.
  intros Hh H. rewrite forallb_forall in H. apply H, list_elem_of_In, elem_of_seqZ. lia.
Qed.

(** The last two steps, checked on every four weights of a byte. *)
Lemma last_steps h0 h1 h2 h3 :
  0 <= h0 <= 8 -> 0 <= h1 <= 8 -> 0 <= h2 <= 8 -> 0 <= h3 <= 8 ->
  (let r := u32 (sum_step 0x00FF00FF 8 (u32 (word [h0; h1; h2; h3]))) in
   u32 (sum_step 0x0000FFFF 16 r)) = h0 + h1 + h2 + h3.
Proof.
  intros. assert (Hc : forallb (fun h0 => forallb (fun h1 => forallb (fun h2 => forallb (fun h3 =>
     (let r := u32 (sum_step 0x00FF00FF 8 (u32 (word [h0; h1; h2; h3]))) in
      u32 (sum_step 0x0000FFFF 16 r)) =? h0 + h1 + h2 + h3) weights) weights) weights) weights = true)
    by (by vm_compute).
  apply (forallb_weights _ h0), (forallb_weights _ h1), (forallb_weights _ h2),
    (forallb_weights _ h3) in Hc; [| done..]. by apply Z.eqb_eq in Hc.
Qed.

Lemma word4 w : 0 <= w < 2 ^ 32 -> exists b0 b1 b2 b3,
  byte_ok b0 /\ byte_ok b1 /\ byte_ok b2 /\ byte_ok b3 /\ w = word [b0; b1; b2; b3].
Proof.
  intros Hw. exists (w mod 256), (w / 256 mod 256), (w / 256 / 256 mod 256),
    (w / 256 / 256 / 256 mod 256).
  split_and!; try (apply Z.mod_pos_bound; lia). cbn [word foldr].
  assert (E : cat (w / 256 / 256 / 256 mod 256) 0 = w / 256 / 256 / 256).
  { rewrite cat_add by (apply Z.mod_pos_bound; lia). rewrite !Z.div_div by lia.
    rewrite Z.mod_small; [lia |]. split; [apply Z.div_pos; lia |].
    apply Z.div_lt_upper_bound; lia. }
  by rewrite E, !word_split.
Qed.

Lemma popcount_word b0 b1 b2 b3 : byte_ok b0 -> byte_ok b1 -> byte_ok b2 -> byte_ok b3 ->
  popcount 32 (word [b0; b1; b2; b3]) = popcount 8 b0 + popcount 8 b1 + popcount 8 b2 + popcount 8 b3.
Proof.
  assert (H : forall n a b, byte_ok a -> popcount (8 + n) (cat a b) = popcount 8 a + popcount n b).
  { intros n a b Ha. rewrite popcount_app. f_equal.
    - apply popcount_ext. intros i Hi. rewrite testbit_cat by (done || lia).
      destruct (Z.ltb_spec i 8); [done | lia].
    - apply popcount_ext. intros i Hi. rewrite Z.shiftr_spec, testbit_cat by (done || lia).
      destruct (Z.ltb_spec (i + Z.of_nat 8) 8); [lia |]. f_equal. lia. }
  intros H0 H1 H2 H3. cbn [word foldr].
  rewrite (H 24%nat), (H 16%nat), (H 8%nat), (H 0%nat) by done. cbn. lia.
Qed.

Lemma u32_word4 b0 b1 b2 b3 : byte_ok b0 -> byte_ok b1 -> byte_ok b2 -> byte_ok b3 ->
  u32 (word [b0; b1; b2; b3]) = word [b0; b1; b2; b3].
Proof.
  intros. apply u32_small. cbn [word foldr]. rewrite !cat_add by done. unfold byte_ok in *. lia.
Qed.

(** The first three steps as byte-wise steps. *)
Lemma hweight32_steps w :
  hc_hweight32 w =
  u32 (sum_step 0x0000FFFF 16 (u32 (sum_step 0x00FF00FF 8
    (u32 (sum_step (word (replicate 4 0x0F)) 4
    (u32 (sum_step (word (replicate 4 0x33)) 2
    (u32 (sum_step (word (replicate 4 0x55)) 1 w))))))))).
Proof. reflexivity. Qed.

Lemma word_step4 m s b0 b1 b2 b3 : byte_ok m -> 0 <= s -> m < 2 ^ (8 - s) ->
  byte_ok b0 -> byte_ok b1 -> byte_ok b2 -> byte_ok b3 ->
  byte_ok (sum_step m s b0) -> byte_ok (sum_step m s b1) ->
  byte_ok (sum_step m s b2) -> byte_ok (sum_step m s b3) ->
  u32 (sum_step (word (replicate 4 m)) s (word [b0; b1; b2; b3])) =
  word [sum_step m s b0; sum_step m s b1; sum_step m s b2; sum_step m s b3].
Proof.
  intros. pose proof (sum_step_word m s [b0; b1; b2; b3]) as E. cbn [length] in E.
  rewrite E; [by apply u32_word4 | done.. |].
  repeat (apply Forall_cons_2; [done |]). apply Forall_nil_2.
Qed.

Lemma byte_weight_range b : byte_ok b -> 0 <= byte_weight b <= 8 /\ byte_ok (byte_weight b).
Proof.
  intros Hb. destruct (byte_weight_spec b Hb) as (_ & _ & ->).
  pose proof (popcount_range 8 b). unfold byte_ok. lia.
Qed.

(** The parallel sum computes the number of set bits of a 32-bit word. *)
Lemma hweight32_popcount w : 0 <= w < 2 ^ 32 -> hc_hweight32 w = popcount 32 w.
Proof.
  intros Hw. destruct (word4 w Hw) as (b0 & b1 & b2 & b3 & H0 & H1 & H2 & H3 & ->).
  rewrite popcount_word by done.
  destruct (byte_weight_spec b0 H0) as (? & ? & <-), (byte_weight_spec b1 H1) as (? & ? & <-),
    (byte_weight_spec b2 H2) as (? & ? & <-), (byte_weight_spec b3 H3) as (? & ? & <-).
  destruct (byte_weight_range b0 H0), (byte_weight_range b1 H1),
    (byte_weight_range b2 H2), (byte_weight_range b3 H3).
  rewrite hweight32_steps, !word_step4 by (done || unfold byte_ok; lia).
  rewrite <- last_steps by done. cbv zeta. by rewrite (u32_word4 (byte_weight b0)) by done.
Qed.

Lemma hweight32_1 w : 0 <= w < 2 ^ 32 -> hc_hweight32 w = 1 <-> exists k, 0 <= k < 32 /\ w = 2 ^ k.
Proof. intros Hw. rewrite hweight32_popcount by done. by apply (popcount_1 32). Qed.

(** ** Code bit numbers

    Data bit [i] sits at code bit [i + 1 + p] where [p] is the number of
    powers of two (parity bits) below it. *)

Definition is_parity (i p : Z) : Prop :=
  0 <= p /\ i + 1 + p < 2 ^ p /\ forall q, 0 <= q < p -> 2 ^ q <= i + 1 + q.

Fixpoint parity_from (n : nat) (p i : Z) : Z :=
  match n with
  | O => p
  | S n => if 2 ^ p <=? i + 1 + p then parity_from n (p + 1) i else p
  end.

Definition parity_before (i : Z) : Z := parity_from 32 0 i.
Definition code_bit (i : Z) : Z := i + 1 + parity_before i.

(** The data bits whose code bits fit 31 bits; a block has at most 2^15. *)
Definition data_bit (i : Z) : Prop := 0 <= i < 2 ^ 30.

Lemma is_parity_unique i p q : is_parity i p -> is_parity i q -> p = q.
Proof.
  intros (Hp & Lp & Mp) (Hq & Lq & Mq). destruct (Z.lt_trichotomy p q) as [H | [H | H]]; [| done |].
  - specialize (Mq p ltac:(lia)). lia.
  - specialize (Mp q ltac:(lia)). lia.
Qed.

Lemma is_parity_mono i j p q : i <= j -> is_parity i p -> is_parity j q -> p <= q.
Proof.
  intros Hij (Hp & Lp & Mp) (Hq & Lq & Mq). destruct (Z.le_gt_cases p q); [done |].
  specialize (Mp q ltac:(lia)). lia.
Qed.

Lemma parity_from_spec n p i : data_bit i -> 0 <= p -> 31 <= p + Z.of_nat n ->
  p <= 31 -> (forall q, 0 <= q < p -> 2 ^ q <= i + 1 + q) ->
  is_parity i (parity_from n p i) /\ parity_from n p i <= 31.
Proof.
  unfold data_bit. revert p. induction n as [| n IH]; intros p Hi Hp Hn Hp31 Hq; cbn [parity_from].
  - replace p with 31 in * by lia. split; [| lia]. split; [lia | split; [lia | done]].
  - destruct (Z.leb_spec (2 ^ p) (i + 1 + p)); [| by repeat split].
    assert (p < 31).
    { destruct (Z.eq_dec p 31) as [-> |]; lia. }
    apply IH; [done | lia.. |]. intros q Hq'. destruct (Z.eq_dec q p) as [-> |]; [done |].
    apply Hq. lia.
Qed.

Lemma parity_before_spec i : data_bit i ->
  is_parity i (parity_before i) /\ parity_before i <= 31.
Proof. intros Hi. apply parity_from_spec; [done | lia.. |]. intros; lia. Qed.

Lemma code_bit_loop_spec fuel p i : data_bit i -> 0 <= p ->
  32 <= p + Z.of_nat fuel -> p <= 31 -> (forall q, 0 <= q < p -> 2 ^ q <= i + 1 + q) ->
  code_bit_loop fuel p (i + 1 + p) = Ok (code_bit i, parity_before i).
Proof.
  intros Hi. pose proof (parity_before_spec i Hi) as [Hpar Hp31]. unfold data_bit in Hi.
  revert p. induction fuel as [| fuel IH]; intros p Hp Hf Hp' Hq; [lia |].
  cbn [code_bit_loop]. destruct (Z.leb_spec 32 p); [lia |].
  assert (2 ^ p <= 2 ^ 31) by (apply Z.pow_le_mono_r; lia).
  assert (0 < 2 ^ p) by (apply Z.pow_pos_nonneg; lia).
  rewrite Z.shiftl_1_l. unwrap. destruct (Z.ltb_spec (2 ^ p) (i + 1 + p + 1)).
  - replace (i + 1 + p + 1) with (i + 1 + (p + 1)) by lia.
    assert (p < 31) by (destruct (Z.eq_dec p 31) as [-> |]; lia).
    apply IH; [lia.. |]. intros q Hq'. destruct (Z.eq_dec q p) as [-> |]; [lia |].
    apply Hq. lia.
  - assert (p = parity_before i) as ->; [| done].
    apply (is_parity_unique i); [| done]. split; [lia | split; [lia | done]].
Qed.

(** A value the cache may hold when the code bit of [i] is computed. *)
Definition cache_ok (i c : Z) : Prop :=
  0 <= c <= 31 /\ forall q, 0 <= q < c -> 2 ^ q <= i + 1 + q.

Lemma cache_ok_0 i : cache_ok i 0.
Proof. split; intros; lia. Qed.

Lemma cache_ok_prev i j : data_bit j -> j <= i -> cache_ok i (parity_before j).
Proof.
  intros Hj Hji. destruct (parity_before_spec j Hj) as [(? & ? & Hq) ?]. split; [lia |].
  intros q Hq'. specialize (Hq q Hq'). lia.
Qed.

(** With no cache, or a cache left by an earlier data bit, the loop gives the
    code bit and leaves the number of parity bits below it in the cache. *)
Lemma calc_code_bit_spec i c : data_bit i -> cache_ok i (default 0 c) ->
  calc_code_bit i c = Ok (code_bit i, parity_before i).
Proof.
  intros Hi [Hd Hq]. unfold calc_code_bit. unfold data_bit in Hi. unwrap.
  apply code_bit_loop_spec; [done | lia.. | done].
Qed.

Lemma code_bit_mono i j : data_bit i -> data_bit j -> i < j -> code_bit i < code_bit j.
Proof.
  intros Hi Hj Hij. destruct (parity_before_spec i Hi) as [Pi _].
  destruct (parity_before_spec j Hj) as [Pj _].
  pose proof (is_parity_mono i j _ _ ltac:(lia) Pi Pj). unfold code_bit. lia.
Qed.

Lemma code_bit_inj i j : data_bit i -> data_bit j -> code_bit i = code_bit j -> i = j.
Proof.
  intros Hi Hj E. destruct (Z.lt_trichotomy i j) as [H | [H | H]]; [| done |].
  - pose proof (code_bit_mono i j Hi Hj H). lia.
  - pose proof (code_bit_mono j i Hj Hi H). lia.
Qed.

(** A code bit lies strictly between two consecutive powers of two. *)
Lemma code_bit_between i : data_bit i -> exists p, 1 <= p <= 31 /\
  p = parity_before i /\ 2 ^ (p - 1) < code_bit i < 2 ^ p.
Proof.
  intros Hi. destruct (parity_before_spec i Hi) as [(Hp & Hlt & Hq) H31].
  exists (parity_before i). unfold data_bit, code_bit in *.
  assert (parity_before i <> 0) by (intros E; rewrite E in Hlt; cbn in Hlt; lia).
  specialize (Hq (parity_before i - 1) ltac:(lia)). split_and!; lia || done.
Qed.

Lemma between_not_pow2 b p : 1 <= p -> 2 ^ (p - 1) < b < 2 ^ p -> forall k, 0 <= k -> b <> 2 ^ k.
Proof.
  intros Hp [H1 H2] k Hk ->. 
  rewrite <- Z.pow_lt_mono_r_iff in H1, H2 by lia. lia.
Qed.

Lemma code_bit_range i : data_bit i -> 0 < code_bit i < 2 ^ 31.
Proof.
  intros Hi. destruct (code_bit_between i Hi) as (p & Hp & _ & Hb).
  assert (2 ^ p <= 2 ^ 31) by (apply Z.pow_le_mono_r; lia).
  assert (0 < 2 ^ (p - 1)) by (apply Z.pow_pos_nonneg; lia). lia.
Qed.

Lemma code_bit_hweight i : data_bit i -> hc_hweight32 (code_bit i) <> 1.
Proof.
  intros Hi E. pose proof (code_bit_range i Hi). apply hweight32_1 in E as (k & Hk & E); [| lia].
  destruct (code_bit_between i Hi) as (p & Hp & _ & Hb).
  apply (between_not_pow2 _ p ltac:(lia) Hb k); [lia | done].
Qed.

Lemma pow2_hweight k : 0 <= k < 32 -> hc_hweight32 (2 ^ k) = 1.
Proof.
  intros Hk. apply hweight32_1; [| eauto]. split; [apply Z.pow_nonneg; lia |].
  apply Z.pow_lt_mono_r; lia.
Qed.

(** The next code bit is the next number that is not a power of two. *)
Lemma code_bit_succ i : data_bit i -> data_bit (i + 1) ->
  (code_bit (i + 1) = code_bit i + 1) \/
  (code_bit (i + 1) = code_bit i + 2 /\ exists k, 0 <= k < 31 /\ code_bit i + 1 = 2 ^ k).
Proof.
  intros Hi Hi'. destruct (parity_before_spec i Hi) as [Pi H31].
  destruct (parity_before_spec (i + 1) Hi') as [Pi' _]. pose proof Pi as (Hp & Hlt & Hq).
  unfold code_bit. pose proof (code_bit_between i Hi) as (? & ? & -> & _).
  destruct (Z.eq_dec (i + 1 + parity_before i + 1) (2 ^ parity_before i)) as [E | NE].
  - right. assert (P2 : is_parity (i + 1) (parity_before i + 1)).
    { split; [lia | split].
      - rewrite Z.pow_add_r by lia.
        assert (2 ^ 1 <= 2 ^ parity_before i) by (apply Z.pow_le_mono_r; lia). lia.
      - intros q Hq'. destruct (Z.eq_dec q (parity_before i)) as [-> |]; [lia |].
        specialize (Hq q ltac:(lia)). lia. }
    rewrite (is_parity_unique _ _ _ Pi' P2). split; [lia |].
    exists (parity_before i). split; [| done]. split; [lia |].
    destruct (Z.eq_dec (parity_before i) 31) as [E31 |]; [| lia].
    rewrite E31 in E. unfold data_bit in *. lia.
  - left. assert (P2 : is_parity (i + 1) (parity_before i)).
    { split; [lia | split; [lia |]]. intros q Hq'. specialize (Hq q Hq'). lia. }
    rewrite (is_parity_unique _ _ _ Pi' P2). lia.
Qed.

(** Every number that is not a power of two is a code bit. *)
Lemma code_bit_surj b : 0 < b < 2 ^ 29 -> (forall k, 0 <= k -> b <> 2 ^ k) ->
  exists i, data_bit i /\ code_bit i = b.
Proof.
  intros Hb Hnp. pose proof (Z.log2_spec b ltac:(lia)) as [Hlo Hhi].
  pose proof (Z.log2_nonneg b). set (p := Z.succ (Z.log2 b)) in *.
  assert (Hlo' : 2 ^ (p - 1) < b).
  { unfold p. replace (Z.succ (Z.log2 b) - 1) with (Z.log2 b) by lia.
    specialize (Hnp (Z.log2 b) ltac:(lia)). lia. }
  assert (Hmono : forall q, 0 <= q < p -> 2 ^ q - q <= 2 ^ (p - 1) - (p - 1)).
  { intros q Hq. replace (p - 1) with (q + Z.of_nat (Z.to_nat (p - 1 - q))) by lia.
    induction (Z.to_nat (p - 1 - q)) as [| n IH]; [rewrite Z.add_0_r; lia |].
    rewrite Nat2Z.inj_succ, Z.add_succ_r, Z.pow_succ_r by lia.
    assert (1 <= 2 ^ (q + Z.of_nat n)) by (apply (Z.pow_le_mono_r 2 0); lia). lia. }
  assert (P : is_parity (b - 1 - p) p).
  { split; [lia | split; [lia |]]. intros q Hq. specialize (Hmono q Hq). lia. }
  assert (D : data_bit (b - 1 - p)).
  { split; [| lia]. specialize (Hmono 0 ltac:(lia)). cbn in Hmono. lia. }
  exists (b - 1 - p). split; [done |]. unfold code_bit.
  destruct (parity_before_spec _ D) as [P' _]. rewrite (is_parity_unique _ _ _ P' P). lia.
Qed.

(** ** The encoder *)

(** The parity vector of the first [n] bits: the exclusive or of the code bits
    of the bits that are set. *)
Fixpoint syndrome (f : Z -> bool) (nr : Z) (n : nat) : Z :=
  match n with
  | O => 0
  | S n => Z.lxor (syndrome f nr n) (if f (Z.of_nat n) then code_bit (nr + Z.of_nat n) else 0)
  end.

Lemma syndrome_ext f g nr n :
  (forall i, 0 <= i < Z.of_nat n -> f i = g i) -> syndrome f nr n = syndrome g nr n.
Proof.
  induction n as [| n IH]; intros E; cbn [syndrome]; [done |].
  rewrite IH, E by (lia || (intros; apply E; lia)). done.
Qed.

Lemma syndrome_clear f nr a b : 0 <= a <= b ->
  (forall i, a <= i < b -> f i = false) ->
  syndrome f nr (Z.to_nat b) = syndrome f nr (Z.to_nat a).
Proof.
  intros Hab H. replace b with (a + Z.of_nat (Z.to_nat (b - a))) in * by lia.
  induction (Z.to_nat (b - a)) as [| n IH]; [by rewrite Z.add_0_r |].
  replace (Z.to_nat (a + Z.of_nat (S n))) with (S (Z.to_nat (a + Z.of_nat n))) by lia.
  cbn [syndrome]. rewrite H, Z.lxor_0_r by lia. apply IH; [lia |]. intros; apply H; lia.
Qed.

Lemma syndrome_app f nr m n :
  syndrome f nr (m + n) =
  Z.lxor (syndrome f nr m) (syndrome (fun i => f (Z.of_nat m + i)) (nr + Z.of_nat m) n).
Proof.
  induction n as [| n IH]; [by rewrite Nat.add_0_r, Z.lxor_0_r |].
  rewrite Nat.add_succ_r. cbn [syndrome]. rewrite IH, Z.lxor_assoc, Nat2Z.inj_add, Z.add_assoc.
  done.
Qed.

Lemma hamming_encode_loop_spec fuel data d nr i p parity :
  bytes_ok data -> 0 < d < 2 ^ 30 -> d <= 8 * zlen data -> 0 <= nr -> nr + d <= 2 ^ 30 ->
  0 <= i <= d -> cache_ok (nr + i) p -> (Z.to_nat (d - i) < fuel)%nat ->
  hamming_encode_loop fuel data d nr i p parity =
  Ok (Z.lxor parity (Z.lxor (syndrome (bit data) nr (Z.to_nat i))
                            (syndrome (bit data) nr (Z.to_nat d)))).
Proof.
  intros Hok Hd Hlen Hnr Hnd. revert i p parity.
  induction fuel as [| fuel IH]; intros i p parity Hi Hc Hf; [lia |].
  cbn [hamming_encode_loop].
  destruct (find_next_bit_set_spec data d i) as (x & -> & Hx & _); [done | lia.. |].
  rewrite bind_Ok. destruct Hx as (Hx1 & Hx2 & Hx3). destruct (Z.ltb_spec x d).
  - rewrite Z.min_l in * by lia.
    assert (Dx : data_bit (nr + x)) by (unfold data_bit; lia).
    rewrite (u32_small (nr + x)), (u32_small (x + 1)) by lia.
    rewrite calc_code_bit_spec; [| done |].
    2: { destruct Hc as [? Hq]. split; [done |]. intros q Hq'. specialize (Hq q Hq'). lia. }
    rewrite bind_Ok, IH by (lia || (apply cache_ok_prev; [done | lia])).
    f_equal. rewrite !Z.lxor_assoc. f_equal. rewrite <- !Z.lxor_assoc. f_equal.
    replace (Z.to_nat (x + 1)) with (S (Z.to_nat x)) by lia. cbn [syndrome].
    rewrite Z2Nat.id, Hx3 by lia.
    rewrite (syndrome_clear _ nr i x) by (lia || done).
    by rewrite (Z.lxor_comm (code_bit _)), Z.lxor_assoc, Z.lxor_nilpotent, Z.lxor_0_r.
  - rewrite Z.min_r in * by lia.
    rewrite (syndrome_clear _ nr i d), Z.lxor_nilpotent, Z.lxor_0_r by (lia || done). done.
Qed.

Lemma hamming_encode_spec data d nr parity :
  bytes_ok data -> 0 < d < 2 ^ 30 -> d <= 8 * zlen data -> 0 <= nr -> nr + d <= 2 ^ 30 ->
  ocfs2_hamming_encode parity data d nr =
  Ok (Z.lxor parity (syndrome (bit data) nr (Z.to_nat d))).
Proof.
  intros. unfold ocfs2_hamming_encode. destruct (Z.eqb_spec d 0); [lia |].
  by rewrite hamming_encode_loop_spec by (apply cache_ok_0 || lia || done).
Qed.

(** ** The corrector *)

(** [data'] is [data] with the bit [j] inverted. *)
Definition flipped (j : Z) (data data' : list Z) : Prop :=
  bytes_ok data' /\ length data' = length data /\
  forall n, 0 <= n -> bit data' n = xorb (n =? j) (bit data n).

Lemma flipped_sym j data data' : bytes_ok data -> flipped j data data' -> flipped j data' data.
Proof.
  intros Hok (H1 & H2 & H3). split; [done | split; [done |]]. intros n Hn. rewrite H3 by done.
  by destruct (n =? j), (bit data n).
Qed.

Lemma flipped_unique j data a b : flipped j data a -> flipped j data b -> a = b.
Proof.
  intros (Ha & La & Ba) (Hb & Lb & Bb). apply bit_ext; [done.. | congruence |].
  intros n Hn. by rewrite Ba, Bb by lia.
Qed.

(** The fault model: a buffer with one bit inverted. *)
Definition flip_bit (j : Z) (data : list Z) : list Z :=
  match data !! Z.to_nat (j / 8) with
  | Some b => <[Z.to_nat (j / 8) := Z.lxor b (Z.shiftl 1 (j mod 8))]> data
  | None => data
  end.

Lemma flip_bit_flipped j data : bytes_ok data -> 0 <= j < 8 * zlen data ->
  flipped j data (flip_bit j data).
Proof.
  intros Hok Hj. pose proof (bit_index j data Hj) as Hi.
  pose proof (Z.mod_pos_bound j 8 ltac:(lia)).
  destruct (lookup_in_range data (j / 8) Hi) as [b Hb].
  assert (E : flip_bit j data = <[Z.to_nat (j / 8) := Z.lxor b (Z.shiftl 1 (j mod 8))]> data).
  { unfold flip_bit. by rewrite Hb. }
  rewrite E. split; [| split].
  - apply bytes_ok_insert; [done |]. apply lxor_byte; [by eapply bytes_ok_lookup |].
    rewrite Z.shiftl_1_l. split; [apply Z.pow_nonneg; lia |].
    change 256 with (2 ^ 8). apply Z.pow_lt_mono_r; lia.
  - apply length_insert.
  - intros n Hn. rewrite bit_insert by done. destruct (Z.eqb_spec (n / 8) (j / 8)) as [E' | NE].
    + rewrite Z.lxor_spec, testbit_pow2, div_mod_bit by lia. unfold bit. rewrite E', Hb.
      apply xorb_comm.
    + destruct (Z.eqb_spec n j); subst; [done |]. by destruct (bit data n).
Qed.

(** Inverting one data bit changes the parity vector by its code bit. *)
Lemma syndrome_flip f g nr j n : 0 <= j < Z.of_nat n ->
  (forall i, 0 <= i -> g i = xorb (i =? j) (f i)) ->
  syndrome g nr n = Z.lxor (syndrome f nr n) (code_bit (nr + j)).
Proof.
  intros Hj E. induction n as [| n IH]; [lia |]. cbn [syndrome].
  rewrite E by lia. destruct (Z.eqb_spec (Z.of_nat n) j) as [<- |].
  - rewrite (syndrome_ext g f).
    2: { intros i Hi. rewrite E by lia. destruct (Z.eqb_spec i (Z.of_nat n)); [lia |].
         by destruct (f i). }
    rewrite Z.lxor_assoc. f_equal. destruct (f (Z.of_nat n)); cbn.
    + by rewrite Z.lxor_nilpotent.
    + done.
  - rewrite IH by lia. rewrite !Z.lxor_assoc. f_equal. rewrite Z.lxor_comm. f_equal.
Qed.

Lemma skip_parity_code i : data_bit i -> skip_parity_bits 4 (code_bit i) = Ok (code_bit i).
Proof.
  intros Hi. cbn [skip_parity_bits].
  destruct (Z.eqb_spec (hc_hweight32 (code_bit i)) 1) as [E |]; [| done].
  by apply code_bit_hweight in E.
Qed.

Lemma skip_parity_next i : data_bit i -> data_bit (i + 1) ->
  skip_parity_bits 4 (u32 (code_bit i + 1)) = Ok (code_bit (i + 1)).
Proof.
  intros Hi Hi'. pose proof (code_bit_range i Hi). pose proof (code_bit_range _ Hi').
  rewrite u32_small by lia.
  destruct (code_bit_succ i Hi Hi') as [<- | [E (k & Hk & Ek)]]; [by apply skip_parity_code |].
  cbn [skip_parity_bits]. rewrite Ek at 1. rewrite pow2_hweight by lia. cbn [Z.eqb Pos.eqb].
  rewrite u32_small by lia. replace (code_bit i + 1 + 1) with (code_bit (i + 1)) by lia.
  destruct (Z.eqb_spec (hc_hweight32 (code_bit (i + 1))) 1) as [E1 |]; [| done].
  by apply code_bit_hweight in E1.
Qed.

(** The test-and-toggle of the corrector. *)
Lemma toggle_bit_spec i data : bytes_ok data -> 0 <= i < 8 * zlen data ->
  exists data', flipped i data data' /\
  (t ← ocfs2_test_bit i data;
   if (t : bool) then '(_, data) ← ocfs2_clear_bit i data; mret data
   else '(_, data) ← ocfs2_set_bit i data; mret data) = Ok data'.
Proof.
  intros Hok Hi. rewrite test_bit_spec, bind_Ok by done. destruct (bit data i) eqn:B.
  - destruct (clear_bit_spec i data) as (data' & -> & H1 & H2 & H3); [done.. |].
    exists data'. split; [| done]. split; [done | split; [done |]]. intros n Hn.
    rewrite H3 by done. destruct (Z.eqb_spec n i) as [-> |]; [by rewrite B | by destruct (bit data n)].
  - destruct (set_bit_spec i data) as (data' & -> & H1 & H2 & H3); [done.. |].
    exists data'. split; [| done]. split; [done | split; [done |]]. intros n Hn.
    rewrite H3 by done. destruct (Z.eqb_spec n i) as [-> |]; [by rewrite B | by destruct (bit data n)].
Qed.

Lemma hamming_fix_loop_spec fuel data d nr i t b :
  bytes_ok data -> 0 < d < 2 ^ 30 -> d <= 8 * zlen data -> 0 <= nr -> nr + d < 2 ^ 30 ->
  0 <= i <= t -> t < d -> (Z.to_nat (d - i) < fuel)%nat ->
  skip_parity_bits 4 b = Ok (code_bit (nr + i)) ->
  exists data', hamming_fix_loop fuel data d (code_bit (nr + t)) i b = Ok data' /\
    flipped t data data'.
Proof.
  intros Hok Hd Hlen Hnr Hnd. revert i b.
  induction fuel as [| fuel IH]; intros i b Hi Ht Hf Hb; [lia |].
  cbn [hamming_fix_loop]. destruct (Z.ltb_spec i d); [| lia]. rewrite Hb, bind_Ok.
  assert (Di : data_bit (nr + i)) by (unfold data_bit; lia).
  assert (Dt : data_bit (nr + t)) by (unfold data_bit; lia).
  destruct (Z.eqb_spec (code_bit (nr + i)) (code_bit (nr + t))) as [E | NE].
  - apply code_bit_inj in E; [| done..]. replace t with i by lia.
    destruct (toggle_bit_spec i data) as (data' & Hfl & E'); [done | lia |]. by exists data'.
  - rewrite (u32_small (i + 1)) by lia. apply IH; [| lia.. |].
    + destruct (Z.eq_dec i t) as [-> |]; [done | lia].
    + rewrite skip_parity_next; [do 2 f_equal; lia | done |].
      destruct (Z.eq_dec i t) as [-> |]; [done |]. unfold data_bit. lia.
Qed.

(** Given the code bit of a data bit of the hunk, the corrector inverts that
    bit; given a parity bit or a code bit outside the hunk it changes nothing. *)
Lemma hamming_fix_spec data d nr t :
  bytes_ok data -> 0 < d < 2 ^ 30 -> d <= 8 * zlen data -> 0 <= nr -> nr + d < 2 ^ 30 ->
  0 <= t < d -> exists data', ocfs2_hamming_fix data d nr (code_bit (nr + t)) = Ok data' /\
    flipped t data data'.
Proof.
  intros Hok Hd Hlen Hnr Hnd Ht. unfold ocfs2_hamming_fix.
  assert (Dt : data_bit (nr + t)) by (unfold data_bit; lia).
  assert (Dn : data_bit nr) by (unfold data_bit; lia).
  assert (De : data_bit (nr + d)) by (unfold data_bit; lia).
  destruct (Z.eqb_spec d 0); [lia |].
  destruct (Z.eqb_spec (hc_hweight32 (code_bit (nr + t))) 1) as [E |]; [by apply code_bit_hweight in E |].
  rewrite u32_small, !calc_code_bit_spec, !bind_Ok by (done || lia || apply cache_ok_0).
  pose proof (code_bit_mono (nr + t) (nr + d) Dt De ltac:(lia)).
  destruct (Z.leb_spec (code_bit (nr + d)) (code_bit (nr + t))); [lia |].
  destruct (Z.ltb_spec (code_bit (nr + t)) (code_bit nr)).
  { destruct (Z.eq_dec t 0) as [-> |]; [rewrite Z.add_0_r in *; lia |].
    pose proof (code_bit_mono nr (nr + t) Dn Dt ltac:(lia)). lia. }
  apply hamming_fix_loop_spec; [done | lia.. |]. rewrite Z.add_0_r. by apply skip_parity_code.
Qed.

Lemma hamming_fix_parity data d nr k : 0 < d -> 0 <= k < 32 ->
  ocfs2_hamming_fix data d nr (2 ^ k) = Ok data.
Proof.
  intros Hd Hk. unfold ocfs2_hamming_fix. destruct (Z.eqb_spec d 0); [lia |].
  by rewrite pow2_hweight by done.
Qed.

Lemma hamming_fix_0 data d nr : 0 < d -> 0 <= nr -> nr + d < 2 ^ 30 ->
  ocfs2_hamming_fix data d nr 0 = Ok data.
Proof.
  intros Hd Hnr Hnd. unfold ocfs2_hamming_fix. destruct (Z.eqb_spec d 0); [lia |].
  assert (Dn : data_bit nr) by (unfold data_bit; lia).
  assert (De : data_bit (nr + d)) by (unfold data_bit; lia).
  change (hc_hweight32 0 =? 1) with false. cbv iota.
  rewrite u32_small, !calc_code_bit_spec, !bind_Ok by (done || lia || apply cache_ok_0).
  pose proof (code_bit_range _ Dn). pose proof (code_bit_range _ De).
  destruct (Z.leb_spec (code_bit (nr + d)) 0); [lia |].
  by destruct (Z.ltb_spec 0 (code_bit nr)); [| lia].
Qed.

(** A code bit of another hunk leaves this one alone. *)
Lemma hamming_fix_outside data d nr t :
  0 < d -> 0 <= nr -> nr + d < 2 ^ 30 -> data_bit t -> ~ (nr <= t < nr + d) ->
  ocfs2_hamming_fix data d nr (code_bit t) = Ok data.
Proof.
  intros Hd Hnr Hnd Dt Hout. unfold ocfs2_hamming_fix. destruct (Z.eqb_spec d 0); [lia |].
  assert (Dn : data_bit nr) by (unfold data_bit; lia).
  assert (De : data_bit (nr + d)) by (unfold data_bit; lia).
  destruct (Z.eqb_spec (hc_hweight32 (code_bit t)) 1) as [E |]; [by apply code_bit_hweight in E |].
  rewrite u32_small, !calc_code_bit_spec, !bind_Ok by (done || lia || apply cache_ok_0).
  destruct (Z.leb_spec (code_bit (nr + d)) (code_bit t)); [done |].
  destruct (Z.ltb_spec (code_bit t) (code_bit nr)); [done |]. exfalso. apply Hout.
  destruct (Z.lt_ge_cases t nr) as [H1 |]; [pose proof (code_bit_mono _ _ Dt Dn H1); lia |].
  destruct (Z.lt_ge_cases t (nr + d)) as [| H2]; [lia |].
  destruct (Z.eq_dec t (nr + d)) as [-> |]; [lia |].
  pose proof (code_bit_mono (nr + d) t De Dt ltac:(lia)). lia.
Qed.

(** Whatever the syndrome, the corrector returns the buffer with at most one
    bit of the hunk inverted. *)
Lemma hamming_fix_total data d nr fix_ :
  bytes_ok data -> 0 < d -> d <= 8 * zlen data -> 0 <= nr -> nr + d < 2 ^ 28 -> 0 <= fix_ < 2 ^ 32 ->
  exists data', ocfs2_hamming_fix data d nr fix_ = Ok data' /\
    (data' = data \/ exists t, 0 <= t < d /\ flipped t data data').
Proof.
  intros Hok Hd Hlen Hnr Hnd Hfix.
  assert (Dn : data_bit nr) by (unfold data_bit; lia).
  assert (De : data_bit (nr + d)) by (unfold data_bit; lia).
  destruct (Z.eq_dec (hc_hweight32 fix_) 1) as [H1 | H1].
  { exists data. split; [| by left]. unfold ocfs2_hamming_fix.
    destruct (Z.eqb_spec d 0); [lia |]. by rewrite H1. }
  destruct (Z.lt_ge_cases fix_ (code_bit nr)) as [Hlo | Hlo];
    [| destruct (Z.lt_ge_cases fix_ (code_bit (nr + d))) as [Hhi | Hhi]].
  2: { destruct (code_bit_surj fix_) as (t & Dt & <-).
       - destruct (code_bit_between _ De) as (p & Hp & -> & Hb). unfold code_bit in Hhi.
         pose proof (code_bit_range nr Dn). lia.
       - intros k Hk ->. apply H1. apply pow2_hweight. split; [done |].
         destruct Hfix as [_ Hfix]. rewrite <- Z.pow_lt_mono_r_iff in Hfix by lia. done.
       - assert (nr <= t).
         { destruct (Z.le_gt_cases nr t) as [| Hlt]; [done |].
           pose proof (code_bit_mono t nr Dt Dn Hlt). lia. }
         assert (t < nr + d).
         { destruct (Z.lt_ge_cases t (nr + d)) as [| Hge]; [done |].
           destruct (Z.eq_dec t (nr + d)) as [-> |]; [lia |].
           pose proof (code_bit_mono _ _ De Dt ltac:(lia)). lia. }
         destruct (hamming_fix_spec data d nr (t - nr)) as (data' & E & Hf); [done | lia.. |].
         replace (nr + (t - nr)) with t in E by lia. exists data'. split; [done |].
         right. exists (t - nr). split; [lia | done]. }
  all: exists data; split; [| by left]; unfold ocfs2_hamming_fix;
    destruct (Z.eqb_spec d 0); [lia |]; destruct (Z.eqb_spec (hc_hweight32 fix_) 1); [done |];
    rewrite u32_small, !calc_code_bit_spec, !bind_Ok by (done || lia || apply cache_ok_0);
    destruct (Z.leb_spec (code_bit (nr + d)) fix_); try done.
  - by destruct (Z.ltb_spec fix_ (code_bit nr)); [| lia].
  - lia.
Qed.

(** Correction of a single inverted bit, given both parity vectors. *)
Lemma hamming_corrects data d nr t parity :
  bytes_ok data -> 0 < d -> d <= 8 * zlen data -> 0 <= nr -> nr + d < 2 ^ 30 ->
  0 <= t < d ->
  exists e e', ocfs2_hamming_encode parity data d nr = Ok e /\
    ocfs2_hamming_encode parity (flip_bit t data) d nr = Ok e' /\
    ocfs2_hamming_fix (flip_bit t data) d nr (Z.lxor e' e) = Ok data.
Proof.
  intros Hok Hd Hlen Hnr Hnd Ht.
  pose proof (flip_bit_flipped t data Hok ltac:(lia)) as Hfl. pose proof Hfl as (Hbad & Lbad & Bbad).
  assert (zlen (flip_bit t data) = zlen data) as Zbad by (unfold zlen; by rewrite Lbad).
  rewrite !hamming_encode_spec by (lia || done).
  eexists _, _. split; [done | split; [done |]].
  rewrite (syndrome_flip (bit data) (bit (flip_bit t data)) nr t), lxor_cancel by (lia || done).
  destruct (hamming_fix_spec (flip_bit t data) d nr t) as (data' & -> & Hfix); [done | lia.. |].
  f_equal. eapply flipped_unique; [done |]. by apply flipped_sym.
Qed.

(** ** The reference encoder *)

Lemma parity_xor_loop_spec n j b parity m : 0 <= j -> 0 <= m ->
  Z.testbit (parity_xor_loop n j b parity) m =
  xorb (Z.testbit parity m) ((j <=? m) && (m <? j + Z.of_nat n) && Z.testbit b m).
Proof.
  revert j parity. induction n as [| n IH]; intros j parity Hj Hm; cbn [parity_xor_loop].
  - destruct (Z.leb_spec j m), (Z.ltb_spec m (j + Z.of_nat 0)); try lia; by rewrite xorb_false_r.
  - rewrite IH by lia. rewrite (Z.land_comm b).
    assert (E : Z.testbit (if Z.land (Z.shiftl 1 j) b =? 0 then parity else Z.lxor parity (Z.shiftl 1 j)) m
                = xorb (Z.testbit parity m) ((j =? m) && Z.testbit b m)).
    { pose proof (mask_test b j Hj) as T. destruct (Z.land (Z.shiftl 1 j) b =? 0); cbn in T.
      - destruct (Z.eqb_spec j m) as [<- |]; [rewrite <- T |]; by rewrite xorb_false_r.
      - rewrite Z.lxor_spec, testbit_pow2 by done.
        destruct (Z.eqb_spec j m) as [<- |]; [by rewrite <- T | done]. }
    rewrite E, xorb_assoc. f_equal. destruct (Z.testbit b m); rewrite ?andb_true_r, ?andb_false_r;
      [| done].
    destruct (Z.eqb_spec j m), (Z.leb_spec (j + 1) m), (Z.leb_spec j m),
      (Z.ltb_spec m (j + 1 + Z.of_nat n)), (Z.ltb_spec m (j + Z.of_nat (S n))); done || lia.
Qed.

Lemma parity_xor_loop_all p b parity : 0 <= p -> 0 <= b < 2 ^ p ->
  parity_xor_loop (Z.to_nat p) 0 b parity = Z.lxor parity b.
Proof.
  intros Hp Hb. apply Z.bits_inj'. intros m Hm.
  rewrite parity_xor_loop_spec, Z.lxor_spec, Z2Nat.id by lia. f_equal.
  destruct (Z.leb_spec 0 m), (Z.ltb_spec m (0 + p)); try lia; [done |].
  destruct (Z.eq_dec b 0) as [-> |]; [by rewrite Z.bits_0 |].
  symmetry. apply Z.bits_above_log2; [lia |].
  apply (Z.lt_le_trans _ p); [apply Z.log2_lt_pow2; lia | lia].
Qed.

Lemma parity_bits_loop_spec fuel p d : data_bit (d - 1) -> 1 <= p -> 32 <= p + Z.of_nat fuel ->
  p <= 31 -> (forall q, 0 <= q < p -> 2 ^ q <= d + q) ->
  parity_bits_loop fuel p d = parity_before (d - 1).
Proof.
  intros Hd. destruct (parity_before_spec _ Hd) as [Pd _]. unfold data_bit in Hd.
  revert p. induction fuel as [| fuel IH]; intros p Hp Hf H31 Hq; [lia |].
  cbn [parity_bits_loop]. destruct (Z.ltb_spec p 32); [| lia].
  assert (2 ^ p <= 2 ^ 31) by (apply Z.pow_le_mono_r; lia).
  assert (0 < 2 ^ p) by (apply Z.pow_pos_nonneg; lia).
  rewrite Z.shiftl_1_l. unwrap. destruct (Z.leb_spec (d + p + 1) (2 ^ p)).
  - apply (is_parity_unique (d - 1)); [| done]. split; [lia | split; [lia |]].
    intros q Hq'. specialize (Hq q Hq'). lia.
  - assert (p < 31) by (destruct (Z.eq_dec p 31) as [-> |]; lia).
    apply IH; [lia.. |]. intros q Hq'. destruct (Z.eq_dec q p) as [-> |]; [lia |]. apply Hq. lia.
Qed.

Lemma calc_parity_bits_spec d : 0 < d <= 2 ^ 30 -> calc_parity_bits_orig d = parity_before (d - 1).
Proof.
  intros Hd. apply parity_bits_loop_spec; [unfold data_bit; lia | lia.. |].
  intros q Hq. replace q with 0 by lia. cbn. lia.
Qed.

Lemma calc_code_bit_orig_spec i : data_bit i -> calc_code_bit_orig i = Ok (code_bit i).
Proof.
  intros Hi. unfold calc_code_bit_orig. unfold data_bit in Hi. rewrite u32_small by lia.
  rewrite <- (Z.add_0_r (i + 1)).
  rewrite code_bit_loop_spec; [done | done | lia.. | intros; lia].
Qed.

(** Round by round the two encoders agree while every code bit fits the [p]
    parity bits of the reference. *)
Lemma hamming_encode_orig_loop_eq fuel data p d nr i c parity :
  bytes_ok data -> 0 < d < 2 ^ 30 -> d <= 8 * zlen data -> 0 <= nr -> nr + d <= 2 ^ 30 ->
  0 <= i <= d -> cache_ok (nr + i) c -> 0 <= p -> (forall j, 0 <= j < d -> code_bit (nr + j) < 2 ^ p) ->
  hamming_encode_orig_loop fuel data p d nr i parity = hamming_encode_loop fuel data d nr i c parity.
Proof.
  intros Hok Hd Hlen Hnr Hnd Hi Hc Hp Hfit. revert i c parity Hi Hc.
  induction fuel as [| fuel IH]; intros i c parity Hi Hc; [done |].
  cbn [hamming_encode_loop hamming_encode_orig_loop].
  destruct (find_next_bit_set_spec data d i) as (x & -> & Hx & _); [done | lia.. |].
  rewrite !bind_Ok. destruct (Z.ltb_spec x d); [| done].
  destruct Hx as (Hx1 & _). rewrite Z.min_l in Hx1 by lia.
  assert (Dx : data_bit (nr + x)) by (unfold data_bit; lia).
  rewrite (u32_small (nr + x)), (u32_small (x + 1)) by lia.
  rewrite calc_code_bit_orig_spec, calc_code_bit_spec, !bind_Ok; [| done | | done].
  2: { destruct Hc as [? Hq]. split; [done |]. intros q Hq'. specialize (Hq q Hq'). lia. }
  rewrite parity_xor_loop_all; [apply IH; [lia |] | done |].
  - apply cache_ok_prev; [done | lia].
  - pose proof (code_bit_range _ Dx). specialize (Hfit x ltac:(lia)). lia.
Qed.

Lemma code_bit_fits d j : 0 < d <= 2 ^ 30 -> 0 <= j < d -> code_bit j < 2 ^ parity_before (d - 1).
Proof.
  intros Hd Hj. assert (Dj : data_bit j) by (unfold data_bit; lia).
  assert (Dd : data_bit (d - 1)) by (unfold data_bit; lia).
  destruct (code_bit_between _ Dd) as (p & Hp & -> & Hb).
  destruct (Z.eq_dec j (d - 1)) as [-> |]; [lia |].
  pose proof (code_bit_mono j (d - 1) Dj Dd ltac:(lia)). lia.
Qed.

(** ** Results *)

Lemma bit_app_l (a b : list Z) n : 0 <= n < 8 * zlen a -> bit (a ++ b) n = bit a n.
Proof.
  intros Hn. pose proof (bit_index n a Hn). unfold bit, zlen in *. by rewrite lookup_app_l by lia.
Qed.

Lemma bit_app_r (a b : list Z) n : 0 <= n -> bit (a ++ b) (8 * zlen a + n) = bit b n.
Proof.
  intros Hn. unfold zlen. rewrite <- bit_drop by done. by rewrite drop_app_length.
Qed.

(** C23: [calc_code_bit] maps data bit [i] to the code bit [b = i + 1 + p] with
    exactly [p] powers of two below it, so [b] is never a parity position, and
    a cache left by an earlier data bit never changes the answer. *)
Theorem calc_code_bit_correct i c : data_bit i ->
  (c = None \/ exists j b p, data_bit j /\ j <= i /\ calc_code_bit j None = Ok (b, p) /\ c = Some p) ->
  exists b p, calc_code_bit i c = Ok (b, p) /\ calc_code_bit i None = Ok (b, p) /\
    b = i + 1 + p /\ 2 ^ (p - 1) < b < 2 ^ p /\ 1 <= p.
Proof.
  intros Hi Hc. destruct (code_bit_between i Hi) as (p & Hp & -> & Hb).
  exists (code_bit i), (parity_before i).
  rewrite !calc_code_bit_spec; [| done | apply cache_ok_0 | done |].
  - split_and!; lia || done.
  - destruct Hc as [-> | (j & b & p & Hj & Hji & E & ->)]; [apply cache_ok_0 |].
    rewrite calc_code_bit_spec in E by (done || apply cache_ok_0). simplify_eq.
    by apply cache_ok_prev.
Qed.

Lemma calc_code_bit_correct_witness :
  exists b p, calc_code_bit 5 (Some 2) = Ok (b, p) /\ calc_code_bit 5 None = Ok (b, p) /\
    b = 5 + 1 + p /\ 2 ^ (p - 1) < b < 2 ^ p /\ 1 <= p.
Proof.
  apply calc_code_bit_correct; [unfold data_bit; lia |].
  right. exists 0, 3, 2. unfold data_bit. split_and!; [lia | lia | lia | reflexivity | reflexivity].
Defined.

(** C22: the Hamming code corrects every single-bit error.  Given the exclusive
    or of the parity vector of [data] and of the buffer that differs from it
    in the one bit [t], the corrector turns that buffer back into [data]. *)
Theorem hamming_corrects_single_error data d nr t parity :
  bytes_ok data -> 0 < d -> d <= 8 * zlen data -> 0 <= nr -> nr + d < 2 ^ 30 ->
  0 <= t < d ->
  exists e e', ocfs2_hamming_encode parity data d nr = Ok e /\
    ocfs2_hamming_encode parity (flip_bit t data) d nr = Ok e' /\
    ocfs2_hamming_fix (flip_bit t data) d nr (Z.lxor e' e) = Ok data.
Proof.
  apply hamming_corrects.
Qed.

Lemma hamming_corrects_single_error_witness :
  exists e e', ocfs2_hamming_encode 0 [0xa5; 0x3c] 16 0 = Ok e /\
    ocfs2_hamming_encode 0 (flip_bit 10 [0xa5; 0x3c]) 16 0 = Ok e' /\
    ocfs2_hamming_fix (flip_bit 10 [0xa5; 0x3c]) 16 0 (Z.lxor e' e) = Ok [0xa5; 0x3c].
Proof.
  apply (hamming_corrects_single_error [0xa5; 0x3c] 16 0 10 0); try (vm_compute; lia || done).
  repeat constructor; unfold byte_ok; lia.
Defined.

(** The corrector acts on nothing but a data bit of its hunk: a zero
    syndrome, a syndrome that is a power of two (an error in a parity bit) and
    the code bit of a data bit outside the hunk all leave the buffer as it is. *)
Theorem hamming_fix_leaves_rest data d nr fix_ :
  0 < d -> 0 <= nr -> nr + d < 2 ^ 30 ->
  (fix_ = 0 \/ (exists k, 0 <= k < 32 /\ fix_ = 2 ^ k) \/
   (exists t b p, data_bit t /\ ~ (nr <= t < nr + d) /\ calc_code_bit t None = Ok (b, p) /\ fix_ = b)) ->
  ocfs2_hamming_fix data d nr fix_ = Ok data.
Proof.
  intros Hd Hnr Hnd [-> | [(k & Hk & ->) | (t & b & p & Ht & Hout & E & ->)]].
  - by apply hamming_fix_0.
  - by apply hamming_fix_parity.
  - rewrite calc_code_bit_spec in E by (done || apply cache_ok_0). simplify_eq.
    by apply hamming_fix_outside.
Qed.

Lemma hamming_fix_leaves_rest_witness : ocfs2_hamming_fix [0xa5; 0x3c] 16 0 8 = Ok [0xa5; 0x3c].
Proof. apply hamming_fix_leaves_rest; [lia.. |]. right. left. exists 3. split; [lia | reflexivity]. Defined.

(** Encoding hunk by hunk, as the comment on [ocfs2_hamming_encode]
    prescribes, gives the parity vector of the joined buffer. *)
Theorem hamming_encode_hunks buf1 buf2 :
  bytes_ok buf1 -> bytes_ok buf2 -> buf1 <> [] -> buf2 <> [] ->
  8 * (zlen buf1 + zlen buf2) < 2 ^ 30 ->
  (parity ← ocfs2_hamming_encode 0 buf1 (8 * zlen buf1) 0;
   ocfs2_hamming_encode parity buf2 (8 * zlen buf2) (8 * zlen buf1)) =
  ocfs2_hamming_encode 0 (buf1 ++ buf2) (8 * zlen (buf1 ++ buf2)) 0.
Proof.
  intros H1 H2 N1 N2 Hlen.
  assert (0 < zlen buf1) by (destruct buf1; [done | rewrite zlen_cons; pose proof (zlen_nonneg buf1); lia]).
  assert (0 < zlen buf2) by (destruct buf2; [done | rewrite zlen_cons; pose proof (zlen_nonneg buf2); lia]).
  rewrite (hamming_encode_spec (buf1 ++ buf2)) by (rewrite ?zlen_app; (lia || by apply Forall_app)).
  rewrite hamming_encode_spec, bind_Ok, hamming_encode_spec by (lia || done).
  rewrite zlen_app, !Z.lxor_0_l. f_equal.
  replace (Z.to_nat (8 * (zlen buf1 + zlen buf2)))
    with (Z.to_nat (8 * zlen buf1) + Z.to_nat (8 * zlen buf2))%nat by lia.
  rewrite syndrome_app, Z2Nat.id by lia. f_equal.
  - apply syndrome_ext. intros i Hi. symmetry. apply bit_app_l. lia.
  - apply syndrome_ext. intros i Hi. symmetry. apply bit_app_r. lia.
Qed.

Lemma hamming_encode_hunks_witness :
  (parity ← ocfs2_hamming_encode 0 [1; 2] (8 * zlen [1; 2]) 0;
   ocfs2_hamming_encode parity [255] (8 * zlen [255]) (8 * zlen [1; 2])) =
  ocfs2_hamming_encode 0 ([1; 2] ++ [255]) (8 * zlen ([1; 2] ++ [255])) 0.
Proof.
  apply hamming_encode_hunks; try done; repeat constructor; unfold byte_ok; lia.
Defined.

(** C24: on a whole buffer the fast encoder computes what the authors' original
    parity-by-parity encoder computes. *)
Theorem hamming_encode_equals_orig data d parity :
  bytes_ok data -> 0 < d < 2 ^ 30 -> d <= 8 * zlen data ->
  ocfs2_hamming_encode parity data d 0 = hamming_encode_orig parity data d 0 /\
  exists e, ocfs2_hamming_encode parity data d 0 = Ok e.
Proof.
  intros Hok Hd Hlen. split; [| rewrite hamming_encode_spec by (lia || done); eauto].
  unfold ocfs2_hamming_encode, hamming_encode_orig. rewrite calc_parity_bits_spec by lia.
  destruct (code_bit_between (d - 1)) as (p & Hp & -> & _); [unfold data_bit; lia |].
  destruct (Z.eqb_spec d 0), (Z.eqb_spec (parity_before (d - 1)) 0); try lia.
  symmetry. apply hamming_encode_orig_loop_eq; try (lia || done || apply cache_ok_0).
  intros j Hj. rewrite Z.add_0_l. apply code_bit_fits; lia.
Qed.

Lemma hamming_encode_equals_orig_witness :
  ocfs2_hamming_encode 0 [0xa5; 0x3c] 16 0 = hamming_encode_orig 0 [0xa5; 0x3c] 16 0 /\
  exists e, ocfs2_hamming_encode 0 [0xa5; 0x3c] 16 0 = Ok e.
Proof.
  apply hamming_encode_equals_orig; [repeat constructor; unfold byte_ok; lia | lia | done].
Defined.

(** The reference encoder is not hunk-aware although its comment says it
    can be called across hunks: it sizes the parity vector from the hunk alone,
    and on a second hunk it loses the high parity bits. *)
Theorem hamming_encode_orig_loses_hunk_bits :
  ocfs2_hamming_encode 0 [0x80] 8 8 = Ok 21 /\ hamming_encode_orig 0 [0x80] 8 8 = Ok 5.
Proof. split; reflexivity. Qed.
