(* ===== verification/Crc32.v ===== *)
(** The CRC-32 of [libocfs2/blockcheck.c]: the table-driven [crc32_le] that
    consumes the buffer byte by byte up to a word boundary, then four bytes at
    a time, then the rest, against the bit-at-a-time definition.

    The host is little-endian: [cpu_to_le32] and [le32_to_cpu] are the
    identity and [tole] leaves the table entries as they are written. *)

From S2P Require Import Prelude.

(** ** The code *)

Definition crc32table_le : list Z :=
  [0x00000000; 0x77073096; 0xee0e612c; 0x990951ba; 0x076dc419; 0x706af48f;
   0xe963a535; 0x9e6495a3; 0x0edb8832; 0x79dcb8a4; 0xe0d5e91e; 0x97d2d988;
   0x09b64c2b; 0x7eb17cbd; 0xe7b82d07; 0x90bf1d91; 0x1db71064; 0x6ab020f2;
   0xf3b97148; 0x84be41de; 0x1adad47d; 0x6ddde4eb; 0xf4d4b551; 0x83d385c7;
   0x136c9856; 0x646ba8c0; 0xfd62f97a; 0x8a65c9ec; 0x14015c4f; 0x63066cd9;
   0xfa0f3d63; 0x8d080df5; 0x3b6e20c8; 0x4c69105e; 0xd56041e4; 0xa2677172;
   0x3c03e4d1; 0x4b04d447; 0xd20d85fd; 0xa50ab56b; 0x35b5a8fa; 0x42b2986c;
   0xdbbbc9d6; 0xacbcf940; 0x32d86ce3; 0x45df5c75; 0xdcd60dcf; 0xabd13d59;
   0x26d930ac; 0x51de003a; 0xc8d75180; 0xbfd06116; 0x21b4f4b5; 0x56b3c423;
   0xcfba9599; 0xb8bda50f; 0x2802b89e; 0x5f058808; 0xc60cd9b2; 0xb10be924;
   0x2f6f7c87; 0x58684c11; 0xc1611dab; 0xb6662d3d; 0x76dc4190; 0x01db7106;
   0x98d220bc; 0xefd5102a; 0x71b18589; 0x06b6b51f; 0x9fbfe4a5; 0xe8b8d433;
   0x7807c9a2; 0x0f00f934; 0x9609a88e; 0xe10e9818; 0x7f6a0dbb; 0x086d3d2d;
   0x91646c97; 0xe6635c01; 0x6b6b51f4; 0x1c6c6162; 0x856530d8; 0xf262004e;
   0x6c0695ed; 0x1b01a57b; 0x8208f4c1; 0xf50fc457; 0x65b0d9c6; 0x12b7e950;
   0x8bbeb8ea; 0xfcb9887c; 0x62dd1ddf; 0x15da2d49; 0x8cd37cf3; 0xfbd44c65;
   0x4db26158; 0x3ab551ce; 0xa3bc0074; 0xd4bb30e2; 0x4adfa541; 0x3dd895d7;
   0xa4d1c46d; 0xd3d6f4fb; 0x4369e96a; 0x346ed9fc; 0xad678846; 0xda60b8d0;
   0x44042d73; 0x33031de5; 0xaa0a4c5f; 0xdd0d7cc9; 0x5005713c; 0x270241aa;
   0xbe0b1010; 0xc90c2086; 0x5768b525; 0x206f85b3; 0xb966d409; 0xce61e49f;
   0x5edef90e; 0x29d9c998; 0xb0d09822; 0xc7d7a8b4; 0x59b33d17; 0x2eb40d81;
   0xb7bd5c3b; 0xc0ba6cad; 0xedb88320; 0x9abfb3b6; 0x03b6e20c; 0x74b1d29a;
   0xead54739; 0x9dd277af; 0x04db2615; 0x73dc1683; 0xe3630b12; 0x94643b84;
   0x0d6d6a3e; 0x7a6a5aa8; 0xe40ecf0b; 0x9309ff9d; 0x0a00ae27; 0x7d079eb1;
   0xf00f9344; 0x8708a3d2; 0x1e01f268; 0x6906c2fe; 0xf762575d; 0x806567cb;
   0x196c3671; 0x6e6b06e7; 0xfed41b76; 0x89d32be0; 0x10da7a5a; 0x67dd4acc;
   0xf9b9df6f; 0x8ebeeff9; 0x17b7be43; 0x60b08ed5; 0xd6d6a3e8; 0xa1d1937e;
   0x38d8c2c4; 0x4fdff252; 0xd1bb67f1; 0xa6bc5767; 0x3fb506dd; 0x48b2364b;
   0xd80d2bda; 0xaf0a1b4c; 0x36034af6; 0x41047a60; 0xdf60efc3; 0xa867df55;
   0x316e8eef; 0x4669be79; 0xcb61b38c; 0xbc66831a; 0x256fd2a0; 0x5268e236;
   0xcc0c7795; 0xbb0b4703; 0x220216b9; 0x5505262f; 0xc5ba3bbe; 0xb2bd0b28;
   0x2bb45a92; 0x5cb36a04; 0xc2d7ffa7; 0xb5d0cf31; 0x2cd99e8b; 0x5bdeae1d;
   0x9b64c2b0; 0xec63f226; 0x756aa39c; 0x026d930a; 0x9c0906a9; 0xeb0e363f;
   0x72076785; 0x05005713; 0x95bf4a82; 0xe2b87a14; 0x7bb12bae; 0x0cb61b38;
   0x92d28e9b; 0xe5d5be0d; 0x7cdcefb7; 0x0bdbdf21; 0x86d3d2d4; 0xf1d4e242;
   0x68ddb3f8; 0x1fda836e; 0x81be16cd; 0xf6b9265b; 0x6fb077e1; 0x18b74777;
   0x88085ae6; 0xff0f6a70; 0x66063bca; 0x11010b5c; 0x8f659eff; 0xf862ae69;
   0x616bffd3; 0x166ccf45; 0xa00ae278; 0xd70dd2ee; 0x4e048354; 0x3903b3c2;
   0xa7672661; 0xd06016f7; 0x4969474d; 0x3e6e77db; 0xaed16a4a; 0xd9d65adc;
   0x40df0b66; 0x37d83bf0; 0xa9bcae53; 0xdebb9ec5; 0x47b2cf7f; 0x30b5ffe9;
   0xbdbdf21c; 0xcabac28a; 0x53b39330; 0x24b4a3a6; 0xbad03605; 0xcdd70693;
   0x54de5729; 0x23d967bf; 0xb3667a2e; 0xc4614ab8; 0x5d681b02; 0x2a6f2b94;
   0xb40bbe37; 0xc30c8ea1; 0x5a05df1b; 0x2d02ef8d].

(** [tab[i]] for [i = x & 255]. *)
Definition tab (i : Z) : Z := nth (Z.to_nat i) crc32table_le 0.

(** [crc = tab[(crc ^ (x)) & 255] ^ (crc >> 8)] *)
Definition DO_CRC (x crc : Z) : Z :=
  Z.lxor (tab (Z.land (Z.lxor crc x) 255)) (Z.shiftr crc 8).

(** The alignment loop: [align] is the address of the buffer modulo 4. *)
Fixpoint crc_align (align crc : Z) (p : list Z) : Z * list Z :=
  match p with
  | x :: p' => if align =? 0 then (crc, p) else crc_align ((align + 1) mod 4) (DO_CRC x crc) p'
  | [] => (crc, [])
  end.

(** [*++b]: the little-endian word at the pointer. *)
Definition le32 (b0 b1 b2 b3 : Z) : Z :=
  Z.lor b0 (Z.lor (Z.shiftl b1 8) (Z.lor (Z.shiftl b2 16) (Z.shiftl b3 24))).

Definition crc_step (crc x : Z) : Z := DO_CRC x crc.

(** The word loop, and the byte loop for the last few bytes. *)
Fixpoint crc_words (crc : Z) (p : list Z) : Z :=
  match p with
  | b0 :: b1 :: b2 :: b3 :: p' =>
      let crc := Z.lxor crc (le32 b0 b1 b2 b3) in
      crc_words (DO_CRC 0 (DO_CRC 0 (DO_CRC 0 (DO_CRC 0 crc)))) p'
  | p => fold_left crc_step p crc
  end.

Definition crc32_le (align crc : Z) (p : list Z) : Z :=
  let '(crc, p) := crc_align align crc p in
  crc_words crc p.

(** ** The definition it implements: one polynomial division step per bit,
    with the bit-reversed polynomial 0xEDB88320 of IEEE 802.3 *)

Definition crc_bit (crc : Z) : Z :=
  Z.lxor (Z.shiftr crc 1) (if Z.testbit crc 0 then 0xEDB88320 else 0).

Definition crc_byte (x crc : Z) : Z := Nat.iter 8 crc_bit (Z.lxor crc x).

Definition crc32_ref (crc : Z) (p : list Z) : Z := fold_left (fun crc x => crc_byte x crc) p crc.

(** ** Proofs *)

Lemma crc_bit_lxor a b : crc_bit (Z.lxor a b) = Z.lxor (crc_bit a) (crc_bit b).
Proof.
  unfold crc_bit. rewrite Z.lxor_spec, Z.shiftr_lxor.
  apply Z.bits_inj'. intros n Hn. rewrite !Z.lxor_spec.
  destruct (Z.testbit a 0), (Z.testbit b 0); cbn [xorb];
    rewrite ?Z.bits_0; destruct (Z.testbit (Z.shiftr a 1) n), (Z.testbit (Z.shiftr b 1) n),
      (Z.testbit 0xEDB88320 n); done.
Qed.

Lemma crc_bits_lxor n a b :
  Nat.iter n crc_bit (Z.lxor a b) = Z.lxor (Nat.iter n crc_bit a) (Nat.iter n crc_bit b).
Proof. induction n as [| n IH]; [done |]. by rewrite !Nat.iter_succ, IH, crc_bit_lxor. Qed.

(** Steps on a value whose low bits are clear only shift it. *)
Lemma crc_bits_shift n a : Nat.iter n crc_bit (Z.shiftl a (Z.of_nat n)) = a.
Proof.
  revert a. induction n as [| n IH]; intros a; [apply Z.shiftl_0_r |].
  rewrite Nat.iter_succ_r. replace (crc_bit _) with (Z.shiftl a (Z.of_nat n)); [apply IH |].
  unfold crc_bit. rewrite Z.shiftl_spec_low, Z.lxor_0_r by lia.
  rewrite Z.shiftr_shiftl_l by lia. f_equal. lia.
Qed.

Definition bytes256 : list Z := seqZ 0 256.

(** Every table entry is eight division steps on its index. *)
Lemma table_correct i : 0 <= i < 256 -> tab i = Nat.iter 8 crc_bit i /\ 0 <= tab i < 2 ^ 32.
Proof.
  intros Hi. assert (H : forallb (fun i => (tab i =? Nat.iter 8 crc_bit i) && (0 <=? tab i) &&
                             (tab i <? 2 ^ 32)) bytes256 = true) by (by vm_compute).
  rewrite forallb_forall in H. specialize (H i). rewrite !andb_true_iff, Z.eqb_eq, Z.leb_le, Z.ltb_lt in H.
  destruct H as [[-> ?] ?]; [apply list_elem_of_In, elem_of_seqZ; lia | done].
Qed.

Lemma split_low_byte v : v = Z.lxor (Z.land v 255) (Z.shiftl (Z.shiftr v 8) 8).
Proof.
  apply Z.bits_inj'. intros n Hn. rewrite Z.lxor_spec, Z.land_spec.
  change 255 with (Z.ones 8). rewrite Z.testbit_ones_nonneg by lia.
  destruct (Z.ltb_spec n 8).
  - rewrite Z.shiftl_spec_low by lia. by rewrite andb_true_r, xorb_false_r.
  - rewrite Z.shiftl_spec, Z.shiftr_spec by lia. rewrite andb_false_r, xorb_false_l. f_equal. lia.
Qed.

Lemma land_255_range v : 0 <= Z.land v 255 < 256.
Proof. change 255 with (Z.ones 8). rewrite Z.land_ones by lia. apply Z.mod_pos_bound. lia. Qed.

(** One table step is eight division steps. *)
Lemma DO_CRC_correct x crc : 0 <= x < 256 -> DO_CRC x crc = crc_byte x crc.
Proof.
  intros Hx. unfold crc_byte. rewrite (split_low_byte (Z.lxor crc x)), crc_bits_lxor.
  rewrite (crc_bits_shift 8). destruct (table_correct _ (land_255_range (Z.lxor crc x))) as [<- _].
  unfold DO_CRC. f_equal. rewrite Z.shiftr_lxor.
  replace (Z.shiftr x 8) with 0; [by rewrite Z.lxor_0_r |].
  rewrite Z.shiftr_div_pow2 by lia. symmetry. by apply Z.div_small.
Qed.

(** A word step: the exclusive or with a whole word, then table steps on zero,
    consumes the word one byte at a time. *)
Lemma DO_CRC_cat a w crc : byte_ok a ->
  DO_CRC 0 (Z.lxor crc (cat a w)) = Z.lxor (DO_CRC a crc) w.
Proof.
  intros Ha. unfold DO_CRC. rewrite Z.lxor_0_r, Z.shiftr_lxor, cat_high by done.
  rewrite Z.lxor_assoc. f_equal. f_equal. apply Z.bits_inj'. intros n Hn.
  rewrite !Z.land_spec, !Z.lxor_spec, testbit_cat by done. change 255 with (Z.ones 8).
  rewrite Z.testbit_ones_nonneg by lia. destruct (Z.ltb_spec n 8); [done |]. by rewrite !andb_false_r.
Qed.

Lemma le32_word b0 b1 b2 b3 : le32 b0 b1 b2 b3 = word [b0; b1; b2; b3].
Proof.
  unfold le32. cbn [word foldr]. unfold cat. rewrite !Z.shiftl_lor, !Z.shiftl_shiftl by lia.
  by rewrite Z.shiftl_0_l, Z.lor_0_r.
Qed.

Lemma crc_words_4 crc b0 b1 b2 b3 p :
  crc_words crc (b0 :: b1 :: b2 :: b3 :: p) =
  crc_words (DO_CRC 0 (DO_CRC 0 (DO_CRC 0 (DO_CRC 0 (Z.lxor crc (le32 b0 b1 b2 b3)))))) p.
Proof. reflexivity. Qed.

Lemma crc_fold_cons crc x p : fold_left crc_step (x :: p) crc = fold_left crc_step p (DO_CRC x crc).
Proof. reflexivity. Qed.

Lemma crc_words_bytes n crc p : (length p <= n)%nat -> bytes_ok p ->
  crc_words crc p = fold_left crc_step p crc.
Proof.
  revert crc p. induction n as [| n IH]; intros crc p Hn Hok; [by destruct p; [| cbn in Hn; lia] |].
  destruct p as [| b0 [| b1 [| b2 [| b3 p]]]]; try done.
  rewrite crc_words_4, !crc_fold_cons, le32_word. cbn [word foldr].
  inversion_clear Hok as [| ? ? H0 Hok1]. inversion_clear Hok1 as [| ? ? H1 Hok2].
  inversion_clear Hok2 as [| ? ? H2 Hok3]. inversion_clear Hok3 as [| ? ? H3 Hok4].
  rewrite !DO_CRC_cat, Z.lxor_0_r by done. cbn [length] in Hn.
  by rewrite IH by (done || lia).
Qed.

Lemma crc32_le_bytes align crc p : bytes_ok p ->
  crc32_le align crc p = fold_left crc_step p crc.
Proof.
  revert align crc. induction p as [| x p IH]; intros align crc Hok; [done |].
  unfold crc32_le in *. cbn [crc_align]. destruct (align =? 0).
  - by apply (crc_words_bytes (length (x :: p))).
  - inversion_clear Hok. by apply IH.
Qed.

Lemma crc32_ref_cons crc x p : crc32_ref crc (x :: p) = crc32_ref (crc_byte x crc) p.
Proof. reflexivity. Qed.

Lemma crc32_le_ref align crc p : bytes_ok p -> crc32_le align crc p = crc32_ref crc p.
Proof.
  intros Hok. rewrite crc32_le_bytes by done. revert crc.
  induction Hok as [| x p Hx _ IH]; intros crc; [reflexivity |].
  rewrite crc_fold_cons, crc32_ref_cons, DO_CRC_correct by done. exact (IH _).
Qed.

(** ** Error detection *)

(** The top bytes of the table entries are all different. *)
Lemma table_top_inj i j : 0 <= i < 256 -> 0 <= j < 256 ->
  Z.shiftr (tab i) 24 = Z.shiftr (tab j) 24 -> i = j.
Proof.
  intros Hi Hj E. assert (H : forallb (fun i => forallb (fun j =>
      (i =? j) || negb (Z.shiftr (tab i) 24 =? Z.shiftr (tab j) 24)) bytes256) bytes256 = true)
    by (by vm_compute).
  assert (Hin : forall k, 0 <= k < 256 -> In k bytes256).
  { intros k Hk. apply list_elem_of_In, elem_of_seqZ. lia. }
  rewrite forallb_forall in H. specialize (H i (Hin i Hi)). rewrite forallb_forall in H.
  specialize (H j (Hin j Hj)). rewrite E, Z.eqb_refl, orb_false_r in H. by apply Z.eqb_eq.
Qed.

#[local] Opaque tab.

Definition crc_ok (crc : Z) : Prop := 0 <= crc < 2 ^ 32.

Lemma shiftr8_range crc : crc_ok crc -> 0 <= Z.shiftr crc 8 < 2 ^ 24.
Proof.
  intros H. rewrite Z.shiftr_div_pow2 by lia. unfold crc_ok in H.
  split; [apply Z.div_pos; lia | apply Z.div_lt_upper_bound; lia].
Qed.

Lemma shiftr_24_zero v : 0 <= v < 2 ^ 24 -> Z.shiftr v 24 = 0.
Proof. intros H. rewrite Z.shiftr_div_pow2 by lia. by apply Z.div_small. Qed.

Lemma lxor_bound w a b : 0 <= w -> 0 <= a < 2 ^ w -> 0 <= b < 2 ^ w -> 0 <= Z.lxor a b < 2 ^ w.
Proof.
  intros Hw Ha Hb. assert (0 <= Z.lxor a b) by (apply Z.lxor_nonneg; lia). split; [done |].
  destruct (Z.eq_dec (Z.lxor a b) 0) as [-> |]; [lia |]. apply Z.log2_lt_pow2; [lia |].
  eapply Z.le_lt_trans; [apply Z.log2_lxor; lia |].
  assert (L : forall v, 0 <= v < 2 ^ w -> Z.log2 v < w \/ w = 0).
  { intros v Hv. destruct (Z.eq_dec w 0); [by right | left].
    destruct (Z.eq_dec v 0) as [-> |]; [cbn; lia |]. apply Z.log2_lt_pow2; lia. }
  destruct (Z.eq_dec w 0) as [-> | Hw0]; [assert (a = 0) as -> by lia; assert (b = 0) as -> by lia; done |].
  destruct (L a Ha), (L b Hb); lia.
Qed.

Lemma DO_CRC_ok x crc : crc_ok crc -> crc_ok (DO_CRC x crc).
Proof.
  intros H. apply lxor_bound; [lia | apply table_correct, land_255_range |].
  pose proof (shiftr8_range crc H). lia.
Qed.

(** A step determines both the index it used and the register it started from. *)
Lemma DO_CRC_inj x y a b : byte_ok x -> byte_ok y -> crc_ok a -> crc_ok b ->
  DO_CRC x a = DO_CRC y b -> Z.land (Z.lxor a x) 255 = Z.land (Z.lxor b y) 255 /\
    Z.shiftr a 8 = Z.shiftr b 8.
Proof.
  intros Hx Hy Ha Hb E. unfold DO_CRC in E.
  assert (I : Z.land (Z.lxor a x) 255 = Z.land (Z.lxor b y) 255).
  { apply table_top_inj; [apply land_255_range.. |].
    apply (f_equal (fun v => Z.shiftr v 24)) in E. rewrite !Z.shiftr_lxor in E.
    by rewrite !(shiftr_24_zero (Z.shiftr _ 8)), !Z.lxor_0_r in E by (by apply shiftr8_range). }
  split; [done |]. rewrite I in E.
  apply (f_equal (Z.lxor (tab (Z.land (Z.lxor b y) 255)))) in E.
  by rewrite <- !Z.lxor_assoc, !Z.lxor_nilpotent, !Z.lxor_0_l in E.
Qed.

Lemma low_byte_lxor a x : byte_ok x -> Z.land (Z.lxor a x) 255 = Z.lxor (Z.land a 255) x.
Proof.
  intros Hx. apply Z.bits_inj'. intros n Hn. rewrite !Z.land_spec, !Z.lxor_spec, Z.land_spec.
  change 255 with (Z.ones 8). rewrite Z.testbit_ones_nonneg by lia.
  destruct (Z.ltb_spec n 8); [by rewrite !andb_true_r |]. by rewrite !andb_false_r, byte_bits_high.
Qed.

Lemma crc_step_inj_crc x a b : byte_ok x -> crc_ok a -> crc_ok b ->
  DO_CRC x a = DO_CRC x b -> a = b.
Proof.
  intros Hx Ha Hb E. apply DO_CRC_inj in E as [E1 E2]; [| done..].
  rewrite !low_byte_lxor in E1 by done.
  assert (L : Z.land a 255 = Z.land b 255).
  { apply (f_equal (fun v => Z.lxor v x)) in E1.
    by rewrite !Z.lxor_assoc, !Z.lxor_nilpotent, !Z.lxor_0_r in E1. }
  by rewrite (split_low_byte a), (split_low_byte b), L, E2.
Qed.

Lemma crc_step_inj_byte x y a : byte_ok x -> byte_ok y -> crc_ok a ->
  DO_CRC x a = DO_CRC y a -> x = y.
Proof.
  intros Hx Hy Ha E. apply DO_CRC_inj in E as [E1 _]; [| done..].
  rewrite !low_byte_lxor in E1 by done.
  apply (f_equal (Z.lxor (Z.land a 255))) in E1.
  by rewrite <- !Z.lxor_assoc, !Z.lxor_nilpotent, !Z.lxor_0_l in E1.
Qed.

Lemma crc_fold_ok p crc : crc_ok crc -> crc_ok (fold_left crc_step p crc).
Proof. revert crc. induction p; intros; cbn; [done |]. by apply IHp, DO_CRC_ok. Qed.

Lemma crc_fold_inj p a b : bytes_ok p -> crc_ok a -> crc_ok b ->
  fold_left crc_step p a = fold_left crc_step p b -> a = b.
Proof.
  revert a b. induction p as [| x p IH]; intros a b Hok Ha Hb E; cbn in E; [done |].
  inversion_clear Hok. apply IH in E; [| done | by apply DO_CRC_ok..].
  by apply (crc_step_inj_crc x).
Qed.

(** Replacing one byte by a different one always changes the CRC. *)
Lemma crc32_detects_byte align align' crc p i x y :
  bytes_ok p -> crc_ok crc -> p !! i = Some x -> byte_ok y -> x <> y ->
  crc32_le align crc p <> crc32_le align' crc (<[i := y]> p).
Proof.
  intros Hok Hcrc Hi Hy Hne E.
  rewrite !crc32_le_bytes in E by (try apply bytes_ok_insert; done).
  assert (Hx : byte_ok x) by (by eapply bytes_ok_lookup).
  rewrite (insert_take_drop p i y) in E by (by eapply lookup_lt_Some).
  rewrite <- (take_drop_middle p i x Hi) in E at 1. rewrite !fold_left_app in E. cbn [fold_left] in E.
  pose proof (crc_fold_ok (take i p) crc Hcrc) as Ha.
  apply crc_fold_inj in E; [| by apply bytes_ok_drop | by apply DO_CRC_ok..].
  apply Hne. by eapply crc_step_inj_byte.
Qed.

(** ** Results *)

Lemma crc32_app align align' align'' crc p q : bytes_ok p -> bytes_ok q ->
  crc32_le align crc (p ++ q) = crc32_le align'' (crc32_le align' crc p) q.
Proof.
  intros Hp Hq. rewrite !crc32_le_bytes by (done || by apply Forall_app). apply fold_left_app.
Qed.

(** C25: for every buffer and every alignment of its address, [crc32_le]
    computes the bit-at-a-time CRC of IEEE 802.3, and it can be continued from
    the value of a first part. *)
Theorem crc32_le_equals_bitwise align align' crc p q :
  bytes_ok p -> bytes_ok q ->
  crc32_le align crc p = crc32_ref crc p /\
  crc32_le align crc (p ++ q) = crc32_le align' (crc32_le align crc p) q.
Proof. intros Hp Hq. split; [by apply crc32_le_ref | by apply crc32_app]. Qed.

(** The check value of the CRC-32 catalogue: the ASCII string "123456789"
    gives 0xCBF43926 after the final inversion. *)
Lemma crc32_le_equals_bitwise_witness :
  crc32_le 1 0xffffffff [49; 50; 51; 52; 53; 54; 55; 56; 57] = Z.lxor 0xCBF43926 0xffffffff /\
  crc32_le 1 0xffffffff ([49; 50; 51; 52; 53; 54; 55; 56; 57] ++ [0; 255]) =
  crc32_le 3 (crc32_le 1 0xffffffff [49; 50; 51; 52; 53; 54; 55; 56; 57]) [0; 255].
Proof.
  assert (H : bytes_ok [49; 50; 51; 52; 53; 54; 55; 56; 57]) by (repeat constructor; unfold byte_ok; lia).
  assert (H' : bytes_ok [0; 255]) by (repeat constructor; unfold byte_ok; lia).
  destruct (crc32_le_equals_bitwise 1 3 0xffffffff _ _ H H') as [E1 E2].
  split; [rewrite E1; vm_compute; reflexivity | exact E2].
Defined.

(** C26: the CRC detects every change confined to one byte, whatever the
    alignments of the two buffers. *)
Theorem crc32_detects_one_byte_change align align' crc p i x y :
  bytes_ok p -> crc_ok crc -> p !! i = Some x -> byte_ok y -> x <> y ->
  crc32_le align crc p <> crc32_le align' crc (<[i := y]> p).
Proof. apply crc32_detects_byte. Qed.

Lemma crc32_detects_one_byte_change_witness :
  crc32_le 0 0xffffffff [1; 2; 3; 4; 5; 6; 7] <> crc32_le 2 0xffffffff (<[3%nat := 9]> [1; 2; 3; 4; 5; 6; 7]).
Proof.
  apply (crc32_detects_one_byte_change 0 2 0xffffffff [1; 2; 3; 4; 5; 6; 7] 3 4 9).
  - repeat constructor; unfold byte_ok; lia.
  - unfold crc_ok. lia.
  - reflexivity.
  - unfold byte_ok. lia.
  - lia.
Defined.
