(* ===== verification/Blockcheck.v ===== *)
(** Block checks of [libocfs2/blockcheck.c]: the CRC and the error-correcting
    code stored in a [struct ocfs2_block_check] inside the block they protect.

    A block is the list of its bytes, so [blocksize] is its length; [bc] is
    the offset of the check structure in it.  The structure is 8 bytes:
    [bc_crc32e] (32 bits), [bc_ecc] (16 bits), [bc_reserved1] (16 bits), all
    little-endian.  [align] is the address of the block modulo 4, which only
    decides how [crc32_le] walks it. *)

From S2P Require Import Prelude Bitops Hamming Crc32.

(** ** The code *)

Definition sizeof_block_check : nat := 8.

(** [memset(bc, 0, sizeof(struct ocfs2_block_check))] *)
Definition zero_check (data : list Z) (bc : Z) : res (list Z) :=
  put_bytes data bc (replicate sizeof_block_check 0).

Definition put_crc32e (data : list Z) (bc crc : Z) : res (list Z) := put_le 4 data bc crc.
Definition put_ecc (data : list Z) (bc ecc : Z) : res (list Z) := put_le 2 data (bc + 4) ecc.

Section Blocks.
Context (align : Z).

Definition ocfs2_block_check_compute (data : list Z) (bc : Z) : res (list Z) :=
  data ← zero_check data bc;
  let crc := crc32_le align 0xffffffff data in
  ecc ← ocfs2_hamming_encode_block data (zlen data);
  data ← put_crc32e data bc crc;
  put_ecc data bc (u16 ecc).

(** The exit of [validate]: the stored codes are put back. *)
Definition restore_check (err : option errcode) (data : list Z) (bc crc ecc : Z) :
    res (option errcode * list Z) :=
  data ← put_crc32e data bc crc;
  data ← put_ecc data bc ecc;
  mret (err, data).

(** Returns the error, [None] for 0, and the block, which it may have
    corrected. *)
Definition ocfs2_block_check_validate (data : list Z) (bc : Z) : res (option errcode * list Z) :=
  check_crc ← get_le 4 data bc;
  check_ecc ← get_le 2 data (bc + 4);
  data ← zero_check data bc;
  if crc32_le align 0xffffffff data =? check_crc then restore_check None data bc check_crc check_ecc
  else
  ecc ← ocfs2_hamming_encode_block data (zlen data);
  data ← ocfs2_hamming_fix_block data (zlen data) (Z.lxor ecc check_ecc);
  if crc32_le align 0xffffffff data =? check_crc then restore_check None data bc check_crc check_ecc
  else restore_check (Some OCFS2_ET_IO) data bc check_crc check_ecc.

(** The main API, guarded by the superblock's feature bit [meta_ecc]. *)
Definition ocfs2_compute_meta_ecc (meta_ecc : bool) (data : list Z) (bc : Z) : res (list Z) :=
  if meta_ecc then ocfs2_block_check_compute data bc else mret data.

Definition ocfs2_validate_meta_ecc (meta_ecc : bool) (data : list Z) (bc : Z) :
    res (option errcode * list Z) :=
  if meta_ecc then ocfs2_block_check_validate data bc else mret (None, data).

(** ** Proofs *)

(** A block of at most [OCFS2_MAX_BLOCKSIZE] bytes with room for the check. *)
Definition block_ok (data : list Z) (bc : Z) : Prop :=
  bytes_ok data /\ 0 <= bc /\ bc + 8 <= zlen data /\ zlen data <= 4096.

Definition zeroed (data : list Z) (bc : Z) : list Z := splice (Z.to_nat bc) (replicate 8 0) data.

(** The block with given codes in its check structure. *)
Definition with_check (data : list Z) (bc crc ecc : Z) : list Z :=
  splice (Z.to_nat bc) (le_bytes 4 crc ++ le_bytes 2 ecc ++ [0; 0]) data.

Definition block_ecc (data : list Z) : Z := syndrome (bit data) 0 (Z.to_nat (8 * zlen data)).

Lemma zeros_ok n : bytes_ok (replicate n 0).
Proof. apply Forall_replicate. unfold byte_ok. lia. Qed.

Lemma zlen_splice off bs buf : (off + length bs <= length buf)%nat ->
  zlen (splice off bs buf) = zlen buf.
Proof. intros. unfold zlen. by rewrite length_splice. Qed.

Lemma zeroed_ok data bc : block_ok data bc -> block_ok (zeroed data bc) bc.
Proof.
  intros (H1 & H2 & H3 & H4). unfold block_ok, zeroed.
  rewrite zlen_splice by (rewrite length_replicate; unfold zlen in *; lia).
  split_and!; try done. by apply splice_ok; [apply zeros_ok |].
Qed.

Lemma zero_check_ok data bc : block_ok data bc -> zero_check data bc = Ok (zeroed data bc).
Proof.
  intros (H1 & H2 & H3 & H4). unfold zero_check, sizeof_block_check.
  apply put_bytes_ok; [lia |]. unfold zlen at 1. rewrite length_replicate. lia.
Qed.

(** Storing the two codes in a zeroed check structure. *)
Lemma splice_adjacent off a b c buf : (off + length a + length b + length c <= length buf)%nat ->
  splice (off + length a) b (splice off a (splice off (replicate (length a + length b) 0 ++ c) buf))
  = splice off (a ++ b ++ c) buf.
Proof.
  intros H. set (z := replicate _ 0 ++ c).
  assert (Lz : length z = (length a + length b + length c)%nat)
    by (unfold z; by rewrite length_app, length_replicate).
  assert (L1 : length (splice off z buf) = length buf) by (apply length_splice; lia).
  assert (L2 : length (splice off a (splice off z buf)) = length buf) by (rewrite length_splice; lia).
  apply list_eq. intros i. rewrite !lookup_splice by (rewrite ?length_app; lia).
  rewrite !length_app, Lz. unfold z.
  repeat destruct (decide _); try lia; try done.
  - rewrite lookup_app_r, lookup_app_l by lia. f_equal. lia.
  - by rewrite lookup_app_l by lia.
  - rewrite !lookup_app_r by (rewrite ?length_replicate; lia). rewrite length_replicate. f_equal. lia.
Qed.

Lemma store_codes data bc crc ecc : block_ok data bc ->
  (data ← put_crc32e (zeroed data bc) bc crc; put_ecc data bc ecc) = Ok (with_check data bc crc ecc).
Proof.
  intros H. destruct (zeroed_ok _ _ H) as (Z1 & Z2 & Z3 & Z4). destruct H as (H1 & H2 & H3 & H4).
  unfold put_crc32e, put_ecc, put_le.
  rewrite put_bytes_ok; [| lia | unfold zlen at 1; rewrite length_le_bytes; lia].
  assert (Hl : (Z.to_nat bc + 8 <= length data)%nat) by (unfold zlen in *; lia).
  rewrite bind_Ok, put_bytes_ok; [| lia |].
  2: { rewrite zlen_splice by (rewrite length_le_bytes; unfold zlen in *; lia).
       unfold zlen at 1. rewrite length_le_bytes. lia. }
  f_equal. unfold zeroed, with_check.
  pose proof (splice_adjacent (Z.to_nat bc) (le_bytes 4 crc) (le_bytes 2 ecc) [0; 0] data) as E.
  rewrite !length_le_bytes in E. cbn [length Nat.add] in E.
  replace (Z.to_nat (bc + 4)) with (Z.to_nat bc + 4)%nat by lia.
  rewrite <- E by lia. done.
Qed.

Lemma with_check_ok data bc crc ecc : block_ok data bc ->
  block_ok (with_check data bc crc ecc) bc /\ zeroed (with_check data bc crc ecc) bc = zeroed data bc.
Proof.
  intros (H1 & H2 & H3 & H4). assert (Hl : (Z.to_nat bc + 8 <= length data)%nat) by (unfold zlen in *; lia).
  assert (L : length (le_bytes 4 crc ++ le_bytes 2 ecc ++ [0; 0]) = 8%nat).
  { by rewrite !length_app, !length_le_bytes. }
  unfold block_ok, with_check, zeroed. split.
  - rewrite zlen_splice by (rewrite L; lia). split_and!; try done. apply splice_ok; [| done].
    apply Forall_app. split; [apply le_bytes_ok |]. apply Forall_app. split; [apply le_bytes_ok |].
    apply (zeros_ok 2).
  - apply splice_splice; [| by rewrite L]. rewrite length_replicate. lia.
Qed.

Lemma slice_splice_inner off k n bs buf : (off + length bs <= length buf)%nat -> (k + n <= length bs)%nat ->
  slice (off + k) n (splice off bs buf) = slice k n bs.
Proof.
  intros H Hk. apply list_eq. intros i. rewrite !lookup_slice.
  destruct (decide (i < n)%nat); [| done]. rewrite lookup_splice, decide_True by lia. f_equal. lia.
Qed.

(** Reading the codes back. *)
Lemma with_check_fields data bc crc ecc : block_ok data bc -> 0 <= crc < 2 ^ 32 -> 0 <= ecc < 2 ^ 16 ->
  get_le 4 (with_check data bc crc ecc) bc = Ok crc /\
  get_le 2 (with_check data bc crc ecc) (bc + 4) = Ok ecc.
Proof.
  intros H Hc He. destruct (with_check_ok data bc crc ecc H) as [(W1 & W2 & W3 & W4) _].
  destruct H as (H1 & H2 & H3 & H4). rewrite !get_le_ok by lia. unfold with_check.
  assert (L : length (le_bytes 4 crc ++ le_bytes 2 ecc ++ [0; 0]) = 8%nat)
    by (by rewrite !length_app, !length_le_bytes).
  replace (Z.to_nat (bc + 4)) with (Z.to_nat bc + 4)%nat by lia.
  rewrite <- (Nat.add_0_r (Z.to_nat bc)) at 1. unfold zlen in *.
  rewrite !slice_splice_inner by (rewrite ?L; lia). unfold slice. split; f_equal.
  - rewrite drop_0, take_app_length' by (by rewrite length_le_bytes). by apply word_le_bytes.
  - rewrite drop_app_length', take_app_length' by (by rewrite length_le_bytes). by apply word_le_bytes.
Qed.

(** The parity vector of a block fits 16 bits. *)
Lemma syndrome_range f n p : 0 <= p -> (forall i, 0 <= i < Z.of_nat n -> 0 <= code_bit i < 2 ^ p) ->
  0 <= syndrome f 0 n < 2 ^ p.
Proof.
  intros Hp. assert (0 < 2 ^ p) by (apply Z.pow_pos_nonneg; lia).
  induction n as [| n IH]; intros H'; cbn [syndrome]; [lia |].
  apply lxor_bound; [done | apply IH; intros; apply H'; lia |].
  rewrite Z.add_0_l. destruct (f _); [apply H'; lia | lia].
Qed.

Lemma block_ecc_range data : zlen data <= 4096 -> 0 <= block_ecc data < 2 ^ 16.
Proof.
  intros H. apply syndrome_range; [lia |]. intros i Hi. pose proof (zlen_nonneg data).
  assert (Di : data_bit i) by (unfold data_bit; lia).
  pose proof (code_bit_range i Di). pose proof (code_bit_fits 32768 i ltac:(lia) ltac:(lia)) as Hf.
  change (parity_before (32768 - 1)) with 16 in Hf. lia.
Qed.

Lemma encode_block_spec data : bytes_ok data -> 0 < zlen data <= 4096 ->
  ocfs2_hamming_encode_block data (zlen data) = Ok (block_ecc data).
Proof.
  intros Hok Hl. unfold ocfs2_hamming_encode_block. rewrite u32_small by lia.
  rewrite hamming_encode_spec, Z.lxor_0_l by (lia || done). unfold block_ecc. by rewrite Z.mul_comm.
Qed.

Definition block_crc (data : list Z) : Z := crc32_le align 0xffffffff data.

Lemma block_crc_range data : bytes_ok data -> 0 <= block_crc data < 2 ^ 32.
Proof.
  intros Hok. unfold block_crc. rewrite crc32_le_bytes by done.
  apply crc_fold_ok. unfold crc_ok. lia.
Qed.

Lemma compute_spec data bc : block_ok data bc ->
  ocfs2_block_check_compute data bc =
  Ok (with_check data bc (block_crc (zeroed data bc)) (block_ecc (zeroed data bc))).
Proof.
  intros H. unfold ocfs2_block_check_compute.
  destruct (zeroed_ok _ _ H) as (Z1 & Z2 & Z3 & Z4).
  rewrite zero_check_ok, bind_Ok, encode_block_spec, bind_Ok by (done || lia).
  pose proof (block_ecc_range (zeroed data bc) Z4). rewrite u16_small by lia.
  by apply store_codes.
Qed.

Lemma restore_spec err data bc crc ecc : block_ok data bc ->
  restore_check err (zeroed data bc) bc crc ecc = Ok (err, with_check data bc crc ecc).
Proof.
  intros H. pose proof (store_codes data bc crc ecc H) as E. unfold restore_check.
  apply bind_Ok_inv in E as (d & -> & E). by rewrite bind_Ok, E.
Qed.

(** The fast path: the stored CRC matches. *)
Lemma validate_match data bc ecc : block_ok data bc -> 0 <= ecc < 2 ^ 16 ->
  let x := with_check data bc (block_crc (zeroed data bc)) ecc in
  ocfs2_block_check_validate x bc = Ok (None, x).
Proof.
  intros H He x. destruct (zeroed_ok _ _ H) as (Z1 & Z2 & Z3 & Z4).
  pose proof (block_crc_range _ Z1).
  destruct (with_check_fields data bc (block_crc (zeroed data bc)) ecc) as [F1 F2]; [done.. |].
  destruct (with_check_ok data bc (block_crc (zeroed data bc)) ecc H) as [X1 X2].
  unfold ocfs2_block_check_validate, x. rewrite F1, bind_Ok, F2, bind_Ok, zero_check_ok, bind_Ok by done.
  rewrite X2. fold (block_crc (zeroed data bc)). rewrite Z.eqb_refl. by apply restore_spec.
Qed.

(** The slow path, in terms of what the corrector makes of the zeroed block. *)
Lemma validate_mismatch data bc crc ecc z :
  block_ok data bc -> 0 <= crc < 2 ^ 32 -> 0 <= ecc < 2 ^ 16 ->
  block_crc (zeroed data bc) <> crc ->
  ocfs2_hamming_fix (zeroed data bc) (8 * zlen data) 0 (Z.lxor (block_ecc (zeroed data bc)) ecc) = Ok z ->
  ocfs2_block_check_validate (with_check data bc crc ecc) bc =
  restore_check (if block_crc z =? crc then None else Some OCFS2_ET_IO) z bc crc ecc.
Proof.
  intros H Hc He Hne Hfix. destruct (zeroed_ok _ _ H) as (Z1 & Z2 & Z3 & Z4).
  destruct (with_check_fields data bc crc ecc) as [F1 F2]; [done.. |].
  destruct (with_check_ok data bc crc ecc H) as [X1 X2].
  unfold ocfs2_block_check_validate. rewrite F1, bind_Ok, F2, bind_Ok, zero_check_ok, bind_Ok by done.
  rewrite X2. fold (block_crc (zeroed data bc)).
  destruct (Z.eqb_spec (block_crc (zeroed data bc)) crc); [done |].
  assert (zlen (zeroed data bc) = zlen data) as Zl.
  { unfold zeroed. destruct H as (_ & ? & ? & _).
    apply zlen_splice. rewrite length_replicate. unfold zlen in *. lia. }
  rewrite encode_block_spec, bind_Ok by (done || lia). unfold ocfs2_hamming_fix_block.
  rewrite u32_small by lia. rewrite Zl, (Z.mul_comm (zlen data)), Hfix, bind_Ok.
  fold (block_crc z). by destruct (block_crc z =? crc).
Qed.

(** An inverted bit outside the check structure commutes with the stores. *)
Definition outside_check (bc t : Z) : Prop := t < 8 * bc \/ 8 * (bc + 8) <= t.

Lemma splice_flip off bs data t : (off + length bs <= length data)%nat -> 0 <= t ->
  t < 8 * Z.of_nat off \/ 8 * (Z.of_nat off + zlen bs) <= t ->
  splice off bs (flip_bit t data) = flip_bit t (splice off bs data).
Proof.
  intros H Ht Ho. assert (Hi : ~ (off <= Z.to_nat (t / 8) < off + length bs)%nat).
  { assert (0 <= t / 8) by (apply Z.div_pos; lia). unfold zlen in *. destruct Ho.
    - assert (t / 8 < Z.of_nat off) by (apply Z.div_lt_upper_bound; lia). lia.
    - assert (Z.of_nat off + Z.of_nat (length bs) <= t / 8) by (apply Z.div_le_lower_bound; lia). lia. }
  unfold flip_bit. rewrite lookup_splice, decide_False by done.
  destruct (data !! Z.to_nat (t / 8)); [by apply splice_insert | done].
Qed.

Lemma zeroed_flip data bc t : block_ok data bc -> 0 <= t -> outside_check bc t ->
  zeroed (flip_bit t data) bc = flip_bit t (zeroed data bc).
Proof.
  intros (H1 & H2 & H3 & H4) Ht Ho. unfold outside_check, zlen in *.
  apply splice_flip; unfold zlen; rewrite ?length_replicate; lia.
Qed.

Lemma with_check_flip data bc crc ecc t : block_ok data bc -> 0 <= t -> outside_check bc t ->
  with_check (flip_bit t data) bc crc ecc = flip_bit t (with_check data bc crc ecc).
Proof.
  intros (H1 & H2 & H3 & H4) Ht Ho. unfold outside_check, zlen in *.
  assert (L : length (le_bytes 4 crc ++ le_bytes 2 ecc ++ [0; 0]) = 8%nat)
    by (by rewrite !length_app, !length_le_bytes).
  apply splice_flip; unfold zlen; rewrite ?L; lia.
Qed.

Lemma block_crc_flip data t : bytes_ok data -> 0 <= t < 8 * zlen data ->
  block_crc (flip_bit t data) <> block_crc data.
Proof.
  intros Hok Ht. pose proof (bit_index t data Ht) as Hi.
  pose proof (Z.mod_pos_bound t 8 ltac:(lia)).
  destruct (lookup_in_range data (t / 8) Hi) as [b Hb]. unfold block_crc, flip_bit. rewrite Hb.
  pose proof (bytes_ok_lookup _ _ _ Hok Hb). apply not_eq_sym.
  assert (M : 0 <= Z.shiftl 1 (t mod 8) < 256).
  { rewrite Z.shiftl_1_l. split; [apply Z.pow_nonneg; lia |].
    change 256 with (2 ^ 8). apply Z.pow_lt_mono_r; lia. }
  eapply crc32_detects_byte; [done | unfold crc_ok; lia | done | by apply lxor_byte |].
  intros E. apply (f_equal (Z.lxor b)) in E.
  rewrite Z.lxor_nilpotent, <- Z.lxor_assoc, Z.lxor_nilpotent, Z.lxor_0_l in E.
  rewrite Z.shiftl_1_l in E. pose proof (Z.pow_nonzero 2 (t mod 8)). lia.
Qed.

Lemma flip_block_ok data bc t : block_ok data bc -> 0 <= t < 8 * zlen data -> block_ok (flip_bit t data) bc.
Proof.
  intros (H1 & H2 & H3 & H4) Ht. destruct (flip_bit_flipped t data H1 Ht) as (F1 & F2 & _).
  unfold block_ok, zlen in *. rewrite F2. done.
Qed.

(** Overwriting one of the stored codes. *)
Lemma splice_head off a a' r buf : (off + length a + length r <= length buf)%nat ->
  length a = length a' -> splice off a' (splice off (a ++ r) buf) = splice off (a' ++ r) buf.
Proof.
  intros H E. apply list_eq. intros i.
  assert (L : length (splice off (a ++ r) buf) = length buf) by (apply length_splice; rewrite length_app; lia).
  rewrite !lookup_splice by (rewrite ?L, ?length_app; lia). rewrite !length_app.
  repeat destruct (decide _); try lia; try done.
  - by rewrite lookup_app_l by lia.
  - rewrite !lookup_app_r by lia. f_equal. lia.
Qed.

Lemma put_crc32e_with data bc crc crc' ecc : block_ok data bc ->
  put_crc32e (with_check data bc crc ecc) bc crc' = Ok (with_check data bc crc' ecc).
Proof.
  intros H. destruct (with_check_ok data bc crc ecc H) as [(W1 & W2 & W3 & W4) _].
  destruct H as (H1 & H2 & H3 & H4). unfold put_crc32e, put_le.
  rewrite put_bytes_ok; [| lia | unfold zlen at 1; rewrite length_le_bytes; lia].
  f_equal. unfold with_check. apply splice_head; [| by rewrite !length_le_bytes].
  rewrite length_app, !length_le_bytes. cbn. unfold zlen in *. lia.
Qed.

Lemma word_range l : bytes_ok l -> 0 <= word l < 256 ^ zlen l.
Proof.
  induction 1 as [| b l Hb _ IH]; [vm_compute; split; [discriminate | reflexivity] |]. cbn [word foldr]. fold (word l).
  rewrite cat_add, zlen_cons, Z.pow_add_r by (done || lia || apply zlen_nonneg).
  unfold byte_ok in Hb. lia.
Qed.

Lemma field_range n buf off v : bytes_ok buf -> get_le n buf off = Ok v -> 0 <= v < 256 ^ Z.of_nat n.
Proof.
  intros Hok E. unfold get_le in E.
  destruct (Z.ltb_spec off 0), (Z.ltb_spec (zlen buf) (off + Z.of_nat n)); try discriminate.
  injection E as <-. replace (Z.of_nat n) with (zlen (slice (Z.to_nat off) n buf)).
  - apply word_range. unfold slice. apply Forall_take, Forall_drop, Hok.
  - unfold zlen, slice in *. rewrite length_take, length_drop. lia.
Qed.

Lemma restore_total err z bc crc ecc : block_ok z bc -> exists data',
  restore_check err z bc crc ecc = Ok (err, data') /\
  (d ← put_crc32e z bc crc; put_ecc d bc ecc) = Ok data' /\ length data' = length z.
Proof.
  intros (H1 & H2 & H3 & H4). unfold restore_check, put_crc32e, put_ecc, put_le.
  rewrite put_bytes_ok, !bind_Ok; [| lia | unfold zlen at 1; rewrite length_le_bytes; lia].
  assert (L : length (splice (Z.to_nat bc) (le_bytes 4 crc) z) = length z).
  { apply length_splice. rewrite length_le_bytes. unfold zlen in *. lia. }
  rewrite put_bytes_ok, bind_Ok; [| lia | unfold zlen in *; rewrite L, length_le_bytes; lia].
  eexists. split; [done | split; [done |]]. rewrite length_splice; [done |].
  rewrite length_le_bytes, L. unfold zlen in *. lia.
Qed.

Lemma validate_unfold data bc : block_ok data bc -> exists crc ecc z,
  get_le 4 data bc = Ok crc /\ get_le 2 data (bc + 4) = Ok ecc /\ block_ok z bc /\
  length z = length data /\
  (z = zeroed data bc \/ exists t, 0 <= t < 8 * zlen data /\ flipped t (zeroed data bc) z) /\
  ocfs2_block_check_validate data bc =
    restore_check (if block_crc z =? crc then None else Some OCFS2_ET_IO) z bc crc ecc.
Proof.
  intros H. pose proof (zeroed_ok _ _ H) as Hz. pose proof Hz as (Z1 & Z2 & Z3 & Z4).
  pose proof H as (H1 & H2 & H3 & H4).
  assert (Lz : length (zeroed data bc) = length data).
  { apply length_splice. rewrite length_replicate. unfold zlen in *. lia. }
  assert (Zz : zlen (zeroed data bc) = zlen data) by (unfold zlen; by rewrite Lz).
  unfold ocfs2_block_check_validate. rewrite !get_le_ok, !bind_Ok, zero_check_ok, bind_Ok by (done || lia).
  eexists _, _. pose proof (get_le_ok 2 data (bc + 4) ltac:(lia) ltac:(lia)) as Ee.
  apply field_range in Ee; [| done]. set (ecc := word (slice _ 2 data)) in *.
  fold (block_crc (zeroed data bc)).
  destruct (Z.eqb_spec (block_crc (zeroed data bc)) (word (slice (Z.to_nat bc) 4 data))) as [E | NE].
  { exists (zeroed data bc). split_and!; try done; [by left |]. by rewrite E, Z.eqb_refl. }
  rewrite encode_block_spec, bind_Ok by (done || lia). unfold ocfs2_hamming_fix_block.
  rewrite u32_small, Zz by lia. pose proof (block_ecc_range (zeroed data bc) Z4).
  destruct (hamming_fix_total (zeroed data bc) (zlen data * 8) 0 (Z.lxor (block_ecc (zeroed data bc)) ecc))
    as (z & E & Hfl); [done | lia.. | |].
  { assert (0 <= Z.lxor (block_ecc (zeroed data bc)) ecc < 2 ^ 16); [apply lxor_bound; lia | lia]. }
  rewrite E, bind_Ok. fold (block_crc z). exists z.
  assert (bytes_ok z /\ length z = length data) as [Hzok Lz'].
  { destruct Hfl as [-> | (t & _ & F1 & F2 & _)]; [done | split; [done | congruence]]. }
  assert (block_ok z bc) by (unfold block_ok, zlen in *; by rewrite Lz').
  split; [done | split; [done | split; [done | split; [done | split]]]].
  - destruct Hfl as [-> | (t & Ht & F)]; [by left | right]. exists t. split; [lia | done].
  - by destruct (block_crc z =? _).
Qed.
End Blocks.

(** ** Results *)

(** C20: a block whose check was just computed validates, unchanged. *)
Theorem block_check_roundtrip align align' data bc :
  block_ok data bc ->
  exists x, ocfs2_block_check_compute align data bc = Ok x /\ length x = length data /\
    ocfs2_block_check_validate align' x bc = Ok (None, x).
Proof.
  intros H. rewrite compute_spec by done. eexists. split; [done |].
  destruct (zeroed_ok _ _ H) as (Z1 & Z2 & Z3 & Z4). split.
  { unfold with_check. apply length_splice. destruct H as (_ & ? & ? & _).
    rewrite !length_app, !length_le_bytes. cbn. unfold zlen in *. lia. }
  pose proof (block_ecc_range (zeroed data bc) Z4).
  pose proof (validate_match align' data bc (block_ecc (zeroed data bc)) H ltac:(lia)) as E.
  unfold block_crc in *. rewrite !crc32_le_bytes in * by done. exact E.
Qed.

Definition sample_block : list Z := [1; 2; 3; 4; 5; 6; 7; 8; 9; 10; 11; 12; 13; 14; 15; 16].

Lemma sample_block_ok : block_ok sample_block 4.
Proof. split_and!; try (vm_compute; done). repeat constructor; unfold byte_ok; lia. Qed.

Lemma block_check_roundtrip_witness :
  exists x, ocfs2_block_check_compute 0 sample_block 4 = Ok x /\ length x = length sample_block /\
    ocfs2_block_check_validate 2 x 4 = Ok (None, x).
Proof. apply block_check_roundtrip, sample_block_ok. Defined.

(** C19: validation repairs every single inverted bit outside the check
    structure: it reports success and returns the block that was written. *)
Theorem block_check_corrects_one_bit align align' data bc t :
  block_ok data bc -> 0 <= t < 8 * zlen data -> outside_check bc t ->
  exists x, ocfs2_block_check_compute align data bc = Ok x /\
    ocfs2_block_check_validate align' (flip_bit t x) bc = Ok (None, x).
Proof.
  intros H Ht Ho. rewrite compute_spec by done. eexists. split; [done |].
  pose proof (zeroed_ok _ _ H) as (Z1 & Z2 & Z3 & Z4).
  assert (zlen (zeroed data bc) = zlen data) as Zz.
  { unfold zeroed. destruct H as (_ & ? & ? & _). apply zlen_splice.
    rewrite length_replicate. unfold zlen in *. lia. }
  assert (A : block_crc align (zeroed data bc) = block_crc align' (zeroed data bc)).
  { unfold block_crc. by rewrite !crc32_le_bytes. }
  rewrite A, <- with_check_flip by (done || lia).
  pose proof (block_ecc_range (zeroed data bc) Z4). pose proof (block_crc_range align' _ Z1).
  pose proof (flip_block_ok data bc t H Ht) as Hf.
  rewrite (validate_mismatch align' (flip_bit t data) bc _ _ (zeroed data bc)); try done.
  - rewrite Z.eqb_refl. by apply restore_spec.
  - rewrite zeroed_flip by (done || lia). apply block_crc_flip; [done | lia].
  - assert (zlen (flip_bit t data) = zlen data) as ->.
    { destruct H as (? & _). destruct (flip_bit_flipped t data) as (_ & L & _); [done.. |]. unfold zlen. by rewrite L. }
    rewrite zeroed_flip by (done || lia).
    destruct (hamming_corrects (zeroed data bc) (8 * zlen data) 0 t 0) as (e & e' & E & E' & Hfix); try (done || lia).
    rewrite hamming_encode_spec, Z.lxor_0_l in E by (done || lia).
    destruct (flip_bit_flipped t (zeroed data bc)) as (F1 & F2 & _); [done | lia |].
    rewrite hamming_encode_spec, Z.lxor_0_l in E' by (unfold zlen in *; rewrite ?F2; done || lia).
    simplify_eq. unfold block_ecc. unfold zlen in *. rewrite F2, Zz. exact Hfix.
Qed.

Lemma block_check_corrects_one_bit_witness :
  exists x, ocfs2_block_check_compute 0 sample_block 4 = Ok x /\
    ocfs2_block_check_validate 0 (flip_bit 3 x) 4 = Ok (None, x).
Proof.
  apply block_check_corrects_one_bit; [apply sample_block_ok | vm_compute; split; done | left; lia].
Defined.

(** C21: validation is total and sound on arbitrary blocks.  It never faults;
    its candidate is the block with a zeroed check, or that block with one bit
    inverted; it succeeds exactly when the candidate has the stored CRC, fails
    with [OCFS2_ET_IO] otherwise, and leaves the candidate with the stored
    codes put back. *)
Theorem block_check_validate_sound align data bc :
  block_ok data bc ->
  exists crc ecc z err data',
    get_le 4 data bc = Ok crc /\ get_le 2 data (bc + 4) = Ok ecc /\
    (z = zeroed data bc \/ exists t, 0 <= t < 8 * zlen data /\ flipped t (zeroed data bc) z) /\
    ocfs2_block_check_validate align data bc = Ok (err, data') /\
    (d ← put_crc32e z bc crc; put_ecc d bc ecc) = Ok data' /\ length data' = length data /\
    err = (if crc32_le align 0xffffffff z =? crc then None else Some OCFS2_ET_IO).
Proof.
  intros H. destruct (validate_unfold align data bc H) as (crc & ecc & z & E1 & E2 & Hz & Lz & Hfl & ->).
  exists crc, ecc, z.
  destruct (restore_total (if block_crc align z =? crc then None else Some OCFS2_ET_IO) z bc crc ecc Hz)
    as (data' & -> & E & L).
  eexists _, data'. split_and!; try done. congruence.
Qed.

Lemma block_check_validate_sound_witness : exists crc ecc z err data',
    get_le 4 sample_block 4 = Ok crc /\ get_le 2 sample_block (4 + 4) = Ok ecc /\
    (z = zeroed sample_block 4 \/
     exists t, 0 <= t < 8 * zlen sample_block /\ flipped t (zeroed sample_block 4) z) /\
    ocfs2_block_check_validate 0 sample_block 4 = Ok (err, data') /\
    (d ← put_crc32e z 4 crc; put_ecc d 4 ecc) = Ok data' /\ length data' = length sample_block /\
    err = (if crc32_le 0 0xffffffff z =? crc then None else Some OCFS2_ET_IO).
Proof. apply block_check_validate_sound, sample_block_ok. Defined.

(** An error in the stored CRC alone is not repairable: validation reports
    [OCFS2_ET_IO] and returns the block as it was. *)
Theorem block_check_bad_stored_crc align data bc crc' :
  block_ok data bc -> 0 <= crc' < 2 ^ 32 ->
  crc' <> crc32_le align 0xffffffff (zeroed data bc) ->
  exists x x', ocfs2_block_check_compute align data bc = Ok x /\ put_crc32e x bc crc' = Ok x' /\
    ocfs2_block_check_validate align x' bc = Ok (Some OCFS2_ET_IO, x').
Proof.
  intros H Hc Hne. rewrite compute_spec by done. eexists _, _. split; [done |].
  rewrite put_crc32e_with by done. split; [done |].
  pose proof (zeroed_ok _ _ H) as (Z1 & Z2 & Z3 & Z4). pose proof H as (H1 & H2 & H3 & H4).
  pose proof (block_ecc_range (zeroed data bc) Z4). unfold block_crc.
  rewrite (validate_mismatch align data bc crc' _ (zeroed data bc)); try done.
  - unfold block_crc. destruct (Z.eqb_spec (crc32_le align 0xffffffff (zeroed data bc)) crc'); [congruence |].
    by apply restore_spec.
  - rewrite Z.lxor_nilpotent. apply hamming_fix_0; lia.
Qed.

Lemma block_check_bad_stored_crc_witness :
  exists x x', ocfs2_block_check_compute 0 sample_block 4 = Ok x /\ put_crc32e x 4 7 = Ok x' /\
    ocfs2_block_check_validate 0 x' 4 = Ok (Some OCFS2_ET_IO, x').
Proof.
  apply block_check_bad_stored_crc; [apply sample_block_ok | lia |].
  intros E. vm_compute in E. discriminate E.
Defined.
