(* ===== verification/RbTree.v ===== *)
(** Red-black trees: [libocfs2/kernel-rbtree.c] and [ocfs2/kernel-rbtree.h].

    The C code links [struct rb_node]s through [rb_left], [rb_right] and
    [rb_parent].  Here the nodes reached by the child pointers are a value of
    [tree]; a pointer to a node is the path of its ancestors, which the code
    follows with [rb_parent], together with the subtree below it.  A rotation
    rewrites the subtree at its node; [plug] closes a path into the whole
    tree.  A dereference of a null pointer is a [Fault].

    [inorder] is the abstract value of a tree.  [valid] is the red-black
    invariant. *)

From S2P Require Import Prelude.

Create HintDb rbtree.

Inductive color : Type := RB_RED | RB_BLACK.

#[global] Instance color_eq_dec : EqDecision color.
Proof. solve_decision. Defined.

(** A null pointer is [E]. *)
Inductive tree (A : Type) : Type :=
| E
| N (rb_color : color) (rb_left : tree A) (x : A) (rb_right : tree A).
Arguments E {A}.
Arguments N {A} _ _ _ _.

(** One ancestor: [FL c x r] when the path leaves it through [rb_left] (its
    right child is [r]), [FR c l x] when through [rb_right]. *)
Inductive frame (A : Type) : Type :=
| FL (rb_color : color) (x : A) (rb_right : tree A)
| FR (rb_color : color) (rb_left : tree A) (x : A).
Arguments FL {A} _ _ _.
Arguments FR {A} _ _ _.

Abbreviation path A := (list (frame A)).

Section RbTree.
Context {A : Type}.
Implicit Types (t l r node other : tree A) (p : path A).

(** ** The code *)

Definition plug1 (f : frame A) t : tree A :=
  match f with
  | FL c x r => N c t x r
  | FR c l x => N c l x t
  end.

(** The whole tree, from a node up to the root. *)
Fixpoint plug p t : tree A :=
  match p with
  | [] => t
  | f :: p => plug p (plug1 f t)
  end.

Definition frame_color (f : frame A) : color :=
  match f with FL c _ _ => c | FR c _ _ => c end.

(** [node && node->rb_color == RB_RED] *)
Definition is_red t : bool :=
  match t with N RB_RED _ _ _ => true | _ => false end.

(** [node->rb_color = c], where [node] may be null. *)
Definition set_color (c : color) t : tree A :=
  match t with
  | E => E
  | N _ l x r => N c l x r
  end.

Definition rb_rotate_left t : res (tree A) :=
  match t with
  | N c l x (N c' rl y rr) => Ok (N c' (N c l x rl) y rr)
  | _ => Fault
  end.

Definition rb_rotate_right t : res (tree A) :=
  match t with
  | N c (N c' ll y lr) x r => Ok (N c' ll y (N c lr x r))
  | _ => Fault
  end.

(** [rb_link_node]: the new red leaf at the link the search ended on. *)
Definition rb_link_node (x : A) : tree A := N RB_RED E x E.

(** [rb_insert_color]: [node] is the subtree of the node, [p] its ancestors.
    After the rotations the parent of [node] is black, so the loop ends. *)
Fixpoint rb_insert_color p node : res (tree A) :=
  match p with
  | [] => Ok (set_color RB_BLACK node)
  | f :: rest =>
      match frame_color f with
      | RB_BLACK => Ok (set_color RB_BLACK (plug p node))
      | RB_RED =>
          match rest with
          | [] => Fault
          | FL gcolor gx uncle :: rest =>
              if is_red uncle then
                rb_insert_color rest
                  (N RB_RED (set_color RB_BLACK (plug1 f node)) gx (set_color RB_BLACK uncle))
              else
                parent ← match f with
                         | FR _ _ _ => rb_rotate_left (plug1 f node)
                         | FL _ _ _ => mret (plug1 f node)
                         end;
                t ← rb_rotate_right (N RB_RED (set_color RB_BLACK parent) gx uncle);
                mret (set_color RB_BLACK (plug rest t))
          | FR gcolor uncle gx :: rest =>
              if is_red uncle then
                rb_insert_color rest
                  (N RB_RED (set_color RB_BLACK uncle) gx (set_color RB_BLACK (plug1 f node)))
              else
                parent ← match f with
                         | FL _ _ _ => rb_rotate_right (plug1 f node)
                         | FR _ _ _ => mret (plug1 f node)
                         end;
                t ← rb_rotate_left (N RB_RED uncle gx (set_color RB_BLACK parent));
                mret (set_color RB_BLACK (plug rest t))
          end
      end
  end.

(** [__rb_erase_color]: [node], possibly null, is one black short.  A round
    ends the loop or moves [node] one level up, except that a red sibling
    first pushes it one level down, after which its parent is red; so
    [2 * length p + 2] rounds are enough. *)
Fixpoint rb_erase_color_loop (fuel : nat) p node : res (tree A) :=
  match fuel with
  | O => Fault
  | S fuel =>
      if is_red node then Ok (plug p (set_color RB_BLACK node)) else
      match p with
      | [] => Ok (set_color RB_BLACK node)
      | FL pcolor px other :: rest =>
          '(pcolor, other, rest) ←
            match other with
            | E => Fault
            | N RB_RED ol oy or_ => mret (RB_RED, ol, FL RB_BLACK oy or_ :: rest)
            | N RB_BLACK _ _ _ => mret (pcolor, other, rest)
            end;
          match other with
          | E => Fault
          | N ocolor ol oy or_ =>
              if negb (is_red ol) && negb (is_red or_) then
                rb_erase_color_loop fuel rest (N pcolor node px (N RB_RED ol oy or_))
              else
                other ← (if is_red or_ then mret other
                         else rb_rotate_right (N RB_RED (set_color RB_BLACK ol) oy or_));
                match other with
                | E => Fault
                | N _ ol oy or_ =>
                    t ← rb_rotate_left (N RB_BLACK node px (N pcolor ol oy (set_color RB_BLACK or_)));
                    mret (set_color RB_BLACK (plug rest t))
                end
          end
      | FR pcolor other px :: rest =>
          '(pcolor, other, rest) ←
            match other with
            | E => Fault
            | N RB_RED ol oy or_ => mret (RB_RED, or_, FR RB_BLACK ol oy :: rest)
            | N RB_BLACK _ _ _ => mret (pcolor, other, rest)
            end;
          match other with
          | E => Fault
          | N ocolor ol oy or_ =>
              if negb (is_red ol) && negb (is_red or_) then
                rb_erase_color_loop fuel rest (N pcolor (N RB_RED ol oy or_) px node)
              else
                other ← (if is_red ol then mret other
                         else rb_rotate_left (N RB_RED ol oy (set_color RB_BLACK or_)));
                match other with
                | E => Fault
                | N _ ol oy or_ =>
                    t ← rb_rotate_right (N RB_BLACK (N pcolor (set_color RB_BLACK ol) oy or_) px node);
                    mret (set_color RB_BLACK (plug rest t))
                end
          end
      end
  end.

Definition rb_erase_color p node : res (tree A) :=
  rb_erase_color_loop (2 * length p + 2) p node.

(** [while ((left = node->rb_left) != NULL) node = left;] from the subtree
    [N c l x r] at [p]: the colour, value and right child of the node reached
    and its ancestors. *)
Fixpoint leftmost p (c : color) l (x : A) r : path A * (color * A * tree A) :=
  match l with
  | E => (p, (c, x, r))
  | N c' l' x' r' => leftmost (FL c x r :: p) c' l' x' r'
  end.

(** [color: if (color == RB_BLACK) __rb_erase_color(child, parent, root);] *)
Definition erase_tail (c : color) p child : res (tree A) :=
  match c with
  | RB_BLACK => rb_erase_color p child
  | RB_RED => Ok (plug p child)
  end.

(** [rb_erase] of the node at [p] whose subtree is [t]. *)
Definition rb_erase p t : res (tree A) :=
  match t with
  | E => Fault
  | N c l x r =>
      match l, r with
      | E, child => erase_tail c p child
      | child, E => erase_tail c p child
      | _, N rc rl rx rr =>
          (* the successor takes the place and the colour of the old node *)
          let '(_, (_, y, _)) := leftmost [] rc rl rx rr in
          let '(p', (scolor, _, child)) := leftmost (FR c l y :: p) rc rl rx rr in
          erase_tail scolor p' child
      end
  end.

(** A node pointer: ancestors and subtree. *)
Definition zipper : Type := path A * tree A.

(** [while (node->rb_left) node = node->rb_left;] and its mirror image *)
Fixpoint go_left p t : zipper :=
  match t with
  | N c l x r => match l with E => (p, t) | _ => go_left (FL c x r :: p) l end
  | E => (p, E)
  end.

Fixpoint go_right p t : zipper :=
  match t with
  | N c l x r => match r with E => (p, t) | _ => go_right (FR c l x :: p) r end
  | E => (p, E)
  end.

Definition rb_first t : option zipper :=
  match t with E => None | N _ _ _ _ => Some (go_left [] t) end.

Definition rb_last t : option zipper :=
  match t with E => None | N _ _ _ _ => Some (go_right [] t) end.

(** [while (node->rb_parent && node == node->rb_parent->rb_right)
      node = node->rb_parent; return node->rb_parent;] and its mirror image *)
Fixpoint climb_right p t : option zipper :=
  match p with
  | [] => None
  | FR c l x :: p => climb_right p (N c l x t)
  | FL c x r :: p => Some (p, N c t x r)
  end.

Fixpoint climb_left p t : option zipper :=
  match p with
  | [] => None
  | FL c x r :: p => climb_left p (N c t x r)
  | FR c l x :: p => Some (p, N c l x t)
  end.

Definition rb_next (z : zipper) : option zipper :=
  match z with
  | (p, N c l x E) => climb_right p (N c l x E)
  | (p, N c l x r) => Some (go_left (FR c l x :: p) r)
  | (_, E) => None
  end.

Definition rb_prev (z : zipper) : option zipper :=
  match z with
  | (p, N c E x r) => climb_left p (N c E x r)
  | (p, N c l x r) => Some (go_right (FL c x r :: p) l)
  | (_, E) => None
  end.

(** [rb_replace_node]: the new node takes the links and colour of the victim. *)
Definition rb_replace_node p t (new : A) : res (tree A) :=
  match t with
  | E => Fault
  | N c l _ r => Ok (plug p (N c l new r))
  end.

(** ** The abstract value *)

Fixpoint inorder t : list A :=
  match t with
  | E => []
  | N _ l x r => inorder l ++ x :: inorder r
  end.

(** What lies before and after the subtree a path leads to. *)
Fixpoint before p : list A :=
  match p with
  | [] => []
  | FL _ _ _ :: p => before p
  | FR _ l x :: p => before p ++ inorder l ++ [x]
  end.

Fixpoint after p : list A :=
  match p with
  | [] => []
  | FL _ x r :: p => x :: inorder r ++ after p
  | FR _ _ _ :: p => after p
  end.

Lemma inorder_plug p t : inorder (plug p t) = before p ++ inorder t ++ after p.
Proof.
  revert t. induction p as [| [c x r | c l x] p IH]; intros t; cbn [plug plug1 before after].
  - by rewrite app_nil_r.
  - rewrite IH. cbn [inorder]. by rewrite <- !app_assoc.
  - rewrite IH. cbn [inorder]. by rewrite <- !app_assoc.
Qed.

Lemma inorder_set_color c t : inorder (set_color c t) = inorder t.
Proof. by destruct t. Qed.

(** ** The red-black invariant *)

(** [rb t c n]: [t] has no red node with a red child, every path to a leaf
    passes [n] black nodes, and the colour of the root is [c]. *)
Inductive rb : tree A -> color -> nat -> Prop :=
| rb_leaf : rb E RB_BLACK 0
| rb_red l x r n : rb l RB_BLACK n -> rb r RB_BLACK n -> rb (N RB_RED l x r) RB_RED n
| rb_black l x r cl cr n : rb l cl n -> rb r cr n -> rb (N RB_BLACK l x r) RB_BLACK (S n).

Definition valid t : Prop := exists n, rb t RB_BLACK n.

(** [ctx p c n]: a path whose hole takes a subtree of black height [n], black
    if [c] is red.  The root counts as having a red parent: it must be black. *)
Inductive ctx : path A -> color -> nat -> Prop :=
| ctx_nil n : ctx [] RB_RED n
| ctx_FL_red x r p n : rb r RB_BLACK n -> ctx p RB_BLACK n -> ctx (FL RB_RED x r :: p) RB_RED n
| ctx_FR_red l x p n : rb l RB_BLACK n -> ctx p RB_BLACK n -> ctx (FR RB_RED l x :: p) RB_RED n
| ctx_FL_black x r cr p c n : rb r cr n -> ctx p c (S n) -> ctx (FL RB_BLACK x r :: p) RB_BLACK n
| ctx_FR_black l x cl p c n : rb l cl n -> ctx p c (S n) -> ctx (FR RB_BLACK l x :: p) RB_BLACK n.

Hint Constructors rb ctx : rbtree.

Lemma rb_color_of t c n : rb t c n -> is_red t = (if decide (c = RB_RED) then true else false).
Proof. by destruct 1. Qed.

Lemma rb_blacken t c n : rb t c n -> valid (set_color RB_BLACK t).
Proof. destruct 1; eexists; cbn; eauto with rbtree. Qed.

Lemma rb_set_black t n : rb t RB_RED n -> rb (set_color RB_BLACK t) RB_BLACK (S n).
Proof. inversion 1; subst; cbn; eauto with rbtree. Qed.

Lemma set_black_black t n : rb t RB_BLACK n -> set_color RB_BLACK t = t.
Proof. by inversion 1. Qed.

Lemma plug_valid p c n t ct : ctx p c n -> rb t ct n -> (c = RB_RED -> ct = RB_BLACK) ->
  valid (plug p t).
Proof.
  intros Hc. revert t ct. induction Hc; intros t ct Ht Hrb; cbn [plug plug1].
  - rewrite Hrb in Ht by done. by exists n.
  - rewrite Hrb in Ht by done. eapply IHHc; [by constructor | done].
  - rewrite Hrb in Ht by done. eapply IHHc; [by constructor | done].
  - eapply IHHc; [by econstructor | done].
  - eapply IHHc; [by econstructor | done].
Qed.

Lemma valid_set_black t : valid t -> set_color RB_BLACK t = t.
Proof. intros [n H]. by eapply set_black_black. Qed.

(** *** Insertion *)

(** One step of [rb_insert_color] below a red parent. *)
Lemma insert_color_step f g rest node n :
  rb node RB_RED n -> ctx (f :: g :: rest) RB_RED n -> frame_color f = RB_RED ->
  (exists gnode c, rb gnode RB_RED (S n) /\ ctx rest c (S n) /\
     rb_insert_color (f :: g :: rest) node = rb_insert_color rest gnode /\
     inorder (plug rest gnode) = inorder (plug (f :: g :: rest) node)) \/
  (exists t, rb_insert_color (f :: g :: rest) node = Ok t /\ valid t /\
     inorder t = inorder (plug (f :: g :: rest) node)).
Proof.
  intros Hn Hctx Hf. inversion Hn; subst. destruct f as [fc fx fr | fc fl fx]; cbn in Hf; subst;
    inversion Hctx as [| ? ? ? ? Hsib Hg | ? ? ? ? Hsib Hg | |]; subst; clear Hctx.
  all: inversion Hg as [| | | ? u cu ? c ? Hu Hrest | u ? cu ? c ? Hu Hrest]; subst; clear Hg.
  all: cbn [rb_insert_color frame_color]; destruct (is_red u) eqn:Eu;
    pose proof (rb_color_of _ _ _ Hu) as Ec; rewrite Eu in Ec.
  all: try (assert (cu = RB_RED) as -> by (by destruct cu)).
  all: try (assert (cu = RB_BLACK) as -> by (by destruct cu)).
  all: try (left; eexists _, c; split; [| split; [exact Hrest | split; [reflexivity |]]];
    [ apply rb_set_black in Hu; cbn [plug1 set_color]; eauto with rbtree
    | rewrite !inorder_plug; cbn [plug1 set_color inorder before after];
      rewrite inorder_set_color; by list_assoc ]; fail).
  all: right; cbn; eexists; split; [reflexivity |].
  all: match goal with |- valid (set_color _ (plug ?q ?t)) /\ _ =>
    assert (V : valid (plug q t)) by (eapply (plug_valid q c (S n)); [done | eauto with rbtree | done]) end.
  all: split; [by rewrite (valid_set_black _ V) |].
  all: rewrite inorder_set_color, !inorder_plug; cbn [plug1 inorder before after]; by list_assoc.
Qed.

Lemma insert_color_correct p c node n :
  rb node RB_RED n -> ctx p c n ->
  exists t, rb_insert_color p node = Ok t /\ valid t /\ inorder t = inorder (plug p node).
Proof.
  remember (length p) as k eqn:Hk. revert p c node n Hk.
  induction k as [k IH] using lt_wf_ind. intros p c node n Hk Hn Hctx.
  destruct p as [| f rest].
  - exists (set_color RB_BLACK node). split; [done |]. split; [by eapply rb_blacken |].
    apply inorder_set_color.
  - destruct (frame_color f) eqn:Ef.
    + destruct rest as [| g rest].
      { exfalso. destruct f; cbn in Ef; subst; inversion Hctx; subst;
          match goal with H : ctx [] RB_BLACK _ |- _ => inversion H end. }
      assert (c = RB_RED) as -> by (destruct f; cbn in Ef; subst; by inversion Hctx).
      destruct (insert_color_step f g rest node n Hn Hctx Ef)
        as [(gnode & c' & Hg & Hrest & Eq & Ei) | (t & Eq & V & Ei)].
      * destruct (IH (length rest)) with (p := rest) (c := c') (node := gnode) (n := S n)
          as (t & E1 & V & E2); [cbn in Hk; lia | done.. |].
        exists t. by rewrite Eq, E2, Ei.
      * by exists t.
    + exists (set_color RB_BLACK (plug (f :: rest) node)).
      split; [cbn [rb_insert_color]; by rewrite Ef |].
      assert (V : valid (plug (f :: rest) node)).
      { eapply plug_valid; [done.. |]. intros ->. destruct f; cbn in Ef; subst; inversion Hctx. }
      split; [by rewrite valid_set_black | apply inorder_set_color].
Qed.

(** *** Removal *)

(** [node] is one black short of the [S n] its place needs: a red node that
    blackening repairs, or a black subtree of height [n]. *)
Definition short node (n : nat) : Prop :=
  (is_red node = true /\ rb (set_color RB_BLACK node) RB_BLACK (S n)) \/ rb node RB_BLACK n.

(** The rounds with a black sibling, with the recursive call as [k]. *)
Definition erase_left_black (k : path A -> tree A -> res (tree A)) (pcolor : color) (px : A)
    ol oy or_ rest node : res (tree A) :=
  if negb (is_red ol) && negb (is_red or_) then k rest (N pcolor node px (N RB_RED ol oy or_))
  else
    other ← (if is_red or_ then mret (N RB_BLACK ol oy or_)
             else rb_rotate_right (N RB_RED (set_color RB_BLACK ol) oy or_));
    match other with
    | E => Fault
    | N _ ol oy or_ =>
        t ← rb_rotate_left (N RB_BLACK node px (N pcolor ol oy (set_color RB_BLACK or_)));
        mret (set_color RB_BLACK (plug rest t))
    end.

Definition erase_right_black (k : path A -> tree A -> res (tree A)) (pcolor : color) (px : A)
    ol oy or_ rest node : res (tree A) :=
  if negb (is_red ol) && negb (is_red or_) then k rest (N pcolor (N RB_RED ol oy or_) px node)
  else
    other ← (if is_red ol then mret (N RB_BLACK ol oy or_)
             else rb_rotate_left (N RB_RED ol oy (set_color RB_BLACK or_)));
    match other with
    | E => Fault
    | N _ ol oy or_ =>
        t ← rb_rotate_right (N RB_BLACK (N pcolor (set_color RB_BLACK ol) oy or_) px node);
        mret (set_color RB_BLACK (plug rest t))
    end.

Definition correct_at (o : res (tree A)) p node : Prop :=
  exists t, o = Ok t /\ valid t /\ inorder t = inorder (plug p node).

Lemma red_inv t c n : rb t c n -> is_red t = true ->
  c = RB_RED /\ exists l x r, t = N RB_RED l x r /\ rb l RB_BLACK n /\ rb r RB_BLACK n.
Proof. destruct 1; try discriminate. split; [done |]. eauto 10. Qed.

Lemma black_inv t c n : rb t c n -> is_red t = false -> rb t RB_BLACK n.
Proof. destruct 1; try discriminate; eauto with rbtree. Qed.

(** Closing a repaired subtree into the tree. *)
Lemma finish_valid rest c n t ct : ctx rest c n -> rb t ct n -> (c = RB_RED -> ct = RB_BLACK) ->
  correct_at (Ok (set_color RB_BLACK (plug rest t))) rest t.
Proof.
  intros Hc Ht Hcol. eexists. split; [done |]. pose proof (plug_valid _ _ _ _ _ Hc Ht Hcol) as V.
  split; [by rewrite valid_set_black | apply inorder_set_color].
Qed.

Lemma correct_at_ext o p node p' node' :
  inorder (plug p node) = inorder (plug p' node') -> correct_at o p node -> correct_at o p' node'.
Proof. intros H (t & ? & ? & ?). exists t. by rewrite <- H. Qed.

(** The colour of the parent: what its place allows for a new subtree there. *)
Lemma ctx_left_inv pc px other rest c n : ctx (FL pc px other :: rest) c n ->
  exists c' m co, ctx rest c' m /\ rb other co n /\
    ((pc = RB_RED /\ m = n /\ c' = RB_BLACK /\ co = RB_BLACK) \/ (pc = RB_BLACK /\ m = S n)).
Proof. inversion 1; subst; eauto 12. Qed.

Lemma ctx_right_inv pc px other rest c n : ctx (FR pc other px :: rest) c n ->
  exists c' m co, ctx rest c' m /\ rb other co n /\
    ((pc = RB_RED /\ m = n /\ c' = RB_BLACK /\ co = RB_BLACK) \/ (pc = RB_BLACK /\ m = S n)).
Proof. inversion 1; subst; eauto 12. Qed.

Lemma erase_left_black_ok k pc px ol oy or_ rest node n c :
  rb node RB_BLACK n -> ctx (FL pc px (N RB_BLACK ol oy or_) :: rest) c (S n) ->
  (forall node' m c', short node' m -> ctx rest c' (S m) -> is_red node' = (if decide (pc = RB_RED) then true else false) ->
     correct_at (k rest node') rest node') ->
  correct_at (erase_left_black k pc px ol oy or_ rest node)
             (FL pc px (N RB_BLACK ol oy or_) :: rest) node.
Proof.
  intros Hn Hctx Hk. apply ctx_left_inv in Hctx as (c' & m & co & Hrest & Ho & Hpc).
  inversion Ho as [| | ? ? ? cl cr ? Hl Hr]; subst. unfold erase_left_black.
  destruct (is_red or_) eqn:Er; [rewrite andb_false_r |]; [| destruct (is_red ol) eqn:El]; cbn [negb andb].
  - apply red_inv in Hr as (-> & rl & rx & rr & -> & Hrl & Hrr); [| done]. cbn.
    eapply correct_at_ext; [| eapply (finish_valid rest c' m _ pc)]; [| done | |].
    + rewrite !inorder_plug; cbn [plug1 inorder before after]; by list_assoc.
    + destruct Hpc as [(-> & -> & -> & _) | [-> ->]]; eauto with rbtree.
    + destruct Hpc as [(-> & -> & -> & _) | [-> ->]]; done.
  - apply red_inv in Hl as (-> & ll & lx & lr & -> & Hll & Hlr); [| done]. cbn.
    pose proof (black_inv _ _ _ Hr Er) as Hrb.
    eapply correct_at_ext; [| eapply (finish_valid rest c' m _ pc)]; [| done | |].
    + rewrite !inorder_plug; cbn [plug1 inorder before after]; by list_assoc.
    + destruct Hpc as [(-> & -> & -> & _) | [-> ->]]; eauto with rbtree.
    + destruct Hpc as [(-> & -> & -> & _) | [-> ->]]; done.
  - apply (correct_at_ext _ rest (N pc node px (N RB_RED ol oy or_)));
      [rewrite !inorder_plug; cbn [plug1 inorder before after]; by list_assoc |].
    pose proof (black_inv _ _ _ Hl El). pose proof (black_inv _ _ _ Hr Er).
    destruct Hpc as [(-> & -> & -> & _) | [-> ->]].
    + apply (Hk _ n RB_BLACK); [left; split; [done |]; cbn; eauto with rbtree | done | done].
    + apply (Hk _ (S n) c'); [right; eauto with rbtree | done | done].
Qed.

Lemma erase_right_black_ok k pc px ol oy or_ rest node n c :
  rb node RB_BLACK n -> ctx (FR pc (N RB_BLACK ol oy or_) px :: rest) c (S n) ->
  (forall node' m c', short node' m -> ctx rest c' (S m) -> is_red node' = (if decide (pc = RB_RED) then true else false) ->
     correct_at (k rest node') rest node') ->
  correct_at (erase_right_black k pc px ol oy or_ rest node)
             (FR pc (N RB_BLACK ol oy or_) px :: rest) node.
Proof.
  intros Hn Hctx Hk. apply ctx_right_inv in Hctx as (c' & m & co & Hrest & Ho & Hpc).
  inversion Ho as [| | ? ? ? cl cr ? Hl Hr]; subst. unfold erase_right_black.
  destruct (is_red ol) eqn:El; [| destruct (is_red or_) eqn:Er]; cbn [negb andb].
  - apply red_inv in Hl as (-> & ll & lx & lr & -> & Hll & Hlr); [| done]. cbn.
    eapply correct_at_ext; [| eapply (finish_valid rest c' m _ pc)]; [| done | |].
    + rewrite !inorder_plug; cbn [plug1 inorder before after]; by list_assoc.
    + destruct Hpc as [(-> & -> & -> & _) | [-> ->]]; eauto with rbtree.
    + destruct Hpc as [(-> & -> & -> & _) | [-> ->]]; done.
  - apply red_inv in Hr as (-> & rl & rx & rr & -> & Hrl & Hrr); [| done]. cbn.
    pose proof (black_inv _ _ _ Hl El) as Hlb.
    eapply correct_at_ext; [| eapply (finish_valid rest c' m _ pc)]; [| done | |].
    + rewrite !inorder_plug; cbn [plug1 inorder before after]; by list_assoc.
    + destruct Hpc as [(-> & -> & -> & _) | [-> ->]]; eauto with rbtree.
    + destruct Hpc as [(-> & -> & -> & _) | [-> ->]]; done.
  - apply (correct_at_ext _ rest (N pc (N RB_RED ol oy or_) px node));
      [rewrite !inorder_plug; cbn [plug1 inorder before after]; by list_assoc |].
    pose proof (black_inv _ _ _ Hl El). pose proof (black_inv _ _ _ Hr Er).
    destruct Hpc as [(-> & -> & -> & _) | [-> ->]].
    + apply (Hk _ n RB_BLACK); [left; split; [done |]; cbn; eauto with rbtree | done | done].
    + apply (Hk _ (S n) c'); [right; eauto with rbtree | done | done].
Qed.

Definition red_credit (t : tree A) : nat := if is_red t then 1 else 2.

Lemma short_black node n : short node n -> is_red node = false -> rb node RB_BLACK n.
Proof. intros [[H _] | H]; [congruence | done]. Qed.

(** The tree with a red sibling turned into a black one by the first rotation. *)
Lemma ctx_left_red px ol oy or_ pc rest c n :
  ctx (FL pc px (N RB_RED ol oy or_) :: rest) c (S n) ->
  pc = RB_BLACK /\ ctx (FL RB_RED px ol :: FL RB_BLACK oy or_ :: rest) RB_RED (S n) /\
  exists ll lx lr, ol = N RB_BLACK ll lx lr.
Proof.
  intros H. apply ctx_left_inv in H as (c' & m & co & Hrest & Ho & Hpc).
  inversion Ho as [| ? ? ? ? Hl Hr |]; subst. destruct Hpc as [(_ & _ & _ & ?) | [-> ->]]; [discriminate |].
  split; [done |]. split; [eauto with rbtree |]. inversion Hl; eauto.
Qed.

Lemma ctx_right_red px ol oy or_ pc rest c n :
  ctx (FR pc (N RB_RED ol oy or_) px :: rest) c (S n) ->
  pc = RB_BLACK /\ ctx (FR RB_RED or_ px :: FR RB_BLACK ol oy :: rest) RB_RED (S n) /\
  exists rl rx rr, or_ = N RB_BLACK rl rx rr.
Proof.
  intros H. apply ctx_right_inv in H as (c' & m & co & Hrest & Ho & Hpc).
  inversion Ho as [| ? ? ? ? Hl Hr |]; subst. destruct Hpc as [(_ & _ & _ & ?) | [-> ->]]; [discriminate |].
  split; [done |]. split; [eauto with rbtree |]. inversion Hr; eauto.
Qed.

Lemma erase_loop_left_black fuel pc px ol oy or_ rest node : is_red node = false ->
  rb_erase_color_loop (S fuel) (FL pc px (N RB_BLACK ol oy or_) :: rest) node =
  erase_left_black (rb_erase_color_loop fuel) pc px ol oy or_ rest node.
Proof. intros H. cbn [rb_erase_color_loop]. by rewrite H. Qed.

Lemma erase_loop_right_black fuel pc px ol oy or_ rest node : is_red node = false ->
  rb_erase_color_loop (S fuel) (FR pc (N RB_BLACK ol oy or_) px :: rest) node =
  erase_right_black (rb_erase_color_loop fuel) pc px ol oy or_ rest node.
Proof. intros H. cbn [rb_erase_color_loop]. by rewrite H. Qed.

Lemma erase_loop_left_red fuel pc px ll lx lr oy or_ rest node : is_red node = false ->
  rb_erase_color_loop (S fuel) (FL pc px (N RB_RED (N RB_BLACK ll lx lr) oy or_) :: rest) node =
  erase_left_black (rb_erase_color_loop fuel) RB_RED px ll lx lr (FL RB_BLACK oy or_ :: rest) node.
Proof. intros H. cbn [rb_erase_color_loop]. by rewrite H. Qed.

Lemma erase_loop_right_red fuel pc px rl rx rr ol oy rest node : is_red node = false ->
  rb_erase_color_loop (S fuel) (FR pc (N RB_RED ol oy (N RB_BLACK rl rx rr)) px :: rest) node =
  erase_right_black (rb_erase_color_loop fuel) RB_RED px rl rx rr (FR RB_BLACK ol oy :: rest) node.
Proof. intros H. cbn [rb_erase_color_loop]. by rewrite H. Qed.

Lemma erase_loop_red fuel p node c n : short node n -> is_red node = true -> ctx p c (S n) ->
  correct_at (rb_erase_color_loop (S fuel) p node) p node.
Proof.
  intros Hs Er Hc. cbn [rb_erase_color_loop]. rewrite Er. destruct Hs as [[_ Hs] | Hs].
  - eexists. split; [done |]. split; [by eapply plug_valid |].
    by rewrite !inorder_plug, inorder_set_color.
  - apply rb_color_of in Hs. rewrite Er in Hs. discriminate.
Qed.

Lemma erase_color_loop_ok fuel : forall p node c n,
  short node n -> ctx p c (S n) -> (2 * length p + red_credit node <= fuel)%nat ->
  correct_at (rb_erase_color_loop fuel p node) p node.
Proof.
  induction fuel as [| fuel IH]; intros p node c n Hs Hc Hf.
  { unfold red_credit in Hf. destruct (is_red node); lia. }
  destruct (is_red node) eqn:Er; [by eapply erase_loop_red |].
  pose proof (short_black _ _ Hs Er) as Hn.
  assert (Hrec : forall lim q node' m c', short node' m -> ctx q c' (S m) ->
    (red_credit node' <= lim)%nat -> (2 * length q + lim <= fuel)%nat ->
    correct_at (rb_erase_color_loop fuel q node') q node')
    by (intros lim q node' m c' H1 H2 H3 H4; apply (IH q node' c' m); [done.. | lia]).
  clear IH. unfold red_credit in Hf. rewrite Er in Hf.
  destruct p as [| [pc px other | pc other px] rest]; cbn [length] in Hf.
  - exists (set_color RB_BLACK node). cbn [rb_erase_color_loop]. rewrite Er.
    split; [done |]. split; [by eapply rb_blacken | apply inorder_set_color].
  - destruct other as [| [] ol oy or_].
    + apply ctx_left_inv in Hc as (? & ? & ? & _ & Ho & _). inversion Ho.
    + apply ctx_left_red in Hc as (-> & Hc & ll & lx & lr & ->).
      rewrite erase_loop_left_red by done.
      eapply correct_at_ext; [| eapply erase_left_black_ok; [exact Hn | exact Hc |]].
      * rewrite !inorder_plug; cbn [inorder before after]; by list_assoc.
      * intros node' m c' H1 H2 H3. eapply (Hrec 1%nat); [done.. | | cbn; lia].
        unfold red_credit. cbn in H3. by rewrite H3.
    + rewrite erase_loop_left_black by done. eapply erase_left_black_ok; [done.. |].
      intros node' m c' H1 H2 H3. eapply (Hrec 2%nat); [done.. | | lia].
      unfold red_credit. destruct (is_red node'); lia.
  - destruct other as [| [] ol oy or_].
    + apply ctx_right_inv in Hc as (? & ? & ? & _ & Ho & _). inversion Ho.
    + apply ctx_right_red in Hc as (-> & Hc & rl & rx & rr & ->).
      rewrite erase_loop_right_red by done.
      eapply correct_at_ext; [| eapply erase_right_black_ok; [exact Hn | exact Hc |]].
      * rewrite !inorder_plug; cbn [inorder before after]; by list_assoc.
      * intros node' m c' H1 H2 H3. eapply (Hrec 1%nat); [done.. | | cbn; lia].
        unfold red_credit. cbn in H3. by rewrite H3.
    + rewrite erase_loop_right_black by done. eapply erase_right_black_ok; [done.. |].
      intros node' m c' H1 H2 H3. eapply (Hrec 2%nat); [done.. | | lia].
      unfold red_credit. destruct (is_red node'); lia.
Qed.

(** The last part of [rb_erase]: [child] replaces a node of colour [c] whose
    only child it was. *)
Lemma erase_tail_ok c p child n cp cc : rb child cc n ->
  ctx p cp (if decide (c = RB_RED) then n else S n) -> (c = RB_RED -> cp = RB_BLACK) ->
  (c = RB_RED -> cc = RB_BLACK) ->
  correct_at (erase_tail c p child) p child.
Proof.
  intros Ht Hc H1 H2. destruct c; cbn in Hc |- *.
  - eexists. split; [done |]. split; [| done]. eapply plug_valid; [done.. |]. rewrite H1; done.
  - assert (Hs : short child n).
    { unfold short. destruct cc; [left | by right]. split; [by inversion Ht |]. by apply rb_set_black. }
    eapply erase_color_loop_ok; [done.. |]. unfold red_credit. destruct (is_red child); lia.
Qed.

Lemma leftmost_ok p c l x r n cc cp : rb (N c l x r) cc n -> ctx p cp n ->
  (cp = RB_RED -> cc = RB_BLACK) ->
  forall p' c' y child, leftmost p c l x r = (p', (c', y, child)) ->
  exists n' cc' cp', rb child cc' n' /\ ctx p' cp' (if decide (c' = RB_RED) then n' else S n') /\
    (c' = RB_RED -> cp' = RB_BLACK) /\ (c' = RB_RED -> cc' = RB_BLACK) /\
    before p' = before p /\ y :: inorder child ++ after p' = inorder (N c l x r) ++ after p.
Proof.
  revert p c x r n cc cp.
  induction l as [| c2 l2 IH x2 r2 _]; intros p c x r n cc cp Ht Hc Hcol p' c' y child; cbn [leftmost].
  - intros [= <- <- <- <-]. inversion Ht as [| ? ? ? ? Hl Hr | ? ? ? ? ? ? Hl Hr]; subst.
    + exists n, RB_BLACK, cp. cbn. split_and!; try done. destruct cp; [specialize (Hcol eq_refl); discriminate | done].
    + eexists _, _, _. cbn. split_and!; done.
  - intros Heq.
    assert (exists m cl cq, rb (N c2 l2 x2 r2) cl m /\ ctx (FL c x r :: p) cq m /\
              (cq = RB_RED -> cl = RB_BLACK)) as (m & cl & cq & Hl & Hq & Hcq).
    { inversion Ht as [| ? ? ? ? Hl Hr | ? ? ? ? ? ? Hl Hr]; subst.
      - destruct cp; [specialize (Hcol eq_refl); discriminate |]. eauto 10 with rbtree.
      - eexists _, _, RB_BLACK. split; [done |]. split; [eauto with rbtree | done]. }
    destruct (IH _ _ _ _ _ _ _ Hl Hq Hcq _ _ _ _ Heq) as (n' & cc' & cp' & H1 & H2 & H3 & H4 & H5 & H6).
    exists n', cc', cp'. split_and!; try done. rewrite H6. cbn [inorder after]. by list_assoc.
Qed.

(** The node [leftmost] reaches depends on the path only by the frames below. *)
Lemma leftmost_node p q c l x r : snd (leftmost p c l x r) = snd (leftmost q c l x r).
Proof. revert p q c x r. induction l as [| c2 l2 IH x2 r2 _]; intros; cbn; [done | apply IH]. Qed.

(** The invariant read off along a path. *)
Lemma rb_plug_inv p : forall t n, rb (plug p t) RB_BLACK n ->
  exists ct m cp, rb t ct m /\ ctx p cp m /\ (cp = RB_RED -> ct = RB_BLACK).
Proof.
  induction p as [| [c x r | c l x] p IH]; intros t n H; cbn [plug plug1] in H.
  - exists RB_BLACK, n, RB_RED. eauto with rbtree.
  - apply IH in H as (ct & m & cp & Ht & Hc & Hcol).
    inversion Ht as [| ? ? ? ? Hl Hr | ? ? ? ? ? ? Hl Hr]; subst.
    + destruct cp; [specialize (Hcol eq_refl); discriminate |]. eauto 10 with rbtree.
    + eexists _, _, RB_BLACK. split; [done |]. split; [eauto with rbtree | done].
  - apply IH in H as (ct & m & cp & Ht & Hc & Hcol).
    inversion Ht as [| ? ? ? ? Hl Hr | ? ? ? ? ? ? Hl Hr]; subst.
    + destruct cp; [specialize (Hcol eq_refl); discriminate |]. eauto 10 with rbtree.
    + eexists _, _, RB_BLACK. split; [done |]. split; [eauto with rbtree | done].
Qed.

Lemma erase_ok p c l x r : valid (plug p (N c l x r)) ->
  exists t, rb_erase p (N c l x r) = Ok t /\ valid t /\
    inorder t = before p ++ inorder l ++ inorder r ++ after p.
Proof.
  intros [n V]. apply rb_plug_inv in V as (ct & m & cp & Ht & Hc & Hcol).
  assert (exists k cl cr, rb l cl k /\ rb r cr k /\ m = (if decide (c = RB_RED) then k else S k) /\
    (c = RB_RED -> cl = RB_BLACK /\ cr = RB_BLACK /\ cp = RB_BLACK))
    as (k & cl & cr & Hl & Hr & -> & Hblack).
  { inversion Ht as [| ? ? ? ? Hl Hr | ? ? ? ? ? ? Hl Hr]; subst.
    - destruct cp; [specialize (Hcol eq_refl); discriminate |]. eauto 12.
    - eexists _, _, _. cbn. done. }
  assert (Htail : forall child cc, rb child cc k -> (c = RB_RED -> cc = RB_BLACK) ->
            correct_at (erase_tail c p child) p child).
  { intros child cc H1 H2. eapply erase_tail_ok; [done | done | | done]. intros E. apply (Hblack E). }
  unfold rb_erase. destruct l as [| lc ll lx lr].
  - destruct (Htail r cr Hr) as (t & E1 & V & Ei); [intros E; apply (Hblack E) |].
    exists t. rewrite inorder_plug in Ei. by destruct r.
  - destruct r as [| rc rl rx rr].
    + destruct (Htail _ cl Hl) as (t & E1 & V & Ei); [intros E; apply (Hblack E) |].
      exists t. split; [done |]. split; [done |]. rewrite Ei, inorder_plug. by list_assoc.
    + pose proof (leftmost_node [] (FR c (N lc ll lx lr) lx :: p) rc rl rx rr) as Hy.
      destruct (leftmost [] rc rl rx rr) as [q0 [[sc0 y0] ch0]] eqn:E0.
      destruct (leftmost (FR c (N lc ll lx lr) y0 :: p) rc rl rx rr) as [p' [[sc y] child]] eqn:E1.
      assert (exists cq, ctx (FR c (N lc ll lx lr) y0 :: p) cq k /\ (cq = RB_RED -> cr = RB_BLACK))
        as (cq & Hq & Hcq).
      { destruct c; cbn in Hc.
        - destruct (Hblack eq_refl) as (-> & -> & ->). eauto with rbtree.
        - exists RB_BLACK. split; [econstructor; eassumption | done]. }
      destruct (leftmost_ok _ _ _ _ _ _ _ _ Hr Hq Hcq _ _ _ _ E1)
        as (n' & cc' & cp' & H1 & H2 & H3 & H4 & H5 & H6).
      destruct (erase_tail_ok sc p' child n' cp' cc' H1 H2 H3 H4) as (t & Et & V & Ei).
      exists t. split; [done |]. split; [done |].
      assert (Ey : y = y0).
      { pose proof (leftmost_node [] (FR c (N lc ll lx lr) y0 :: p) rc rl rx rr) as E.
        rewrite E0, E1 in E. by inversion E. }
      rewrite Ei, inorder_plug, H5. cbn [before after] in *. rewrite <- H6, Ey. by list_assoc.
Qed.

(** ** Node pointers and in-order positions

    Rotations keep the in-order position of every node, so a pointer that is
    kept across an insertion or a removal is modelled by its position. *)

Definition zroot (z : zipper) : tree A := plug (fst z) (snd z).

Definition zval (z : zipper) : option A :=
  match snd z with E => None | N _ _ x _ => Some x end.

Definition zpos (z : zipper) : nat :=
  match snd z with
  | E => length (before (fst z))
  | N _ l _ _ => length (before (fst z)) + length (inorder l)
  end.

(** The node at an in-order position. *)
Fixpoint locate p (i : nat) t : option zipper :=
  match t with
  | E => None
  | N c l x r =>
      let n := length (inorder l) in
      match Nat.compare i n with
      | Eq => Some (p, t)
      | Lt => locate (FL c x r :: p) i l
      | Gt => locate (FR c l x :: p) (i - n - 1) r
      end
  end.

Lemma locate_spec t : forall p i, (i < length (inorder t))%nat ->
  exists q c l x r, locate p i t = Some (q, N c l x r) /\ plug q (N c l x r) = plug p t /\
    length (before q ++ inorder l) = (length (before p) + i)%nat.
Proof.
  induction t as [| c l IHl x r IHr]; intros p i Hi; cbn in Hi; [lia |].
  rewrite length_app in Hi. cbn in Hi. cbn [locate].
  destruct (Nat.compare_spec i (length (inorder l))).
  - eexists p, c, l, x, r. rewrite length_app. split_and!; [done.. | lia].
  - destruct (IHl (FL c x r :: p) i) as (q & c' & l' & x' & r' & E1 & E2 & E3); [lia |].
    eexists q, c', l', x', r'. split; [done |]. split; [done |]. rewrite E3. done.
  - destruct (IHr (FR c l x :: p) (i - length (inorder l) - 1)%nat)
      as (q & c' & l' & x' & r' & E1 & E2 & E3); [lia |].
    eexists q, c', l', x', r'. split; [done |]. split; [done |]. rewrite E3.
    cbn [before]. rewrite !length_app. cbn. lia.
Qed.

Lemma inorder_zipper p c l x r :
  inorder (plug p (N c l x r)) = (before p ++ inorder l) ++ x :: inorder r ++ after p.
Proof. rewrite inorder_plug. cbn [inorder]. by list_assoc. Qed.

Lemma zpos_node p c l x r : zpos (p, N c l x r) = length (before p ++ inorder l).
Proof. unfold zpos. cbn. by rewrite length_app. Qed.

Lemma zval_lookup z : snd z <> E -> inorder (zroot z) !! zpos z = zval z.
Proof.
  destruct z as [p [| c l x r]]; [done |]. intros _. unfold zroot, zval. cbn [fst snd].
  rewrite inorder_zipper, zpos_node. by apply list_lookup_middle.
Qed.

(** Overwriting the value of a node in place. *)
Lemma inorder_update p c l x r y :
  inorder (plug p (N c l y r)) = <[zpos (p, N c l x r) := y]> (inorder (plug p (N c l x r))).
Proof.
  rewrite !inorder_zipper, zpos_node.
  by rewrite (insert_app_r_alt _ _ _ _ (le_n _)), Nat.sub_diag.
Qed.

(** The invariant does not look at the values. *)
Lemma rb_update_value p c l x r y : forall n, rb (plug p (N c l x r)) RB_BLACK n ->
  valid (plug p (N c l y r)).
Proof.
  intros n V. apply rb_plug_inv in V as (ct & m & cp & Ht & Hc & Hcol).
  eapply plug_valid; [done | | done].
  inversion Ht; subst; eauto with rbtree.
Qed.

Lemma go_left_spec p t : t <> E -> exists q c x r, go_left p t = (q, N c E x r) /\
  plug q (N c E x r) = plug p t /\ before q = before p.
Proof.
  revert p. induction t as [| c l IHl x r _]; intros p Ht; [done |]. cbn [go_left].
  destruct l as [| c' l' x' r'].
  - eexists _, _, _, _. done.
  - destruct (IHl (FL c x r :: p)) as (q & c2 & x2 & r2 & E1 & E2 & E3); [done |].
    rewrite E1. eexists _, _, _, _. split; [done |]. by rewrite E2, E3.
Qed.

Lemma go_right_spec p t : t <> E -> exists q c l x, go_right p t = (q, N c l x E) /\
  plug q (N c l x E) = plug p t /\ after q = after p.
Proof.
  revert p. induction t as [| c l _ x r IHr]; intros p Ht; [done |]. cbn [go_right].
  destruct r as [| c' l' x' r'].
  - eexists _, _, _, _. done.
  - destruct (IHr (FR c l x :: p)) as (q & c2 & l2 & x2 & E1 & E2 & E3); [done |].
    rewrite E1. eexists _, _, _, _. split; [done |]. by rewrite E2, E3.
Qed.

Lemma climb_right_spec p : forall t,
  match climb_right p t with
  | Some z => zroot z = plug p t /\ snd z <> E /\ zpos z = length (before p ++ inorder t)
  | None => after p = []
  end.
Proof.
  induction p as [| [c x r | c l x] p IH]; intros t; cbn [climb_right]; [done | |].
  - split; [done |]. split; [done |]. by rewrite zpos_node.
  - specialize (IH (N c l x t)). destruct (climb_right p _) as [z |]; [| done].
    destruct IH as (E1 & E2 & E3). split; [done |]. split; [done |]. rewrite E3.
    cbn [before inorder]. by list_assoc.
Qed.

Lemma climb_left_spec p : forall t,
  match climb_left p t with
  | Some z => zroot z = plug p t /\ snd z <> E /\ S (zpos z) = length (before p)
  | None => before p = []
  end.
Proof.
  induction p as [| [c x r | c l x] p IH]; intros t; cbn [climb_left]; [done | |].
  - specialize (IH (N c t x r)). by destruct (climb_left p _).
  - split; [done |]. split; [done |]. rewrite zpos_node. cbn [before]. rewrite !length_app. cbn. lia.
Qed.

Lemma rb_next_spec z : snd z <> E ->
  match rb_next z with
  | Some z' => zroot z' = zroot z /\ snd z' <> E /\ zpos z' = S (zpos z)
  | None => length (inorder (zroot z)) = S (zpos z)
  end.
Proof.
  destruct z as [p [| c l x r]]; [done |]. intros _. cbn [rb_next].
  destruct r as [| rc rl rx rr] eqn:Er.
  - pose proof (climb_right_spec p (N c l x E)) as H. destruct (climb_right p _) as [z' |].
    + destruct H as (E1 & E2 & E3). split; [done |]. split; [done |].
      rewrite E3, zpos_node. cbn [inorder]. rewrite !length_app. cbn. lia.
    + unfold zroot. cbn [fst snd]. rewrite inorder_zipper, H, zpos_node, length_app. cbn. lia.
  - rewrite <- Er. destruct (go_left_spec (FR c l x :: p) r) as (q & c' & y & r' & E1 & E2 & E3);
      [by rewrite Er |].
    rewrite E1. split; [exact E2 |]. split; [done |].
    rewrite !zpos_node, E3. cbn [before inorder]. rewrite !length_app. cbn. lia.
Qed.

Lemma rb_prev_spec z : snd z <> E ->
  match rb_prev z with
  | Some z' => zroot z' = zroot z /\ snd z' <> E /\ zpos z = S (zpos z')
  | None => zpos z = 0%nat
  end.
Proof.
  destruct z as [p [| c l x r]]; [done |]. intros _. cbn [rb_prev].
  destruct l as [| lc ll lx lr] eqn:El.
  - pose proof (climb_left_spec p (N c E x r)) as H. destruct (climb_left p _) as [z' |].
    + destruct H as (E1 & E2 & E3). split; [done |]. split; [done |].
      rewrite E3, zpos_node. cbn [inorder]. by rewrite app_nil_r.
    + rewrite zpos_node, H. done.
  - rewrite <- El. destruct (go_right_spec (FL c x r :: p) l) as (q & c' & l' & y & E1 & E2 & E3);
      [by rewrite El |].
    rewrite E1. split; [exact E2 |]. split; [done |].
    pose proof (f_equal (fun t => length (inorder t)) E2) as Hlen. cbn beta in Hlen.
    cbn [plug plug1] in Hlen. rewrite !inorder_zipper, E3, !length_app in Hlen.
    cbn [after length] in Hlen. rewrite !length_app in Hlen. cbn in Hlen.
    rewrite !zpos_node, !length_app. rewrite length_app in Hlen. lia.
Qed.

Lemma rb_first_spec t :
  match rb_first t with
  | Some z => zroot z = t /\ snd z <> E /\ zpos z = 0%nat
  | None => inorder t = []
  end.
Proof.
  destruct t as [| c l x r]; cbn [rb_first]; [done |].
  destruct (go_left_spec [] (N c l x r)) as (q & c' & y & r' & E1 & E2 & E3); [done |].
  rewrite E1. split; [exact E2 |]. split; [done |]. by rewrite zpos_node, E3.
Qed.

Lemma rb_last_spec t :
  match rb_last t with
  | Some z => zroot z = t /\ snd z <> E /\ S (zpos z) = length (inorder t)
  | None => inorder t = []
  end.
Proof.
  destruct t as [| c l x r]; cbn [rb_last]; [done |].
  destruct (go_right_spec [] (N c l x r)) as (q & c' & l' & y & E1 & E2 & E3); [done |].
  rewrite E1. split; [exact E2 |]. split; [done |].
  change (N c l x r) with (plug [] (N c l x r)). rewrite <- E2, zpos_node, inorder_zipper, E3.
  cbn [inorder app after]. rewrite !length_app. cbn. lia.
Qed.

(** ** What the clients rely on *)

Lemma link_insert_ok p x : valid (plug p E) ->
  exists t, rb_insert_color p (rb_link_node x) = Ok t /\ valid t /\
    inorder t = before p ++ x :: after p.
Proof.
  intros [n V]. apply rb_plug_inv in V as (ct & m & cp & Ht & Hc & _). inversion Ht; subst.
  destruct (insert_color_correct p cp (rb_link_node x) 0) as (t & E1 & V & E2);
    [unfold rb_link_node; eauto with rbtree | done |].
  exists t. split; [done |]. split; [done |]. rewrite E2, inorder_plug. by list_assoc.
Qed.

Lemma erase_pos_ok p c l x r : valid (plug p (N c l x r)) ->
  exists t, rb_erase p (N c l x r) = Ok t /\ valid t /\
    inorder t = delete (zpos (p, N c l x r)) (inorder (plug p (N c l x r))).
Proof.
  intros V. destruct (erase_ok _ _ _ _ _ V) as (t & E1 & V' & E2). exists t.
  split; [done |]. split; [done |]. rewrite E2, inorder_zipper, zpos_node, delete_middle. by list_assoc.
Qed.

(** The number of nodes on the longest way down. *)
Fixpoint height t : nat :=
  match t with
  | E => 0
  | N _ l _ r => S (Nat.max (height l) (height r))
  end.

Lemma rb_height t c n : rb t c n ->
  (height t <= 2 * n + match c with RB_RED => 1 | RB_BLACK => 0 end)%nat /\
  (2 ^ n <= length (inorder t) + 1)%nat.
Proof.
  induction 1 as [| l x r n _ [IH1 IH2] _ [IH3 IH4] | l x r cl cr n _ [IH1 IH2] _ [IH3 IH4]];
    cbn [height inorder]; rewrite ?length_app; cbn [length].
  - done.
  - cbn in *. lia.
  - cbn [Nat.pow]. destruct cl, cr; lia.
Qed.
End RbTree.

(** ** Claims *)

(** C15: inserting a node, that is linking it red at the leaf a search reached
    and running [rb_insert_color], never dereferences a null pointer, restores
    the red-black invariant and keeps the in-order sequence with the new
    value between what was before and after the leaf. *)
Theorem rb_insert_correct {A} (p : path A) (x : A) (V : valid (plug p E)) :
  exists t, rb_insert_color p (rb_link_node x) = Ok t /\ valid t /\
    inorder t = before p ++ x :: after p.
Proof. by apply link_insert_ok. Qed.

Definition demo_tree : tree Z :=
  N RB_BLACK (N RB_BLACK (N RB_RED E 1 E) 2 E) 3
    (N RB_RED (N RB_BLACK E 4 E) 5 (N RB_BLACK (N RB_RED E 6 E) 7 (N RB_RED E 8 E))).

Lemma demo_tree_valid : valid demo_tree.
Proof. exists 2%nat. unfold demo_tree. repeat econstructor. Qed.

Definition demo_path : path Z :=
  [FR RB_RED E 8; FR RB_BLACK (N RB_RED E 6 E) 7; FR RB_RED (N RB_BLACK E 4 E) 5;
   FR RB_BLACK (N RB_BLACK (N RB_RED E 1 E) 2 E) 3].

Lemma rb_insert_correct_witness : exists t,
  rb_insert_color demo_path (rb_link_node 9) = Ok t /\ valid t /\
  inorder t = [1; 2; 3; 4; 5; 6; 7; 8; 9].
Proof. apply (rb_insert_correct demo_path 9). exact demo_tree_valid. Defined.

(** C16: [rb_erase] removes exactly the value of its node from the in-order
    sequence, never dereferences a null pointer, returns within
    [2 * depth + 2] rounds of rebalancing and restores the red-black
    invariant. *)
Theorem rb_erase_correct {A} (p : path A) c l x r (V : valid (plug p (N c l x r))) :
  exists t, rb_erase p (N c l x r) = Ok t /\ valid t /\
    inorder t = before p ++ inorder l ++ inorder r ++ after p.
Proof. by apply erase_ok. Qed.

Lemma rb_erase_correct_witness : exists t,
  rb_erase [] demo_tree = Ok t /\ valid t /\ inorder t = [1; 2; 4; 5; 6; 7; 8].
Proof.
  exact (rb_erase_correct [] RB_BLACK (N RB_BLACK (N RB_RED E 1 E) 2 E) 3
    (N RB_RED (N RB_BLACK E 4 E) 5 (N RB_BLACK (N RB_RED E 6 E) 7 (N RB_RED E 8 E))) demo_tree_valid).
Defined.

(** Iterating [rb_next] from a node: the values met, for a given number of
    steps. *)
Fixpoint walk {A} (fuel : nat) (z : option (zipper (A := A))) : list A :=
  match fuel, z with
  | S fuel, Some z =>
      match zval z with
      | Some x => x :: walk fuel (rb_next z)
      | None => []
      end
  | _, _ => []
  end.

Lemma walk_drop {A} fuel : forall z : zipper (A := A), snd z <> E ->
  (length (inorder (zroot z)) <= zpos z + fuel)%nat ->
  walk fuel (Some z) = drop (zpos z) (inorder (zroot z)).
Proof.
  induction fuel as [| fuel IH]; intros z Hz Hf; pose proof (zval_lookup z Hz) as Hv.
  - symmetry. apply drop_ge. lia.
  - cbn [walk]. destruct z as [p [| c l x r]]; [done |]. cbn [zval snd] in *.
    rewrite (drop_S _ x) by done. f_equal.
    pose proof (rb_next_spec (p, N c l x r) Hz) as Hn. destruct (rb_next _) as [z' |].
    + destruct Hn as (E1 & E2 & E3). rewrite IH; [by rewrite E1, E3 | done |]. rewrite E1. lia.
    + rewrite drop_ge by lia. by destruct fuel.
Qed.


(** [rb_prev] undoes [rb_next]: it reaches the node one position earlier
    in the same tree, and returns NULL exactly at the first node. *)
Theorem rb_prev_next {A} (z z' : zipper (A := A)) (Hz : snd z <> E)
  (Hn : rb_next z = Some z') :
  exists z2, rb_prev z' = Some z2 /\ zroot z2 = zroot z /\ zpos z2 = zpos z /\ zval z2 = zval z.
Proof.
  pose proof (rb_next_spec z Hz) as N1. rewrite Hn in N1. destruct N1 as (E1 & E2 & E3).
  pose proof (rb_prev_spec z' E2) as P1. destruct (rb_prev z') as [z2 |]; [| lia].
  destruct P1 as (F1 & F2 & F3). exists z2. split; [done |]. split; [congruence |].
  assert (zpos z2 = zpos z) as Ep by lia. split; [done |].
  rewrite <- !zval_lookup, F1, E1, Ep by done. done.
Qed.

Lemma rb_prev_next_witness : exists z z2,
  rb_first demo_tree = Some z /\ (rb_next z ≫= rb_prev) = Some z2 /\ zpos z2 = zpos z.
Proof.
  destruct (rb_first demo_tree) as [z |] eqn:E1; [| discriminate].
  destruct (rb_next z) as [z' |] eqn:E2; [| injection E1 as <-; discriminate].
  destruct (rb_prev_next z z') as (z2 & H1 & _ & H3 & _); [injection E1 as <-; discriminate | done |].
  exists z, z2. split; [done |]. split; [by rewrite E2 | done].
Defined.


