(* ===== verification/Bitmap.v ===== *)
(** Sparse bitmaps: [libocfs2/bitmap.c] and [libocfs2/bitmap.h].

    An [ocfs2_bitmap] is a red-black tree of regions, each a buffer of bits
    that starts at some bit number.  Two families of operations work on it:
    the generic ones fail on a bit no region holds, the ones with holes
    allocate a region for it and merge it with its neighbours.  This file
    holds the code; [BitmapInv] has the invariant and the lemmas.

    A pointer to a region that is kept across an insertion into the tree or a
    removal from it is its in-order position.  [mem] tells, for one call, which
    of its memory allocations succeed; a call reaches each site once. *)

From S2P Require Import Prelude Bitops RbTree.

Inductive site : Type :=
| MALLOC_BITMAP
| MALLOC_DESCRIPTION
| MALLOC_REGION
| MALLOC_REGION_BITS
| REALLOC_PREV
| REALLOC_NEXT.

Definition memory : Type := site -> bool.

(** [ocfs2_malloc0] and [ocfs2_realloc] at a site *)
Definition malloc (mem : memory) (s : site) : res unit :=
  if mem s then Ok tt else Err OCFS2_ET_NO_MEMORY.

Record region : Type := mkRegion {
  br_start_bit : Z;
  br_total_bits : Z;
  br_bytes : Z;
  br_set_bits : Z;
  br_bitmap : list Z;
  br_private : Z
}.

Section Bitmap.
(** [P] is what [b_private] points to. *)
Context {P : Type}.

Record bitmap : Type := mkBitmap {
  b_set_bits : Z;
  b_total_bits : Z;
  b_regions : tree region;
  b_private : P
}.

(** The two operations of [struct ocfs2_bitmap_operations] that the generic
    code calls back; [None] is a null pointer. *)
Record callbacks : Type := mkCallbacks {
  merge_region : option (P -> region -> region -> bool);
  bit_change_notify : option (P -> region -> Z -> bool -> P)
}.

(** The others.  [set_bit] and [clear_bit] return the value they store through
    [oldval], [None] if they leave it alone. *)
Record operations : Type := mkOperations {
  set_bit : option (memory -> bitmap -> Z -> res (bitmap * option bool));
  clear_bit : option (memory -> bitmap -> Z -> res (bitmap * option bool));
  test_bit : option (bitmap -> Z -> res bool);
  find_next_set : option (bitmap -> Z -> res Z);
  find_next_clear : option (bitmap -> Z -> res Z);
  read_bitmap : option (bitmap -> res bitmap);
  write_bitmap : option (bitmap -> res bitmap);
  destroy_notify : option (bitmap -> bitmap);
  alloc_range : option (bitmap -> Z -> Z -> res (bitmap * (Z * Z)));
  clear_range : option (bitmap -> Z -> Z -> res bitmap)
}.

Implicit Types (b : bitmap) (br : region) (cb : callbacks) (ops : operations).

Definition with_regions b (t : tree region) : bitmap :=
  mkBitmap (b_set_bits b) (b_total_bits b) t (b_private b).

Definition with_private b (p : P) : bitmap :=
  mkBitmap (b_set_bits b) (b_total_bits b) (b_regions b) p.

Definition with_set_bits b (n : Z) : bitmap :=
  mkBitmap n (b_total_bits b) (b_regions b) (b_private b).

(** A call through a function pointer of the operations. *)
Definition call {A} (f : option A) : res A := must f.

(** ** The public interface *)

(** [junk] is the value of the uninitialised [old_tmp]. *)
Definition ocfs2_bitmap_set ops (mem : memory) (junk : bool) b (bitno : Z) : res (bitmap * bool) :=
  if bitno >=? b_total_bits b then Err OCFS2_ET_INVALID_BIT else
  f ← call (set_bit ops);
  '(b, oldval) ← f mem b bitno;
  let old_tmp := default junk oldval in
  let b := if negb old_tmp then with_set_bits b (u64 (b_set_bits b + 1)) else b in
  mret (b, old_tmp).

Definition ocfs2_bitmap_clear ops (mem : memory) (junk : bool) b (bitno : Z) : res (bitmap * bool) :=
  if bitno >=? b_total_bits b then Err OCFS2_ET_INVALID_BIT else
  f ← call (clear_bit ops);
  '(b, oldval) ← f mem b bitno;
  let old_tmp := default junk oldval in
  let b := if old_tmp then with_set_bits b (u64 (b_set_bits b - 1)) else b in
  mret (b, old_tmp).

Definition ocfs2_bitmap_test ops b (bitno : Z) : res bool :=
  if bitno >=? b_total_bits b then Err OCFS2_ET_INVALID_BIT else
  f ← call (test_bit ops);
  f b bitno.

Definition ocfs2_bitmap_find_next_set ops b (start : Z) : res Z :=
  if start >=? b_total_bits b then Err OCFS2_ET_INVALID_BIT else
  f ← call (find_next_set ops);
  f b start.

Definition ocfs2_bitmap_find_next_clear ops b (start : Z) : res Z :=
  if start >=? b_total_bits b then Err OCFS2_ET_INVALID_BIT else
  f ← call (find_next_clear ops);
  f b start.

(** [abort()] is a [Fault]. *)
Definition ocfs2_bitmap_alloc_range ops b (min len : Z) : res (bitmap * (Z * Z)) :=
  if (min =? 0) || (len =? 0) || (len >=? b_total_bits b) || (min >? len)
  then Err OCFS2_ET_INVALID_ARGUMENT else
  f ← call (alloc_range ops);
  '(b, (first_bit, bits_found)) ← f b min len;
  if bits_found <? min then Fault else mret (b, (first_bit, bits_found)).

Definition ocfs2_bitmap_clear_range ops b (len first_bit : Z) : res bitmap :=
  if (len =? 0) || (u64 (len + first_bit) >? b_total_bits b)
  then Err OCFS2_ET_INVALID_ARGUMENT else
  f ← call (clear_range ops);
  f b len first_bit.

Definition ocfs2_bitmap_read ops b : res bitmap :=
  match read_bitmap ops with
  | None => Err OCFS2_ET_INVALID_ARGUMENT
  | Some f =>
      match rb_first (b_regions b) with
      | Some _ => Err OCFS2_ET_INVALID_BIT
      | None => f b
      end
  end.

Definition ocfs2_bitmap_write ops b : res bitmap :=
  match write_bitmap ops with
  | None => Err OCFS2_ET_INVALID_ARGUMENT
  | Some f => f b
  end.

Definition ocfs2_bitmap_get_set_bits b : Z := b_set_bits b.

(** ** Regions *)

(** [description] says whether the caller passed one. *)
Definition ocfs2_bitmap_new (mem : memory) (total_bits : Z) (description : bool)
    ops (private_data : P) : res bitmap :=
  match set_bit ops, clear_bit ops, test_bit ops with
  | Some _, Some _, Some _ =>
      _ ← malloc mem MALLOC_BITMAP;
      _ ← (if description then malloc mem MALLOC_DESCRIPTION else mret tt);
      mret (mkBitmap 0 total_bits E private_data)
  | _, _, _ => Err OCFS2_ET_INVALID_ARGUMENT
  end.

(** [(total_bits + 7) / 8] on [int]s: the addition must not overflow. *)
Definition ocfs2_align_total (total_bits : Z) : res Z :=
  if INT_MAX <? total_bits + 7 then Fault else Ok ((total_bits + 7) / 8).

Definition ocfs2_bitmap_alloc_region (mem : memory) (start_bit total_bits : Z) : res region :=
  if total_bits <? 0 then Err OCFS2_ET_INVALID_BIT else
  _ ← malloc mem MALLOC_REGION;
  bytes ← ocfs2_align_total total_bits;
  _ ← malloc mem MALLOC_REGION_BITS;
  mret (mkRegion start_bit total_bits bytes 0 (replicate (Z.to_nat bytes) 0) 0).

(** The [while] loop of [ocfs2_bitmap_free]: the regions freed, in order. *)
Fixpoint free_regions (fuel : nat) (t : tree region) : res (list region) :=
  match rb_first t with
  | None => Ok []
  | Some (p, node) =>
      match fuel, zval (p, node) with
      | S fuel, Some br =>
          t ← rb_erase p node;
          rest ← free_regions fuel t;
          mret (br :: rest)
      | _, _ => Fault
      end
  end.

Definition ocfs2_bitmap_free ops b : res (list region) :=
  let b := match destroy_notify ops with Some f => f b | None => b end in
  free_regions (length (inorder (b_regions b))) (b_regions b).

Definition ocfs2_bitmap_realloc_region (mem : memory) (s : site) b br (total_bits : Z) : res region :=
  if u64 (br_start_bit br + total_bits) >? b_total_bits b then Err OCFS2_ET_INVALID_BIT else
  new_bytes ← ocfs2_align_total total_bits;
  if new_bytes >? br_bytes br then
    _ ← malloc mem s;
    mret (mkRegion (br_start_bit br) total_bits new_bytes (br_set_bits br)
            (br_bitmap br ++ replicate (Z.to_nat (new_bytes - br_bytes br)) 0) (br_private br))
  else
    mret (mkRegion (br_start_bit br) total_bits (br_bytes br) (br_set_bits br)
            (br_bitmap br) (br_private br)).

(** [ocfs2_bitmap_foreach_region]: [func] may change the region in place and
    its private data [s]; its third result is its return code. *)
Fixpoint foreach_loop {S : Type} (func : S -> region -> res (S * region * option errcode))
    (fuel : nat) (node : option (zipper (A := region))) (t : tree region) (s : S)
    : res (tree region * S * option errcode) :=
  match node with
  | None => Ok (t, s, None)
  | Some (p, N c l br r) =>
      match fuel with
      | O => Fault
      | Datatypes.S fuel =>
          '(s, br, ret) ← func s br;
          let t := plug p (N c l br r) in
          match ret with
          | Some OCFS2_ET_ITERATION_COMPLETE => mret (t, s, None)
          | Some e => mret (t, s, Some e)
          | None => foreach_loop func fuel (rb_next (p, N c l br r)) t s
          end
      end
  | Some (_, E) => Fault
  end.

Definition ocfs2_bitmap_foreach_region {S : Type}
    (func : S -> region -> res (S * region * option errcode)) (t : tree region) (s : S)
    : res (tree region * S * option errcode) :=
  foreach_loop func (length (inorder t)) (rb_first t) t s.

(** The shifting loop of [ocfs2_bitmap_merge_region]: [bytes] and [left] are
    [next->br_bytes] and [next->br_total_bits], [pbm] an index into the bitmap
    [buf] of [prev], [nbm] the rest of the bitmap of [next]. *)
Fixpoint shift_in (bytes : nat) (left offset diff : Z) (pbm : Z) (buf nbm : list Z) : res (list Z) :=
  match bytes with
  | O => Ok buf
  | S bytes =>
      if left >? 0 then
        pb ← load buf pbm;
        let pb := Z.land pb (Z.shiftl 1 offset - 1) in
        nb ← deref nbm;
        buf ← store buf pbm
          (u8 (Z.lor pb (Z.shiftl (Z.land nb (Z.shiftl 1 diff - 1)) offset)));
        let left := left - diff in
        if left >? 0 then
          buf ← store buf (pbm + 1) (u8 (Z.shiftr nb diff));
          shift_in bytes (left - offset) offset diff (pbm + 1) buf (tail nbm)
        else shift_in bytes left offset diff (pbm + 1) buf nbm
      else Ok buf
  end.

(** The part of [ocfs2_bitmap_merge_region] that computes the merged [prev]. *)
Definition merged_region cb (mem : memory) (s : site) b (prev next : region) : res region :=
  if negb (u64 (br_start_bit prev + br_total_bits prev) =? br_start_bit next)
  then Err OCFS2_ET_INVALID_BIT else
  if match merge_region cb with Some f => negb (f (b_private b) prev next) | None => false end
  then Err OCFS2_ET_INVALID_BIT else
  let new_bits := br_total_bits prev + br_total_bits next in
  if new_bits >? INT_MAX then Err OCFS2_ET_INVALID_BIT else
  let prev_bytes := br_bytes prev in
  let offset := br_total_bits prev mod 8 in
  prev ← ocfs2_bitmap_realloc_region mem s b prev new_bits;
  buf ← (if offset =? 0 then
           put_bytes (br_bitmap prev) prev_bytes (take (Z.to_nat (br_bytes next)) (br_bitmap next))
         else
           shift_in (Z.to_nat (br_bytes next)) (br_total_bits next) offset (8 - offset)
             (prev_bytes - 1) (br_bitmap prev) (br_bitmap next));
  mret (mkRegion (br_start_bit prev) (br_total_bits prev) (br_bytes prev)
          (br_set_bits prev + br_set_bits next) buf (br_private prev)).

(** [prev] and [next] are positions in the tree. *)
Definition ocfs2_bitmap_merge_region cb (mem : memory) (s : site) b (prev next : nat) : res bitmap :=
  match locate [] prev (b_regions b), inorder (b_regions b) !! next with
  | Some (p, N c l br r), Some br_next =>
      br ← merged_region cb mem s b br br_next;
      let t := plug p (N c l br r) in
      match locate [] next t with
      | Some (p, node) => t ← rb_erase p node; mret (with_regions b t)
      | None => Fault
      end
  | _, _ => Fault
  end.

(** [ocfs2_bitmap_lookup]: the node whose region meets the range, or the link
    where the search ended and the node [ret_next]. *)
Inductive lookup_result : Type :=
| Found (z : zipper (A := region))
| NotFound (ret_p : path region) (ret_next : option (zipper (A := region))).

Fixpoint lookup_from (p : path region) (last_left : option (zipper (A := region)))
    (t : tree region) (bitno total_bits : Z) : lookup_result :=
  match t with
  | E => NotFound p last_left
  | N c l br r =>
      if u64 (bitno + total_bits) <=? br_start_bit br
      then lookup_from (FL c br r :: p) (Some (p, t)) l bitno total_bits
      else if bitno >=? u64 (br_start_bit br + br_total_bits br)
      then lookup_from (FR c l br :: p) last_left r bitno total_bits
      else Found (p, t)
  end.

Definition ocfs2_bitmap_lookup b (bitno total_bits : Z) : lookup_result :=
  lookup_from [] None (b_regions b) bitno total_bits.

(** The callers ignore the result of a merge. *)
Definition try_merge b (merge : res bitmap) : res bitmap :=
  match merge with
  | Err _ => Ok b
  | r => r
  end.

Definition ocfs2_bitmap_insert_region cb (mem : memory) b br : res bitmap :=
  if br_start_bit br >? b_total_bits b then Err OCFS2_ET_INVALID_BIT else
  match ocfs2_bitmap_lookup b (br_start_bit br) (br_total_bits br) with
  | Found _ => Err OCFS2_ET_INVALID_BIT
  | NotFound p _ =>
      t ← rb_insert_color p (rb_link_node br);
      let b := with_regions b t in
      let pos := length (before p) in
      node ← must (locate [] pos (b_regions b));
      '(b, pos) ← match rb_prev node with
                  | Some prev =>
                      b' ← try_merge b (ocfs2_bitmap_merge_region cb mem REALLOC_PREV b (zpos prev) pos);
                      mret (b', zpos prev)
                  | None => mret (b, pos)
                  end;
      node ← must (locate [] pos (b_regions b));
      match rb_next node with
      | Some next =>
          try_merge b (ocfs2_bitmap_merge_region cb mem REALLOC_NEXT b pos (zpos next))
      | None => mret b
      end
  end.

(** ** The generic operations *)

Definition with_bits br (set_bits : Z) (bm : list Z) : region :=
  mkRegion (br_start_bit br) (br_total_bits br) (br_bytes br) set_bits bm (br_private br).

Definition notify cb (priv : P) br (bitno : Z) (new_val : bool) : P :=
  match bit_change_notify cb with
  | Some f => f priv br bitno new_val
  | None => priv
  end.

Definition set_generic_shared cb (priv : P) br (bitno : Z) : res (P * region * bool) :=
  '(old_tmp, bm) ← ocfs2_set_bit (s32 (u64 (bitno - br_start_bit br))) (br_bitmap br);
  if negb old_tmp then
    let br := with_bits br (br_set_bits br + 1) bm in
    mret (notify cb priv br bitno true, br, old_tmp)
  else mret (priv, with_bits br (br_set_bits br) bm, old_tmp).

Definition clear_generic_shared cb (priv : P) br (bitno : Z) : res (P * region * bool) :=
  '(old_tmp, bm) ← ocfs2_clear_bit (s32 (u64 (bitno - br_start_bit br))) (br_bitmap br);
  if (old_tmp : bool) then
    let br := with_bits br (br_set_bits br - 1) bm in
    mret (notify cb priv br bitno false, br, old_tmp)
  else mret (priv, with_bits br (br_set_bits br) bm, old_tmp).

Definition ocfs2_bitmap_set_generic cb b (bitno : Z) : res (bitmap * option bool) :=
  match ocfs2_bitmap_lookup b bitno 1 with
  | Found (p, N c l br r) =>
      '(priv, br, old_tmp) ← set_generic_shared cb (b_private b) br bitno;
      mret (with_private (with_regions b (plug p (N c l br r))) priv, Some old_tmp)
  | _ => Err OCFS2_ET_INVALID_BIT
  end.

Definition ocfs2_bitmap_clear_generic cb b (bitno : Z) : res (bitmap * option bool) :=
  match ocfs2_bitmap_lookup b bitno 1 with
  | Found (p, N c l br r) =>
      '(priv, br, old_tmp) ← clear_generic_shared cb (b_private b) br bitno;
      mret (with_private (with_regions b (plug p (N c l br r))) priv, Some old_tmp)
  | _ => Err OCFS2_ET_INVALID_BIT
  end.

Definition ocfs2_bitmap_test_generic b (bitno : Z) : res bool :=
  match ocfs2_bitmap_lookup b bitno 1 with
  | Found (p, N c l br r) => ocfs2_test_bit (s32 (u64 (bitno - br_start_bit br))) (br_bitmap br)
  | _ => Err OCFS2_ET_INVALID_BIT
  end.

(** The node the searches start from. *)
Definition start_node b (start : Z) : option (zipper (A := region)) :=
  match ocfs2_bitmap_lookup b start 1 with
  | Found z => Some z
  | NotFound _ next => next
  end.

Definition region_offset br (start : Z) : Z :=
  if start >? br_start_bit br then s32 (u64 (start - br_start_bit br)) else 0.

(** The [for] loop of the two generic searches, with the search in a buffer as
    [find]. *)
Fixpoint find_loop (find : list Z -> Z -> Z -> res Z) (fuel : nat)
    (node : option (zipper (A := region))) (start : Z) : res Z :=
  match node with
  | None => Err OCFS2_ET_BIT_NOT_FOUND
  | Some (p, N c l br r) =>
      match fuel with
      | O => Fault
      | S fuel =>
          ret ← find (br_bitmap br) (br_total_bits br) (region_offset br start);
          if negb (ret =? br_total_bits br) then mret (u64 (br_start_bit br + ret))
          else find_loop find fuel (rb_next (p, N c l br r)) start
      end
  | Some (_, E) => Fault
  end.

Definition ocfs2_bitmap_find_next_set_generic b (start : Z) : res Z :=
  find_loop ocfs2_find_next_bit_set (length (inorder (b_regions b))) (start_node b start) start.

Definition ocfs2_bitmap_find_next_clear_generic b (start : Z) : res Z :=
  find_loop ocfs2_find_next_bit_clear (length (inorder (b_regions b))) (start_node b start) start.

(** ** Allocating a range *)

Record alloc_range_args : Type := mkArgs {
  ar_private : P;
  ar_min_len : Z;
  ar_len : Z;
  ar_first_bit : Z;
  ar_bits_found : Z;
  ar_ret : option errcode
}.

(** The scan of one region for a run of clear bits: [inl (start, end)] when a
    run of [ar_len] was found, [inr (best_start, best_len)] at the end.  Each
    round moves [start] up, so [br_total_bits + 1] rounds are enough. *)
Fixpoint alloc_scan (fuel : nat) br (min_len len : Z) (start best_start best_len : Z)
    : res (Z * Z + Z * Z) :=
  if negb (u64 (start + min_len) <=? br_total_bits br) then Ok (inr (best_start, best_len)) else
  match fuel with
  | O => Fault
  | S fuel =>
      start ← ocfs2_find_next_bit_clear (br_bitmap br) (br_total_bits br) start;
      if start =? br_total_bits br then mret (inr (best_start, best_len)) else
      end_ ← ocfs2_find_next_bit_set (br_bitmap br) (br_total_bits br) start;
      if u64 (end_ - start) >=? len then mret (inl (start, s32 (start + len)))
      else if u64 (end_ - start) >? best_len
      then alloc_scan fuel br min_len len (end_ + 1) (u64 start) (u64 (end_ - start))
      else alloc_scan fuel br min_len len (end_ + 1) best_start best_len
  end.

(** [for (; start < end; start++) set_generic_shared(...)], [n] times *)
Fixpoint set_run cb (n : nat) (priv : P) br (start : Z) : res (P * region) :=
  match n with
  | O => Ok (priv, br)
  | S n =>
      '(priv, br, _) ← set_generic_shared cb priv br (u64 (start + br_start_bit br));
      set_run cb n priv br (start + 1)
  end.

Definition alloc_range_func cb (ar : alloc_range_args) br
    : res (alloc_range_args * region * option errcode) :=
  if u64 (br_total_bits br - br_set_bits br) <? ar_min_len ar then mret (ar, br, None) else
  scan ← alloc_scan (Z.to_nat (br_total_bits br + 1)) br (ar_min_len ar) (ar_len ar) 0 UINT64_MAX 0;
  let found start end_ :=
    '(priv, br') ← set_run cb (Z.to_nat (end_ - start)) (ar_private ar) br start;
    mret (mkArgs priv (ar_min_len ar) (ar_len ar) (u64 (br_start_bit br + start)) (u64 (end_ - start)) None,
          br', Some OCFS2_ET_ITERATION_COMPLETE) in
  match scan with
  | inl (start, end_) => found start end_
  | inr (best_start, best_len) =>
      if (best_start =? UINT64_MAX) || (best_len <? ar_min_len ar) then mret (ar, br, None)
      else found (s32 best_start) (s32 (best_start + best_len))
  end.

Definition ocfs2_bitmap_alloc_range_generic cb b (min_len len : Z) : res (bitmap * (Z * Z)) :=
  let ar := mkArgs (b_private b) min_len len 0 0 (Some OCFS2_ET_BIT_NOT_FOUND) in
  '(t, ar, ret) ← ocfs2_bitmap_foreach_region (alloc_range_func cb) (b_regions b) ar;
  match ret, ar_ret ar with
  | Some e, _ => Err e
  | None, Some e => Err e
  | None, None =>
      mret (with_private (with_regions b t) (ar_private ar), (ar_first_bit ar, ar_bits_found ar))
  end.

(** The loop of [ocfs2_bitmap_clear_range_generic], [n] times *)
Fixpoint clear_run cb (n : nat) (priv : P) br (first_bit : Z) : res (P * region) :=
  match n with
  | O => Ok (priv, br)
  | S n =>
      '(priv, br, _) ← clear_generic_shared cb priv br first_bit;
      clear_run cb n priv br (first_bit + 1)
  end.

Definition ocfs2_bitmap_clear_range_generic cb b (len first_bit : Z) : res bitmap :=
  match ocfs2_bitmap_lookup b first_bit len with
  | Found (p, N c l br r) =>
      let end_ := u64 (first_bit + len) in
      '(priv, br) ← clear_run cb (Z.to_nat (end_ - first_bit)) (b_private b) br first_bit;
      mret (with_private (with_regions b (plug p (N c l br r))) priv)
  | _ => Err OCFS2_ET_INVALID_BIT
  end.

(** ** The operations with holes *)

Definition ocfs2_bitmap_set_holes cb (mem : memory) b (bitno : Z) : res (bitmap * option bool) :=
  match ocfs2_bitmap_set_generic cb b bitno with
  | Err _ =>
      br ← ocfs2_bitmap_alloc_region mem bitno 1;
      b ← ocfs2_bitmap_insert_region cb mem b br;
      ocfs2_bitmap_set_generic cb b bitno
  | r => r
  end.

(** A new region leaves [*oldval] alone. *)
Definition ocfs2_bitmap_clear_holes cb (mem : memory) b (bitno : Z) : res (bitmap * option bool) :=
  match ocfs2_bitmap_clear_generic cb b bitno with
  | Err _ =>
      br ← ocfs2_bitmap_alloc_region mem bitno 1;
      b ← ocfs2_bitmap_insert_region cb mem b br;
      mret (b, None)
  | r => r
  end.

Definition ocfs2_bitmap_test_holes b (bitno : Z) : res bool :=
  match ocfs2_bitmap_test_generic b bitno with
  | Err _ => Ok false
  | r => r
  end.

Definition ocfs2_bitmap_find_next_set_holes b (start : Z) : res Z :=
  ocfs2_bitmap_find_next_set_generic b start.

Fixpoint find_clear_holes_loop (fuel : nat) (node : option (zipper (A := region)))
    (start seen : Z) : res Z :=
  match node with
  | None => Err OCFS2_ET_BIT_NOT_FOUND
  | Some (p, N c l br r) =>
      match fuel with
      | O => Fault
      | S fuel =>
          if seen <? br_start_bit br then mret seen else
          ret ← ocfs2_find_next_bit_clear (br_bitmap br) (br_total_bits br) (region_offset br start);
          if negb (ret =? br_total_bits br) then mret (u64 (br_start_bit br + ret))
          else find_clear_holes_loop fuel (rb_next (p, N c l br r)) start
                 (u64 (br_start_bit br + br_total_bits br))
      end
  | Some (_, E) => Fault
  end.

Definition ocfs2_bitmap_find_next_clear_holes b (start : Z) : res Z :=
  match start_node b start with
  | None => mret start
  | node => find_clear_holes_loop (length (inorder (b_regions b))) node start start
  end.

End Bitmap.

Arguments bitmap : clear implicits.
Arguments callbacks : clear implicits.
Arguments operations : clear implicits.

(** ** The two bitmaps of the library

    Neither has private data nor callbacks. *)

Definition no_callbacks : callbacks unit := mkCallbacks None None.

Definition global_cluster_ops : operations unit := {|
  set_bit := Some (fun _ => ocfs2_bitmap_set_generic no_callbacks);
  clear_bit := Some (fun _ => ocfs2_bitmap_clear_generic no_callbacks);
  test_bit := Some ocfs2_bitmap_test_generic;
  find_next_set := Some ocfs2_bitmap_find_next_set_generic;
  find_next_clear := Some ocfs2_bitmap_find_next_clear_generic;
  read_bitmap := None;
  write_bitmap := None;
  destroy_notify := None;
  alloc_range := Some (ocfs2_bitmap_alloc_range_generic no_callbacks);
  clear_range := Some (ocfs2_bitmap_clear_range_generic no_callbacks)
|}.

(** The loop of [ocfs2_cluster_bitmap_new]; [mem] gives the outcomes of the
    allocations of each round. *)
Fixpoint cluster_regions (fuel : nat) (mem : nat -> memory) (num_bits max_bits bitoff : Z)
    (b : bitmap unit) : res (bitmap unit) :=
  if bitoff <? num_bits then
    match fuel with
    | O => Fault
    | S fuel =>
        let alloc_bits := if num_bits >? max_bits then max_bits else num_bits in
        br ← ocfs2_bitmap_alloc_region (mem fuel) bitoff (s32 alloc_bits);
        b ← ocfs2_bitmap_insert_region no_callbacks (mem fuel) b br;
        cluster_regions fuel mem num_bits max_bits (u64 (bitoff + alloc_bits)) b
    end
  else Ok b.

(** [fs_clusters] has 32 bits and a cluster at most 1 MB, so a region holds
    more than a third of the bits and four rounds are enough. *)
Definition ocfs2_cluster_bitmap_new (mem : nat -> memory) (fs_clusters fs_clustersize : Z)
    : res (bitmap unit) :=
  let num_bits := fs_clusters in
  b ← ocfs2_bitmap_new (mem 4%nat) num_bits true global_cluster_ops tt;
  let max_bits := u32 (INT_MAX - (fs_clustersize - 1)) in
  cluster_regions 4 mem num_bits max_bits 0 b.

Definition global_block_ops : operations unit := {|
  set_bit := Some (ocfs2_bitmap_set_holes no_callbacks);
  clear_bit := Some (ocfs2_bitmap_clear_holes no_callbacks);
  test_bit := Some ocfs2_bitmap_test_holes;
  find_next_set := Some ocfs2_bitmap_find_next_set_holes;
  find_next_clear := Some ocfs2_bitmap_find_next_clear_holes;
  read_bitmap := None;
  write_bitmap := None;
  destroy_notify := None;
  alloc_range := None;
  clear_range := None
|}.

Definition ocfs2_block_bitmap_new (mem : memory) (fs_blocks : Z) : res (bitmap unit) :=
  ocfs2_bitmap_new mem fs_blocks true global_block_ops tt.
