(* ===== verification/BitmapInv.v ===== *)
(** The invariant of sparse bitmaps, their abstract value, and the lemmas on
    the private operations of [libocfs2/bitmap.c]: lookup, merging and
    insertion of regions. *)

From S2P Require Import Prelude Bitops RbTree Bitmap.
From Stdlib Require Import Sorting.Sorted.

Create HintDb bitmap.

(** ** Counting *)

(** The number of [i < n] with [f i]. *)
Fixpoint count (f : Z -> bool) (n : nat) : Z :=
  match n with
  | O => 0
  | S n => count f n + Z.b2z (f (Z.of_nat n))
  end.

Lemma count_ext f g n : (forall i, 0 <= i < Z.of_nat n -> f i = g i) -> count f n = count g n.
Proof.
  intros H. induction n as [| n IH]; cbn [count]; [done |].
  rewrite IH by (intros; apply H; lia). by rewrite H by lia.
Qed.

Lemma count_bound f n : 0 <= count f n <= Z.of_nat n.
Proof. induction n as [| n IH]; cbn [count]; [lia |]. destruct (f _); cbn; lia. Qed.

Lemma count_false f n : (forall i, 0 <= i < Z.of_nat n -> f i = false) -> count f n = 0.
Proof.
  intros H. rewrite (count_ext _ (fun _ => false)) by done.
  induction n as [| n IH]; cbn [count]; [done |]. rewrite IH; [done | intros; apply H; lia].
Qed.

(** Changing one bit below [n]. *)
Lemma count_update f k v n : 0 <= k < Z.of_nat n ->
  count (fun i => if i =? k then v else f i) n = count f n + Z.b2z v - Z.b2z (f k).
Proof.
  induction n as [| n IH]; intros Hk; [lia |]. cbn [count].
  destruct (Z.eqb_spec (Z.of_nat n) k) as [<- | Hne].
  - rewrite (count_ext _ f); [lia |]. intros i Hi. destruct (Z.eqb_spec i (Z.of_nat n)); [lia | done].
  - rewrite IH by lia. lia.
Qed.

Lemma count_split f n m : count f (n + m) = count f n + count (fun i => f (Z.of_nat n + i)) m.
Proof.
  induction m as [| m IH]; cbn [count].
  - rewrite Nat.add_0_r. lia.
  - rewrite Nat.add_succ_r. cbn [count]. rewrite IH, Nat2Z.inj_add. lia.
Qed.

(** ** Bits of a buffer *)

Lemma bit_replicate n k : bit (replicate n 0) k = false.
Proof.
  unfold bit. destruct (replicate n 0 !! Z.to_nat (k / 8)) as [v |] eqn:Ev; [| done].
  apply lookup_replicate in Ev as [-> _]. apply Z.bits_0.
Qed.

Lemma bit_app a b n : 0 <= n ->
  bit (a ++ b) n = if n <? 8 * zlen a then bit a n else bit b (n - 8 * zlen a).
Proof.
  intros Hn. unfold bit. pose proof (Z.div_mod n 8 ltac:(lia)). pose proof (Z.mod_pos_bound n 8 ltac:(lia)).
  assert (0 <= n / 8) by (apply Z.div_pos; lia).
  destruct (Z.ltb_spec n (8 * zlen a)); unfold zlen in *.
  - by rewrite lookup_app_l by lia.
  - rewrite lookup_app_r by lia.
    replace ((n - 8 * Z.of_nat (length a)) / 8) with (n / 8 - Z.of_nat (length a))
      by (replace (n - 8 * Z.of_nat (length a)) with (n + (- Z.of_nat (length a)) * 8) by lia;
          rewrite Z.div_add by lia; lia).
    replace ((n - 8 * Z.of_nat (length a)) mod 8) with (n mod 8)
      by (replace (n - 8 * Z.of_nat (length a)) with (n + (- Z.of_nat (length a)) * 8) by lia;
          by rewrite Z.mod_add by lia).
    replace (Z.to_nat (n / 8 - Z.of_nat (length a))) with (Z.to_nat (n / 8) - length a)%nat by lia.
    done.
Qed.

Lemma bit_beyond a n : 8 * zlen a <= n -> bit a n = false.
Proof.
  intros Hn. unfold bit. rewrite lookup_ge_None_2; [done |].
  unfold zlen in Hn. pose proof (Z.div_mod n 8 ltac:(lia)). pose proof (Z.mod_pos_bound n 8 ltac:(lia)). lia.
Qed.

(** ** The abstract value *)

(** The region holds bit [n]. *)
Definition covers (r : region) (n : Z) : bool :=
  (br_start_bit r <=? n) && (n <? br_start_bit r + br_total_bits r).

Definition region_bit (r : region) (n : Z) : bool := bit (br_bitmap r) (n - br_start_bit r).

(** The value of bit [n], [None] in a hole. *)
Fixpoint content (rs : list region) (n : Z) : option bool :=
  match rs with
  | [] => None
  | r :: rs => if covers r n then Some (region_bit r n) else content rs n
  end.

(** ** The invariant *)

Record region_ok (r : region) : Prop := mkRegionOk {
  ok_start : 0 <= br_start_bit r;
  ok_total : 0 < br_total_bits r <= INT_MAX - 7;
  ok_end : br_start_bit r + br_total_bits r < 2 ^ 64;
  ok_bytes : br_bytes r = (br_total_bits r + 7) / 8;
  ok_len : zlen (br_bitmap r) = br_bytes r;
  ok_bitmap : bytes_ok (br_bitmap r);
  ok_spare : forall n, br_total_bits r <= n -> bit (br_bitmap r) n = false;
  ok_count : br_set_bits r = count (bit (br_bitmap r)) (Z.to_nat (br_total_bits r))
}.

(** [r2] lies behind [r1]. *)
Definition precedes (r1 r2 : region) : Prop :=
  br_start_bit r1 + br_total_bits r1 <= br_start_bit r2.

Record regions_ok (rs : list region) : Prop := mkRegionsOk {
  ok_each : Forall region_ok rs;
  ok_sorted : StronglySorted precedes rs
}.

Lemma region_size r : region_ok r ->
  8 * br_bytes r - 7 <= br_total_bits r <= 8 * br_bytes r /\ 0 < br_bytes r.
Proof.
  intros [_ Ht _ Hb _ _ _ _]. pose proof (Z.div_mod (br_total_bits r + 7) 8 ltac:(lia)).
  pose proof (Z.mod_pos_bound (br_total_bits r + 7) 8 ltac:(lia)). lia.
Qed.

Lemma region_spare r : region_ok r -> spare_clear (br_bitmap r) (br_total_bits r).
Proof. intros H n Hn. apply (ok_spare r H). lia. Qed.

Lemma covers_spec r n : covers r n = true <->
  br_start_bit r <= n < br_start_bit r + br_total_bits r.
Proof. unfold covers. lia. Qed.

Lemma covers_false r n : covers r n = false <->
  n < br_start_bit r \/ br_start_bit r + br_total_bits r <= n.
Proof. unfold covers. lia. Qed.

Lemma content_app l1 l2 n :
  content (l1 ++ l2) n = match content l1 n with Some v => Some v | None => content l2 n end.
Proof. induction l1 as [| r l1 IH]; cbn [app content]; [done |]. by destruct (covers r n). Qed.

Lemma content_none rs n : Forall (fun r => covers r n = false) rs -> content rs n = None.
Proof. induction 1 as [| r rs H _ IH]; cbn [content]; [done |]. by rewrite H. Qed.

Lemma sorted_app l1 l2 : StronglySorted precedes (l1 ++ l2) <->
  StronglySorted precedes l1 /\ StronglySorted precedes l2 /\
  (forall a b, a ∈ l1 -> b ∈ l2 -> precedes a b).
Proof.
  induction l1 as [| r l1 IH]; cbn [app].
  - split; [intros H; split_and!; [constructor | done | set_solver] | tauto].
  - split.
    + inversion 1 as [| ? ? Hs Hf]; subst. apply IH in Hs as (H1 & H2 & H3).
      apply Forall_app in Hf as [Hf1 Hf2]. rewrite Forall_forall in Hf2.
      split_and!; [by constructor | done |]. intros a b' Ha Hb.
      apply elem_of_cons in Ha as [-> | Ha]; eauto.
    + intros (H1 & H2 & H3). inversion H1 as [| ? ? Hs Hf]; subst. constructor.
      * apply IH. split_and!; [done.. |]. intros; apply H3; [by right | done].
      * apply Forall_app. split; [done |]. apply Forall_forall. intros; apply H3; [by left | done].
Qed.

Lemma sorted_middle l1 r l2 : StronglySorted precedes (l1 ++ r :: l2) ->
  Forall (fun a => precedes a r) l1 /\ Forall (fun a => precedes r a) l2.
Proof.
  intros H. apply sorted_app in H as (_ & H2 & H3). split.
  - apply Forall_forall. intros a Ha. apply H3; set_solver.
  - by inversion H2.
Qed.

(** A bit of one region is in no other. *)
Lemma content_before l1 r l2 n : regions_ok (l1 ++ r :: l2) -> br_start_bit r <= n -> content l1 n = None.
Proof.
  intros [_ Hs] Hn. apply content_none. apply sorted_middle in Hs as [Hs _].
  eapply Forall_impl; [exact Hs |]. intros a Ha. apply covers_false. unfold precedes in Ha. lia.
Qed.

Lemma content_after l1 r l2 n : regions_ok (l1 ++ r :: l2) ->
  n < br_start_bit r + br_total_bits r -> content l2 n = None.
Proof.
  intros [_ Hs] Hn. apply content_none. apply sorted_middle in Hs as [_ Hs].
  eapply Forall_impl; [exact Hs |]. intros a Ha. apply covers_false. unfold precedes in Ha. lia.
Qed.

Lemma content_middle l1 r l2 n : regions_ok (l1 ++ r :: l2) -> covers r n = true ->
  content (l1 ++ r :: l2) n = Some (region_bit r n).
Proof.
  intros H Hc. rewrite content_app, (content_before _ _ _ _ H); [cbn; by rewrite Hc |].
  apply covers_spec in Hc. lia.
Qed.

(** Replacing a region by one in the same place. *)
Lemma content_replace l1 r r' l2 n : br_start_bit r' = br_start_bit r ->
  br_total_bits r' = br_total_bits r -> regions_ok (l1 ++ r :: l2) ->
  content (l1 ++ r' :: l2) n =
  if covers r n then Some (region_bit r' n) else content (l1 ++ r :: l2) n.
Proof.
  intros E1 E2 H. rewrite !content_app. cbn [content].
  assert (Ec : covers r' n = covers r n) by (unfold covers; by rewrite E1, E2). rewrite Ec.
  destruct (covers r n) eqn:Hc; [| done].
  rewrite (content_before _ _ _ _ H); [done |]. apply covers_spec in Hc. lia.
Qed.

Lemma regions_ok_replace l1 r r' l2 : br_start_bit r' = br_start_bit r ->
  br_total_bits r' = br_total_bits r -> region_ok r' -> regions_ok (l1 ++ r :: l2) ->
  regions_ok (l1 ++ r' :: l2).
Proof.
  intros E1 E2 Hr [He Hs]. split.
  - apply Forall_app in He as [H1 H2]. inversion H2; subst. apply Forall_app. by split; [| constructor].
  - apply sorted_app in Hs as (H1 & H2 & H3). inversion H2 as [| ? ? Ht Hf]; subst.
    apply sorted_app. split; [done |]. split.
    + constructor; [done |]. eapply Forall_impl; [exact Hf |].
      unfold precedes. intros x Hx. lia.
    + intros a c Ha Hb. apply elem_of_cons in Hb as [-> | Hb].
      * specialize (H3 a r Ha ltac:(set_solver)). unfold precedes in *. lia.
      * apply H3; set_solver.
Qed.

Lemma regions_ok_middle l1 r l2 : regions_ok (l1 ++ r :: l2) -> region_ok r.
Proof. intros [He _]. apply Forall_app in He as [_ He]. by inversion He. Qed.

(** ** Lookup *)

(** The region meets the bits [lo .. hi - 1]. *)
Definition meets (r : region) (lo hi : Z) : Prop :=
  br_start_bit r < hi /\ lo < br_start_bit r + br_total_bits r.

(** What [ocfs2_bitmap_lookup] promises for the tree [t]: all regions before
    the link end by [lo], all after it start at [hi] or later, and [ret_next]
    is the first of these. *)
Definition lookup_post (t : tree region) (lo hi : Z) (res : lookup_result) : Prop :=
  match res with
  | Found z => zroot z = t /\ exists r, zval z = Some r /\ meets r lo hi
  | NotFound q next =>
      plug q E = t /\
      Forall (fun r => br_start_bit r + br_total_bits r <= lo) (before q) /\
      Forall (fun r => hi <= br_start_bit r) (after q) /\
      match next with
      | Some z => zroot z = t /\ snd z <> E /\ zpos z = length (before q)
      | None => after q = []
      end
  end.

Lemma lookup_from_ok t : forall p last_left lo total,
  regions_ok (inorder (plug p t)) -> 0 <= lo -> 0 <= total -> lo + total < 2 ^ 64 ->
  Forall (fun r => br_start_bit r + br_total_bits r <= lo) (before p) ->
  Forall (fun r => lo + total <= br_start_bit r) (after p) ->
  match last_left with
  | Some z => zroot z = plug p t /\ snd z <> E /\ zpos z = length (before p ++ inorder t)
  | None => after p = []
  end ->
  lookup_post (plug p t) lo (lo + total) (lookup_from p last_left t lo total).
Proof.
  induction t as [| c l IHl br r IHr]; intros p last_left lo total Hok Hlo Ht Hhi Hb Ha Hl.
  - cbn [lookup_from lookup_post]. rewrite app_nil_r in Hl. done.
  - cbn [lookup_from]. assert (Hok' := Hok). rewrite inorder_zipper in Hok'.
    pose proof (regions_ok_middle _ _ _ Hok') as Hr. destruct Hok' as [_ Hs].
    apply sorted_middle in Hs as [Hs1 Hs2]. destruct Hr as [? ? ? _ _ _ _ _].
    rewrite !u64_small by lia.
    destruct (Z.leb_spec (lo + total) (br_start_bit br)).
    + apply (IHl (FL c br r :: p)); try done.
      * cbn [after]. constructor; [done |]. rewrite Forall_app in Hs2. apply Forall_app. split; [| done].
        eapply Forall_impl; [exact (proj1 Hs2) |]. unfold precedes. intros; lia.
      * split; [done |]. split; [done |]. by rewrite zpos_node.
    + destruct (Z.geb_spec lo (br_start_bit br + br_total_bits br)).
      * apply (IHr (FR c l br :: p)); try done.
        -- cbn [before]. rewrite app_assoc. apply Forall_app. split; [| repeat constructor; lia].
           eapply Forall_impl; [exact Hs1 |]. unfold precedes. intros; lia.
        -- cbn [before inorder after] in *. destruct last_left; [| done].
           destruct Hl as (H1 & H2 & H3). split; [done |]. split; [done |]. rewrite H3. by list_assoc.
      * split; [done |]. exists br. split; [done |]. unfold meets. lia.
Qed.

Lemma lookup_ok {P} (b : bitmap P) lo total :
  regions_ok (inorder (b_regions b)) -> 0 <= lo -> 0 <= total -> lo + total < 2 ^ 64 ->
  lookup_post (b_regions b) lo (lo + total) (ocfs2_bitmap_lookup b lo total).
Proof. intros. by apply (lookup_from_ok _ [] None). Qed.

(** ** Merging *)

Lemma bit_store buf i v n : 0 <= i < zlen buf -> 0 <= n ->
  bit (<[Z.to_nat i := v]> buf) n = if n / 8 =? i then Z.testbit v (n mod 8) else bit buf n.
Proof. intros. by apply bit_insert. Qed.

Lemma byte_index n k : 0 <= n -> n / 8 = k <-> 8 * k <= n < 8 * k + 8.
Proof.
  intros. pose proof (Z.div_mod n 8 ltac:(lia)). pose proof (Z.mod_pos_bound n 8 ltac:(lia)). lia.
Qed.

Lemma byte_rest n k : 8 * k <= n < 8 * k + 8 -> n mod 8 = n - 8 * k.
Proof. intros. symmetry. apply (Z.mod_unique n 8 k); lia. Qed.

(** The two bytes the loop writes in a round. *)
Lemma merge_low_byte pb nb offset j : byte_ok pb -> byte_ok nb -> 0 < offset < 8 -> 0 <= j < 8 ->
  Z.testbit (u8 (Z.lor (Z.land pb (Z.shiftl 1 offset - 1))
                   (Z.shiftl (Z.land nb (Z.shiftl 1 (8 - offset) - 1)) offset))) j =
  if j <? offset then Z.testbit pb j else Z.testbit nb (j - offset).
Proof.
  intros Hp Hn Ho Hj. rewrite testbit_u8, Z.lor_spec, Z.land_spec, Z.shiftl_spec, testbit_ones by lia.
  destruct (Z.ltb_spec j 8), (Z.ltb_spec j offset); try lia; cbn [andb].
  - rewrite andb_true_r, (Z.testbit_neg_r _ (j - offset)) by lia. apply orb_false_r.
  - rewrite andb_false_r, Z.land_spec, testbit_ones by lia.
    destruct (Z.ltb_spec (j - offset) (8 - offset)); [| lia]. by rewrite andb_true_r.
Qed.

Lemma merge_high_byte nb diff j : byte_ok nb -> 0 <= diff -> 0 <= j < 8 ->
  Z.testbit (u8 (Z.shiftr nb diff)) j = Z.testbit nb (j + diff).
Proof.
  intros Hn Hd Hj. rewrite testbit_u8, Z.shiftr_spec by lia. by destruct (Z.ltb_spec j 8); [| lia].
Qed.

(** The buffer after the first and after the second byte of a round. *)
Lemma shift_low_bits pb nb offset pbm buf : 0 < offset < 8 -> 0 <= pbm < zlen buf ->
  byte_ok pb -> byte_ok nb -> buf !! Z.to_nat pbm = Some pb ->
  (forall n, 8 * pbm + offset <= n -> bit buf n = false) ->
  forall n, 0 <= n ->
  bit (<[Z.to_nat pbm := u8 (Z.lor (Z.land pb (Z.shiftl 1 offset - 1))
          (Z.shiftl (Z.land nb (Z.shiftl 1 (8 - offset) - 1)) offset))]> buf) n =
    if n <? 8 * pbm + offset then bit buf n
    else if n <? 8 * pbm + 8 then Z.testbit nb (n - (8 * pbm + offset)) else false.
Proof.
  intros Ho Hp Hpb Hnb Hbyte Hbz n Hn. rewrite bit_store by lia.
  destruct (Z.eqb_spec (n / 8) pbm) as [E |].
  - apply byte_index in E; [| done]. rewrite (byte_rest n pbm) by done.
    rewrite merge_low_byte by (done || lia).
    destruct (Z.ltb_spec (n - 8 * pbm) offset), (Z.ltb_spec n (8 * pbm + offset)),
      (Z.ltb_spec n (8 * pbm + 8)); try lia.
    + unfold bit. rewrite (proj2 (byte_index n pbm Hn)), Hbyte by lia. by rewrite (byte_rest n pbm).
    + f_equal. lia.
  - rewrite byte_index in * by done.
    destruct (Z.ltb_spec n (8 * pbm + offset)), (Z.ltb_spec n (8 * pbm + 8)); try lia; [done.. |].
    apply Hbz. lia.
Qed.

Lemma shift_high_bits nb offset pbm (buf buf1 : list Z) : 0 < offset < 8 -> 0 <= pbm ->
  pbm + 1 < zlen buf1 -> byte_ok nb ->
  (forall n, 0 <= n -> bit buf1 n =
    if n <? 8 * pbm + offset then bit buf n
    else if n <? 8 * pbm + 8 then Z.testbit nb (n - (8 * pbm + offset)) else false) ->
  forall n, 0 <= n -> bit (<[Z.to_nat (pbm + 1) := u8 (Z.shiftr nb (8 - offset))]> buf1) n =
    if n <? 8 * pbm + offset then bit buf n
    else if n <? 8 * pbm + offset + 8 then Z.testbit nb (n - (8 * pbm + offset)) else false.
Proof.
  intros Ho Hp Hp1 Hnb Hb1 n Hn. rewrite bit_store by lia.
  destruct (Z.eqb_spec (n / 8) (pbm + 1)) as [E |].
  - apply byte_index in E; [| done]. rewrite (byte_rest n (pbm + 1)) by lia.
    rewrite merge_high_byte by (done || lia).
    destruct (Z.ltb_spec n (8 * pbm + offset)), (Z.ltb_spec n (8 * pbm + offset + 8)); try lia.
    + f_equal. lia.
    + apply byte_bits_high; [done | lia].
  - rewrite Hb1 by done. rewrite byte_index in * by done.
    destruct (Z.ltb_spec n (8 * pbm + offset)), (Z.ltb_spec n (8 * pbm + 8)),
      (Z.ltb_spec n (8 * pbm + offset + 8)); done || lia.
Qed.

(** The bits of [nbm] behind the first [base] bits of [buf]. *)
Definition appended (buf nbm buf' : list Z) (base : Z) : Prop :=
  bytes_ok buf' /\ length buf' = length buf /\
  forall n, 0 <= n -> bit buf' n = if n <? base then bit buf n else bit nbm (n - base).

Lemma shift_in_ok nbm : forall left offset pbm buf,
  0 < offset < 8 -> 0 <= pbm -> bytes_ok buf -> bytes_ok nbm ->
  8 * (zlen nbm - 1) < left <= 8 * zlen nbm ->
  8 * pbm + offset + left <= 8 * zlen buf ->
  (forall n, 0 <= n -> left <= n -> bit nbm n = false) ->
  (forall n, 8 * pbm + offset <= n -> bit buf n = false) ->
  exists buf', shift_in (length nbm) left offset (8 - offset) pbm buf nbm = Ok buf' /\
    appended buf nbm buf' (8 * pbm + offset).
Proof.
  induction nbm as [| nb nbm IH]; intros left offset pbm buf Ho Hp Hbuf Hnbm Hleft Hroom Hnz Hbz.
  { exists buf. split; [done |]. split; [done |]. split; [done |]. intros n Hn.
    destruct (Z.ltb_spec n (8 * pbm + offset)); [done |]. rewrite Hbz by lia. done. }
  inversion Hnbm as [| ? ? Hnb Hnbm']; subst. rewrite zlen_cons in Hleft.
  pose proof (zlen_nonneg nbm). cbn [length shift_in].
  destruct (Z.gtb_spec left 0); [| lia].
  destruct (load_in_range buf pbm) as (pb & Hpb & ->); [lia |]. rewrite bind_Ok. cbn [deref head must].
  rewrite bind_Ok, store_in_range, bind_Ok by lia.
  pose proof (shift_low_bits pb nb offset pbm buf Ho ltac:(lia) (bytes_ok_lookup _ _ _ Hbuf Hpb) Hnb Hpb Hbz) as Hb1.
  set (v := u8 (Z.lor _ _)) in *. set (buf1 := <[Z.to_nat pbm := v]> buf) in *.
  assert (Hok1 : bytes_ok buf1) by (apply bytes_ok_insert; [done | apply u8_range]).
  assert (Hlen1 : zlen buf1 = zlen buf) by apply zlen_insert.
  destruct (Z.gtb_spec (left - (8 - offset)) 0) as [Hmore | Hend].
  - rewrite store_in_range, bind_Ok by lia.
    pose proof (shift_high_bits nb offset pbm buf buf1 Ho Hp ltac:(lia) Hnb Hb1) as Hb2.
    set (buf2 := <[Z.to_nat (pbm + 1) := _]> buf1) in *.
    destruct (IH (left - (8 - offset) - offset) offset (pbm + 1) buf2)
      as (buf' & E & Hok' & Hlen' & Hbits); try (done || lia).
    + apply bytes_ok_insert; [done | apply u8_range].
    + unfold buf2. rewrite zlen_insert. lia.
    + intros n Hn0 Hn. specialize (Hnz (n + 8) ltac:(lia) ltac:(lia)). rewrite bit_cons in Hnz by lia.
      destruct (Z.ltb_spec (n + 8) 8); [lia |].
      by replace (n + 8 - 8) with n in Hnz by lia.
    + intros n Hn. rewrite Hb2 by lia.
      destruct (Z.ltb_spec n (8 * pbm + offset)), (Z.ltb_spec n (8 * pbm + offset + 8)); done || lia.
    + exists buf'. cbn [tail]. rewrite E. split; [done |]. split; [done |].
      split; [rewrite Hlen'; unfold buf2, buf1; by rewrite !length_insert |].
      intros n Hn. rewrite Hbits, Hb2 by done.
      destruct (Z.ltb_spec n (8 * (pbm + 1) + offset)), (Z.ltb_spec n (8 * pbm + offset)),
          (Z.ltb_spec n (8 * pbm + offset + 8)); try lia; [done | |];
        rewrite bit_cons by lia; destruct (Z.ltb_spec (n - (8 * pbm + offset)) 8); try lia; [done |].
      f_equal. lia.
  - assert (nbm = []) as -> by (destruct nbm; [done | rewrite zlen_cons in *; pose proof (zlen_nonneg nbm); lia]).
    exists buf1. split; [done |]. split; [done |].
    split; [apply length_insert |]. intros n Hn. rewrite Hb1 by done.
    destruct (Z.ltb_spec n (8 * pbm + offset)), (Z.ltb_spec n (8 * pbm + 8)); try done.
    + rewrite bit_cons by lia. destruct (Z.ltb_spec (n - (8 * pbm + offset)) 8); [done | lia].
    + symmetry. apply Hnz; lia.
Qed.

(** Growing a buffer with zeros. *)
Lemma bit_grow a k n : 0 <= n -> bit (a ++ replicate k 0) n = bit a n.
Proof.
  intros Hn. rewrite bit_app by done. destruct (Z.ltb_spec n (8 * zlen a)); [done |].
  by rewrite bit_replicate, bit_beyond.
Qed.

Lemma bytes_ok_zeros k : bytes_ok (replicate k 0).
Proof. apply Forall_replicate. done. Qed.

(** [prev] followed by [next] in one region. *)
Record joined (prev next m : region) : Prop := mkJoined {
  joined_ok : region_ok m;
  joined_start : br_start_bit m = br_start_bit prev;
  joined_total : br_total_bits m = br_total_bits prev + br_total_bits next;
  joined_bits : forall n, br_start_bit prev <= n -> region_bit m n =
    if n <? br_start_bit next then region_bit prev n else region_bit next n
}.

Lemma joined_intro prev next buf priv :
  region_ok prev -> region_ok next -> precedes prev next ->
  br_start_bit next = br_start_bit prev + br_total_bits prev ->
  br_total_bits prev + br_total_bits next <= INT_MAX - 7 ->
  zlen buf = (br_total_bits prev + br_total_bits next + 7) / 8 -> bytes_ok buf ->
  (forall n, 0 <= n -> bit buf n = if n <? br_total_bits prev then bit (br_bitmap prev) n
                                   else bit (br_bitmap next) (n - br_total_bits prev)) ->
  joined prev next (mkRegion (br_start_bit prev) (br_total_bits prev + br_total_bits next)
    ((br_total_bits prev + br_total_bits next + 7) / 8) (br_set_bits prev + br_set_bits next) buf priv).
Proof.
  intros Hp Hn Hprec Hadj Hsum Hlen Hok Hbits.
  pose proof (ok_total _ Hp). pose proof (ok_total _ Hn). pose proof (ok_end _ Hn).
  split; [| done | done |].
  - split; cbn [br_start_bit br_total_bits br_bytes br_set_bits br_bitmap br_private]; try done.
    + apply (ok_start _ Hp).
    + lia.
    + lia.
    + intros n Hn'. rewrite Hbits by lia. destruct (Z.ltb_spec n (br_total_bits prev)); [lia |].
      apply (ok_spare _ Hn). lia.
    + rewrite (ok_count _ Hp), (ok_count _ Hn), Z2Nat.inj_add, count_split, Z2Nat.id by lia. f_equal.
      * apply count_ext. intros i Hi. rewrite Hbits by lia.
        destruct (Z.ltb_spec i (br_total_bits prev)); [done | lia].
      * apply count_ext. intros i Hi. rewrite Hbits by lia.
        destruct (Z.ltb_spec (br_total_bits prev + i) (br_total_bits prev)); [lia |]. f_equal. lia.
  - intros n Hn'. unfold region_bit. cbn [br_bitmap br_start_bit]. rewrite Hbits by lia.
    destruct (Z.ltb_spec (n - br_start_bit prev) (br_total_bits prev)),
      (Z.ltb_spec n (br_start_bit next)); try lia; [done |]. f_equal. lia.
Qed.

Section Merge.
Context {P : Type}.
Implicit Types (b : bitmap P) (cb : callbacks P).

(** An outcome that is an error and leaves the state alone, or a result. *)
Definition fails_or {A} (o : res A) (post : A -> Prop) : Prop :=
  (exists e, o = Err e) \/ exists a, o = Ok a /\ post a.

Lemma fails_or_bind {A B} (o : res A) (k : A -> res B) post post' :
  fails_or o post -> (forall a, post a -> fails_or (k a) post') -> fails_or (o ≫= k) post'.
Proof. intros [[e ->] | (a & -> & H)] Hk; [left; by exists e | by apply Hk]. Qed.

Lemma realloc_region_ok (mem : memory) s b br new_bits :
  region_ok br -> br_total_bits br <= new_bits <= INT_MAX - 7 ->
  br_start_bit br + new_bits < 2 ^ 64 ->
  fails_or (ocfs2_bitmap_realloc_region mem s b br new_bits) (fun br' => exists k,
    br' = mkRegion (br_start_bit br) new_bits ((new_bits + 7) / 8) (br_set_bits br)
            (br_bitmap br ++ replicate k 0) (br_private br) /\
    zlen (br_bitmap br ++ replicate k 0) = (new_bits + 7) / 8).
Proof.
  intros Hr Hnew Hend. unfold ocfs2_bitmap_realloc_region.
  case_test; [left; by eexists |]. unfold ocfs2_align_total.
  destruct (Z.ltb_spec INT_MAX (new_bits + 7)); [lia |]. rewrite bind_Ok.
  pose proof (ok_bytes _ Hr) as Hb. pose proof (ok_len _ Hr) as Hl.
  assert (br_bytes br <= (new_bits + 7) / 8) by (rewrite Hb; apply Z.div_le_mono; lia).
  destruct (Z.gtb_spec ((new_bits + 7) / 8) (br_bytes br)).
  - unfold malloc. destruct (mem s); [right | left; by eexists].
    eexists. split; [reflexivity |]. eexists. split; [reflexivity |].
    rewrite zlen_app, Hl. unfold zlen. rewrite length_replicate. lia.
  - right. eexists. split; [reflexivity |]. exists 0%nat. cbn [replicate]. rewrite app_nil_r.
    split; [f_equal; lia | lia].
Qed.

(** Where the merged buffer comes from, in both branches of the code. *)
Lemma merge_bits prev next k :
  region_ok prev -> region_ok next ->
  zlen (br_bitmap prev ++ replicate k 0) = (br_total_bits prev + br_total_bits next + 7) / 8 ->
  exists buf,
    (if br_total_bits prev mod 8 =? 0 then
       put_bytes (br_bitmap prev ++ replicate k 0) (br_bytes prev)
         (take (Z.to_nat (br_bytes next)) (br_bitmap next))
     else
       shift_in (Z.to_nat (br_bytes next)) (br_total_bits next) (br_total_bits prev mod 8)
         (8 - br_total_bits prev mod 8) (br_bytes prev - 1) (br_bitmap prev ++ replicate k 0)
         (br_bitmap next)) = Ok buf /\
    appended (br_bitmap prev ++ replicate k 0) (br_bitmap next) buf (br_total_bits prev).
Proof.
  intros Hp Hn Hlen. pose proof (region_size _ Hp). pose proof (region_size _ Hn).
  pose proof (ok_len _ Hp) as Lp. pose proof (ok_len _ Hn) as Ln.
  pose proof (ok_total _ Hp). pose proof (ok_total _ Hn).
  pose proof (Z.div_mod (br_total_bits prev) 8 ltac:(lia)) as Dp.
  pose proof (Z.mod_pos_bound (br_total_bits prev) 8 ltac:(lia)) as Mp.
  pose proof (Z.div_mod (br_total_bits prev + br_total_bits next + 7) 8 ltac:(lia)) as Ds.
  pose proof (Z.mod_pos_bound (br_total_bits prev + br_total_bits next + 7) 8 ltac:(lia)) as Ms.
  assert (Hgrow : bytes_ok (br_bitmap prev ++ replicate k 0))
    by (apply Forall_app; split; [apply (ok_bitmap _ Hp) | apply bytes_ok_zeros]).
  destruct (Z.eqb_spec (br_total_bits prev mod 8) 0) as [Ez | Enz].
  - rewrite take_ge by (unfold zlen in *; lia).
    rewrite put_bytes_ok by lia. eexists. split; [reflexivity |].
    assert (Hfit : (Z.to_nat (br_bytes prev) + length (br_bitmap next) <=
              length (br_bitmap prev ++ replicate k 0%Z))%nat) by (unfold zlen in *; lia).
    split; [apply splice_ok; [apply (ok_bitmap _ Hn) | done] |].
    split; [by apply length_splice |]. intros n Hn'.
    unfold splice. rewrite take_app_length' by (unfold zlen in *; lia).
    rewrite drop_ge, app_nil_r by (unfold zlen in *; lia). rewrite bit_app, bit_grow by done.
    replace (8 * zlen (br_bitmap prev)) with (br_total_bits prev) by lia. done.
  - replace (Z.to_nat (br_bytes next)) with (length (br_bitmap next)) by (unfold zlen in *; lia).
    destruct (shift_in_ok (br_bitmap next) (br_total_bits next) (br_total_bits prev mod 8)
                (br_bytes prev - 1) (br_bitmap prev ++ replicate k 0)) as (buf & E & Happ); try done; try lia.
    + apply (ok_bitmap _ Hn).
    + intros n Hn0 Hn'. by apply (ok_spare _ Hn).
    + intros n Hn'. rewrite bit_grow by lia. apply (ok_spare _ Hp). lia.
    + exists buf. split; [done |].
      by replace (8 * (br_bytes prev - 1) + br_total_bits prev mod 8) with (br_total_bits prev) in Happ by lia.
Qed.

Lemma merged_region_ok cb (mem : memory) s b prev next :
  region_ok prev -> region_ok next -> precedes prev next ->
  (br_total_bits prev + br_total_bits next <= INT_MAX - 7 \/
   INT_MAX < br_total_bits prev + br_total_bits next) ->
  fails_or (merged_region cb mem s b prev next) (fun m =>
    br_start_bit next = br_start_bit prev + br_total_bits prev /\ joined prev next m).
Proof.
  intros Hp Hn Hprec Hsum. pose proof (ok_total _ Hp). pose proof (ok_total _ Hn).
  pose proof (ok_end _ Hp). pose proof (ok_end _ Hn). pose proof (ok_start _ Hp).
  unfold merged_region. rewrite u64_small by lia.
  destruct (Z.eqb_spec (br_start_bit prev + br_total_bits prev) (br_start_bit next)) as [Hadj |];
    cbn [negb]; [| left; by eexists].
  match goal with |- context [if ?c then _ else _] => destruct c end; [left; by eexists |].
  destruct (Z.gtb_spec (br_total_bits prev + br_total_bits next) INT_MAX); [left; by eexists |].
  eapply fails_or_bind; [apply realloc_region_ok; [done | lia | lia] |].
  intros br' (k & -> & Hlen). cbn [br_bitmap br_start_bit br_total_bits br_bytes br_set_bits br_private].
  destruct (merge_bits prev next k Hp Hn Hlen) as (buf & -> & Hok & Hl & Hbits).
  right. eexists. split; [reflexivity |]. split; [done |].
  apply joined_intro; [assumption | assumption | assumption | lia | lia | | assumption |].
  - unfold zlen in *. by rewrite Hl.
  - intros n Hn'. by rewrite Hbits, bit_grow.
Qed.

Lemma regions_ok_join l1 r1 r2 l2 m : regions_ok (l1 ++ r1 :: r2 :: l2) ->
  br_start_bit r2 = br_start_bit r1 + br_total_bits r1 -> joined r1 r2 m ->
  regions_ok (l1 ++ m :: l2) /\ forall n, content (l1 ++ m :: l2) n = content (l1 ++ r1 :: r2 :: l2) n.
Proof.
  intros Hok Hadj [Hm Hstart Htotal Hbits]. pose proof (regions_ok_middle _ _ _ Hok) as Hr1.
  pose proof (ok_total _ Hr1). split; [split |].
  - destruct Hok as [He _]. apply Forall_app in He as [H1 H2]. inversion H2 as [| ? ? _ H3]; subst.
    inversion H3; subst. apply Forall_app. by split; [| constructor].
  - destruct Hok as [_ Hs]. apply sorted_app in Hs as (H1 & H2 & H3).
    inversion H2 as [| ? ? H4 _]; subst. inversion H4 as [| ? ? H5 H6]; subst.
    apply sorted_app. split; [done |]. split.
    + constructor; [done |]. eapply Forall_impl; [exact H6 |]. unfold precedes. intros; lia.
    + intros a c Ha Hc. apply elem_of_cons in Hc as [-> | Hc].
      * specialize (H3 a r1 Ha ltac:(left)). unfold precedes in *. lia.
      * apply H3; [done |]. by do 2 right.
  - intros n. rewrite !content_app. destruct (content l1 n); [done |]. cbn [content].
    unfold covers. rewrite Hstart, Htotal, Hadj.
    destruct (Z.leb_spec (br_start_bit r1) n); cbn [andb].
    + rewrite Hbits by done. rewrite Hadj.
      destruct (Z.ltb_spec n (br_start_bit r1 + br_total_bits r1)),
        (Z.ltb_spec n (br_start_bit r1 + (br_total_bits r1 + br_total_bits r2))),
        (Z.leb_spec (br_start_bit r1 + br_total_bits r1) n),
        (Z.ltb_spec n (br_start_bit r1 + br_total_bits r1 + br_total_bits r2)); cbn [andb]; try done; try lia.
      all: exfalso; destruct Hok as [He _]; apply Forall_app in He as [_ He];
        inversion He as [| ? ? _ He2]; subst; inversion He2 as [| ? ? Hr2]; subst;
        pose proof (ok_total _ Hr2); lia.
    + destruct (Z.leb_spec (br_start_bit r1 + br_total_bits r1) n); [lia | done].
Qed.

(** ** The invariant of a bitmap *)
Record bitmap_ok b : Prop := mkBitmapOk {
  ok_tree : valid (b_regions b);
  ok_regions : regions_ok (inorder (b_regions b));
  ok_within : Forall (fun r => br_start_bit r + br_total_bits r <= b_total_bits b) (inorder (b_regions b));
  ok_bits : 0 <= b_total_bits b < 2 ^ 64
}.

(** The bits fit an [int], so that [ocfs2_align_total] cannot overflow. *)
Definition int_sized b : Prop := b_total_bits b <= INT_MAX - 7.

Definition view b (n : Z) : option bool := content (inorder (b_regions b)) n.

(** A step that only reshapes the tree. *)
Definition same_value b b' : Prop :=
  (exists t, b' = with_regions b t) /\ bitmap_ok b' /\ forall n, view b' n = view b n.

Lemma locate_middle (t : tree region) l1 r l2 : inorder t = l1 ++ r :: l2 ->
  exists q c l r', locate [] (length l1) t = Some (q, N c l r r') /\ plug q (N c l r r') = t /\
    before q ++ inorder l = l1 /\ inorder r' ++ after q = l2.
Proof.
  intros Ht. destruct (locate_spec t [] (length l1)) as (q & c & l & x & r' & E1 & E2 & E3).
  { rewrite Ht, length_app. cbn. lia. }
  cbn [plug before length] in *. pose proof (f_equal inorder E2) as Hin.
  rewrite inorder_zipper, Ht in Hin. apply app_inj_1 in Hin as [H1 H2]; [| done].
  injection H2 as -> H2. exists q, c, l, r'. done.
Qed.

Lemma merge_region_ok cb (mem : memory) s b l1 r1 r2 l2 : bitmap_ok b -> int_sized b ->
  inorder (b_regions b) = l1 ++ r1 :: r2 :: l2 ->
  fails_or (ocfs2_bitmap_merge_region cb mem s b (length l1) (S (length l1))) (fun b' =>
    same_value b b' /\ exists m, inorder (b_regions b') = l1 ++ m :: l2 /\
      (forall n, covers m n = covers r1 n || covers r2 n)).
Proof.
  intros [Hv Hr Hw Ht] Hsmall Hin. unfold ocfs2_bitmap_merge_region.
  destruct (locate_middle _ _ _ _ Hin) as (p & c & l & r & E1 & E2 & E3 & E4). rewrite E1.
  assert (E5 : inorder (b_regions b) !! S (length l1) = Some r2).
  { rewrite Hin, cons_middle, app_assoc. apply list_lookup_middle. rewrite length_app. cbn. lia. }
  rewrite E5. rewrite Hin in Hr, Hw. pose proof (regions_ok_middle _ _ _ Hr) as Hr1.
  assert (Hr2 : region_ok r2) by (rewrite cons_middle, app_assoc in Hr; by apply regions_ok_middle in Hr).
  assert (Hprec : precedes r1 r2).
  { destruct Hr as [_ Hs]. apply sorted_middle in Hs as [_ Hs]. by inversion Hs. }
  assert (Hend : br_start_bit r2 + br_total_bits r2 <= b_total_bits b).
  { apply Forall_app in Hw as [_ Hw]. inversion Hw as [| ? ? _ Hw2]; subst. by inversion Hw2. }
  pose proof (ok_start _ Hr1). pose proof (ok_total _ Hr1). pose proof (ok_total _ Hr2).
  unfold int_sized, precedes in *.
  eapply fails_or_bind; [apply merged_region_ok; [done | done | done | left; lia] |].
  intros m [Hadj Hm]. cbv zeta.
  destruct (regions_ok_join _ _ _ _ _ Hr Hadj Hm) as [Hok' Hcont].
  destruct Hv as [h Hv]. rewrite <- E2 in Hv. pose proof (rb_update_value _ _ _ _ _ m _ Hv) as Hv'.
  assert (Hin' : inorder (plug p (N c l m r)) = (l1 ++ [m]) ++ r2 :: l2).
  { rewrite inorder_zipper, E3, E4. by list_assoc. }
  destruct (locate_middle _ _ _ _ Hin') as (q & c' & l' & r' & F1 & F2 & F3 & F4).
  rewrite length_app in F1. cbn [length] in F1. rewrite Nat.add_1_r in F1. rewrite F1.
  rewrite <- F2 in Hv'. destruct (erase_ok _ _ _ _ _ Hv') as (t & -> & Hvt & Hint).
  assert (Ht' : inorder t = l1 ++ m :: l2) by (rewrite Hint, app_assoc, F3, F4; by list_assoc).
  right. exists (with_regions b t). split; [done |]. split.
  - split; [by exists t |]. split; [split; cbn; try done |].
    + by rewrite Ht'.
    + rewrite Ht'. apply Forall_app in Hw as [Hw1 Hw2]. apply Forall_app. split; [done |].
      inversion Hw2 as [| ? ? Hw3 Hw4]; subst. inversion Hw4; subst. constructor; [| done].
      rewrite (joined_start _ _ _ Hm), (joined_total _ _ _ Hm). lia.
    + intros n. unfold view. cbn. by rewrite Ht', Hin, Hcont.
  - exists m. split; [done |]. intros n. unfold covers.
    rewrite (joined_start _ _ _ Hm), (joined_total _ _ _ Hm), Hadj. lia.
Qed.

(** ** Insertion *)

Lemma same_value_refl b : bitmap_ok b -> same_value b b.
Proof. intros H. split; [by exists (b_regions b); destruct b | done]. Qed.

Lemma same_value_trans b1 b2 b3 : same_value b1 b2 -> same_value b2 b3 -> same_value b1 b3.
Proof.
  intros ([t ->] & _ & H1) ([t' ->] & H2 & H3). split; [by exists t' |]. split; [done |].
  intros n. by rewrite H3.
Qed.

Lemma try_merge_ok cb (mem : memory) s b i : bitmap_ok b -> int_sized b ->
  (S i < length (inorder (b_regions b)))%nat ->
  exists b', try_merge b (ocfs2_bitmap_merge_region cb mem s b i (S i)) = Ok b' /\
    same_value b b' /\ (i < length (inorder (b_regions b')))%nat.
Proof.
  intros Hok Hs Hi. destruct (lookup_lt_is_Some_2 (inorder (b_regions b)) i) as [r1 H1]; [lia |].
  destruct (lookup_lt_is_Some_2 (inorder (b_regions b)) (S i)) as [r2 H2]; [lia |].
  assert (Hin : inorder (b_regions b) = take i (inorder (b_regions b)) ++ r1 :: r2 :: drop (S (S i)) (inorder (b_regions b))).
  { by rewrite <- (drop_S _ _ _ H2), <- (drop_S _ _ _ H1), take_drop. }
  assert (Hlen : length (take i (inorder (b_regions b))) = i) by (rewrite length_take; lia).
  destruct (merge_region_ok cb mem s b _ _ _ _ Hok Hs Hin) as [[e E] | (b' & E & Hv & m & Hin' & _)];
    rewrite Hlen in E; rewrite E.
  - exists b. split; [done |]. split; [by apply same_value_refl | lia].
  - exists b'. split; [done |]. split; [done |]. rewrite Hin', length_app, Hlen. cbn. lia.
Qed.

(** A new region behind all of [l1] and before all of [l2]. *)
Lemma regions_ok_insert l1 br l2 : regions_ok (l1 ++ l2) -> region_ok br ->
  Forall (fun r => br_start_bit r + br_total_bits r <= br_start_bit br) l1 ->
  Forall (fun r => br_start_bit br + br_total_bits br <= br_start_bit r) l2 ->
  regions_ok (l1 ++ br :: l2) /\
  forall n, content (l1 ++ br :: l2) n =
    if covers br n then Some (region_bit br n) else content (l1 ++ l2) n.
Proof.
  intros [He Hs] Hb H1 H2. assert (Hok : regions_ok (l1 ++ br :: l2)).
  { apply Forall_app in He as [He1 He2]. apply sorted_app in Hs as (Hs1 & Hs2 & Hs3).
    split; [apply Forall_app; by split; [| constructor] |].
    apply sorted_app. split; [done |]. split; [by constructor |].
    intros a x Ha Hx. apply elem_of_cons in Hx as [-> | Hx]; [| by apply Hs3].
    rewrite Forall_forall in H1. by apply H1. }
  split; [done |]. intros n. destruct (covers br n) eqn:Ec; [by apply content_middle |].
  rewrite !content_app. cbn [content]. by rewrite Ec.
Qed.

Lemma locate_is_Some (t : tree region) i : (i < length (inorder t))%nat ->
  exists z, locate [] i t = Some z /\ zroot z = t /\ snd z <> E /\ zpos z = i.
Proof.
  intros Hi. destruct (locate_spec t [] i Hi) as (q & c & l & x & r & E1 & E2 & E3).
  exists (q, N c l x r). rewrite zpos_node. done.
Qed.

(** The two merges after the insertion. *)
Lemma merge_neighbours_ok cb (mem : memory) b pos : bitmap_ok b -> int_sized b ->
  (pos < length (inorder (b_regions b)))%nat ->
  exists b',
    (node ← must (locate [] pos (b_regions b));
     '(b, pos) ← match rb_prev node with
                 | Some prev =>
                     b' ← try_merge b (ocfs2_bitmap_merge_region cb mem REALLOC_PREV b (zpos prev) pos);
                     mret (b', zpos prev)
                 | None => mret (b, pos)
                 end;
     node ← must (locate [] pos (b_regions b));
     match rb_next node with
     | Some next =>
         try_merge b (ocfs2_bitmap_merge_region cb mem REALLOC_NEXT b pos (zpos next))
     | None => mret b
     end) = Ok b' /\ same_value b b'.
Proof.
  intros Hok Hs Hpos.
  assert (Hnext : forall b2 i, same_value b b2 -> (i < length (inorder (b_regions b2)))%nat ->
    exists b', (node ← must (locate [] i (b_regions b2));
      match rb_next node with
      | Some next => try_merge b2 (ocfs2_bitmap_merge_region cb mem REALLOC_NEXT b2 i (zpos next))
      | None => mret b2
      end) = Ok b' /\ same_value b b').
  { intros b2 i Hb2 Hi. destruct (locate_is_Some _ _ Hi) as (z & -> & Hz1 & Hz2 & Hz3).
    cbn [must]. rewrite bind_Ok. pose proof (rb_next_spec z Hz2) as Hn.
    destruct (rb_next z) as [z' |]; [| by exists b2]. destruct Hn as (F1 & F2 & F3).
    pose proof Hb2 as ([t ->] & Hok2 & _).
    destruct (try_merge_ok cb mem REALLOC_NEXT (with_regions b t) i) as (b' & E & Hb' & _); [done | done | |].
    - pose proof (zval_lookup z' F2) as Hl. rewrite F1, Hz1, F3, Hz3 in Hl.
      destruct z' as [p [| ? ? ? ?]]; [done |]. cbn in Hl. by apply lookup_lt_Some in Hl.
    - exists b'. rewrite F3, Hz3. split; [done |]. by eapply same_value_trans. }
  destruct (locate_is_Some _ _ Hpos) as (z & -> & Hz1 & Hz2 & Hz3). cbn [must]. rewrite bind_Ok.
  pose proof (rb_prev_spec z Hz2) as Hp. destruct (rb_prev z) as [z' |].
  - destruct Hp as (F1 & F2 & F3).
    destruct (try_merge_ok cb mem REALLOC_PREV b (zpos z')) as (b2 & E & Hb2 & Hi); [done | done | lia |].
    rewrite <- F3, Hz3 in E. rewrite E, bind_Ok. by apply Hnext.
  - apply Hnext; [by apply same_value_refl | done].
Qed.

Lemma insert_region_ok cb (mem : memory) b br :
  bitmap_ok b -> int_sized b -> region_ok br ->
  br_start_bit br + br_total_bits br <= b_total_bits b ->
  (forall n, covers br n = true -> view b n = None) ->
  exists b', ocfs2_bitmap_insert_region cb mem b br = Ok b' /\
    (exists t, b' = with_regions b t) /\ bitmap_ok b' /\
    forall n, view b' n = if covers br n then Some (region_bit br n) else view b n.
Proof.
  intros Hok Hs Hbr Hend Hfree. pose proof Hok as [Hv Hr Hw Ht].
  pose proof (ok_total _ Hbr). pose proof (ok_start _ Hbr).
  unfold ocfs2_bitmap_insert_region.
  destruct (Z.gtb_spec (br_start_bit br) (b_total_bits b)); [lia |].
  pose proof (lookup_ok b (br_start_bit br) (br_total_bits br) Hr ltac:(lia) ltac:(lia) ltac:(lia)) as Hl.
  destruct (ocfs2_bitmap_lookup b _ _) as [z | p next].
  - exfalso. destruct Hl as (Hz & r & Hzr & Hm1 & Hm2). unfold zval in Hzr.
    destruct z as [p [| c l x r']]; [done |]. injection Hzr as ->. cbn in Hz. unfold zroot in Hz. cbn in Hz.
    pose proof (Hfree (Z.max (br_start_bit br) (br_start_bit r))) as Hf.
    unfold view in Hf. rewrite <- Hz, inorder_zipper in Hf, Hr.
    pose proof (ok_total _ (regions_ok_middle _ _ _ Hr)).
    rewrite (content_middle _ _ _ _ Hr) in Hf; [| rewrite covers_spec; lia].
    discriminate Hf. rewrite covers_spec. lia.
  - destruct Hl as (Hp & Hb & Ha & _). rewrite <- Hp in Hv.
    destruct (link_insert_ok p br Hv) as (t & -> & Hvt & Hin). rewrite bind_Ok. cbv zeta.
    assert (Hin0 : inorder (b_regions b) = before p ++ after p) by (rewrite <- Hp, inorder_plug; done).
    rewrite Hin0 in Hr, Hw. destruct (regions_ok_insert _ br _ Hr Hbr Hb Ha) as [Hr' Hc].
    assert (Hok1 : bitmap_ok (with_regions b t)).
    { split; cbn; [done | by rewrite Hin | | done]. rewrite Hin.
      apply Forall_app in Hw as [Hw1 Hw2]. apply Forall_app. by split; [| constructor]. }
    destruct (merge_neighbours_ok cb mem (with_regions b t) (length (before p)) Hok1 Hs)
      as (b' & -> & [t' ->] & Hok' & Hview); [cbn; rewrite Hin, length_app; cbn; lia |].
    exists (with_regions b t'). split; [done |]. split; [by exists t' |]. split; [done |].
    intros n. rewrite Hview. unfold view. cbn. by rewrite Hin, Hc, Hin0.
Qed.

(** A region that meets one of the bitmap is refused. *)
Lemma insert_region_refused cb (mem : memory) b br n :
  bitmap_ok b -> region_ok br -> covers br n = true -> view b n <> None ->
  ocfs2_bitmap_insert_region cb mem b br = Err OCFS2_ET_INVALID_BIT.
Proof.
  intros [Hv Hr Hw Ht] Hbr Hc Hn. pose proof (ok_total _ Hbr). pose proof (ok_start _ Hbr).
  pose proof (ok_end _ Hbr). unfold ocfs2_bitmap_insert_region. case_test; [done |].
  pose proof (lookup_ok b (br_start_bit br) (br_total_bits br) Hr ltac:(lia) ltac:(lia) ltac:(lia)) as Hl.
  destruct (ocfs2_bitmap_lookup b _ _) as [z | p next]; [done |]. exfalso. apply Hn.
  destruct Hl as (Hp & Hb & Ha & _). unfold view. rewrite <- Hp, inorder_plug. cbn [inorder app].
  apply covers_spec in Hc. apply content_none, Forall_app. split; (eapply Forall_impl; [eassumption |]);
    cbn; intros r Hr'; apply covers_false; lia.
Qed.
End Merge.
