(* ===== verification/BitmapApi.v ===== *)
(** Setting, clearing and testing bits through the public interface of
    [libocfs2/bitmap.c], against an interface that both families of operations
    implement. *)

From S2P Require Import Prelude Bitops RbTree Bitmap BitmapInv.

Section Generic.
Context {P : Type}.
Implicit Types (b : bitmap P) (cb : callbacks P).

(** ** One bit of one region *)

Lemma region_index br n : region_ok br -> covers br n = true ->
  s32 (u64 (n - br_start_bit br)) = n - br_start_bit br /\
  0 <= n - br_start_bit br < br_total_bits br /\ br_total_bits br <= 8 * zlen (br_bitmap br).
Proof.
  intros Hr Hc. apply covers_spec in Hc. pose proof (region_size _ Hr). pose proof (ok_total _ Hr).
  pose proof (ok_len _ Hr). unfold INT_MAX in *. rewrite u64_small, s32_small by lia. lia.
Qed.

(** A region with another value of one bit. *)
Definition updates br br' (n : Z) (v : bool) : Prop :=
  region_ok br' /\ br_start_bit br' = br_start_bit br /\ br_total_bits br' = br_total_bits br /\
  forall m, br_start_bit br <= m -> region_bit br' m = if m =? n then v else region_bit br m.

Lemma updates_intro br bm (n : Z) (v : bool) sb : region_ok br -> covers br n = true ->
  bytes_ok bm -> length bm = length (br_bitmap br) ->
  (forall i, 0 <= i -> bit bm i = if i =? n - br_start_bit br then v else bit (br_bitmap br) i) ->
  sb = br_set_bits br + Z.b2z v - Z.b2z (region_bit br n) ->
  updates br (with_bits br sb bm) n v.
Proof.
  intros Hr Hc Hok Hlen Hbits ->. destruct (region_index _ _ Hr Hc) as (_ & Hi & Hroom).
  destruct Hr as [H1 H2 H3 H4 H5 H6 H7 H8]. unfold updates, with_bits, zlen in *.
  split_and!; try done.
  - split; cbn; try done.
    + unfold zlen. by rewrite Hlen.
    + intros m Hm. rewrite Hbits by lia. destruct (Z.eqb_spec m (n - br_start_bit br)); [lia |]. by apply H7.
    + rewrite (count_ext _ (fun i => if i =? n - br_start_bit br then v else bit (br_bitmap br) i))
        by (intros; apply Hbits; lia).
      rewrite count_update by lia. by rewrite H8.
  - intros m Hm. unfold region_bit. cbn. rewrite Hbits by lia.
    by destruct (Z.eqb_spec m n), (Z.eqb_spec (m - br_start_bit br) (n - br_start_bit br)); try lia.
Qed.

Lemma set_shared_ok cb (priv : P) br n : region_ok br -> covers br n = true ->
  exists priv' br', set_generic_shared cb priv br n = Ok (priv', br', region_bit br n) /\
    updates br br' n true.
Proof.
  intros Hr Hc. destruct (region_index _ _ Hr Hc) as (Ei & Hi & Hroom).
  unfold set_generic_shared. rewrite Ei.
  destruct (set_bit_spec (n - br_start_bit br) (br_bitmap br)) as (bm & -> & Hok & Hlen & Hbits);
    [apply (ok_bitmap _ Hr) | lia |]. rewrite bind_Ok.
  change (bit (br_bitmap br) (n - br_start_bit br)) with (region_bit br n).
  assert (Hu : forall sb, sb = br_set_bits br + Z.b2z true - Z.b2z (region_bit br n) ->
    updates br (with_bits br sb bm) n true).
  { intros sb. apply updates_intro; [done.. |].
    intros i Hi'. rewrite Hbits by done. by destruct (i =? _). }
  destruct (region_bit br n); cbn [negb]; eexists _, _; (split; [reflexivity |]); apply Hu; cbn; lia.
Qed.

Lemma clear_shared_ok cb (priv : P) br n : region_ok br -> covers br n = true ->
  exists priv' br', clear_generic_shared cb priv br n = Ok (priv', br', region_bit br n) /\
    updates br br' n false.
Proof.
  intros Hr Hc. destruct (region_index _ _ Hr Hc) as (Ei & Hi & Hroom).
  unfold clear_generic_shared. rewrite Ei.
  destruct (clear_bit_spec (n - br_start_bit br) (br_bitmap br)) as (bm & -> & Hok & Hlen & Hbits);
    [apply (ok_bitmap _ Hr) | lia |]. rewrite bind_Ok.
  change (bit (br_bitmap br) (n - br_start_bit br)) with (region_bit br n).
  assert (Hu : forall sb, sb = br_set_bits br + Z.b2z false - Z.b2z (region_bit br n) ->
    updates br (with_bits br sb bm) n false).
  { intros sb. apply updates_intro; [done.. |].
    intros i Hi'. rewrite Hbits by done. by destruct (i =? _). }
  destruct (region_bit br n); eexists _, _; (split; [reflexivity |]); apply Hu; cbn; lia.
Qed.

(** ** One bit of a bitmap *)

(** [b'] has the value [v] at bit [n] and otherwise the bits of [b]. *)
Definition changes b b' (n : Z) (v : bool) : Prop :=
  bitmap_ok b' /\ b_total_bits b' = b_total_bits b /\ b_set_bits b' = b_set_bits b /\
  forall m, view b' m = if m =? n then Some v else view b m.

(** Replacing the region of a node in place. *)
Lemma update_region_ok b p c l br br' r priv : bitmap_ok b ->
  plug p (N c l br r) = b_regions b -> region_ok br' ->
  br_start_bit br' = br_start_bit br -> br_total_bits br' = br_total_bits br ->
  let b' := with_private (with_regions b (plug p (N c l br' r))) priv in
  bitmap_ok b' /\
  forall m, view b' m = if covers br m then Some (region_bit br' m) else view b m.
Proof.
  intros [Hv Hr Hw Ht] Ep Hbr' Es Et b'. rewrite <- Ep in Hv, Hr, Hw.
  rewrite inorder_zipper in Hr, Hw. destruct Hv as [h Hv]. split.
  - split; cbn [b_regions b' with_private with_regions b_total_bits]; [| | | done].
    + by eapply rb_update_value.
    + rewrite inorder_zipper. by eapply regions_ok_replace.
    + rewrite inorder_zipper. apply Forall_app in Hw as [Hw1 Hw2]. apply Forall_app.
      split; [done |]. inversion Hw2; subst. constructor; [by rewrite Es, Et | done].
  - intros m. unfold view. cbn [b_regions b' with_private with_regions]. rewrite <- Ep, !inorder_zipper.
    by apply content_replace.
Qed.

(** The lookup of a single bit finds the region that covers it. *)
Lemma lookup_bit b n : bitmap_ok b -> 0 <= n < 2 ^ 64 - 1 ->
  (exists p c l br r, ocfs2_bitmap_lookup b n 1 = Found (p, N c l br r) /\
     plug p (N c l br r) = b_regions b /\ region_ok br /\ covers br n = true /\
     view b n = Some (region_bit br n)) \/
  (exists p next, ocfs2_bitmap_lookup b n 1 = NotFound p next /\ view b n = None).
Proof.
  intros [Hv Hr Hw Ht] Hn. pose proof (lookup_ok b n 1 Hr ltac:(lia) ltac:(lia) ltac:(lia)) as Hl.
  destruct (ocfs2_bitmap_lookup b n 1) as [z | p next].
  - destruct Hl as (Hz & r & Hzr & Hm1 & Hm2). destruct z as [p [| c l x r']]; [done |].
    injection Hzr as ->. unfold zroot in Hz. cbn in Hz. left. exists p, c, l, r, r'.
    assert (Hc : covers r n = true) by (rewrite covers_spec; lia).
    unfold view. rewrite <- Hz, inorder_zipper in *. split_and!; try done.
    + by eapply regions_ok_middle.
    + by apply content_middle.
  - right. exists p, next. split; [done |]. destruct Hl as (Hp & Hb & Ha & _).
    unfold view. rewrite <- Hp, inorder_plug. cbn [inorder app].
    apply content_none, Forall_app. split; (eapply Forall_impl; [eassumption |]);
      cbn; intros r Hr'; apply covers_false; lia.
Qed.

Lemma changes_intro b p c l br br' r priv n v : bitmap_ok b ->
  plug p (N c l br r) = b_regions b -> covers br n = true -> region_ok br ->
  updates br br' n v -> view b n = Some (region_bit br n) ->
  changes b (with_private (with_regions b (plug p (N c l br' r))) priv) n v.
Proof.
  intros Hok Ep Hc Hr (Hbr' & Es & Et & Hbits) Hv.
  destruct (update_region_ok b p c l br br' r priv Hok Ep Hbr' Es Et) as [H1 H2].
  split; [done |]. split; [done |]. split; [done |]. intros m. rewrite H2.
  destruct (Z.eqb_spec m n) as [-> |].
  - rewrite Hc, Hbits, Z.eqb_refl; [done |]. apply covers_spec in Hc. lia.
  - destruct (covers br m) eqn:Em; [| done].
    rewrite Hbits by (apply covers_spec in Em; lia). destruct (Z.eqb_spec m n); [done |].
    unfold view. rewrite <- Ep, inorder_zipper. symmetry. apply content_middle; [| done].
    rewrite <- inorder_zipper with (c := c), Ep. apply (ok_regions b Hok).
Qed.

Lemma set_generic_ok cb b n v : bitmap_ok b -> 0 <= n < 2 ^ 64 - 1 -> view b n = Some v ->
  exists b', ocfs2_bitmap_set_generic cb b n = Ok (b', Some v) /\ changes b b' n true.
Proof.
  intros Hok Hn Hv. unfold ocfs2_bitmap_set_generic.
  destruct (lookup_bit b n Hok Hn) as [(p & c & l & br & r & -> & Ep & Hr & Hc & Hv') | (p & next & _ & Hv')];
    [| congruence].
  destruct (set_shared_ok cb (b_private b) br n Hr Hc) as (priv & br' & -> & Hu). rewrite bind_Ok.
  rewrite Hv in Hv'. injection Hv' as ->. eexists. split; [reflexivity |]. by eapply changes_intro.
Qed.

Lemma clear_generic_ok cb b n v : bitmap_ok b -> 0 <= n < 2 ^ 64 - 1 -> view b n = Some v ->
  exists b', ocfs2_bitmap_clear_generic cb b n = Ok (b', Some v) /\ changes b b' n false.
Proof.
  intros Hok Hn Hv. unfold ocfs2_bitmap_clear_generic.
  destruct (lookup_bit b n Hok Hn) as [(p & c & l & br & r & -> & Ep & Hr & Hc & Hv') | (p & next & _ & Hv')];
    [| congruence].
  destruct (clear_shared_ok cb (b_private b) br n Hr Hc) as (priv & br' & -> & Hu). rewrite bind_Ok.
  rewrite Hv in Hv'. injection Hv' as ->. eexists. split; [reflexivity |]. by eapply changes_intro.
Qed.

Lemma test_generic_ok b n v : bitmap_ok b -> 0 <= n < 2 ^ 64 - 1 -> view b n = Some v ->
  ocfs2_bitmap_test_generic b n = Ok v.
Proof.
  intros Hok Hn Hv. unfold ocfs2_bitmap_test_generic.
  destruct (lookup_bit b n Hok Hn) as [(p & c & l & br & r & -> & Ep & Hr & Hc & Hv') | (p & next & _ & Hv')];
    [| congruence].
  destruct (region_index _ _ Hr Hc) as (-> & Hi & Hroom). rewrite test_bit_spec by lia.
  rewrite Hv in Hv'. by injection Hv' as ->.
Qed.

(** In a hole the generic operations fail and change nothing. *)
Lemma generic_hole cb b n : bitmap_ok b -> 0 <= n < 2 ^ 64 - 1 -> view b n = None ->
  ocfs2_bitmap_set_generic cb b n = Err OCFS2_ET_INVALID_BIT /\
  ocfs2_bitmap_clear_generic cb b n = Err OCFS2_ET_INVALID_BIT /\
  ocfs2_bitmap_test_generic b n = Err OCFS2_ET_INVALID_BIT.
Proof.
  intros Hok Hn Hv. unfold ocfs2_bitmap_set_generic, ocfs2_bitmap_clear_generic, ocfs2_bitmap_test_generic.
  destruct (lookup_bit b n Hok Hn) as [(p & c & l & br & r & _ & _ & _ & _ & Hv') | (p & next & -> & _)];
    [congruence | done].
Qed.

(** ** The operations with holes *)

Lemma alloc_region_ok (mem : memory) start total : 0 <= start -> 0 < total <= INT_MAX - 7 ->
  start + total < 2 ^ 64 ->
  fails_or (ocfs2_bitmap_alloc_region mem start total) (fun br =>
    region_ok br /\ br_start_bit br = start /\ br_total_bits br = total /\
    forall n, region_bit br n = false).
Proof.
  intros Hs Ht He. unfold ocfs2_bitmap_alloc_region, malloc, ocfs2_align_total.
  destruct (Z.ltb_spec total 0); [lia |]. destruct (mem MALLOC_REGION); [| left; by eexists].
  rewrite bind_Ok. destruct (Z.ltb_spec INT_MAX (total + 7)); [lia |]. rewrite bind_Ok.
  destruct (mem MALLOC_REGION_BITS); [| left; by eexists].
  assert (0 <= (total + 7) / 8) by (apply Z.div_pos; lia).
  right. eexists. split; [reflexivity |]. split; [| split; [done | split; [done |]]].
  - split; cbn; try (done || lia).
    + unfold zlen. rewrite length_replicate. lia.
    + apply bytes_ok_zeros.
    + intros; apply bit_replicate.
    + symmetry. apply count_false. intros; apply bit_replicate.
  - intros n. apply bit_replicate.
Qed.

Definition all_memory : memory := fun _ => true.

Lemma alloc_region_memory start total : 0 <= total <= INT_MAX - 7 ->
  exists br, ocfs2_bitmap_alloc_region all_memory start total = Ok br.
Proof.
  intros Ht. unfold ocfs2_bitmap_alloc_region, malloc, ocfs2_align_total, all_memory.
  destruct (Z.ltb_spec total 0); [lia |]. rewrite bind_Ok.
  destruct (Z.ltb_spec INT_MAX (total + 7)); [lia |]. by eexists.
Qed.

(** Filling a hole with a region of one clear bit. *)
Lemma fill_hole_ok cb (mem : memory) b n : bitmap_ok b -> int_sized b -> 0 <= n < b_total_bits b ->
  view b n = None ->
  fails_or (br ← ocfs2_bitmap_alloc_region mem n 1; ocfs2_bitmap_insert_region cb mem b br)
    (fun b' => changes b b' n false).
Proof.
  intros Hok Hs Hn Hv. pose proof (ok_bits b Hok). unfold int_sized, INT_MAX in *.
  eapply fails_or_bind; [apply alloc_region_ok; unfold INT_MAX; lia |].
  intros br (Hr & Es & Et & Hz).
  assert (Hc : forall m, covers br m = (m =? n)) by (intros m; unfold covers; rewrite Es, Et; lia).
  destruct (insert_region_ok cb mem b br) as (b' & E & [t ->] & Hok' & Hview); try done.
  - lia.
  - intros m Hm. rewrite Hc in Hm. apply Z.eqb_eq in Hm as ->. done.
  - right. eexists. split; [done |]. split; [done |]. split; [done |]. split; [done |].
    intros m. rewrite Hview, Hc, Hz. done.
Qed.

Lemma fill_hole_memory cb b n : bitmap_ok b -> int_sized b -> 0 <= n < b_total_bits b ->
  view b n = None ->
  exists b', (br ← ocfs2_bitmap_alloc_region all_memory n 1;
              ocfs2_bitmap_insert_region cb all_memory b br) = Ok b'.
Proof.
  intros Hok Hs Hn Hv. destruct (alloc_region_memory n 1) as [br E]; [unfold INT_MAX; lia |].
  pose proof (ok_bits b Hok).
  destruct (alloc_region_ok all_memory n 1) as [[e E'] | (br' & E' & Hr & Es & Et & _)];
    [lia | unfold INT_MAX; lia | lia | congruence |]. rewrite E'. rewrite bind_Ok.
  destruct (insert_region_ok cb all_memory b br') as (b' & -> & _); try done; [lia | | by exists b'].
  intros m Hm. apply covers_spec in Hm. rewrite Es, Et in Hm. by replace m with n by lia.
Qed.

Lemma changes_trans b b1 b2 n v v' : changes b b1 n v -> changes b1 b2 n v' -> changes b b2 n v'.
Proof.
  intros (H1 & H2 & H3 & H4) (F1 & F2 & F3 & F4). split; [done |]. split; [congruence |].
  split; [congruence |]. intros m. rewrite F4, H4. by destruct (m =? n).
Qed.

(** The value of a bit, clear in a hole. *)
Definition bit_value b (n : Z) : bool := default false (view b n).

Lemma set_holes_ok cb (mem : memory) b n : bitmap_ok b -> int_sized b -> 0 <= n < b_total_bits b ->
  fails_or (ocfs2_bitmap_set_holes cb mem b n) (fun '(b', old) =>
    old = Some (bit_value b n) /\ changes b b' n true).
Proof.
  intros Hok Hs Hn. unfold ocfs2_bitmap_set_holes, bit_value.
  assert (0 <= n < 2 ^ 64 - 1) by (unfold int_sized, INT_MAX in Hs; lia).
  destruct (view b n) as [v |] eqn:Ev.
  - destruct (set_generic_ok cb b n v) as (b' & -> & H1); [done.. |]. right. by eexists (_, _).
  - destruct (generic_hole cb b n) as (-> & _ & _); [done.. |].
    rewrite <- bind_assoc. eapply fails_or_bind; [by apply fill_hole_ok |].
    intros b' Hb'. pose proof Hb' as (Hok' & _ & _ & Hview).
    destruct (set_generic_ok cb b' n false) as (b2 & -> & H2); [done | done | by rewrite Hview, Z.eqb_refl |].
    right. eexists (_, _). split; [done |]. split; [done |]. exact (changes_trans _ _ _ _ _ _ Hb' H2).
Qed.

Lemma clear_holes_ok cb (mem : memory) b n : bitmap_ok b -> int_sized b -> 0 <= n < b_total_bits b ->
  fails_or (ocfs2_bitmap_clear_holes cb mem b n) (fun '(b', old) =>
    old = view b n /\ changes b b' n false).
Proof.
  intros Hok Hs Hn. unfold ocfs2_bitmap_clear_holes.
  assert (0 <= n < 2 ^ 64 - 1) by (unfold int_sized, INT_MAX in Hs; lia).
  destruct (view b n) as [v |] eqn:Ev.
  - destruct (clear_generic_ok cb b n v) as (b' & -> & H1); [done.. |]. right. by eexists (_, _).
  - destruct (generic_hole cb b n) as (_ & -> & _); [done.. |].
    rewrite <- bind_assoc. eapply fails_or_bind; [by apply fill_hole_ok |].
    intros b' Hb'. right. by eexists (_, _).
Qed.

Lemma test_holes_ok b n : bitmap_ok b -> 0 <= n < 2 ^ 64 - 1 ->
  ocfs2_bitmap_test_holes b n = Ok (bit_value b n).
Proof.
  intros Hok Hn. unfold ocfs2_bitmap_test_holes, bit_value. destruct (view b n) as [v |] eqn:Ev.
  - by rewrite (test_generic_ok b n v).
  - destruct (generic_hole (mkCallbacks None None) b n) as (_ & _ & ->); done.
Qed.

(** With memory the operations with holes cannot fail. *)
Lemma holes_memory cb b n : bitmap_ok b -> int_sized b -> 0 <= n < b_total_bits b ->
  (exists x, ocfs2_bitmap_set_holes cb all_memory b n = Ok x) /\
  (exists x, ocfs2_bitmap_clear_holes cb all_memory b n = Ok x).
Proof.
  intros Hok Hs Hn. assert (0 <= n < 2 ^ 64 - 1) by (unfold int_sized, INT_MAX in Hs; lia).
  unfold ocfs2_bitmap_set_holes, ocfs2_bitmap_clear_holes. destruct (view b n) as [v |] eqn:Ev.
  - destruct (set_generic_ok cb b n v) as (b1 & -> & _); [done.. |].
    destruct (clear_generic_ok cb b n v) as (b2 & -> & _); [done.. |]. split; by eexists.
  - destruct (generic_hole cb b n) as (-> & -> & _); [done.. |].
    destruct (fill_hole_memory cb b n) as [b' E]; [done.. |].
    assert (Ek : forall B (k : bitmap P -> res B),
      (br ← ocfs2_bitmap_alloc_region all_memory n 1;
       b ← ocfs2_bitmap_insert_region cb all_memory b br; k b) = k b')
      by (intros B k; rewrite <- bind_assoc; cbv beta in E |- *; etransitivity; [exact (f_equal (mbind k) E) | done]).
    rewrite !Ek.
    destruct (fill_hole_ok cb all_memory b n) as [[e E'] | (b2 & E' & Hok' & _ & _ & Hview)];
      [done.. | congruence |]. rewrite E in E'. injection E' as <-.
    destruct (set_generic_ok cb b' n false) as (b3 & -> & _); [done | done | by rewrite Hview, Z.eqb_refl |].
    split; by eexists.
Qed.
End Generic.

(** ** What a family of operations promises to the public interface *)

(** The effect of a successful [set_bit] or [clear_bit] on bit [n]. *)
Record stepped {P} (ok : bitmap P -> Prop) (value : bitmap P -> Z -> bool)
    (ready : memory -> bitmap P -> Z -> Prop) (reports : bitmap P -> Z -> Prop)
    (b b' : bitmap P) (n : Z) (v : bool) : Prop := mkStepped {
  stepped_ok : ok b';
  stepped_total : b_total_bits b' = b_total_bits b;
  stepped_set_bits : b_set_bits b' = b_set_bits b;
  stepped_value : forall m, value b' m = if m =? n then v else value b m;
  stepped_ready : forall mem m, ready mem b m -> ready mem b' m;
  stepped_reports : forall m, reports b m -> reports b' m
}.

(** [ready] bits can be worked on without an error; for bits that [reports]
    holds of, [clear_bit] stores the old value. *)
Class BitStore {P : Type} (ops : operations P) : Type := {
  store_ok : bitmap P -> Prop;
  store_value : bitmap P -> Z -> bool;
  ready : memory -> bitmap P -> Z -> Prop;
  reports : bitmap P -> Z -> Prop;
  store_set : memory -> bitmap P -> Z -> res (bitmap P * option bool);
  store_clear : memory -> bitmap P -> Z -> res (bitmap P * option bool);
  store_test : bitmap P -> Z -> res bool;
  store_set_eq : set_bit ops = Some store_set;
  store_clear_eq : clear_bit ops = Some store_clear;
  store_test_eq : test_bit ops = Some store_test;
  store_total : forall b, store_ok b -> 0 <= b_total_bits b < 2 ^ 64;
  set_law : forall mem b n, store_ok b -> 0 <= n < b_total_bits b ->
    fails_or (store_set mem b n) (fun '(b', old) => old = Some (store_value b n) /\
      stepped store_ok store_value ready reports b b' n true) /\
    (ready mem b n -> exists x, store_set mem b n = Ok x);
  clear_law : forall mem b n, store_ok b -> 0 <= n < b_total_bits b ->
    fails_or (store_clear mem b n) (fun '(b', old) =>
      (old = Some (store_value b n) \/ (old = None /\ store_value b n = false /\ ~ reports b n)) /\
      stepped store_ok store_value ready reports b b' n false) /\
    (ready mem b n -> exists x, store_clear mem b n = Ok x);
  counter_law : forall b k, (store_ok b -> store_ok (with_set_bits b k)) /\
    (forall n, store_value (with_set_bits b k) n = store_value b n) /\
    (forall mem n, ready mem b n -> ready mem (with_set_bits b k) n) /\
    (forall n, reports b n -> reports (with_set_bits b k) n);
  test_law : forall mem b n, store_ok b -> 0 <= n < b_total_bits b -> ready mem b n ->
    store_test b n = Ok (store_value b n)
}.

Definition has_bit {P} (b : bitmap P) (n : Z) : Prop := view b n <> None.

Lemma changes_value {P} (b b' : bitmap P) n v m : changes b b' n v ->
  bit_value b' m = if m =? n then v else bit_value b m.
Proof. intros (_ & _ & _ & H). unfold bit_value. rewrite H. by destruct (m =? n). Qed.

Lemma changes_has_bit {P} (b b' : bitmap P) n v m : changes b b' n v -> has_bit b m -> has_bit b' m.
Proof. intros (_ & _ & _ & H) Hm. unfold has_bit. rewrite H. by destruct (m =? n). Qed.

Lemma bitmap_ok_counter {P} (b : bitmap P) k : bitmap_ok b -> bitmap_ok (with_set_bits b k).
Proof. by intros [H1 H2 H3 H4]. Qed.

(** *** The generic operations, with any callbacks *)
Section GenericStore.
Context {P : Type} (ops : operations P) (cb : callbacks P).
Context (Eset : set_bit ops = Some (fun _ => ocfs2_bitmap_set_generic cb))
        (Eclear : clear_bit ops = Some (fun _ => ocfs2_bitmap_clear_generic cb))
        (Etest : test_bit ops = Some ocfs2_bitmap_test_generic).

Lemma generic_stepped (b b' : bitmap P) n v : changes b b' n v ->
  stepped bitmap_ok bit_value (fun _ => has_bit) has_bit b b' n v.
Proof.
  intros H. pose proof H as (H1 & H2 & H3 & _).
  split; [done.. | | |]; intros.
  - by apply changes_value.
  - by eapply changes_has_bit.
  - by eapply changes_has_bit.
Qed.

Lemma generic_set_law (b : bitmap P) n : bitmap_ok b -> 0 <= n < b_total_bits b ->
  fails_or (ocfs2_bitmap_set_generic cb b n) (fun '(b', old) => old = Some (bit_value b n) /\
    stepped bitmap_ok bit_value (fun _ => has_bit) has_bit b b' n true) /\
  (has_bit b n -> exists x, ocfs2_bitmap_set_generic cb b n = Ok x).
Proof.
  intros Hok Hn. pose proof (ok_bits b Hok). unfold bit_value. destruct (view b n) as [v |] eqn:Ev.
  - destruct (set_generic_ok cb b n v) as (b' & -> & H1); [done | lia | done |].
    split; [| by eexists]. right. eexists (_, _). split; [done |]. split; [done |]. by apply generic_stepped.
  - destruct (generic_hole cb b n) as (-> & _ & _); [done | lia | done |]. split; [left; by eexists | done].
Qed.

Lemma generic_clear_law (b : bitmap P) n : bitmap_ok b -> 0 <= n < b_total_bits b ->
  fails_or (ocfs2_bitmap_clear_generic cb b n) (fun '(b', old) =>
    (old = Some (bit_value b n) \/ (old = None /\ bit_value b n = false /\ ~ has_bit b n)) /\
    stepped bitmap_ok bit_value (fun _ => has_bit) has_bit b b' n false) /\
  (has_bit b n -> exists x, ocfs2_bitmap_clear_generic cb b n = Ok x).
Proof.
  intros Hok Hn. pose proof (ok_bits b Hok). unfold bit_value. destruct (view b n) as [v |] eqn:Ev.
  - destruct (clear_generic_ok cb b n v) as (b' & -> & H1); [done | lia | done |].
    split; [| by eexists]. right. eexists (_, _). split; [done |]. split; [by left |]. by apply generic_stepped.
  - destruct (generic_hole cb b n) as (_ & -> & _); [done | lia | done |]. split; [left; by eexists | done].
Qed.

Lemma generic_test_law (b : bitmap P) n : bitmap_ok b -> 0 <= n < b_total_bits b -> has_bit b n ->
  ocfs2_bitmap_test_generic b n = Ok (bit_value b n).
Proof.
  intros Hok Hn Hh. pose proof (ok_bits b Hok). unfold bit_value, has_bit in *.
  destruct (view b n) as [v |] eqn:Ev; [| done]. apply test_generic_ok; [done | lia | done].
Qed.

Definition generic_store : BitStore ops := {|
  store_ok := bitmap_ok;
  store_value := bit_value;
  ready := fun _ => has_bit;
  reports := has_bit;
  store_set := fun _ => ocfs2_bitmap_set_generic cb;
  store_clear := fun _ => ocfs2_bitmap_clear_generic cb;
  store_test := ocfs2_bitmap_test_generic;
  store_set_eq := Eset;
  store_clear_eq := Eclear;
  store_test_eq := Etest;
  store_total := ok_bits;
  counter_law := fun b k => conj (bitmap_ok_counter b k) (conj (fun _ => eq_refl)
    (conj (fun _ _ H => H) (fun _ H => H)));
  set_law := fun _ => generic_set_law;
  clear_law := fun _ => generic_clear_law;
  test_law := fun _ => generic_test_law
|}.
End GenericStore.

#[export] Instance cluster_store : BitStore global_cluster_ops :=
  generic_store global_cluster_ops no_callbacks eq_refl eq_refl eq_refl.

(** *** The operations with holes *)

Definition block_ok (b : bitmap unit) : Prop := bitmap_ok b /\ int_sized b.
Definition block_ready (mem : memory) (b : bitmap unit) (n : Z) : Prop :=
  mem = all_memory \/ has_bit b n.

Lemma block_stepped b b' n v : int_sized b -> changes b b' n v ->
  stepped block_ok bit_value block_ready has_bit b b' n v.
Proof.
  intros Hs H. pose proof H as (H1 & H2 & H3 & _).
  split; [| done | done | | |].
  - split; [done |]. unfold int_sized. by rewrite H2.
  - intros m. by apply changes_value.
  - intros mem m [Hm | Hm]; [by left | right; by eapply changes_has_bit].
  - intros m. by eapply changes_has_bit.
Qed.

Lemma block_set_law mem b n : block_ok b -> 0 <= n < b_total_bits b ->
  fails_or (ocfs2_bitmap_set_holes no_callbacks mem b n) (fun '(b', old) =>
    old = Some (bit_value b n) /\ stepped block_ok bit_value block_ready has_bit b b' n true) /\
  (block_ready mem b n -> exists x, ocfs2_bitmap_set_holes no_callbacks mem b n = Ok x).
Proof.
  intros [Hok Hs] Hn. split.
  - destruct (set_holes_ok no_callbacks mem b n Hok Hs Hn) as [? | ([b' old] & E & H1 & H2)]; [by left |].
    right. exists (b', old). split; [done |]. split; [done | by apply block_stepped].
  - intros [-> | Hh]; [by apply holes_memory |]. unfold ocfs2_bitmap_set_holes.
    pose proof (ok_bits b Hok).
    destruct (generic_set_law no_callbacks b n Hok Hn) as [_ Hx]. destruct (Hx Hh) as [x ->]. by exists x.
Qed.

Lemma block_clear_law mem b n : block_ok b -> 0 <= n < b_total_bits b ->
  fails_or (ocfs2_bitmap_clear_holes no_callbacks mem b n) (fun '(b', old) =>
    (old = Some (bit_value b n) \/ (old = None /\ bit_value b n = false /\ ~ has_bit b n)) /\
    stepped block_ok bit_value block_ready has_bit b b' n false) /\
  (block_ready mem b n -> exists x, ocfs2_bitmap_clear_holes no_callbacks mem b n = Ok x).
Proof.
  intros [Hok Hs] Hn. split.
  - destruct (clear_holes_ok no_callbacks mem b n Hok Hs Hn) as [? | ([b' old] & E & H1 & H2)]; [by left |].
    right. exists (b', old). split; [done |]. split; [| by apply block_stepped].
    unfold bit_value, has_bit. destruct (view b n); [by left |]. right. split_and!; [done.. | tauto].
  - intros [-> | Hh]; [by apply holes_memory |]. unfold ocfs2_bitmap_clear_holes.
    destruct (generic_clear_law no_callbacks b n Hok Hn) as [_ Hx]. destruct (Hx Hh) as [x ->]. by exists x.
Qed.

Lemma block_test_law (mem : memory) b n : block_ok b -> 0 <= n < b_total_bits b -> block_ready mem b n ->
  ocfs2_bitmap_test_holes b n = Ok (bit_value b n).
Proof. intros [Hok Hs] Hn _. pose proof (ok_bits b Hok). apply test_holes_ok; [done | lia]. Qed.

#[export] Instance block_store : BitStore global_block_ops := {|
  store_ok := block_ok;
  store_value := bit_value;
  ready := block_ready;
  reports := has_bit;
  store_set := ocfs2_bitmap_set_holes no_callbacks;
  store_clear := ocfs2_bitmap_clear_holes no_callbacks;
  store_test := ocfs2_bitmap_test_holes;
  store_set_eq := @eq_refl _ (set_bit global_block_ops);
  store_clear_eq := @eq_refl _ (clear_bit global_block_ops);
  store_test_eq := @eq_refl _ (test_bit global_block_ops);
  counter_law := fun b k => conj (fun H => conj (bitmap_ok_counter b k (proj1 H)) (proj2 H))
    (conj (fun _ => eq_refl) (conj (fun _ _ H => H) (fun _ H => H)));
  store_total := fun b H => ok_bits b (proj1 H);
  set_law := block_set_law;
  clear_law := block_clear_law;
  test_law := block_test_law
|}.

(** ** The public interface refines a set of numbers *)

Inductive request : Type := Set_bit (n : Z) | Clear_bit (n : Z) | Test_bit (n : Z).

Definition request_bit (r : request) : Z :=
  match r with Set_bit n => n | Clear_bit n => n | Test_bit n => n end.

Definition perform {P} (ops : operations P) (mem : memory) (junk : bool) (b : bitmap P) (r : request)
    : res (bitmap P * bool) :=
  match r with
  | Set_bit n => ocfs2_bitmap_set ops mem junk b n
  | Clear_bit n => ocfs2_bitmap_clear ops mem junk b n
  | Test_bit n => v ← ocfs2_bitmap_test ops b n; mret (b, v)
  end.

Fixpoint perform_all {P} (ops : operations P) (mem : memory) (junk : bool) (b : bitmap P)
    (rs : list request) : res (bitmap P * list bool) :=
  match rs with
  | [] => mret (b, [])
  | r :: rs =>
      '(b, v) ← perform ops mem junk b r;
      '(b, vs) ← perform_all ops mem junk b rs;
      mret (b, v :: vs)
  end.

(** The abstract machine: every request answers the old membership. *)
Definition respond (s : gset Z) (r : request) : gset Z * bool :=
  match r with
  | Set_bit n => ({[n]} ∪ s, bool_decide (n ∈ s))
  | Clear_bit n => (s ∖ {[n]}, bool_decide (n ∈ s))
  | Test_bit n => (s, bool_decide (n ∈ s))
  end.

Fixpoint respond_all (s : gset Z) (rs : list request) : gset Z * list bool :=
  match rs with
  | [] => (s, [])
  | r :: rs => let '(s, v) := respond s r in
               let '(s, vs) := respond_all s rs in (s, v :: vs)
  end.

Lemma size_add (s : gset Z) n : n ∉ s -> size ({[n]} ∪ s) = S (size s).
Proof. intros H. rewrite size_union by set_solver. by rewrite size_singleton. Qed.

Lemma add_member (s : gset Z) n : n ∈ s -> {[n]} ∪ s = s.
Proof. intros H. apply subseteq_union_1_L, singleton_subseteq_l, H. Qed.

Lemma remove_other (s : gset Z) n : n ∉ s -> s ∖ {[n]} = s.
Proof. intros H. apply difference_disjoint_L, disjoint_singleton_r, H. Qed.

Lemma size_remove (s : gset Z) n : n ∈ s -> size s = S (size (s ∖ {[n]})).
Proof.
  intros H. rewrite <- (size_add (s ∖ {[n]}) n) by set_solver. f_equal.
  apply union_difference_L. set_solver.
Qed.

Section Refinement.
Context {P : Type} (ops : operations P) {store : BitStore ops}.

Record simulates (b : bitmap P) (s : gset Z) : Prop := mkSimulates {
  sim_ok : store_ok b;
  sim_value : forall n, 0 <= n < b_total_bits b -> store_value b n = bool_decide (n ∈ s);
  sim_range : forall n, n ∈ s -> 0 <= n < b_total_bits b;
  sim_count : b_set_bits b = Z.of_nat (size s)
}.

Lemma sim_size b s : simulates b s -> Z.of_nat (size s) <= b_total_bits b.
Proof.
  intros [Hok _ Hr _]. pose proof (store_total b Hok).
  assert (s ⊆ list_to_set (seqZ 0 (b_total_bits b))) as Hsub.
  { intros n Hn. apply elem_of_list_to_set, elem_of_seqZ. specialize (Hr n Hn). lia. }
  apply subseteq_size in Hsub. rewrite size_list_to_set in Hsub by apply NoDup_seqZ.
  rewrite length_seqZ in Hsub. lia.
Qed.

(** Requests that can neither fail nor read an uninitialised value. *)
Definition safe_request (mem : memory) (junk : bool) (b : bitmap P) (r : request) : Prop :=
  0 <= request_bit r < b_total_bits b /\ ready mem b (request_bit r) /\
  (junk = false \/ reports b (request_bit r)).

Lemma bool_decide_new (s : gset Z) n m :
  bool_decide (m ∈ {[n]} ∪ s) = if m =? n then true else bool_decide (m ∈ s).
Proof.
  destruct (Z.eqb_spec m n) as [-> |]; [apply bool_decide_eq_true_2; set_solver |].
  apply bool_decide_ext. rewrite elem_of_union, elem_of_singleton. tauto.
Qed.

Lemma bool_decide_gone (s : gset Z) n m :
  bool_decide (m ∈ s ∖ {[n]}) = if m =? n then false else bool_decide (m ∈ s).
Proof.
  destruct (Z.eqb_spec m n) as [-> |]; [apply bool_decide_eq_false_2; set_solver |].
  apply bool_decide_ext. rewrite elem_of_difference, elem_of_singleton. tauto.
Qed.

(** The counter next to a step of the operations. *)
Lemma sim_step mem junk b s b1 n v s' sb : simulates b s -> 0 <= n < b_total_bits b ->
  stepped store_ok store_value ready reports b b1 n v ->
  (forall m, bool_decide (m ∈ s') = if m =? n then v else bool_decide (m ∈ s)) ->
  sb = Z.of_nat (size s') ->
  simulates (with_set_bits b1 sb) s' /\
  forall r, safe_request mem junk b r -> safe_request mem junk (with_set_bits b1 sb) r.
Proof.
  intros [Hok Hv Hr Hc] Hn [S1 S2 S3 S4 S5 S6] Hs' ->.
  destruct (counter_law b1 (Z.of_nat (size s'))) as (C1 & C2 & C3 & C4). split.
  - split; [by apply C1 | | | done].
    + intros m Hm. cbn in Hm. rewrite S2 in Hm. rewrite C2, S4, Hs', Hv by done. done.
    + intros m Hm. cbn. rewrite S2. specialize (Hs' m). rewrite bool_decide_eq_true_2 in Hs' by done.
      destruct (Z.eqb_spec m n) as [Emn | _]; [by rewrite Emn |]. apply Hr.
      by apply (bool_decide_eq_true_1 (m ∈ s)).
  - intros r (R1 & R2 & R3). split; [cbn; by rewrite S2 |]. split; [by apply C3, S5 |].
    destruct R3 as [-> | R3]; [by left | right; by apply C4, S6].
Qed.

Lemma counter_same (b : bitmap P) : with_set_bits b (b_set_bits b) = b.
Proof. by destruct b. Qed.

Lemma sim_set mem junk b s n : simulates b s -> safe_request mem junk b (Set_bit n) ->
  exists b', ocfs2_bitmap_set ops mem junk b n = Ok (b', bool_decide (n ∈ s)) /\
    simulates b' ({[n]} ∪ s) /\
    (forall r, safe_request mem junk b r -> safe_request mem junk b' r).
Proof.
  intros Hsim (Hn & Hready & _). cbn in Hn, Hready. pose proof Hsim as [Hok Hv Hr Hc].
  unfold ocfs2_bitmap_set. destruct (Z.geb_spec n (b_total_bits b)); [lia |].
  rewrite store_set_eq. cbn [call must]. rewrite bind_Ok.
  destruct (set_law mem b n Hok Hn) as [Hlaw Hx]. destruct (Hx Hready) as [x Ex].
  destruct Hlaw as [[e E] | ([b1 old] & E & -> & H1)]; [congruence |]. rewrite E, bind_Ok. cbn [default].
  rewrite Hv by done. pose proof (store_total b Hok) as Htot. pose proof (sim_size b s Hsim).
  pose proof (fun sb => sim_step mem junk b s b1 n true ({[n]} ∪ s) sb Hsim Hn H1 (bool_decide_new s n)) as Hstep.
  destruct (decide (n ∈ s)) as [Hin | Hin].
  - rewrite (bool_decide_eq_true_2 _ Hin). cbn [negb]. eexists. split; [reflexivity |].
    rewrite <- (counter_same b1). apply Hstep. rewrite (stepped_set_bits _ _ _ _ _ _ _ _ H1), Hc.
    by rewrite add_member.
  - rewrite (bool_decide_eq_false_2 _ Hin). cbn [negb]. eexists. split; [reflexivity |].
    apply Hstep. rewrite (stepped_set_bits _ _ _ _ _ _ _ _ H1), Hc.
    rewrite size_add by done. rewrite u64_small; [lia |].
    assert (Hlt : Z.of_nat (size ({[n]} ∪ s)) <= b_total_bits b).
    { rewrite <- (stepped_total _ _ _ _ _ _ _ _ H1).
      change (b_total_bits b1) with (b_total_bits (with_set_bits b1 (Z.of_nat (size ({[n]} ∪ s))))).
      by apply sim_size, Hstep. }
    rewrite size_add in Hlt by done. lia.
Qed.

Lemma sim_clear mem junk b s n : simulates b s -> safe_request mem junk b (Clear_bit n) ->
  exists b', ocfs2_bitmap_clear ops mem junk b n = Ok (b', bool_decide (n ∈ s)) /\
    simulates b' (s ∖ {[n]}) /\
    (forall r, safe_request mem junk b r -> safe_request mem junk b' r).
Proof.
  intros Hsim (Hn & Hready & Hrep). cbn in Hn, Hready, Hrep. pose proof Hsim as [Hok Hv Hr Hc].
  unfold ocfs2_bitmap_clear. destruct (Z.geb_spec n (b_total_bits b)); [lia |].
  rewrite store_clear_eq. cbn [call must]. rewrite bind_Ok.
  destruct (clear_law mem b n Hok Hn) as [Hlaw Hx]. destruct (Hx Hready) as [x Ex].
  destruct Hlaw as [[e E] | ([b1 old] & E & Hold & H1)]; [congruence |]. rewrite E, bind_Ok.
  assert (default junk old = bool_decide (n ∈ s)) as ->.
  { rewrite <- Hv by done. destruct Hold as [-> | (-> & -> & Hno)]; [done |].
    destruct Hrep as [-> | Hrep]; done. }
  pose proof (store_total b Hok) as Htot. pose proof (sim_size b s Hsim).
  pose proof (fun sb => sim_step mem junk b s b1 n false (s ∖ {[n]}) sb Hsim Hn H1 (bool_decide_gone s n)) as Hstep.
  destruct (decide (n ∈ s)) as [Hin | Hin].
  - rewrite (bool_decide_eq_true_2 _ Hin). eexists. split; [reflexivity |].
    apply Hstep. rewrite (stepped_set_bits _ _ _ _ _ _ _ _ H1), Hc.
    pose proof (size_remove s n Hin).
    rewrite u64_small; lia.
  - rewrite (bool_decide_eq_false_2 _ Hin). eexists. split; [reflexivity |].
    rewrite <- (counter_same b1). apply Hstep. rewrite (stepped_set_bits _ _ _ _ _ _ _ _ H1), Hc.
    by rewrite remove_other.
Qed.

Lemma sim_test mem junk b s n : simulates b s -> safe_request mem junk b (Test_bit n) ->
  ocfs2_bitmap_test ops b n = Ok (bool_decide (n ∈ s)).
Proof.
  intros [Hok Hv Hr Hc] (Hn & Hready & _). cbn in Hn, Hready.
  unfold ocfs2_bitmap_test. destruct (Z.geb_spec n (b_total_bits b)); [lia |].
  rewrite store_test_eq. cbn [call must]. rewrite bind_Ok, (test_law mem b n) by done. by rewrite Hv.
Qed.

Lemma perform_all_ok mem junk rs : forall b s, simulates b s ->
  Forall (safe_request mem junk b) rs ->
  exists b', perform_all ops mem junk b rs = Ok (b', snd (respond_all s rs)) /\
    simulates b' (fst (respond_all s rs)).
Proof.
  induction rs as [| r rs IH]; intros b s Hsim Hsafe; [by exists b |].
  inversion Hsafe as [| ? ? Hr Hrs]; subst.
  assert (exists b1, perform ops mem junk b r = Ok (b1, snd (respond s r)) /\
    simulates b1 (fst (respond s r)) /\
    (forall r, safe_request mem junk b r -> safe_request mem junk b1 r)) as (b1 & E1 & H1 & H2).
  { destruct r as [n | n | n]; cbn [perform respond fst snd]; [by apply sim_set | by apply sim_clear |].
    exists b. by rewrite (sim_test mem junk b s n). }
  destruct (IH b1 (fst (respond s r)) H1) as (b2 & E2 & H3);
    [eapply Forall_impl; [exact Hrs | exact H2] |].
  exists b2. cbn [perform_all respond_all]. rewrite E1, bind_Ok, E2, bind_Ok.
  destruct (respond s r) as [s1 v]. cbn [fst snd] in *. by destruct (respond_all s1 rs).
Qed.
End Refinement.

(** ** New bitmaps *)

Definition empty_bitmap {P} (total : Z) (p : P) : bitmap P := mkBitmap 0 total E p.

Lemma empty_ok {P} total (p : P) : 0 <= total < 2 ^ 64 -> bitmap_ok (empty_bitmap total p).
Proof.
  intros H. split; cbn; [by exists 0%nat; constructor | split; constructor | constructor | done].
Qed.

Lemma block_bitmap_new_ok (mem : memory) fs_blocks :
  fails_or (ocfs2_block_bitmap_new mem fs_blocks) (fun b => b = empty_bitmap fs_blocks tt).
Proof.
  unfold ocfs2_block_bitmap_new, ocfs2_bitmap_new, malloc. cbn.
  destruct (mem MALLOC_BITMAP); cbn; [| left; by eexists].
  destruct (mem MALLOC_DESCRIPTION); cbn; [right; by eexists | left; by eexists].
Qed.

Lemma cluster_bitmap_new_ok (mem : nat -> memory) fs_clusters fs_clustersize :
  8 <= fs_clustersize <= 1048576 -> 0 < fs_clusters <= INT_MAX - (fs_clustersize - 1) ->
  fails_or (ocfs2_cluster_bitmap_new mem fs_clusters fs_clustersize) (fun b =>
    bitmap_ok b /\ b_total_bits b = fs_clusters /\ b_set_bits b = 0 /\
    forall n, view b n = if (0 <=? n) && (n <? fs_clusters) then Some false else None).
Proof.
  intros Hcs Hn. unfold ocfs2_cluster_bitmap_new, INT_MAX in *.
  eapply (fails_or_bind _ _ (fun b => b = empty_bitmap fs_clusters tt)).
  { unfold ocfs2_bitmap_new, malloc. cbn. destruct (mem 4%nat MALLOC_BITMAP); cbn; [| left; by eexists].
    destruct (mem 4%nat MALLOC_DESCRIPTION); cbn; [right; by eexists | left; by eexists]. }
  intros b ->. rewrite u32_small by lia. cbn [cluster_regions].
  destruct (Z.ltb_spec 0 fs_clusters); [| lia].
  destruct (Z.gtb_spec fs_clusters (2147483647 - (fs_clustersize - 1))); [lia |].
  rewrite s32_small by lia.
  eapply fails_or_bind; [apply alloc_region_ok; unfold INT_MAX; lia |].
  intros br (Hr & Es & Et & Hz).
  destruct (insert_region_ok no_callbacks (mem 3%nat) (empty_bitmap fs_clusters tt) br)
    as (b' & -> & [t ->] & Hok & Hview); [apply empty_ok; lia | unfold int_sized, INT_MAX; cbn; lia | done
    | rewrite Es, Et; cbn; lia | done |].
  rewrite bind_Ok, u64_small by lia. destruct (Z.ltb_spec (0 + fs_clusters) fs_clusters); [lia |].
  right. eexists. split; [reflexivity |]. split; [done |]. split; [done |]. split; [done |].
  intros n. rewrite Hview, Hz. unfold covers. by rewrite Es, Et.
Qed.

(** ** Freeing *)

Lemma free_regions_ok fuel : forall t, valid t -> (length (inorder t) <= fuel)%nat ->
  free_regions fuel t = Ok (inorder t).
Proof.
  induction fuel as [| fuel IH]; intros t Hv Hf; pose proof (rb_first_spec t) as Hfirst;
    cbn [free_regions]; destruct (rb_first t) as [[p node] |]; try (by rewrite Hfirst).
  - exfalso. destruct Hfirst as (Hz & Hne & _). destruct node as [| c l x r]; [done |].
    unfold zroot in Hz. cbn in Hz. rewrite <- Hz, inorder_zipper, length_app in Hf. cbn in Hf. lia.
  - destruct Hfirst as (Hz & Hne & Hp). destruct node as [| c l x r]; [done |].
    unfold zroot in Hz. cbn in Hz. rewrite <- Hz in Hv. cbn [zval snd].
    rewrite zpos_node in Hp. apply nil_length_inv in Hp.
    destruct (erase_ok _ _ _ _ _ Hv) as (t' & -> & Hv' & Hin). rewrite bind_Ok.
    rewrite app_assoc, Hp in Hin. cbn [app] in Hin.
    assert (Ht : inorder t = x :: inorder t') by (rewrite <- Hz, inorder_zipper, Hp, Hin; done).
    rewrite IH; [by rewrite bind_Ok, Ht | done |]. rewrite Ht in Hf. cbn in Hf. lia.
Qed.

(** ** Claims *)




Definition demo_region (start : Z) (bits set : Z) (bm : list Z) : region :=
  mkRegion start bits (zlen bm) set bm 0.

Definition demo_bitmap : bitmap unit :=
  mkBitmap 0 64 (N RB_BLACK E (demo_region 3 5 2 [18]) E) tt.

Lemma demo_region_ok start bm v set : 0 <= start < 1000 -> bm = [v] -> byte_ok v ->
  (v / 32 = 0) -> set = count (bit bm) 5 -> region_ok (demo_region start 5 set bm).
Proof.
  intros Hs -> Hv Hd ->. split; unfold demo_region; cbn [br_start_bit br_total_bits br_bytes br_set_bits br_bitmap];
    try (unfold INT_MAX; lia); try done.
  - by repeat constructor; apply Hv.
  - intros n Hn. destruct (Z.le_gt_cases 8 n); [apply bit_beyond; unfold zlen; cbn [length]; lia |].
    rewrite bit_cons by lia. destruct (Z.ltb_spec n 8); [| lia].
    rewrite <- (Z.mod_small v 32) by (pose proof (Z.div_mod v 32 ltac:(lia));
      pose proof (Z.mod_pos_bound v 32 ltac:(lia)); lia).
    change 32 with (2 ^ 5). by apply Z.mod_pow2_bits_high.
Qed.

Lemma demo_bitmap_ok : bitmap_ok demo_bitmap.
Proof.
  assert (Hr : region_ok (demo_region 3 5 2 [18])) by (by apply (demo_region_ok 3 [18] 18)).
  split; cbn [b_regions demo_bitmap].
  - exists 1%nat. repeat econstructor.
  - split; cbn [inorder app]; [constructor; [exact Hr | constructor] | repeat constructor].
  - cbn [inorder app]. repeat constructor; done.
  - done.
Qed.


Lemma alloc_region_mem (mem : memory) start total : 0 <= total -> total + 7 <= INT_MAX ->
  mem MALLOC_REGION && mem MALLOC_REGION_BITS = false -> ocfs2_bitmap_alloc_region mem start total = Err OCFS2_ET_NO_MEMORY.
Proof.
  intros H1 H2 Hm. unfold ocfs2_bitmap_alloc_region, malloc, ocfs2_align_total.
  destruct (Z.ltb_spec total 0); [lia |]. destruct (mem MALLOC_REGION); [| done].
  destruct (Z.ltb_spec INT_MAX (total + 7)); [lia |]. by destruct (mem MALLOC_REGION_BITS).
Qed.

(** The allocations of a new cluster bitmap with one region. *)
Definition cluster_memory (mem : nat -> memory) : bool :=
  mem 4%nat MALLOC_BITMAP && mem 4%nat MALLOC_DESCRIPTION && (mem 3%nat MALLOC_REGION && mem 3%nat MALLOC_REGION_BITS).

Lemma cluster_bitmap_new_fails (mem : nat -> memory) fs_clusters fs_clustersize :
  8 <= fs_clustersize <= 1048576 -> 0 < fs_clusters <= INT_MAX - (fs_clustersize - 1) ->
  match ocfs2_cluster_bitmap_new mem fs_clusters fs_clustersize with
  | Err e => cluster_memory mem = false /\ e = OCFS2_ET_NO_MEMORY
  | Ok _ => cluster_memory mem = true
  | Fault => False
  end.
Proof.
  intros Hcs Hn. destruct (cluster_bitmap_new_ok mem fs_clusters fs_clustersize Hcs Hn) as [[e E] | (b & E & _)];
    rewrite E; unfold ocfs2_cluster_bitmap_new, ocfs2_bitmap_new, malloc, INT_MAX in E, Hn; unfold cluster_memory;
    cbn [set_bit clear_bit test_bit global_cluster_ops] in E.
  all: destruct (mem 4%nat MALLOC_BITMAP); [| by injection E as <- || discriminate E];
    destruct (mem 4%nat MALLOC_DESCRIPTION); [| by injection E as <- || discriminate E];
    cbn [mret res_ret] in E; rewrite !bind_Ok in E; cbn [andb]; cbv zeta in E; rewrite u32_small in E by lia;
    cbn [cluster_regions] in E; destruct (Z.ltb_spec 0 fs_clusters); [| lia];
    destruct (Z.gtb_spec fs_clusters (2147483647 - (fs_clustersize - 1))); [lia |]; rewrite s32_small in E by lia;
    destruct (mem 3%nat MALLOC_REGION && mem 3%nat MALLOC_REGION_BITS) eqn:Em.
  3: done.
  2, 3: rewrite (alloc_region_mem (mem 3%nat) 0 fs_clusters) in E by (done || (unfold INT_MAX; lia));
    (injection E as <-; done) || discriminate E.
  exfalso. destruct (alloc_region_ok (mem 3%nat) 0 fs_clusters) as [[e' E'] | (br & E' & Hr & Es & Et & _)]; [unfold INT_MAX; lia.. | |].
  - unfold ocfs2_bitmap_alloc_region, malloc, ocfs2_align_total, INT_MAX in E'. apply andb_prop in Em as [M1 M2]. rewrite M1, M2 in E'. destruct (Z.ltb_spec fs_clusters 0); [lia |].
    destruct (Z.ltb_spec 2147483647 (fs_clusters + 7)); [lia |]. discriminate E'.
  - rewrite E', bind_Ok in E.
    destruct (insert_region_ok no_callbacks (mem 3%nat) (empty_bitmap fs_clusters tt) br)
      as (b' & E2 & _); [apply empty_ok; lia | unfold int_sized, INT_MAX; cbn; lia | done
      | rewrite Es, Et; cbn; lia | done |].
    unfold empty_bitmap in E2. rewrite E2, bind_Ok, u64_small in E by lia.
    destruct (Z.ltb_spec (0 + fs_clusters) fs_clusters); [lia | discriminate E].
Qed.

(** C14: a new cluster bitmap of at most [INT_MAX - clustersize + 1] clusters
    has one region with every cluster in it, all clear, and satisfies the
    invariant.  It is made whenever the four allocations succeed; otherwise the
    result is [OCFS2_ET_NO_MEMORY]. *)
Theorem cluster_bitmap_new_correct (mem : nat -> memory) (fs_clusters fs_clustersize : Z)
  (Hcs : 8 <= fs_clustersize <= 1048576)
  (Hn : 0 < fs_clusters <= INT_MAX - (fs_clustersize - 1)) :
  if cluster_memory mem then
    exists b, ocfs2_cluster_bitmap_new mem fs_clusters fs_clustersize = Ok b /\
      simulates global_cluster_ops b ∅ /\
      forall n, 0 <= n < fs_clusters -> view b n = Some false
  else ocfs2_cluster_bitmap_new mem fs_clusters fs_clustersize = Err OCFS2_ET_NO_MEMORY.
Proof.
  pose proof (cluster_bitmap_new_fails mem fs_clusters fs_clustersize Hcs Hn) as Hf.
  destruct (cluster_bitmap_new_ok mem fs_clusters fs_clustersize Hcs Hn)
    as [[e E] | (b & E & Hok & Ht & Hs & Hv)]; rewrite E in Hf; [by destruct Hf as [-> ->] |].
  rewrite Hf. exists b. split; [done |]. split.
  - split; [done | | | done].
    + intros n Hn'. rewrite Ht in Hn'. cbn. unfold bit_value. rewrite Hv.
      destruct ((0 <=? n) && (n <? fs_clusters)); symmetry; by apply bool_decide_eq_false_2.
    + intros n Hn'. by apply elem_of_empty in Hn'.
  - intros n Hn'. rewrite Hv. destruct (Z.leb_spec 0 n), (Z.ltb_spec n fs_clusters); try lia. done.
Qed.

Lemma cluster_bitmap_new_correct_witness : exists b,
  ocfs2_cluster_bitmap_new (fun _ => all_memory) 20 4096 = Ok b /\ view b 19 = Some false.
Proof.
  destruct (cluster_bitmap_new_correct (fun _ => all_memory) 20 4096) as (b & E & _ & H).
  - done.
  - done.
  - exists b. split; [exact E |]. by apply H.
Defined.

(** [ocfs2_bitmap_clear] of a bit in a hole of a block bitmap reads an
    uninitialised variable: [ocfs2_bitmap_clear_holes] returns without storing
    the old value when it has to allocate a region, and the caller then tests
    [old_tmp].  If that happens to be non-zero, the count of an empty bitmap
    becomes 2^64 - 1. *)
Theorem block_clear_uninitialised :
  (exists b, ocfs2_bitmap_clear global_block_ops all_memory true (empty_bitmap 64 tt) 5 = Ok (b, true) /\
     ocfs2_bitmap_get_set_bits b = UINT64_MAX) /\
  (exists b, ocfs2_bitmap_clear global_block_ops all_memory false (empty_bitmap 64 tt) 5 = Ok (b, false) /\
     ocfs2_bitmap_get_set_bits b = 0).
Proof. split; eexists; (split; [vm_compute; reflexivity | reflexivity]). Qed.

(** [ocfs2_bitmap_free] visits and frees every region of the bitmap exactly
    once, in order, and ends with an empty tree. *)
Theorem bitmap_free_complete {P : Type} (ops : operations P) (b : bitmap P)
  (Hn : destroy_notify ops = None) (Hok : bitmap_ok b) :
  ocfs2_bitmap_free ops b = Ok (inorder (b_regions b)).
Proof. unfold ocfs2_bitmap_free. rewrite Hn. apply free_regions_ok; [apply (ok_tree b Hok) | done]. Qed.

Lemma bitmap_free_complete_witness :
  ocfs2_bitmap_free global_block_ops demo_bitmap = Ok [demo_region 3 5 2 [18]].
Proof. apply (bitmap_free_complete global_block_ops demo_bitmap); [done | exact demo_bitmap_ok]. Defined.
