(* ===== verification/BitmapRange.v ===== *)
(** Searching a bitmap, and allocating and freeing ranges of bits:
    the rest of [libocfs2/bitmap.c]. *)

From S2P Require Import Prelude Bitops RbTree Bitmap BitmapInv BitmapApi.
From Stdlib Require Import Sorting.Sorted.

(** ** Searching *)

(** The outcome of a search for the first [n >= start] with [f n]. *)
Definition search_post (f : Z -> bool) (start : Z) (o : res Z) : Prop :=
  match o with
  | Ok n => start <= n /\ f n = true /\ forall m, start <= m < n -> f m = false
  | Err e => e = OCFS2_ET_BIT_NOT_FOUND /\ forall m, start <= m -> f m = false
  | Fault => False
  end.

(** Bit [n] is in a region and has the value [h]. *)
Definition has_value (h : bool) (rs : list region) (n : Z) : bool :=
  match content rs n with
  | Some v => Bool.eqb v h
  | None => false
  end.

(** What the two searches of a buffer promise; [h] is the value they look for. *)
Definition finds (h : bool) (find : list Z -> Z -> Z -> res Z) : Prop :=
  forall buf size offset, bytes_ok buf -> 0 < size < 2 ^ 31 -> 0 <= offset <= size ->
    size <= 8 * zlen buf -> spare_clear buf size ->
    exists x, find buf size offset = Ok x /\
      first_from (fun n => Bool.eqb (bit buf n) h) offset size x.

Lemma finds_set : finds true ocfs2_find_next_bit_set.
Proof.
  intros buf size offset H1 H2 H3 H4 H5.
  destruct (find_next_bit_set_exact buf size offset) as (x & E & Hx); [done.. |].
  exists x. split; [done |]. eapply first_from_ext; [| exact Hx]. intros n _. cbv beta. by destruct (bit buf n).
Qed.

Lemma finds_clear : finds false ocfs2_find_next_bit_clear.
Proof.
  intros buf size offset H1 H2 H3 H4 H5.
  destruct (find_next_bit_clear_exact buf size offset) as (x & E & Hx); [done.. |].
  exists x. split; [done |]. eapply first_from_ext; [| exact Hx]. intros n _. cbv beta. by destruct (bit buf n).
Qed.

(** A search of one region from [start] on. *)
Lemma find_in_region h find br start : finds h find -> region_ok br ->
  0 <= start -> start < br_start_bit br + br_total_bits br ->
  exists x, find (br_bitmap br) (br_total_bits br) (region_offset br start) = Ok x /\
    0 <= x <= br_total_bits br /\
    (forall m, start <= m -> br_start_bit br <= m < br_start_bit br + x ->
       Bool.eqb (region_bit br m) h = false) /\
    (x < br_total_bits br -> start <= br_start_bit br + x /\
       Bool.eqb (region_bit br (br_start_bit br + x)) h = true).
Proof.
  intros Hf Hr Hs He. pose proof (ok_total _ Hr). pose proof (ok_start _ Hr). pose proof (ok_end _ Hr).
  pose proof (region_size _ Hr). pose proof (ok_len _ Hr). unfold INT_MAX in *.
  assert (Hoff : region_offset br start = Z.max 0 (start - br_start_bit br)).
  { unfold region_offset. destruct (Z.gtb_spec start (br_start_bit br)); [| lia].
    rewrite u64_small, s32_small by lia. lia. }
  rewrite Hoff. destruct (Hf (br_bitmap br) (br_total_bits br) (Z.max 0 (start - br_start_bit br)))
    as (x & E & Hx1 & Hx2 & Hx3); try lia; [apply (ok_bitmap _ Hr) | by apply region_spare |].
  exists x. split; [done |]. split; [lia |]. split.
  - intros m Hm1 Hm2. apply Hx2. lia.
  - intros Hlt. split; [lia |]. unfold region_bit.
    replace (br_start_bit br + x - br_start_bit br) with x by lia. by apply Hx3.
Qed.

Lemma zipper_middle (z : zipper (A := region)) l1 l2 : snd z <> E ->
  inorder (zroot z) = l1 ++ l2 -> zpos z = length l1 ->
  exists p c l br r l3, z = (p, N c l br r) /\ l2 = br :: l3.
Proof.
  destruct z as [p [| c l br r]]; [done |]. intros _ Hin Hp. unfold zroot in Hin. cbn in Hin.
  rewrite inorder_zipper in Hin. rewrite zpos_node in Hp. apply app_inj_1 in Hin as [_ <-]; [| done].
  by eexists _, _, _, _, _, _.
Qed.

(** The node after the one at the head of [br :: l2]. *)
Lemma next_suffix (z : zipper (A := region)) l1 br l2 : snd z <> E ->
  inorder (zroot z) = l1 ++ br :: l2 -> zpos z = length l1 ->
  match rb_next z with
  | Some z' => snd z' <> E /\ inorder (zroot z') = (l1 ++ [br]) ++ l2 /\ zpos z' = length (l1 ++ [br])
  | None => l2 = []
  end.
Proof.
  intros Hz Hin Hp. pose proof (rb_next_spec z Hz) as Hn. destruct (rb_next z) as [z' |].
  - destruct Hn as (E1 & E2 & E3). rewrite E1, E3, Hp, length_app. cbn. split; [done |].
    split; [rewrite Hin; by list_assoc | lia].
  - rewrite Hin, length_app, Hp in Hn. cbn in Hn. apply nil_length_inv. lia.
Qed.

(** The loop over the regions, from the node at the head of [l2]. *)
Lemma find_loop_ok h find start : finds h find -> 0 <= start ->
  forall l2 l1 fuel node,
  (length l2 <= fuel)%nat ->
  match node with
  | Some z => snd z <> E /\ inorder (zroot z) = l1 ++ l2 /\ zpos z = length l1
  | None => l2 = []
  end ->
  regions_ok l2 -> Forall (fun r => start < br_start_bit r + br_total_bits r) l2 ->
  search_post (has_value h l2) start (find_loop find fuel node start).
Proof.
  intros Hf Hs. induction l2 as [| br l2 IH]; intros l1 fuel node Hfuel Hnode Hok Hafter.
  - destruct node as [z |].
    + exfalso. destruct Hnode as (H1 & H2 & H3).
      destruct (zipper_middle z l1 [] H1 H2 H3) as (? & ? & ? & ? & ? & ? & _ & ?). done.
    + destruct fuel; (split; [done |]); intros; done.
  - destruct node as [z |]; [| done]. destruct Hnode as (H1 & H2 & H3).
    destruct (zipper_middle z l1 (br :: l2) H1 H2 H3) as (p & c & l & br' & r & l3 & -> & [= <- <-]).
    destruct fuel as [| fuel]; cbn in Hfuel; [lia |]. cbn [find_loop].
    inversion Hafter as [| ? ? Hb Hafter']; subst.
    pose proof (regions_ok_middle [] br l2 Hok) as Hr. pose proof (ok_total _ Hr).
    destruct (find_in_region h find br start Hf Hr Hs Hb) as (x & -> & Hx & Hno & Hyes). rewrite bind_Ok.
    pose proof (ok_start _ Hr). pose proof (ok_end _ Hr).
    destruct (Z.eqb_spec x (br_total_bits br)) as [-> | Hne]; cbn [negb].
    + assert (Hok2 : regions_ok l2).
      { destruct Hok as [Ha Hb']. inversion Ha; inversion Hb'; subst. done. }
      assert (Hrest : search_post (has_value h l2) start (find_loop find fuel (rb_next (p, N c l br r)) start)).
      { apply (IH (l1 ++ [br])); [lia | | done | done].
        apply (next_suffix (p, N c l br r) l1 br l2 H1 H2 H3). }
      assert (Hsame : forall m, start <= m -> has_value h (br :: l2) m = has_value h l2 m).
      { intros m Hm. unfold has_value. cbn [content]. destruct (covers br m) eqn:Ec; [| done].
        apply covers_spec in Ec. rewrite (content_after [] br l2 m Hok) by lia. apply Hno; lia. }
      destruct (find_loop _ _ _ _) as [n | e |]; cbn [search_post] in *; [| | done].
      * destruct Hrest as (R1 & R2 & R3). rewrite Hsame by done. split; [done |]. split; [done |].
        intros m Hm. rewrite Hsame by lia. by apply R3.
      * destruct Hrest as (R1 & R2). split; [done |]. intros m Hm. rewrite Hsame by done. by apply R2.
    + destruct Hyes as [Hge Hval]; [lia |]. cbn [search_post mret res_ret]. rewrite u64_small by lia.
      split; [done |]. split.
      * unfold has_value. cbn [content]. replace (covers br (br_start_bit br + x)) with true; [done |].
        symmetry. apply covers_spec. lia.
      * intros m Hm. unfold has_value. cbn [content]. destruct (covers br m) eqn:Ec.
        -- apply covers_spec in Ec. apply Hno; lia.
        -- rewrite (content_after [] br l2 m Hok) by lia. done.
Qed.

(** Where the searches start. *)
Lemma start_node_ok {P} (b : bitmap P) start : bitmap_ok b -> 0 <= start < 2 ^ 64 - 1 ->
  exists l1 l2, inorder (b_regions b) = l1 ++ l2 /\
    Forall (fun r => br_start_bit r + br_total_bits r <= start) l1 /\
    Forall (fun r => start < br_start_bit r + br_total_bits r) l2 /\
    match start_node b start with
    | Some z => snd z <> E /\ inorder (zroot z) = l1 ++ l2 /\ zpos z = length l1
    | None => l2 = []
    end.
Proof.
  intros [Hv Hr Hw Ht] Hn. unfold start_node.
  pose proof (lookup_ok b start 1 Hr ltac:(lia) ltac:(lia) ltac:(lia)) as Hl.
  destruct (ocfs2_bitmap_lookup b start 1) as [z | q next].
  - destruct Hl as (Hz & r & Hzr & Hm1 & Hm2). destruct z as [p [| c l x r']]; [done |].
    injection Hzr as ->. unfold zroot in *. cbn in Hz.
    exists (before p ++ inorder l), (r :: inorder r' ++ after p).
    rewrite <- Hz, inorder_zipper in Hr |- *. pose proof Hr as [_ Hs]. apply sorted_middle in Hs as [Hs1 Hs2].
    rewrite zpos_node. split_and!; try done.
    + eapply Forall_impl; [exact Hs1 |]. unfold precedes. intros; lia.
    + constructor; [lia |]. rewrite Forall_forall in Hs2. apply Forall_forall. intros a Ha. specialize (Hs2 a Ha).
      destruct Hr as [He _]. apply Forall_app in He as [_ He]. inversion He as [| ? ? _ He2]; subst.
      rewrite Forall_forall in He2. pose proof (ok_total _ (He2 a Ha)). unfold precedes in Hs2. lia.
    + cbn. by rewrite inorder_zipper.
  - destruct Hl as (Hp & Hb & Ha & Hnext). exists (before q), (after q).
    assert (Hin : inorder (b_regions b) = before q ++ after q) by (rewrite <- Hp, inorder_plug; done).
    split; [done |]. split; [done |]. split.
    + rewrite Hin in Hr. destruct Hr as [He _]. apply Forall_app in He as [_ He].
      rewrite Forall_forall in He, Ha. apply Forall_forall. intros a Hain.
      pose proof (ok_total _ (He a Hain)). specialize (Ha a Hain). cbn in Ha. lia.
    + destruct next as [z |]; [| done]. destruct Hnext as (N1 & N2 & N3). by rewrite N1, Hin.
Qed.

Lemma regions_ok_suffix l1 l2 : regions_ok (l1 ++ l2) -> regions_ok l2.
Proof.
  intros [He Hs]. apply Forall_app in He as [_ He]. apply sorted_app in Hs as (_ & Hs & _). done.
Qed.

Lemma content_suffix l1 l2 start n : Forall (fun r => br_start_bit r + br_total_bits r <= start) l1 ->
  start <= n -> content (l1 ++ l2) n = content l2 n.
Proof.
  intros H Hn. rewrite content_app, content_none; [done |]. eapply Forall_impl; [exact H |].
  cbn. intros r Hr. apply covers_false. lia.
Qed.

Lemma find_generic_ok {P} (b : bitmap P) h find start : finds h find -> bitmap_ok b ->
  0 <= start < 2 ^ 64 - 1 ->
  search_post (fun n => bool_decide (view b n = Some h)) start
    (find_loop find (length (inorder (b_regions b))) (start_node b start) start).
Proof.
  intros Hf Hok Hs. destruct (start_node_ok b start Hok Hs) as (l1 & l2 & Hin & H1 & H2 & Hnode).
  pose proof (ok_regions b Hok) as Hr. rewrite Hin in Hr.
  pose proof (find_loop_ok h find start Hf ltac:(lia) l2 l1 (length (inorder (b_regions b)))
    (start_node b start)) as Hloop.
  specialize (Hloop ltac:(rewrite Hin, length_app; lia) Hnode (regions_ok_suffix _ _ Hr) H2).
  assert (Hv : forall n, start <= n -> bool_decide (view b n = Some h) = has_value h l2 n).
  { intros n Hn. unfold view, has_value. rewrite Hin, (content_suffix l1 l2 start n H1 Hn).
    destruct (content l2 n) as [[] |], h; done. }
  destruct (find_loop _ _ _ _) as [n | e |]; cbn [search_post] in *; [| | done].
  - destruct Hloop as (L1 & L2 & L3). rewrite Hv by done. split; [done |]. split; [done |].
    intros m Hm. rewrite Hv by lia. by apply L3.
  - destruct Hloop as [L1 L2]. split; [done |]. intros m Hm. rewrite Hv by done. by apply L2.
Qed.

(** ** Searching for a clear bit when holes count as clear *)

(** [rs] covers [lo .. hi - 1] and all these bits are set. *)
Definition all_set (rs : list region) (lo hi : Z) : Prop :=
  forall m, lo <= m < hi -> content rs m = Some true.

(** The end of the last region. *)
Definition regions_end (rs : list region) (default : Z) : Z :=
  match last rs with
  | Some r => br_start_bit r + br_total_bits r
  | None => default
  end.

Definition holes_post (rs : list region) (start : Z) (o : res Z) : Prop :=
  match o with
  | Ok n => start <= n /\ content rs n <> Some true /\ all_set rs start n
  | Err e => e = OCFS2_ET_BIT_NOT_FOUND /\ all_set rs start (regions_end rs start)
  | Fault => False
  end.

Lemma holes_loop_ok start : 0 <= start ->
  forall l2 l0 l1 fuel node seen,
  (length l2 <= fuel)%nat ->
  match node with
  | Some z => snd z <> E /\ inorder (zroot z) = l1 ++ l2 /\ zpos z = length l1
  | None => l2 = []
  end ->
  regions_ok (l0 ++ l2) -> Forall (fun r => start < br_start_bit r + br_total_bits r) l2 ->
  start <= seen -> all_set (l0 ++ l2) start seen ->
  (seen = regions_end l0 start /\ Forall (fun r => br_start_bit r + br_total_bits r <= seen) l0) ->
  holes_post (l0 ++ l2) start (find_clear_holes_loop fuel node start seen).
Proof.
  intros Hs. induction l2 as [| br l2 IH]; intros l0 l1 fuel node seen Hfuel Hnode Hok Hafter Hseen Hset [He Hl0].
  - destruct node as [z |].
    + exfalso. destruct Hnode as (H1 & H2 & H3).
      destruct (zipper_middle z l1 [] H1 H2 H3) as (? & ? & ? & ? & ? & ? & _ & ?). done.
    + rewrite app_nil_r in *. subst seen. destruct fuel; done.
  - destruct node as [z |]; [| done]. destruct Hnode as (H1 & H2 & H3).
    destruct (zipper_middle z l1 (br :: l2) H1 H2 H3) as (p & c & l & br' & r & l3 & -> & [= <- <-]).
    destruct fuel as [| fuel]; cbn in Hfuel; [lia |]. cbn [find_clear_holes_loop].
    apply Forall_cons in Hafter as [Hb Hafter'].
    pose proof (regions_ok_middle l0 br l2 Hok) as Hr. pose proof (ok_total _ Hr).
    pose proof (ok_start _ Hr). pose proof (ok_end _ Hr).
    assert (Hhere : forall m, seen <= m -> content (l0 ++ br :: l2) m = content (br :: l2) m)
      by (intros m Hm; by apply (content_suffix l0 (br :: l2) seen)).
    destruct (Z.ltb_spec seen (br_start_bit br)) as [Hhole | Hnohole].
    + split; [done |]. split; [| done]. rewrite Hhere by lia. cbn [content].
      replace (covers br seen) with false by (symmetry; apply covers_false; lia).
      rewrite (content_after l0 br l2 seen Hok) by lia. done.
    + destruct (find_in_region false _ br start finds_clear Hr Hs Hb) as (x & -> & Hx & Hno & Hyes).
      rewrite bind_Ok.
      assert (Hx' : all_set (l0 ++ br :: l2) start (br_start_bit br + x)).
      { intros m Hm. destruct (Z.lt_ge_cases m seen); [apply Hset; lia |].
        assert (Ec : covers br m = true) by (apply covers_spec; lia).
        rewrite (content_middle _ _ _ _ Hok Ec). specialize (Hno m ltac:(lia) ltac:(lia)).
        by destruct (region_bit br m). }
      destruct (Z.eqb_spec x (br_total_bits br)) as [-> | Hne]; cbn [negb].
      * rewrite cons_middle, app_assoc. rewrite u64_small by lia.
        apply (IH (l0 ++ [br]) (l1 ++ [br])); [lia | | | done | lia | | ].
        -- apply (next_suffix (p, N c l br r) l1 br l2 H1 H2 H3).
        -- by rewrite <- app_assoc.
        -- by rewrite <- app_assoc.
        -- split; [unfold regions_end; by rewrite last_snoc |].
           apply Forall_app. split; [| repeat constructor; lia].
           destruct Hok as [_ Hsort]. apply sorted_middle in Hsort as [Hsort _].
           eapply Forall_impl; [exact Hsort |]. unfold precedes. intros; lia.
      * destruct Hyes as [Hge Hval]; [lia |]. cbn [holes_post mret res_ret]. rewrite u64_small by lia.
        split; [done |]. split; [| done].
        rewrite (content_middle _ _ _ _ Hok) by (apply covers_spec; lia).
        by destruct (region_bit br _).
Qed.

Lemma find_clear_holes_ok {P} (b : bitmap P) start : bitmap_ok b -> 0 <= start < 2 ^ 64 - 1 ->
  match ocfs2_bitmap_find_next_clear_holes b start with
  | Ok n => start <= n /\ bit_value b n = false /\ forall m, start <= m < n -> bit_value b m = true
  | Err e => e = OCFS2_ET_BIT_NOT_FOUND /\
      forall m, start <= m < regions_end (inorder (b_regions b)) start -> bit_value b m = true
  | Fault => False
  end.
Proof.
  intros Hok Hs. destruct (start_node_ok b start Hok Hs) as (l1 & l2 & Hin & H1 & H2 & Hnode).
  pose proof (ok_regions b Hok) as Hr. rewrite Hin in Hr.
  assert (Hsuf : forall n, start <= n -> view b n = content l2 n)
    by (intros n Hn; unfold view; rewrite Hin; by eapply content_suffix).
  unfold ocfs2_bitmap_find_next_clear_holes, bit_value. destruct (start_node b start) as [z |].
  - pose proof (holes_loop_ok start ltac:(lia) l2 [] l1 (length (inorder (b_regions b))) (Some z) start) as Hl.
    specialize (Hl ltac:(rewrite Hin, length_app; lia) Hnode (regions_ok_suffix _ _ Hr) H2 ltac:(lia)).
    specialize (Hl ltac:(intros m Hm; lia) ltac:(split; [done | constructor])). cbn [app] in Hl.
    destruct (find_clear_holes_loop _ _ _ _) as [n | e |]; cbn [holes_post] in *; [| | done].
    + destruct Hl as (L1 & L2 & L3). split; [done |]. split.
      * rewrite Hsuf by done. destruct (content l2 n) as [[] |]; done.
      * intros m Hm. by rewrite Hsuf, L3 by lia.
    + destruct Hl as (L1 & L2). split; [done |]. intros m Hm. rewrite Hsuf, L2; [done | | lia].
      destruct Hnode as (N1 & N2 & N3).
      destruct (zipper_middle z l1 l2 N1 N2 N3) as (? & ? & ? & br & ? & l3 & _ & ->).
      rewrite Hin in Hm. unfold regions_end in *. rewrite last_app in Hm.
      destruct (last (br :: l3)) eqn:El; [done |]. apply last_None in El. done.
  - subst l2. split; [lia |]. split; [by rewrite Hsuf by lia | intros; lia].
Qed.

(** ** Allocating a range *)

(** [k] clear bits of the region from its bit [s] on. *)
Definition clear_span (br : region) (s k : Z) : Prop :=
  0 <= s /\ 0 <= k /\ s + k <= br_total_bits br /\
  forall i, s <= i < s + k -> bit (br_bitmap br) i = false.

Lemma clear_span_count br s k : clear_span br s k ->
  count (bit (br_bitmap br)) (Z.to_nat (br_total_bits br)) <= br_total_bits br - k.
Proof.
  intros (S1 & S2 & S3 & S4).
  replace (Z.to_nat (br_total_bits br))
    with (Z.to_nat s + (Z.to_nat k + Z.to_nat (br_total_bits br - s - k)))%nat by lia.
  rewrite !count_split, (count_false (fun i => bit (br_bitmap br) (Z.of_nat (Z.to_nat s) + i)))
    by (intros i Hi; apply S4; lia).
  pose proof (count_bound (bit (br_bitmap br)) (Z.to_nat s)).
  match goal with |- context [_ + (0 + count ?f ?n)] => pose proof (count_bound f n) end. lia.
Qed.

(** No span of clear bits that starts before [start] is longer than [best]. *)
Definition no_longer (br : region) (start best : Z) : Prop :=
  forall s k, s < start -> clear_span br s k -> k <= best.

(** What is known of the best span seen so far. *)
Definition best_ok (br : region) (len best_start best_len : Z) : Prop :=
  (best_start = UINT64_MAX /\ best_len = 0) \/
  (clear_span br best_start best_len /\ 0 < best_len < len).

Definition scan_post (br : region) (min_len len : Z) (o : Z * Z + Z * Z) : Prop :=
  match o with
  | inl (s, e) => e - s = len /\ clear_span br s len
  | inr (bs, bl) => best_ok br len bs bl /\
      forall s k, min_len <= k -> clear_span br s k -> k <= bl
  end.

Lemma region_find_set br s : region_ok br -> 0 <= s <= br_total_bits br ->
  exists x, ocfs2_find_next_bit_set (br_bitmap br) (br_total_bits br) s = Ok x /\
    first_from (bit (br_bitmap br)) s (br_total_bits br) x.
Proof.
  intros Hr Hs. pose proof (ok_total _ Hr). pose proof (region_size _ Hr). pose proof (ok_len _ Hr).
  unfold INT_MAX in *. apply find_next_bit_set_exact; try lia; [apply (ok_bitmap _ Hr) | by apply region_spare].
Qed.

Lemma region_find_clear br s : region_ok br -> 0 <= s <= br_total_bits br ->
  exists x, ocfs2_find_next_bit_clear (br_bitmap br) (br_total_bits br) s = Ok x /\
    first_from (fun n => negb (bit (br_bitmap br) n)) s (br_total_bits br) x.
Proof.
  intros Hr Hs. pose proof (ok_total _ Hr). pose proof (region_size _ Hr). pose proof (ok_len _ Hr).
  unfold INT_MAX in *. apply find_next_bit_clear_exact; try lia; [apply (ok_bitmap _ Hr) | by apply region_spare].
Qed.

(** A bit in [s .. x - 1] is set, one in [x .. e - 1] is clear, and [e] is set
    unless it is the end: spans that start before [e + 1]. *)
Lemma no_longer_step br s x e best best' :
  no_longer br s best -> (forall n, s <= n < x -> negb (bit (br_bitmap br) n) = false) ->
  s <= x -> first_from (bit (br_bitmap br)) x (br_total_bits br) e ->
  best <= best' -> e - x <= best' -> 0 <= best' -> no_longer br (e + 1) best'.
Proof.
  intros Hbest Hset Hsx (He1 & He2 & He3) Hb1 Hb2 Hb0 s' k Hs' Hspan.
  destruct (Z.lt_ge_cases s' s); [specialize (Hbest s' k ltac:(lia) Hspan); lia |].
  destruct Hspan as (S1 & S2 & S3 & S4). destruct (Z.le_gt_cases k 0); [lia |].
  destruct (Z.lt_ge_cases s' x).
  { specialize (Hset s' ltac:(lia)). rewrite (S4 s') in Hset by lia. discriminate. }
  destruct (Z.le_gt_cases (s' + k) e); [lia |].
  rewrite (S4 e) in He3 by lia. specialize (He3 ltac:(lia)). discriminate.
Qed.

Lemma alloc_scan_ok br min_len len fuel : region_ok br -> 1 <= min_len <= br_total_bits br ->
  min_len <= len < 2 ^ 64 ->
  forall start bs bl, 0 <= start <= br_total_bits br + 1 ->
  br_total_bits br + 1 - start <= Z.of_nat fuel ->
  best_ok br len bs bl -> no_longer br start bl ->
  exists o, alloc_scan fuel br min_len len start bs bl = Ok o /\ scan_post br min_len len o.
Proof.
  intros Hr Hmin Hlen. pose proof (ok_total _ Hr) as Htot. unfold INT_MAX in Htot.
  induction fuel as [| fuel IH]; intros start bs bl Hstart Hfuel Hbest Hno; cbn [alloc_scan];
    rewrite u64_small by lia.
  all: destruct (Z.leb_spec (start + min_len) (br_total_bits br)) as [Hgo | Hstop]; cbn [negb].
  - lia.
  - eexists. split; [reflexivity |]. split; [done |]. intros s k Hk Hspan. apply (Hno s k); [| done].
    destruct Hspan as (_ & _ & ? & _). lia.
  - destruct (region_find_clear br start Hr ltac:(lia)) as (x & -> & Hx1 & Hx2 & Hx3). rewrite bind_Ok.
    destruct (Z.eqb_spec x (br_total_bits br)) as [-> | Hne].
    + eexists. split; [reflexivity |]. split; [done |]. intros s k Hk Hspan.
      destruct (Z.lt_ge_cases s start); [by apply (Hno s k) |]. exfalso.
      destruct Hspan as (S1 & _ & S3 & S4). specialize (Hx2 s ltac:(lia)).
      rewrite S4 in Hx2 by lia. discriminate.
    + destruct (region_find_set br x Hr ltac:(lia)) as (e & -> & He). rewrite bind_Ok.
      pose proof He as (He1 & He2 & He3). rewrite !(u64_small (e - x)) by lia.
      specialize (Hx3 ltac:(lia)). apply negb_true_iff in Hx3.
      assert (x < e) by (destruct (Z.eq_dec x e) as [-> |]; [rewrite He3 in Hx3 by lia; discriminate | lia]).
      assert (Hspan : forall k, 0 <= k <= e - x -> clear_span br x k)
        by (intros k Hk; split_and!; try lia; intros i Hi; apply He2; lia).
      destruct (Z.geb_spec (e - x) len).
      * rewrite s32_small by lia. eexists. split; [reflexivity |]. split; [lia | apply Hspan; lia].
      * assert (0 <= bl) by (destruct Hbest as [[_ ->] | [_ ?]]; lia).
        destruct (Z.gtb_spec (e - x) bl).
        -- rewrite (u64_small x) by lia. apply IH; [lia | lia | right; split; [apply Hspan |]; lia |].
           apply (no_longer_step br start x e bl (e - x)); try done; lia.
        -- apply IH; [lia | lia | done |]. apply (no_longer_step br start x e bl bl); try done; lia.
  - eexists. split; [reflexivity |]. split; [done |]. intros s k Hk Hspan. apply (Hno s k); [| done].
    destruct Hspan as (_ & _ & ? & _). lia.
Qed.

(** Setting a run of bits of a region. *)
Definition updates_run (br br' : region) (lo hi : Z) (v : bool) : Prop :=
  region_ok br' /\ br_start_bit br' = br_start_bit br /\ br_total_bits br' = br_total_bits br /\
  forall m, br_start_bit br <= m ->
    region_bit br' m = if (lo <=? m) && (m <? hi) then v else region_bit br m.

Lemma updates_run_refl br lo v : region_ok br -> updates_run br br lo lo v.
Proof. intros H. split_and!; try done. intros m _. destruct (Z.leb_spec lo m), (Z.ltb_spec m lo); done || lia. Qed.

Lemma updates_run_step br br1 br2 n hi v : n < hi -> updates br br1 n v ->
  updates_run br1 br2 (n + 1) hi v -> updates_run br br2 n hi v.
Proof.
  intros Hn (U1 & U2 & U3 & U4) (V1 & V2 & V3 & V4). split; [done |].
  split; [congruence |]. split; [congruence |].
  intros m Hm. rewrite V4, U4 by lia.
  destruct (Z.leb_spec (n + 1) m), (Z.leb_spec n m), (Z.ltb_spec m hi), (Z.eqb_spec m n); cbn [andb]; done || lia.
Qed.

Lemma updates_covers br br1 n v m : updates br br1 n v -> covers br1 m = covers br m.
Proof. intros (_ & E1 & E2 & _). unfold covers. by rewrite E1, E2. Qed.

Section Range.
Context {P : Type}.
Implicit Types (b : bitmap P) (cb : callbacks P).

Lemma set_run_ok cb n : forall (priv : P) br start, region_ok br -> 0 <= start ->
  start + Z.of_nat n <= br_total_bits br ->
  exists priv' br', set_run cb n priv br start = Ok (priv', br') /\
    updates_run br br' (br_start_bit br + start) (br_start_bit br + start + Z.of_nat n) true.
Proof.
  induction n as [| n IH]; intros priv br start Hr Hs He.
  - exists priv, br. split; [done |]. rewrite Z.add_0_r. by apply updates_run_refl.
  - cbn [set_run]. pose proof (ok_start _ Hr). pose proof (ok_end _ Hr). rewrite u64_small by lia.
    destruct (set_shared_ok cb priv br (start + br_start_bit br) Hr) as (priv1 & br1 & -> & Hu);
      [apply covers_spec; lia |]. rewrite bind_Ok. pose proof Hu as (U1 & U2 & U3 & _).
    destruct (IH priv1 br1 (start + 1)) as (priv2 & br2 & -> & Hu2); [done | lia | lia |].
    exists priv2, br2. split; [done |].
    eapply updates_run_step; [| by rewrite Z.add_comm |]; [lia |].
    rewrite U2 in Hu2. replace (br_start_bit br + start + 1) with (br_start_bit br + (start + 1)) by lia.
    by replace (br_start_bit br + start + Z.of_nat (S n))
      with (br_start_bit br + (start + 1) + Z.of_nat n) by lia.
Qed.

Lemma clear_run_ok cb n : forall (priv : P) br first, region_ok br -> br_start_bit br <= first ->
  first + Z.of_nat n <= br_start_bit br + br_total_bits br ->
  exists priv' br', clear_run cb n priv br first = Ok (priv', br') /\
    updates_run br br' first (first + Z.of_nat n) false.
Proof.
  induction n as [| n IH]; intros priv br first Hr Hs He.
  - exists priv, br. split; [done |]. rewrite Z.add_0_r. by apply updates_run_refl.
  - cbn [clear_run].
    destruct (clear_shared_ok cb priv br first Hr) as (priv1 & br1 & -> & Hu);
      [apply covers_spec; lia |]. rewrite bind_Ok. pose proof Hu as (U1 & U2 & U3 & _).
    destruct (IH priv1 br1 (first + 1)) as (priv2 & br2 & -> & Hu2); [done | lia | lia |].
    exists priv2, br2. split; [done |]. eapply updates_run_step; [| done |]; [lia |].
    by replace (first + Z.of_nat (S n)) with (first + 1 + Z.of_nat n) by lia.
Qed.

(** One region of the walk: it has no span of [ar_min_len] clear bits, or a
    span was allocated in it. *)
Lemma alloc_range_func_ok cb (ar : alloc_range_args) br : region_ok br ->
  1 <= ar_min_len ar <= ar_len ar -> ar_len ar < 2 ^ 64 ->
  (alloc_range_func cb ar br = Ok (ar, br, None) /\ forall s, ~ clear_span br s (ar_min_len ar)) \/
  (exists ar' br' s k, alloc_range_func cb ar br = Ok (ar', br', Some OCFS2_ET_ITERATION_COMPLETE) /\
     ar_ret ar' = None /\ ar_first_bit ar' = br_start_bit br + s /\ ar_bits_found ar' = k /\
     ar_min_len ar <= k <= ar_len ar /\ clear_span br s k /\
     updates_run br br' (br_start_bit br + s) (br_start_bit br + s + k) true).
Proof.
  intros Hr Hmin Hlen. pose proof (ok_total _ Hr) as Htot. pose proof (ok_count _ Hr) as Hcount.
  pose proof (ok_start _ Hr). pose proof (ok_end _ Hr). unfold INT_MAX in *.
  pose proof (count_bound (bit (br_bitmap br)) (Z.to_nat (br_total_bits br))) as Hcb.
  unfold alloc_range_func. rewrite u64_small by lia.
  destruct (Z.ltb_spec (br_total_bits br - br_set_bits br) (ar_min_len ar)) as [Hfew | Henough].
  { left. split; [done |]. intros s Hspan.
    pose proof (clear_span_count br s _ Hspan). lia. }
  destruct (alloc_scan_ok br (ar_min_len ar) (ar_len ar) (Z.to_nat (br_total_bits br + 1)) Hr)
    with (start := 0) (bs := UINT64_MAX) (bl := 0) as (o & -> & Hpost); try lia.
  { by left. }
  { intros s k Hs (? & _). lia. }
  rewrite bind_Ok. cbv zeta.
  assert (Hfound : forall s e, clear_span br s (e - s) -> ar_min_len ar <= e - s <= ar_len ar ->
    exists ar' br', ('(priv, br') ← set_run cb (Z.to_nat (e - s)) (ar_private ar) br s;
       mret (mkArgs priv (ar_min_len ar) (ar_len ar) (u64 (br_start_bit br + s)) (u64 (e - s)) None,
          br', Some OCFS2_ET_ITERATION_COMPLETE)) = Ok (ar', br', Some OCFS2_ET_ITERATION_COMPLETE) /\
     ar_ret ar' = None /\ ar_first_bit ar' = br_start_bit br + s /\ ar_bits_found ar' = e - s /\
     updates_run br br' (br_start_bit br + s) (br_start_bit br + s + (e - s)) true).
  { intros s e (S1 & S2 & S3 & S4) Hk.
    destruct (set_run_ok cb (Z.to_nat (e - s)) (ar_private ar) br s Hr ltac:(lia) ltac:(lia))
      as (priv & br' & -> & Hu). rewrite bind_Ok. eexists _, _. split; [reflexivity |]. cbn.
    rewrite !u64_small by lia. split_and!; try done. by rewrite Z2Nat.id in Hu by lia. }
  destruct o as [[s e] | [bs bl]]; cbn [scan_post] in Hpost.
  - destruct Hpost as (Hlen' & Hspan). right. destruct (Hfound s e) as (ar' & br' & E & F1 & F2 & F3 & F4);
      [by rewrite Hlen' | lia |]. exists ar', br', s, (e - s). rewrite Hlen' in *. split_and!; try done; lia.
  - destruct Hpost as (Hbest & Hmax). destruct Hbest as [[-> ->] | [Hspan Hbl]].
    + rewrite Z.eqb_refl. cbn [orb]. left. split; [done |]. intros s Hspan.
      specialize (Hmax s (ar_min_len ar) ltac:(lia) Hspan). lia.
    + pose proof Hspan as (S1 & S2 & S3 & _). unfold UINT64_MAX.
      destruct (Z.eqb_spec bs 18446744073709551615); [lia |]. cbn [orb].
      destruct (Z.ltb_spec bl (ar_min_len ar)).
      * left. split; [done |]. intros s Hspan'. specialize (Hmax s (ar_min_len ar) ltac:(lia) Hspan'). lia.
      * right. rewrite !s32_small by lia. destruct (Hfound bs (bs + bl)) as (ar' & br' & E & F1 & F2 & F3 & F4).
        { by replace (bs + bl - bs) with bl by lia. } { lia. }
        exists ar', br', bs, bl. replace (bs + bl - bs) with bl in * by lia. split_and!; try done; lia.
Qed.

(** The walk over the regions, from the node at the head of [l2]. *)
Lemma alloc_walk_ok cb (ar : alloc_range_args) (t : tree region) :
  1 <= ar_min_len ar <= ar_len ar -> ar_len ar < 2 ^ 64 ->
  forall l2 l1 fuel node, (length l2 <= fuel)%nat ->
  match node with
  | Some z => snd z <> E /\ zroot z = t /\ inorder t = l1 ++ l2 /\ zpos z = length l1
  | None => l2 = []
  end ->
  Forall region_ok l2 ->
  (foreach_loop (alloc_range_func cb) fuel node t ar = Ok (t, ar, None) /\
     Forall (fun br => forall s, ~ clear_span br s (ar_min_len ar)) l2) \/
  (exists p c l br br' r ar' s k,
     plug p (N c l br r) = t /\ region_ok br /\
     foreach_loop (alloc_range_func cb) fuel node t ar = Ok (plug p (N c l br' r), ar', None) /\
     ar_ret ar' = None /\ ar_first_bit ar' = br_start_bit br + s /\ ar_bits_found ar' = k /\
     ar_min_len ar <= k <= ar_len ar /\ clear_span br s k /\
     updates_run br br' (br_start_bit br + s) (br_start_bit br + s + k) true).
Proof.
  intros Hmin Hlen. induction l2 as [| br l2 IH]; intros l1 fuel node Hfuel Hnode Hok.
  - left. split; [| constructor]. destruct node as [z |]; [| by destruct fuel].
    exfalso. destruct Hnode as (H1 & H2 & H3 & H4). rewrite <- H2 in H3.
    destruct (zipper_middle z l1 [] H1 H3 H4) as (? & ? & ? & ? & ? & ? & _ & ?). done.
  - destruct node as [z |]; [| done]. destruct Hnode as (H1 & H2 & H3 & H4). rewrite <- H2 in H3.
    destruct (zipper_middle z l1 (br :: l2) H1 H3 H4) as (p & c & l & br' & r & l3 & -> & [= <- <-]).
    destruct fuel as [| fuel]; cbn in Hfuel; [lia |]. cbn [foreach_loop].
    apply Forall_cons in Hok as [Hr Hok]. unfold zroot in H2. cbn [fst snd] in H2.
    destruct (alloc_range_func_ok cb ar br Hr Hmin Hlen)
      as [[-> Hno] | (ar' & br' & s & k & -> & F1 & F2 & F3 & F4 & F5 & F6)]; rewrite bind_Ok; cbv zeta.
    + pose proof (next_suffix _ _ _ _ H1 H3 H4) as Hnext. rewrite H2.
      destruct (IH (l1 ++ [br]) fuel (rb_next (p, N c l br r))) as [[E Hrest] | Hfound]; [lia | | done | |].
      * pose proof (rb_next_spec (p, N c l br r) H1) as Hz. destruct (rb_next _) as [z' |]; [| done].
        destruct Hnext as (N1 & N2 & N3). destruct Hz as (Z1 & _ & _).
        split; [done |]. unfold zroot in Z1 at 2. cbn in Z1. rewrite H2 in Z1. by rewrite Z1 in N2.
      * left. rewrite E. split; [done |]. by constructor.
      * by right.
    + right. exists p, c, l, br, br', r, ar', s, k. split_and!; try done; lia.
Qed.

Lemma clear_span_view b p c l br r s k : bitmap_ok b -> plug p (N c l br r) = b_regions b ->
  clear_span br s k ->
  forall n, br_start_bit br + s <= n < br_start_bit br + s + k ->
    covers br n = true /\ view b n = Some false.
Proof.
  intros Hok Ep (S1 & S2 & S3 & S4) n Hn.
  assert (Hc : covers br n = true) by (apply covers_spec; lia). split; [done |].
  pose proof (ok_regions b Hok) as Hr. unfold view. rewrite <- Ep, inorder_zipper in *.
  rewrite (content_middle _ _ _ _ Hr Hc). unfold region_bit. by rewrite S4 by lia.
Qed.

(** Overwriting a run of bits of the region of a node. *)
Lemma update_run_ok b p c l br br' r priv lo hi v : bitmap_ok b ->
  plug p (N c l br r) = b_regions b -> updates_run br br' lo hi v ->
  (forall n, lo <= n < hi -> covers br n = true) ->
  let b' := with_private (with_regions b (plug p (N c l br' r))) priv in
  bitmap_ok b' /\
  forall n, view b' n = if (lo <=? n) && (n <? hi) then Some v else view b n.
Proof.
  intros Hok Ep (U1 & U2 & U3 & U4) Hcov b'.
  destruct (update_region_ok b p c l br br' r priv Hok Ep U1 U2 U3) as [Hok' Hview].
  split; [done |]. intros n. fold b' in Hview. rewrite Hview.
  destruct ((lo <=? n) && (n <? hi)) eqn:Ein.
  - assert (Hc : covers br n = true) by (apply Hcov; lia). rewrite Hc.
    rewrite U4, Ein; [done |]. apply covers_spec in Hc. lia.
  - destruct (covers br n) eqn:Hc; [| done]. pose proof (ok_regions b Hok) as Hr.
    rewrite U4, Ein by (apply covers_spec in Hc; lia). unfold view.
    rewrite <- Ep, inorder_zipper in *. by rewrite (content_middle _ _ _ _ Hr Hc).
Qed.

Lemma alloc_range_ok cb b min_len len : bitmap_ok b -> 1 <= min_len <= len -> len < 2 ^ 64 ->
  (ocfs2_bitmap_alloc_range_generic cb b min_len len = Err OCFS2_ET_BIT_NOT_FOUND /\
   Forall (fun br => forall s, ~ clear_span br s min_len) (inorder (b_regions b))) \/
  (exists b' first found, ocfs2_bitmap_alloc_range_generic cb b min_len len = Ok (b', (first, found)) /\
     min_len <= found <= len /\ bitmap_ok b' /\ b_set_bits b' = b_set_bits b /\
     b_total_bits b' = b_total_bits b /\
     (forall n, first <= n < first + found -> view b n = Some false) /\
     (exists br, br ∈ inorder (b_regions b') /\ br_start_bit br <= first /\
        first + found <= br_start_bit br + br_total_bits br) /\
     (forall n, view b' n = if (first <=? n) && (n <? first + found) then Some true else view b n)).
Proof.
  intros Hok Hmin Hlen. unfold ocfs2_bitmap_alloc_range_generic, ocfs2_bitmap_foreach_region.
  set (ar := mkArgs (b_private b) min_len len 0 0 (Some OCFS2_ET_BIT_NOT_FOUND)).
  destruct (alloc_walk_ok cb ar (b_regions b) Hmin Hlen (inorder (b_regions b)) []
    (length (inorder (b_regions b))) (rb_first (b_regions b)))
    as [[-> Hno] | (p & c & l & br & br' & r & ar' & s & k & Ep & Hr & -> & F1 & F2 & F3 & F4 & F5 & F6)].
  - done.
  - pose proof (rb_first_spec (b_regions b)) as Hf. destruct (rb_first _) as [z |]; [| done].
    destruct Hf as (E1 & E2 & E3). done.
  - apply (ok_each _ (ok_regions b Hok)).
  - left. done.
  - right. rewrite bind_Ok, F1, F2, F3.
    destruct (update_run_ok b p c l br br' r (ar_private ar') _ _ true Hok Ep F6) as [Hok' Hview].
    { intros n Hn. by apply (clear_span_view b p c l br r s k Hok Ep F5). }
    eexists _, _, _. split; [reflexivity |]. split; [done |]. split; [done |]. split; [done |]. split; [done |].
    split; [intros n Hn; by apply (clear_span_view b p c l br r s k Hok Ep F5) |]. split; [| done].
    exists br'. cbn [b_regions with_private with_regions]. rewrite inorder_zipper.
    split; [apply elem_of_app; right; by left |].
    destruct F6 as (_ & -> & -> & _). destruct F5 as (? & ? & ? & _). lia.
Qed.

(** Clearing a range that lies in one region. *)
Lemma clear_range_ok cb b len first br : bitmap_ok b -> br ∈ inorder (b_regions b) ->
  1 <= len -> br_start_bit br <= first -> first + len <= br_start_bit br + br_total_bits br ->
  exists b', ocfs2_bitmap_clear_range_generic cb b len first = Ok b' /\ bitmap_ok b' /\
    forall n, view b' n = if (first <=? n) && (n <? first + len) then Some false else view b n.
Proof.
  intros Hok Hin Hlen Hfirst Hend. pose proof (ok_regions b Hok) as Hr.
  assert (Hbr : region_ok br) by (pose proof (ok_each _ Hr) as He; rewrite Forall_forall in He; by apply He).
  pose proof (ok_start _ Hbr). pose proof (ok_end _ Hbr).
  unfold ocfs2_bitmap_clear_range_generic.
  pose proof (lookup_ok b first len Hr ltac:(lia) ltac:(lia) ltac:(lia)) as Hl.
  destruct (ocfs2_bitmap_lookup b first len) as [z | q next].
  - destruct Hl as (Hz & r & Hzr & Hm1 & Hm2). destruct z as [p [| c l x r']]; [done |].
    injection Hzr as ->. unfold zroot in Hz. cbn [fst snd] in Hz.
    assert (r = br) as ->.
    { rewrite <- Hz, inorder_zipper in Hin, Hr. destruct Hr as [_ Hs]. apply sorted_middle in Hs as [Hs1 Hs2].
      rewrite Forall_forall in Hs1, Hs2. apply elem_of_app in Hin as [Hin | Hin].
      - specialize (Hs1 br Hin). unfold precedes in Hs1. lia.
      - apply elem_of_cons in Hin as [<- | Hin]; [done |]. specialize (Hs2 br Hin). unfold precedes in Hs2. lia. }
    rewrite u64_small by lia. cbv zeta.
    destruct (clear_run_ok cb (Z.to_nat (first + len - first)) (b_private b) br first Hbr ltac:(lia) ltac:(lia))
      as (priv & br' & -> & Hu). rewrite bind_Ok. rewrite Z2Nat.id in Hu by lia.
    replace (first + (first + len - first)) with (first + len) in Hu by lia.
    eexists. split; [reflexivity |]. apply (update_run_ok b p c l br br' r' priv _ _ false Hok Hz Hu).
    intros n Hn. apply covers_spec. lia.
  - exfalso. destruct Hl as (Hp & Hb & Ha & _). rewrite <- Hp, inorder_plug in Hin. cbn [inorder app] in Hin.
    rewrite Forall_forall in Hb, Ha. apply elem_of_app in Hin as [Hin | Hin].
    + specialize (Hb br Hin). cbn in Hb. lia.
    + specialize (Ha br Hin). cbn in Ha. lia.
Qed.
End Range.

(** ** Claims *)

(** C12: the generic searches return the first bit at or after [start] that a
    region holds and that is set, respectively clear, and BIT_NOT_FOUND exactly
    when there is none; they always return. *)
Theorem bitmap_find_next_correct {P : Type} (b : bitmap P) (start : Z)
  (Hok : bitmap_ok b) (Hs : 0 <= start < b_total_bits b) :
  search_post (fun n => bool_decide (view b n = Some true)) start
    (ocfs2_bitmap_find_next_set_generic b start) /\
  search_post (fun n => bool_decide (view b n = Some false)) start
    (ocfs2_bitmap_find_next_clear_generic b start).
Proof.
  pose proof (ok_bits b Hok).
  split; [apply (find_generic_ok b true) | apply (find_generic_ok b false)]; try done; try lia;
    [apply finds_set | apply finds_clear].
Qed.

Lemma bitmap_find_next_correct_witness :
  ocfs2_bitmap_find_next_set_generic demo_bitmap 5 = Ok 7 /\ view demo_bitmap 6 <> Some true.
Proof.
  destruct (bitmap_find_next_correct demo_bitmap 5 demo_bitmap_ok) as [H _]; [done |].
  split; [reflexivity |]. apply (bool_decide_eq_false_1 (view demo_bitmap 6 = Some true)).
  change (ocfs2_bitmap_find_next_set_generic demo_bitmap 5) with (Ok (A := Z) 7) in H.
  destruct H as (_ & _ & H). by apply H.
Defined.

(** C13: when the search for a clear bit in a bitmap with holes returns a bit, it
    is the first clear one, holes included; otherwise every bit from [start]
    to the end of the last region is set. *)
Theorem find_next_clear_holes_correct {P : Type} (b : bitmap P) (start : Z)
  (Hok : bitmap_ok b) (Hs : 0 <= start < b_total_bits b) :
  match ocfs2_bitmap_find_next_clear_holes b start with
  | Ok n => start <= n /\ bit_value b n = false /\ forall m, start <= m < n -> bit_value b m = true
  | Err e => e = OCFS2_ET_BIT_NOT_FOUND /\
      forall m, start <= m < regions_end (inorder (b_regions b)) start -> bit_value b m = true
  | Fault => False
  end.
Proof. pose proof (ok_bits b Hok). apply find_clear_holes_ok; [done | lia]. Qed.

Lemma find_next_clear_holes_correct_witness :
  ocfs2_bitmap_find_next_clear_holes demo_bitmap 4 = Ok 5 /\ bit_value demo_bitmap 5 = false /\
  bit_value demo_bitmap 4 = true.
Proof.
  pose proof (find_next_clear_holes_correct demo_bitmap 4 demo_bitmap_ok ltac:(done)) as H.
  change (ocfs2_bitmap_find_next_clear_holes demo_bitmap 4) with (Ok (A := Z) 5) in *.
  destruct H as (_ & H1 & H2). split; [done |]. split; [exact H1 | by apply H2].
Defined.

Definition set_or_self (b : bitmap unit) (n : Z) : bitmap unit :=
  match ocfs2_bitmap_set global_block_ops all_memory false b n with
  | Ok (b', _) => b'
  | _ => b
  end.

(** The search for a clear bit in a block bitmap gives up at the end of the
    last region: in a bitmap of 64 bits where only bit 3 is set, searching from
    bit 3 reports that there is no clear bit although bits 4 to 63 are clear
    and test as clear. *)
Theorem find_next_clear_holes_misses_tail :
  let b := set_or_self (empty_bitmap 64 tt) 3 in
  ocfs2_bitmap_find_next_clear global_block_ops b 3 = Err OCFS2_ET_BIT_NOT_FOUND /\
  ocfs2_bitmap_test global_block_ops b 4 = Ok false /\
  ocfs2_bitmap_find_next_clear global_block_ops b 4 = Ok 4.
Proof. split_and!; vm_compute; reflexivity. Qed.

(** C10: [ocfs2_bitmap_alloc_range] never aborts.  It returns a span of between
    [min] and [len] bits that were all clear, sets exactly those, and keeps the
    invariant; it reports BIT_NOT_FOUND only if no region has [min] consecutive
    clear bits. *)
Theorem alloc_range_correct (b : bitmap unit) (min len : Z)
  (Hok : bitmap_ok b) (Hmin : 1 <= min <= len) (Hlen : len < b_total_bits b) :
  (ocfs2_bitmap_alloc_range global_cluster_ops b min len = Err OCFS2_ET_BIT_NOT_FOUND /\
   Forall (fun br => forall s, ~ clear_span br s min) (inorder (b_regions b))) \/
  (exists b' first found,
     ocfs2_bitmap_alloc_range global_cluster_ops b min len = Ok (b', (first, found)) /\
     min <= found <= len /\ bitmap_ok b' /\
     (forall n, first <= n < first + found -> view b n = Some false) /\
     (forall n, view b' n = if (first <=? n) && (n <? first + found) then Some true else view b n)).
Proof.
  pose proof (ok_bits b Hok). unfold ocfs2_bitmap_alloc_range.
  destruct (Z.eqb_spec min 0), (Z.eqb_spec len 0), (Z.geb_spec len (b_total_bits b)), (Z.gtb_spec min len);
    try lia; cbn [orb call must alloc_range global_cluster_ops]; rewrite bind_Ok.
  destruct (alloc_range_ok no_callbacks b min len Hok Hmin ltac:(lia))
    as [[-> Hno] | (b' & first & found & -> & Q1 & Q2 & _ & _ & Q3 & _ & Q4)]; [by left | right].
  rewrite bind_Ok. exists b', first, found. by destruct (Z.ltb_spec found min); [lia |].
Qed.

Lemma alloc_range_correct_witness : exists b',
  ocfs2_bitmap_alloc_range global_cluster_ops demo_bitmap 1 2 = Ok (b', (5, 2)) /\ bitmap_ok b'.
Proof.
  destruct (alloc_range_correct demo_bitmap 1 2) as [[E _] | (b' & first & found & E & _ & H & _)].
  - exact demo_bitmap_ok.
  - done.
  - done.
  - exfalso. vm_compute in E. discriminate.
  - exists b'. assert (first = 5 /\ found = 2) as [-> ->] by (vm_compute in E; by injection E as _ <- <-).
    split; [exact E | exact H].
Defined.

(** C11: freeing what was allocated gives the old bitmap back: clearing the range
    [ocfs2_bitmap_alloc_range_generic] returned leaves every bit as it was
    before the allocation, with any callbacks. *)
Theorem alloc_clear_roundtrip {P : Type} (cb : callbacks P) (b b' : bitmap P) (min len first found : Z)
  (Hok : bitmap_ok b) (Hmin : 1 <= min <= len) (Hlen : len < b_total_bits b)
  (Halloc : ocfs2_bitmap_alloc_range_generic cb b min len = Ok (b', (first, found))) :
  exists b'', ocfs2_bitmap_clear_range_generic cb b' found first = Ok b'' /\ bitmap_ok b'' /\
    forall n, view b'' n = view b n.
Proof.
  pose proof (ok_bits b Hok).
  destruct (alloc_range_ok cb b min len Hok Hmin ltac:(lia))
    as [[E _] | (b1 & first1 & found1 & E & H1 & H2 & _ & _ & H3 & (br & B1 & B2 & B3) & H4)];
    rewrite Halloc in E; [discriminate |]. injection E as <- <- <-.
  destruct (clear_range_ok cb b' found first br H2 B1 ltac:(lia) B2 B3) as (b2 & E2 & Hok2 & Hview).
  exists b2. split; [done |]. split; [done |]. intros n. rewrite Hview, H4.
  destruct ((first <=? n) && (n <? first + found)) eqn:En; [| done]. symmetry. apply H3. lia.
Qed.

Lemma alloc_clear_roundtrip_witness : exists b' b'',
  ocfs2_bitmap_alloc_range_generic no_callbacks demo_bitmap 1 2 = Ok (b', (5, 2)) /\
  ocfs2_bitmap_clear_range_generic no_callbacks b' 2 5 = Ok b'' /\
  forall n, view b'' n = view demo_bitmap n.
Proof.
  destruct (ocfs2_bitmap_alloc_range_generic no_callbacks demo_bitmap 1 2) as [[b' [f k]] | |] eqn:E;
    [| vm_compute in E; discriminate..].
  assert (f = 5 /\ k = 2) as [-> ->] by (vm_compute in E; by injection E as _ <- <-).
  destruct (alloc_clear_roundtrip no_callbacks demo_bitmap b' 1 2 5 2) as (b'' & H1 & _ & H2).
  - exact demo_bitmap_ok.
  - done.
  - done.
  - exact E.
  - exists b', b''. done.
Defined.


(** [ocfs2_bitmap_clear_range] checks the range against the bitmap only, and
    the lookup accepts any region that meets it, so a range that runs past the
    end of its region writes behind the region's buffer: here bits 3 to 18 of
    a bitmap of 64 bits whose only region has bits 3 to 7. *)
Theorem clear_range_overruns_region :
  ocfs2_bitmap_clear_range global_cluster_ops demo_bitmap 16 3 = Fault /\
  exists b', ocfs2_bitmap_clear_range global_cluster_ops demo_bitmap 5 3 = Ok b'.
Proof. split; [vm_compute; reflexivity | eexists; vm_compute; reflexivity]. Qed.

Lemma alloc_region_value start total : 0 <= total <= INT_MAX - 7 ->
  ocfs2_bitmap_alloc_region all_memory start total =
  Ok (mkRegion start total ((total + 7) / 8) 0 (replicate (Z.to_nat ((total + 7) / 8)) 0) 0).
Proof.
  intros H. unfold ocfs2_bitmap_alloc_region, malloc, ocfs2_align_total, all_memory.
  destruct (Z.ltb_spec total 0); [lia |]. rewrite bind_Ok.
  by destruct (Z.ltb_spec INT_MAX (total + 7)); [lia |].
Qed.

(** The rounds of [ocfs2_cluster_bitmap_new] for 2^31 clusters of 4 kB, with
    the buffers of the two regions as [bm1] and [bm2]. *)
Definition big_region (start : Z) (bm : list Z) : region :=
  mkRegion start 2147479552 268434944 0 bm 0.

Lemma big_regions_inserted bm1 bm2 :
  (b ← ocfs2_bitmap_insert_region no_callbacks all_memory (empty_bitmap 2147483648 tt) (big_region 0 bm1);
   ocfs2_bitmap_insert_region no_callbacks all_memory b (big_region 2147479552 bm2)) =
  Ok (mkBitmap 0 2147483648 (N RB_BLACK E (big_region 0 bm1) (N RB_RED E (big_region 2147479552 bm2) E)) tt).
Proof. vm_compute. reflexivity. Qed.

Lemma big_region_alloc start :
  exists bm, ocfs2_bitmap_alloc_region all_memory start (s32 2147479552) = Ok (big_region start bm).
Proof. eexists. apply (alloc_region_value start 2147479552). done. Qed.

Lemma cluster_rounds (mem : memory) b1 b2 br1 br2 fuel :
  ocfs2_bitmap_alloc_region mem 0 (s32 2147479552) = Ok br1 ->
  ocfs2_bitmap_insert_region no_callbacks mem (empty_bitmap 2147483648 tt) br1 = Ok b1 ->
  ocfs2_bitmap_alloc_region mem 2147479552 (s32 2147479552) = Ok br2 ->
  ocfs2_bitmap_insert_region no_callbacks mem b1 br2 = Ok b2 ->
  cluster_regions (S (S fuel)) (fun _ => mem) 2147483648 2147479552 0 (empty_bitmap 2147483648 tt) = Ok b2.
Proof.
  intros E1 E2 E3 E4. cbn [cluster_regions]. change (0 <? 2147483648) with true. cbv iota.
  change (2147483648 >? 2147479552) with true. cbv iota. cbv zeta. rewrite E1, bind_Ok, E2, bind_Ok.
  change (u64 (0 + 2147479552)) with 2147479552. change (2147479552 <? 2147483648) with true. cbv iota.
  rewrite E3, bind_Ok, E4, bind_Ok. change (u64 (2147479552 + 2147479552)) with 4294959104.
  by destruct fuel.
Qed.

