(* ===== verification/Lockid.v ===== *)
(** Names of cluster locks: [libocfs2/lockid.c] and
    [include/ocfs2-kernel/ocfs2_lockid.h].

    A lock name is a buffer of [OCFS2_LOCK_ID_MAX_LEN] bytes; characters are
    their codes.  Of the C library the file models the conversions the source
    uses: [%c], [%s], zero-padded [%x] and [%.*s] of [snprintf], [%x] with a
    width and literal text of [sscanf], and [strtoull] in base 16. *)

From S2P Require Import Prelude.

Inductive ocfs2_lock_type : Type :=
| OCFS2_LOCK_TYPE_META
| OCFS2_LOCK_TYPE_DATA
| OCFS2_LOCK_TYPE_SUPER
| OCFS2_LOCK_TYPE_RENAME
| OCFS2_LOCK_TYPE_RW
| OCFS2_LOCK_TYPE_DENTRY
| OCFS2_LOCK_TYPE_OPEN
| OCFS2_LOCK_TYPE_FLOCK
| OCFS2_NUM_LOCK_TYPES.

#[global] Instance lock_type_eq_dec : EqDecision ocfs2_lock_type.
Proof. solve_decision. Defined.

Definition OCFS2_LOCK_ID_MAX_LEN : Z := 32.
Definition OCFS2_LOCK_ID_PAD : list Z := [48; 48; 48; 48; 48; 48].
Definition OCFS2_DENTRY_LOCK_INO_START : Z := 18.

Definition ocfs2_lock_type_char (type : ocfs2_lock_type) : Z :=
  match type with
  | OCFS2_LOCK_TYPE_META => 77
  | OCFS2_LOCK_TYPE_DATA => 68
  | OCFS2_LOCK_TYPE_SUPER => 83
  | OCFS2_LOCK_TYPE_RENAME => 82
  | OCFS2_LOCK_TYPE_RW => 87
  | OCFS2_LOCK_TYPE_DENTRY => 78
  | OCFS2_LOCK_TYPE_OPEN => 79
  | OCFS2_LOCK_TYPE_FLOCK => 70
  | OCFS2_NUM_LOCK_TYPES => 0
  end.

Definition ocfs2_get_lock_type (c : Z) : ocfs2_lock_type :=
  if c =? 77 then OCFS2_LOCK_TYPE_META
  else if c =? 68 then OCFS2_LOCK_TYPE_DATA
  else if c =? 83 then OCFS2_LOCK_TYPE_SUPER
  else if c =? 82 then OCFS2_LOCK_TYPE_RENAME
  else if c =? 87 then OCFS2_LOCK_TYPE_RW
  else if c =? 78 then OCFS2_LOCK_TYPE_DENTRY
  else if c =? 79 then OCFS2_LOCK_TYPE_OPEN
  else if c =? 70 then OCFS2_LOCK_TYPE_FLOCK
  else OCFS2_NUM_LOCK_TYPES.

(** ** The conversions of the C library *)

Definition hex_digit (d : Z) : Z := if d <? 10 then 48 + d else 87 + d.

(** [%0nx] of a value below 16^n *)
Fixpoint hex (n : nat) (v : Z) : list Z :=
  match n with
  | O => []
  | S n => hex n (v / 16) ++ [hex_digit (v mod 16)]
  end.

Definition digit_value (c : Z) : option Z :=
  if (48 <=? c) && (c <=? 57) then Some (c - 48)
  else if (97 <=? c) && (c <=? 102) then Some (c - 87)
  else if (65 <=? c) && (c <=? 70) then Some (c - 55)
  else None.

Definition is_space (c : Z) : bool := (c =? 32) || ((9 <=? c) && (c <=? 13)).

Fixpoint skip_space (s : list Z) : list Z :=
  match s with
  | c :: s' => if is_space c then skip_space s' else s
  | [] => []
  end.

(** The digits of a number, at most [width]: the value, whether there was a
    digit, and the rest. *)
Fixpoint scan_digits (width : nat) (s : list Z) (acc : Z) (any : bool) : Z * bool * list Z :=
  match width, s with
  | S width, c :: s' =>
      match digit_value c with
      | Some d => scan_digits width s' (16 * acc + d) true
      | None => (acc, any, s)
      end
  | _, _ => (acc, any, s)
  end.

(** An optional sign and an optional [0x], which count for the width. *)
Definition scan_sign (width : nat) (s : list Z) : bool * nat * list Z :=
  match width, s with
  | S w, c :: s' => if c =? 45 then (true, w, s') else if c =? 43 then (false, w, s') else (false, width, s)
  | _, _ => (false, width, s)
  end.

Definition scan_0x (width : nat) (s : list Z) : nat * list Z :=
  match width, s with
  | S (S w), z :: x :: s' =>
      if (z =? 48) && ((x =? 120) || (x =? 88)) then (w, s') else (width, s)
  | _, _ => (width, s)
  end.

(** One [%x] of [sscanf] with a width, [None] on a matching failure. *)
Definition scan_hex (width : nat) (s : list Z) : option (Z * list Z) :=
  let '(neg, width, s) := scan_sign width (skip_space s) in
  let '(width, s) := scan_0x width s in
  let '(v, any, s) := scan_digits width s 0 false in
  if any then Some (if neg then - v else v, s) else None.

(** Literal characters of a format. *)
Fixpoint scan_literal (lit s : list Z) : option (list Z) :=
  match lit, s with
  | [], _ => Some s
  | c :: lit, d :: s => if c =? d then scan_literal lit s else None
  | _ :: _, [] => None
  end.

(** [strtoull(s, NULL, 16)] *)
Definition strtoull16 (s : list Z) : Z :=
  let '(neg, width, s) := scan_sign (length s) (skip_space s) in
  let '(width, s) := scan_0x width s in
  let '(v, any, _) := scan_digits width s 0 false in
  if UINT64_MAX <? v then UINT64_MAX else if neg then u64 (- v) else v.

(** The characters of a string, up to its terminator. *)
Fixpoint c_string (s : list Z) : list Z :=
  match s with
  | [] => []
  | c :: s => if c =? 0 then [] else c :: c_string s
  end.

(** [snprintf(buf, size, "%s", text)]: truncated text and a terminator. *)
Definition snprintf (buf : list Z) (size : Z) (text : list Z) : res (list Z) :=
  if size <=? 0 then Ok buf
  else put_bytes buf 0 (take (Z.to_nat (size - 1)) text ++ [0]).

(** The bytes of [bswap_64(v)] in memory: [v] with its high byte first. *)
Definition be64 (v : Z) : list Z := rev (le_bytes 8 v).

(** ** The code *)

Definition ocfs2_encode_lockres (type : ocfs2_lock_type) (blkno generation parent : Z)
    (lockres : list Z) : res (list Z) :=
  if decide (type = OCFS2_NUM_LOCK_TYPES) then Err OCFS2_ET_INVALID_LOCKRES else
  let blkno := if decide (type = OCFS2_LOCK_TYPE_RENAME) then 0 else blkno in
  let generation :=
    if decide (type = OCFS2_LOCK_TYPE_SUPER \/ type = OCFS2_LOCK_TYPE_RENAME) then 0 else generation in
  if decide (type <> OCFS2_LOCK_TYPE_DENTRY) then
    snprintf lockres OCFS2_LOCK_ID_MAX_LEN
      ([ocfs2_lock_type_char type] ++ OCFS2_LOCK_ID_PAD ++ hex 16 blkno ++ hex 8 generation)
  else
    lockres ← snprintf lockres OCFS2_DENTRY_LOCK_INO_START
      ([ocfs2_lock_type_char OCFS2_LOCK_TYPE_DENTRY] ++ hex 16 parent);
    put_bytes lockres OCFS2_DENTRY_LOCK_INO_START (be64 blkno).

(** The type, block number, generation and parent of a lock name. *)
Definition ocfs2_decode_lockres (lockres : list Z) : res (ocfs2_lock_type * Z * Z * Z) :=
  c ← deref lockres;
  let t := ocfs2_get_lock_type c in
  if decide (t = OCFS2_NUM_LOCK_TYPES) then Err OCFS2_ET_INVALID_LOCKRES else
  let l := c_string (tail lockres) in
  if decide (t <> OCFS2_LOCK_TYPE_DENTRY) then
    match scan_literal OCFS2_LOCK_ID_PAD l with
    | None => Err OCFS2_ET_INVALID_LOCKRES
    | Some l =>
        match scan_hex 16 l with
        | None => Err OCFS2_ET_INVALID_LOCKRES
        | Some (b, l) =>
            match scan_hex 8 l with
            | None => Err OCFS2_ET_INVALID_LOCKRES
            | Some (g, _) => Ok (t, u64 b, u32 g, 0)
            end
        end
    end
  else
    match scan_hex 16 l with
    | None => Err OCFS2_ET_INVALID_LOCKRES
    | Some (p, _) =>
        if zlen lockres <=? OCFS2_DENTRY_LOCK_INO_START then Fault else
        let b := strtoull16 (c_string (drop (Z.to_nat OCFS2_DENTRY_LOCK_INO_START) lockres)) in
        Ok (t, b, 0, u64 p)
    end.

Definition ocfs2_printable_lockres (lockres name : list Z) (len : Z) : res (list Z) :=
  name ← put_bytes name 0 (replicate (Z.to_nat len) 0);
  c ← deref lockres;
  match ocfs2_get_lock_type c with
  | OCFS2_NUM_LOCK_TYPES => Err OCFS2_ET_INVALID_LOCKRES
  | OCFS2_LOCK_TYPE_DENTRY =>
      if zlen lockres <? OCFS2_DENTRY_LOCK_INO_START + 8 then Fault else
      let b := rev (slice (Z.to_nat OCFS2_DENTRY_LOCK_INO_START) 8 lockres) in
      snprintf name len
        (take (Z.to_nat (OCFS2_DENTRY_LOCK_INO_START - 1)) (c_string lockres) ++ hex 8 (u32 (word b)))
  | _ => snprintf name len (c_string lockres)
  end.

(** ** Digits *)

Definition is_hex (c : Z) : Prop := 48 <= c <= 57 \/ 97 <= c <= 102.

Lemma hex_digit_value d : 0 <= d < 16 -> digit_value (hex_digit d) = Some d /\ is_hex (hex_digit d).
Proof.
  intros H. unfold hex_digit, digit_value, is_hex. destruct (Z.ltb_spec d 10); split; try lia.
  - destruct (Z.leb_spec 48 (48 + d)), (Z.leb_spec (48 + d) 57); try lia. cbn. f_equal. lia.
  - destruct (Z.leb_spec 48 (87 + d)), (Z.leb_spec (87 + d) 57); try lia. cbn.
    destruct (Z.leb_spec 97 (87 + d)), (Z.leb_spec (87 + d) 102); try lia. cbn. f_equal. lia.
Qed.

Lemma hex_length n v : length (hex n v) = n.
Proof. revert v. induction n as [| n IH]; intros v; cbn; [done |]. rewrite length_app, IH. cbn. lia. Qed.

Lemma hex_digits n v : Forall is_hex (hex n v).
Proof.
  revert v. induction n as [| n IH]; intros v; cbn [hex]; [constructor |].
  apply Forall_app. split; [apply IH |]. constructor; [| constructor].
  apply hex_digit_value, Z.mod_pos_bound. lia.
Qed.

Lemma scan_digits_app l1 l2 : forall acc any d, Forall is_hex l1 ->
  scan_digits (length l1 + d) (l1 ++ l2) acc any =
  scan_digits d l2 (foldl (fun a c => 16 * a + default 0 (digit_value c)) acc l1)
    (match l1 with [] => any | _ => true end).
Proof.
  induction l1 as [| c l1 IH]; intros acc any d Hl; cbn [length Nat.add app scan_digits foldl]; [done |].
  inversion Hl as [| ? ? Hc Hl']; subst. unfold digit_value at 1.
  assert (exists v, digit_value c = Some v) as [v Hv].
  { unfold digit_value. destruct Hc; destruct (Z.leb_spec 48 c), (Z.leb_spec c 57); cbn; eauto; try lia;
      destruct (Z.leb_spec 97 c), (Z.leb_spec c 102); cbn; eauto; lia. }
  fold (digit_value c). rewrite Hv, IH by done. cbn. by destruct l1.
Qed.

Lemma foldl_hex n : forall v acc, 0 <= v < 16 ^ Z.of_nat n ->
  foldl (fun a c => 16 * a + default 0 (digit_value c)) acc (hex n v) = acc * 16 ^ Z.of_nat n + v.
Proof.
  induction n as [| n IH]; intros v acc Hv; cbn [hex].
  - cbn in *. lia.
  - rewrite Nat2Z.inj_succ, Z.pow_succ_r in * by lia. rewrite foldl_app, IH.
    + cbn [foldl]. rewrite (proj1 (hex_digit_value (v mod 16) (Z.mod_pos_bound v 16 ltac:(lia)))).
      unfold default, id. pose proof (Z.div_mod v 16 ltac:(lia)). lia.
    + split; [apply Z.div_pos; lia | apply Z.div_lt_upper_bound; lia].
Qed.

(** Reading back a zero-padded number. *)
Lemma scan_hex_hex n v rest : (0 < n)%nat -> 0 <= v < 16 ^ Z.of_nat n ->
  scan_hex n (hex n v ++ rest) = Some (v, rest).
Proof.
  intros Hn Hv. pose proof (hex_digits n v) as Hd. pose proof (hex_length n v) as Hl.
  assert (exists c s, hex n v = c :: s) as (c & s & Es) by (destruct (hex n v); cbn in *; eauto; lia).
  assert (Hc : is_hex c) by (rewrite Es in Hd; by inversion Hd).
  unfold scan_hex. assert (Esp : skip_space (hex n v ++ rest) = hex n v ++ rest).
  { rewrite Es. cbn [app skip_space]. replace (is_space c) with false; [done |].
    unfold is_space, is_hex in *. lia. }
  rewrite Esp. assert (Esg : scan_sign n (hex n v ++ rest) = (false, n, hex n v ++ rest)).
  { destruct n; [lia |]. rewrite Es. cbn [app scan_sign]. unfold is_hex in Hc.
    destruct (Z.eqb_spec c 45), (Z.eqb_spec c 43); try lia. done. }
  rewrite Esg. assert (E0x : scan_0x n (hex n v ++ rest) = (n, hex n v ++ rest)).
  { destruct n as [| [| n]]; [lia | done |]. rewrite Es in *. destruct s as [| x s]; [done |].
    cbn [app scan_0x]. inversion Hd as [| ? ? _ Hd']; subst. inversion Hd' as [| ? ? Hx _]; subst.
    unfold is_hex in Hx. destruct (Z.eqb_spec x 120), (Z.eqb_spec x 88); try lia.
    by rewrite andb_false_r. }
  rewrite E0x. pose proof (scan_digits_app (hex n v) rest 0 false 0 Hd) as Hs.
  rewrite Hl, Nat.add_0_r, foldl_hex in Hs by done. rewrite Hs. cbn [scan_digits].
  rewrite Es. cbn. destruct rest; done.
Qed.

(** ** Strings in buffers *)

Lemma c_string_app l rest : Forall (fun c => c <> 0) l -> c_string (l ++ 0 :: rest) = l.
Proof.
  induction 1 as [| c l Hc _ IH]; cbn [app c_string]; [done |].
  destruct (Z.eqb_spec c 0); [done |]. by rewrite IH.
Qed.

Lemma hex_nonzero n v : Forall (fun c => c <> 0) (hex n v).
Proof. eapply Forall_impl; [apply hex_digits |]. unfold is_hex. intros c Hc. lia. Qed.

Lemma splice_front bs buf : splice 0 bs buf = bs ++ drop (length bs) buf.
Proof. done. Qed.

(** Text that fits with its terminator. *)
Lemma snprintf_fits buf size text : 0 < size <= zlen buf -> zlen text < size ->
  snprintf buf size text = Ok (text ++ 0 :: drop (length text + 1) buf).
Proof.
  intros Hs Ht. unfold snprintf. destruct (Z.leb_spec size 0); [lia |].
  rewrite take_ge by (unfold zlen in *; lia).
  rewrite put_bytes_ok by (rewrite ?zlen_app; unfold zlen in *; cbn; lia).
  cbn [Z.to_nat]. rewrite splice_front, length_app. cbn [length]. by rewrite <- app_assoc.
Qed.

Lemma lock_type_char_inv t : t <> OCFS2_NUM_LOCK_TYPES ->
  ocfs2_get_lock_type (ocfs2_lock_type_char t) = t /\ ocfs2_lock_type_char t <> 0.
Proof. by destruct t. Qed.

Definition lock_blkno (t : ocfs2_lock_type) (blkno : Z) : Z :=
  match t with OCFS2_LOCK_TYPE_RENAME => 0 | _ => blkno end.

Definition lock_generation (t : ocfs2_lock_type) (g : Z) : Z :=
  match t with OCFS2_LOCK_TYPE_SUPER | OCFS2_LOCK_TYPE_RENAME => 0 | _ => g end.

Lemma encode_plain t blkno generation parent lockres :
  t <> OCFS2_NUM_LOCK_TYPES -> t <> OCFS2_LOCK_TYPE_DENTRY -> 32 <= zlen lockres ->
  exists rest, ocfs2_encode_lockres t blkno generation parent lockres =
    Ok (([ocfs2_lock_type_char t] ++ OCFS2_LOCK_ID_PAD ++ hex 16 (lock_blkno t blkno) ++
         hex 8 (lock_generation t generation)) ++ 0 :: rest).
Proof.
  intros H1 H2 Hlen. unfold ocfs2_encode_lockres, OCFS2_LOCK_ID_MAX_LEN.
  rewrite decide_False, (decide_True (P := t <> _)) by done.
  replace (if decide (t = OCFS2_LOCK_TYPE_RENAME) then 0 else blkno) with (lock_blkno t blkno)
    by (by destruct t).
  replace (if decide (t = OCFS2_LOCK_TYPE_SUPER \/ t = OCFS2_LOCK_TYPE_RENAME) then 0 else generation)
    with (lock_generation t generation) by (by destruct t).
  cbv zeta. eexists. apply snprintf_fits; [lia |].
  rewrite !zlen_app. unfold zlen. rewrite !hex_length. cbn. lia.
Qed.

Lemma decode_plain t b g rest : t <> OCFS2_NUM_LOCK_TYPES -> t <> OCFS2_LOCK_TYPE_DENTRY ->
  0 <= b < 2 ^ 64 -> 0 <= g < 2 ^ 32 ->
  ocfs2_decode_lockres (([ocfs2_lock_type_char t] ++ OCFS2_LOCK_ID_PAD ++ hex 16 b ++ hex 8 g) ++ 0 :: rest)
  = Ok (t, b, g, 0).
Proof.
  intros H1 H2 Hb Hg. destruct (lock_type_char_inv t H1) as [Ht Hnz].
  unfold ocfs2_decode_lockres. cbn [app deref head must tail]. rewrite bind_Ok, Ht.
  rewrite decide_False, decide_True by done.
  change (48 :: 48 :: 48 :: 48 :: 48 :: 48 :: (hex 16 b ++ hex 8 g) ++ 0 :: rest)
    with ((OCFS2_LOCK_ID_PAD ++ hex 16 b ++ hex 8 g) ++ 0 :: rest).
  rewrite c_string_app.
  - cbn [scan_literal OCFS2_LOCK_ID_PAD app Z.eqb Pos.eqb].
    rewrite (scan_hex_hex 16 b (hex 8 g)) by (cbn; lia).
    pose proof (scan_hex_hex 8 g [] ltac:(lia) ltac:(cbn; lia)) as Hs. rewrite app_nil_r in Hs. rewrite Hs.
    rewrite u64_small, u32_small by lia. done.
  - apply Forall_app. split; [repeat constructor; discriminate |].
    apply Forall_app. split; apply hex_nonzero.
Qed.

(** ** Claims *)

(** C34: for every lock but a dentry lock the name decodes to what was encoded:
    the type, the block number and the generation, where a rename lock has
    neither and a superblock lock no generation. *)
Theorem lockres_roundtrip (t : ocfs2_lock_type) (blkno generation parent : Z) (lockres : list Z)
  (Ht : t <> OCFS2_NUM_LOCK_TYPES) (Hd : t <> OCFS2_LOCK_TYPE_DENTRY)
  (Hb : 0 <= blkno < 2 ^ 64) (Hg : 0 <= generation < 2 ^ 32) (Hlen : OCFS2_LOCK_ID_MAX_LEN <= zlen lockres) :
  (name ← ocfs2_encode_lockres t blkno generation parent lockres; ocfs2_decode_lockres name)
  = Ok (t, lock_blkno t blkno, lock_generation t generation, 0).
Proof.
  destruct (encode_plain t blkno generation parent lockres Ht Hd Hlen) as [rest ->]. rewrite bind_Ok.
  apply decode_plain; [done | done | destruct t; cbn; lia | destruct t; cbn; lia].
Qed.

Lemma lockres_roundtrip_witness :
  (name ← ocfs2_encode_lockres OCFS2_LOCK_TYPE_META 74565 48879 0 (replicate 32 0);
   ocfs2_decode_lockres name) = Ok (OCFS2_LOCK_TYPE_META, 74565, 48879, 0).
Proof. apply (lockres_roundtrip OCFS2_LOCK_TYPE_META 74565 48879 0 (replicate 32 0)); done. Defined.


Lemma dentry_name blkno generation parent lockres : 26 <= zlen lockres ->
  exists rest, ocfs2_encode_lockres OCFS2_LOCK_TYPE_DENTRY blkno generation parent lockres =
    Ok ((78 :: hex 16 parent) ++ 0 :: be64 blkno ++ rest).
Proof.
  intros Hlen. unfold ocfs2_encode_lockres, OCFS2_DENTRY_LOCK_INO_START.
  rewrite decide_False, (decide_False (P := OCFS2_LOCK_TYPE_DENTRY = OCFS2_LOCK_TYPE_RENAME)) by done.
  rewrite (decide_False (P := OCFS2_LOCK_TYPE_DENTRY <> OCFS2_LOCK_TYPE_DENTRY)) by tauto.
  cbv zeta. cbn [ocfs2_lock_type_char app].
  assert (Hl17 : length (78 :: hex 16 parent) = 17%nat) by (cbn [length]; by rewrite hex_length).
  rewrite snprintf_fits; [| lia | unfold zlen; rewrite Hl17; done]. rewrite bind_Ok, Hl17.
  assert (Hbe : length (be64 blkno) = 8%nat) by (unfold be64; by rewrite length_rev, length_le_bytes).
  rewrite put_bytes_ok; [| lia |].
  - exists (drop 26 lockres). f_equal. unfold splice. rewrite Hbe.
    change (Z.to_nat 18) with 18%nat. change (18 + 8)%nat with 26%nat. change (17 + 1)%nat with 18%nat.
    replace ((78 :: hex 16 parent) ++ 0 :: drop 18 lockres)
      with (((78 :: hex 16 parent) ++ [0]) ++ drop 18 lockres) by (by rewrite <- app_assoc).
    assert (Hl18 : length ((78 :: hex 16 parent) ++ [0]) = 18%nat) by (rewrite length_app, Hl17; done).
    rewrite take_app_length' by done. rewrite drop_app_ge by lia. rewrite Hl18, drop_drop.
    by rewrite <- !app_assoc.
  - unfold zlen in *. rewrite Hbe, length_app, Hl17. cbn [length]. rewrite length_drop. lia.
Qed.

(** The printable form of an encoded dentry lock is the letter N, the parent
    as 16 hexadecimal digits and the low 32 bits of the block number as 8, as
    the kernel prints it. *)
Theorem dentry_lock_printable (blkno generation parent : Z) (lockres name : list Z)
  (Hb : 0 <= blkno < 2 ^ 64) (Hlen : 26 <= zlen lockres) (Hname : 32 <= zlen name) :
  exists out, (l ← ocfs2_encode_lockres OCFS2_LOCK_TYPE_DENTRY blkno generation parent lockres;
     ocfs2_printable_lockres l name 32) = Ok out /\
    c_string out = 78 :: hex 16 parent ++ hex 8 (u32 blkno).
Proof.
  destruct (dentry_name blkno generation parent lockres Hlen) as [rest ->]. rewrite bind_Ok.
  unfold ocfs2_printable_lockres. rewrite put_bytes_ok; [| lia | unfold zlen in *; rewrite length_replicate; lia].
  rewrite bind_Ok. cbn [app deref head must]. rewrite bind_Ok.
  change (ocfs2_get_lock_type 78) with OCFS2_LOCK_TYPE_DENTRY. cbv iota.
  change (78 :: hex 16 parent ++ 0 :: be64 blkno ++ rest)
    with ((78 :: hex 16 parent) ++ 0 :: be64 blkno ++ rest).
  set (name1 := splice _ _ _).
  assert (Hname1 : 32 <= zlen name1).
  { unfold name1, zlen in *. rewrite length_splice; rewrite ?length_replicate; lia. }
  assert (Hl17 : length (78 :: hex 16 parent) = 17%nat) by (cbn [length]; by rewrite hex_length).
  assert (Hbe : length (be64 blkno) = 8%nat) by (unfold be64; by rewrite length_rev, length_le_bytes).
  unfold OCFS2_DENTRY_LOCK_INO_START.
  destruct (Z.ltb_spec (zlen ((78 :: hex 16 parent) ++ 0 :: be64 blkno ++ rest)) (18 + 8)) as [Hshort |].
  { exfalso. unfold zlen in Hshort. rewrite length_app, Hl17 in Hshort. cbn [length] in Hshort.
    rewrite length_app, Hbe in Hshort. lia. }
  rewrite c_string_app by (constructor; [done | apply hex_nonzero]).
  change (Z.to_nat (18 - 1)) with 17%nat. rewrite take_ge by lia.
  assert (Hslice : slice (Z.to_nat 18) 8 ((78 :: hex 16 parent) ++ 0 :: be64 blkno ++ rest) = be64 blkno).
  { unfold slice. change (Z.to_nat 18) with 18%nat.
    replace ((78 :: hex 16 parent) ++ 0 :: be64 blkno ++ rest)
      with (((78 :: hex 16 parent) ++ [0]) ++ be64 blkno ++ rest) by (by rewrite <- app_assoc).
    rewrite drop_app_length' by (rewrite length_app, Hl17; done). by rewrite take_app_length'. }
  rewrite Hslice. unfold be64. rewrite rev_involutive, word_le_bytes by (cbn; lia).
  rewrite snprintf_fits; [| lia | rewrite zlen_app; unfold zlen; rewrite Hl17, hex_length; done].
  eexists. split; [reflexivity |]. apply c_string_app.
  apply (Forall_app _ (78 :: hex 16 parent)). split; [constructor; [done | apply hex_nonzero] | apply hex_nonzero].
Qed.

Lemma dentry_lock_printable_witness : exists out,
  (l ← ocfs2_encode_lockres OCFS2_LOCK_TYPE_DENTRY 74565 0 4660 (replicate 32 0);
   ocfs2_printable_lockres l (replicate 32 0) 32) = Ok out /\
  c_string out = 78 :: hex 16 4660 ++ hex 8 74565.
Proof. apply (dentry_lock_printable 74565 0 4660); done. Defined.
