(* ===== verification/DirBlock.v ===== *)
(** Directory blocks: [libocfs2/dirblock.c], the entry walk of
    [libocfs2/dir_iterate.c], [libocfs2/dir_util.h] and the callbacks of
    [lookup.c], [link.c], [unlink.c] and [expanddir.c].

    A directory block is the list of its bytes.  A [struct ocfs2_dir_entry *]
    is the offset of the entry; its fields are read and written at that offset
    with a bounds check, so an access outside the block is a [Fault].  The CPU
    is little-endian: the swap routines check the entries and change nothing. *)

From S2P Require Import Prelude Blockcheck.

(** The fields of [ocfs2_filesys] and its superblock that the code looks at. *)
Record filesys : Type := mkFs {
  fs_blocksize : Z;
  fs_blocks : Z;
  fs_rw : bool;                (* fs_flags & OCFS2_FLAG_RW *)
  c_to_b_bits : Z;             (* s_clustersize_bits - s_blocksize_bits *)
  ocfs2_meta_ecc : bool;
  ocfs2_support_inline_data : bool
}.

(** The fields of [struct ocfs2_dinode]. *)
Record dinode : Type := mkDinode {
  i_blkno : Z;
  i_inline : bool;             (* i_dyn_features & OCFS2_INLINE_DATA_FL *)
  i_size : Z
}.

(** ** Entries *)

Definition OCFS2_DIR_MEMBER_LEN : Z := 12.
Definition OCFS2_DIR_REC_LEN (name_len : Z) : Z :=
  Z.land (name_len + OCFS2_DIR_MEMBER_LEN + 3) (Z.lnot 3).

Definition de_inode (buf : list Z) (off : Z) : res Z := get_le 8 buf off.
Definition de_rec_len (buf : list Z) (off : Z) : res Z := get_le 2 buf (off + 8).
Definition de_name_len (buf : list Z) (off : Z) : res Z := get_le 1 buf (off + 10).
Definition de_name (buf : list Z) (off len : Z) : res (list Z) :=
  if (off <? 0) || (zlen buf <? off + 12 + len) then Fault
  else Ok (slice (Z.to_nat (off + 12)) (Z.to_nat len) buf).

Definition set_inode (buf : list Z) (off v : Z) : res (list Z) := put_le 8 buf off v.
Definition set_rec_len (buf : list Z) (off v : Z) : res (list Z) := put_le 2 buf (off + 8) v.
Definition set_name_len (buf : list Z) (off v : Z) : res (list Z) := put_le 1 buf (off + 10) v.
Definition set_file_type (buf : list Z) (off v : Z) : res (list Z) := put_le 1 buf (off + 11) v.
Definition set_name (buf : list Z) (off : Z) (name : list Z) : res (list Z) :=
  put_bytes buf (off + 12) name.

Definition is_dots (name : list Z) : bool :=
  match name with
  | [46] => true
  | [46; 46] => true
  | _ => false
  end.

(** ** The trailer *)

(** [sizeof(struct ocfs2_dir_block_trailer)], and [offsetof] its [db_check]. *)
Definition trailer_size : Z := 64.
Definition db_check_off : Z := 48.

(** "DIRTRL1" *)
Definition OCFS2_DIR_TRAILER_SIGNATURE : list Z := [68; 73; 82; 84; 82; 76; 49].

Definition ocfs2_dir_trailer_blk_off (fs : filesys) : Z := fs_blocksize fs - trailer_size.

Definition ocfs2_dir_has_trailer (fs : filesys) (di : dinode) : bool :=
  if ocfs2_support_inline_data fs && i_inline di then false else ocfs2_meta_ecc fs.

Definition ocfs2_supports_dir_trailer (fs : filesys) : bool := ocfs2_meta_ecc fs.

Definition ocfs2_skip_dir_trailer (fs : filesys) (di : dinode) (offset : Z) : bool :=
  if negb (ocfs2_dir_has_trailer fs di) then false else
  if negb (offset =? ocfs2_dir_trailer_blk_off fs) then false else true.

Definition ocfs2_init_dir_trailer (fs : filesys) (di : dinode) (blkno : Z) (buf : list Z) : res (list Z) :=
  let t := ocfs2_dir_trailer_blk_off fs in
  buf ← put_bytes buf t (replicate (Z.to_nat trailer_size) 0);
  buf ← put_bytes buf (t + 16) OCFS2_DIR_TRAILER_SIGNATURE;
  buf ← put_le 2 buf (t + 8) trailer_size;
  buf ← put_le 8 buf (t + 32) blkno;
  put_le 8 buf (t + 40) (i_blkno di).

(** ** Reading and writing a block *)

(** The loop of [ocfs2_swap_dir_entries_direction]; every round moves [p] by at
    least 12. *)
Fixpoint swap_entries (fuel : nat) (buf : list Z) (p end_ : Z) (retval : option errcode)
    : res (option errcode) :=
  if p <? end_ - 12 then
    match fuel with
    | O => Fault
    | S fuel =>
        name_len ← de_name_len buf p;
        rec_len ← de_rec_len buf p;
        let bad := (rec_len <? 12) || negb (rec_len mod 4 =? 0) in
        let rec_len := if bad then 12 else rec_len in
        let retval := if bad then Some OCFS2_ET_DIR_CORRUPTED else retval in
        let retval := if rec_len <? name_len + 12 then Some OCFS2_ET_DIR_CORRUPTED else retval in
        swap_entries fuel buf (p + rec_len) end_ retval
    end
  else Ok retval.

Definition ocfs2_swap_dir_entries_direction (buf : list Z) (bytes : Z) : res (option errcode) :=
  swap_entries (Z.to_nat bytes) buf 0 bytes None.

Definition ocfs2_swap_dir_entries_from_cpu := ocfs2_swap_dir_entries_direction.
Definition ocfs2_swap_dir_entries_to_cpu := ocfs2_swap_dir_entries_direction.

Definition disk : Type := gmap Z (list Z).

(** [ocfs2_read_blocks] and [io_write_block] of one block. *)
Definition read_block (d : disk) (blkno : Z) : res (list Z) :=
  match d !! blkno with
  | Some buf => Ok buf
  | None => Err OCFS2_ET_IO
  end.

Definition fail (e : option errcode) : res unit :=
  match e with
  | None => Ok tt
  | Some e => Err e
  end.

(** [align] is the alignment of the buffer, on which the CRC does not depend. *)
Definition ocfs2_read_dir_block (align : Z) (fs : filesys) (di : dinode) (d : disk) (block : Z) : res (list Z) :=
  buf ← read_block d block;
  '(buf, end_) ←
    (if ocfs2_dir_has_trailer fs di then
       let t := ocfs2_dir_trailer_blk_off fs in
       '(err, buf) ← ocfs2_validate_meta_ecc align (ocfs2_meta_ecc fs) buf (t + db_check_off);
       _ ← fail err;
       if decide (slice (Z.to_nat (t + 16)) 7 buf = OCFS2_DIR_TRAILER_SIGNATURE)
       then mret (buf, t) else Err OCFS2_ET_BAD_DIR_BLOCK_MAGIC
     else mret (buf, fs_blocksize fs));
  retval ← ocfs2_swap_dir_entries_to_cpu buf end_;
  _ ← fail retval;
  mret buf.

Definition ocfs2_write_dir_block (align : Z) (fs : filesys) (di : dinode) (d : disk) (block : Z)
    (inbuf : list Z) : res disk :=
  let end_ := if ocfs2_dir_has_trailer fs di then ocfs2_dir_trailer_blk_off fs else fs_blocksize fs in
  retval ← ocfs2_swap_dir_entries_from_cpu inbuf end_;
  _ ← fail retval;
  buf ← ocfs2_compute_meta_ecc align (ocfs2_meta_ecc fs) inbuf (ocfs2_dir_trailer_blk_off fs + db_check_off);
  mret (<[block := buf]> d).

(** ** Walking the entries *)

Definition OCFS2_DIRENT_FLAG_INCLUDE_EMPTY : Z := 1.
Definition OCFS2_DIRENT_FLAG_INCLUDE_REMOVED : Z := 2.
Definition OCFS2_DIRENT_FLAG_EXCLUDE_DOTS : Z := 4.
Definition OCFS2_DIRENT_FLAG_INCLUDE_TRAILER : Z := 8.

Definition OCFS2_DIRENT_CHANGED : Z := 1.
Definition OCFS2_DIRENT_ABORT : Z := 2.

Definition OCFS2_DIRENT_DOT_FILE : Z := 1.
Definition OCFS2_DIRENT_OTHER_FILE : Z := 3.
Definition OCFS2_DIRENT_DELETED_FILE : Z := 4.

Definition flag_set (flags f : Z) : bool := negb (Z.land flags f =? 0).

(** [ocfs2_validate_entry]; an entry that passes is at least 8 bytes long. *)
Fixpoint ocfs2_validate_entry (fuel : nat) (buf : list Z) (offset final_offset : Z) : res bool :=
  if offset <? final_offset then
    match fuel with
    | O => Fault
    | S fuel =>
        rec_len ← de_rec_len buf offset;
        name_len ← de_name_len buf offset;
        if (rec_len <? 8) || negb (rec_len mod 4 =? 0) || (rec_len <? name_len + 8) then mret false
        else ocfs2_validate_entry fuel buf (offset + rec_len) final_offset
    end
  else Ok (offset =? final_offset).

(** The loop that looks for the next removed entry. *)
Fixpoint find_removed (fuel : nat) (buf : list Z) (offset final_offset : Z) : res Z :=
  if offset <? final_offset then
    match fuel with
    | O => Fault
    | S fuel =>
        ok ← ocfs2_validate_entry (length buf) buf offset final_offset;
        if (ok : bool) then mret offset else find_removed fuel buf (offset + 4) final_offset
    end
  else Ok offset.

(** What a walk leaves behind: the buffer, the private data, how often the
    callback reported a change and an abort, and [ctx->errcode]. *)
Record walked (S : Type) : Type := mkWalked {
  w_buf : list Z;
  w_priv : S;
  w_changed : Z;
  w_abort : Z;
  w_errcode : option errcode
}.
Arguments mkWalked {S} _ _ _ _ _.
Arguments w_buf {S} _.
Arguments w_priv {S} _.
Arguments w_changed {S} _.
Arguments w_abort {S} _.
Arguments w_errcode {S} _.

(** A callback: the private data, the kind of entry, the buffer and the offset
    of the entry. *)
Definition dir_func (S : Type) : Type := S -> Z -> list Z -> Z -> res (S * list Z * Z).

(** [ocfs2_process_dir_entry].  An entry takes at least 8 bytes, so the size of
    the block bounds the number of rounds. *)
Fixpoint ocfs2_process_dir_entry {S : Type} (fuel : nat) (fs : filesys) (di : dinode) (flags : Z)
    (func : dir_func S) (w : walked S) (offset entry next_real_entry : Z) : res (walked S) :=
  if offset <? fs_blocksize fs then
    match fuel with
    | O => Fault
    | Datatypes.S fuel =>
        rec_len ← de_rec_len (w_buf w) offset;
        name_len ← de_name_len (w_buf w) offset;
        inode ← de_inode (w_buf w) offset;
        if (fs_blocksize fs <? offset + rec_len) || (rec_len <? 8) || negb (rec_len mod 4 =? 0)
           || (rec_len <? name_len + 8)
        then mret (mkWalked (w_buf w) (w_priv w) (w_changed w) (w_abort w) (Some OCFS2_ET_DIR_CORRUPTED))
        else
        skip ← (if ocfs2_skip_dir_trailer fs di offset then
                  mret (negb (flag_set flags OCFS2_DIRENT_FLAG_INCLUDE_TRAILER))
                else if (inode =? 0) && negb (flag_set flags OCFS2_DIRENT_FLAG_INCLUDE_EMPTY) then mret true
                else if flag_set flags OCFS2_DIRENT_FLAG_EXCLUDE_DOTS then
                  name ← de_name (w_buf w) offset (Z.min name_len 2);
                  mret ((name_len <=? 2) && is_dots name)
                else mret false);
        '(w, entry, stop) ←
          (if (skip : bool) then mret (w, entry, false)
           else
             '(priv, buf, ret) ← func (w_priv w)
                (if next_real_entry >? offset then OCFS2_DIRENT_DELETED_FILE else entry) (w_buf w) offset;
             let entry := if entry <? OCFS2_DIRENT_OTHER_FILE then entry + 1 else entry in
             let changed := if flag_set ret OCFS2_DIRENT_CHANGED then w_changed w + 1 else w_changed w in
             let stop := flag_set ret OCFS2_DIRENT_ABORT in
             let abort := if stop then w_abort w + 1 else w_abort w in
             mret (mkWalked buf priv changed abort (w_errcode w), entry, stop));
        if (stop : bool) then mret w else
        (* next: *)
        rec_len ← de_rec_len (w_buf w) offset;
        name_len ← de_name_len (w_buf w) offset;
        let next_real_entry :=
          if next_real_entry =? offset then next_real_entry + rec_len else next_real_entry in
        let size := Z.land (name_len + 11) (Z.lnot 3) in
        if flag_set flags OCFS2_DIRENT_FLAG_INCLUDE_REMOVED && negb (rec_len =? size) then
          let final_offset := offset + rec_len in
          offset ← find_removed (length (w_buf w)) (w_buf w) (offset + size) final_offset;
          ocfs2_process_dir_entry fuel fs di flags func w offset entry next_real_entry
        else
          ocfs2_process_dir_entry fuel fs di flags func w (offset + rec_len) entry next_real_entry
    end
  else Ok w.

(** ** The callbacks *)

(** [strncmp(a, b, n) == 0] for buffers of [n] bytes *)
Fixpoint strncmp_eq (a b : list Z) : bool :=
  match a, b with
  | x :: a, y :: b => if x =? y then (if x =? 0 then true else strncmp_eq a b) else false
  | _, _ => true
  end.

Record lookup_struct : Type := mkLookup { lk_name : list Z; lk_inode : Z; lk_found : Z }.

Definition lookup_proc : dir_func lookup_struct := fun ls _ buf offset =>
  name_len ← de_name_len buf offset;
  if negb (zlen (lk_name ls) =? name_len) then mret (ls, buf, 0) else
  name ← de_name buf offset name_len;
  if strncmp_eq (lk_name ls) name then
    inode ← de_inode buf offset;
    mret (mkLookup (lk_name ls) inode (lk_found ls + 1), buf, OCFS2_DIRENT_ABORT)
  else mret (ls, buf, 0).

Record link_struct : Type := mkLink {
  ls_name : list Z;
  ls_inode : Z;
  ls_flags : Z;
  ls_done : Z;
  ls_blockend : Z
}.

(** The first part of [link_proc]: absorb an unused successor. *)
Definition absorb_next (ls : link_struct) (buf : list Z) (offset : Z) : res (list Z * Z) :=
  rec_len ← de_rec_len buf offset;
  let next := offset + rec_len in
  if next <? ls_blockend ls - 8 then
    next_inode ← de_inode buf next;
    next_rec_len ← de_rec_len buf next;
    if (next_inode =? 0) && (next + next_rec_len <=? ls_blockend ls) then
      buf ← set_rec_len buf offset (u16 (rec_len + next_rec_len));
      mret (buf, OCFS2_DIRENT_CHANGED)
    else mret (buf, 0)
  else mret (buf, 0).

Definition link_proc : dir_func link_struct := fun ls _ buf offset =>
  let need := OCFS2_DIR_REC_LEN (zlen (ls_name ls)) in
  '(buf, ret) ← absorb_next ls buf offset;
  inode ← de_inode buf offset;
  rec_len ← de_rec_len buf offset;
  if negb (inode =? 0) then
    name_len ← de_name_len buf offset;
    let min_rec_len := OCFS2_DIR_REC_LEN name_len in
    if rec_len <? min_rec_len + need then mret (ls, buf, ret) else
    buf ← set_rec_len buf offset (u16 min_rec_len);
    let next := offset + u16 min_rec_len in
    buf ← set_inode buf next 0;
    buf ← set_name_len buf next 0;
    buf ← set_rec_len buf next (u16 (rec_len - min_rec_len));
    mret (ls, buf, OCFS2_DIRENT_CHANGED)
  else
  if rec_len <? need then mret (ls, buf, ret) else
  buf ← set_inode buf offset (ls_inode ls);
  buf ← set_name_len buf offset (u8 (zlen (ls_name ls)));
  buf ← set_name buf offset (ls_name ls);
  buf ← set_file_type buf offset (u8 (ls_flags ls));
  mret (mkLink (ls_name ls) (ls_inode ls) (ls_flags ls) (ls_done ls + 1) (ls_blockend ls), buf,
        Z.lor OCFS2_DIRENT_ABORT OCFS2_DIRENT_CHANGED).

(** [ul_name] is [None] for a null pointer, [ul_inode] 0 for any inode. *)
Record unlink_struct : Type := mkUnlink { ul_name : option (list Z); ul_inode : Z; ul_done : Z }.

Definition unlink_proc : dir_func unlink_struct := fun ls _ buf offset =>
  name_len ← de_name_len buf offset;
  same ← match ul_name ls with
         | None => mret true
         | Some n =>
             if negb (name_len =? zlen n) then mret false else
             name ← de_name buf offset name_len;
             mret (strncmp_eq n name)
         end;
  if negb (same : bool) then mret (ls, buf, 0) else
  inode ← de_inode buf offset;
  if negb (ul_inode ls =? 0) && negb (inode =? ul_inode ls) then mret (ls, buf, 0) else
  buf ← set_inode buf offset 0;
  mret (mkUnlink (ul_name ls) (ul_inode ls) (ul_done ls + 1), buf,
        Z.lor OCFS2_DIRENT_ABORT OCFS2_DIRENT_CHANGED).

Definition OCFS2_FT_DIR : Z := 2.

(** The entries [.] and [..] at [start] of a new directory of [size] bytes. *)
Definition ocfs2_fill_initial_dirents (dir parent : Z) (buf : list Z) (start size : Z) : res (list Z) :=
  buf ← set_inode buf start dir;
  buf ← set_name_len buf start 1;
  buf ← set_rec_len buf start (OCFS2_DIR_REC_LEN 1);
  buf ← set_name buf start [46];
  buf ← set_file_type buf start OCFS2_FT_DIR;
  let de := start + OCFS2_DIR_REC_LEN 1 in
  buf ← set_inode buf de parent;
  buf ← set_rec_len buf de (u16 (size - OCFS2_DIR_REC_LEN 1));
  buf ← set_name_len buf de 2;
  buf ← set_name buf de [46; 46; 0];
  set_file_type buf de OCFS2_FT_DIR.
