(* ===== verification/DirEntries.v ===== *)
(** Directory blocks as lists of entries: the abstract value of a block, the
    fields of its entries, and what the walk of [dir_iterate.c] does with the
    callbacks for lookup, unlink and link. *)

From S2P Require Import Prelude Blockcheck DirBlock.

Create HintDb dirent.

(** ** Entries *)

(** [e_slack] is what lies between the end of the name and the next entry. *)
Record dirent : Type := mkDe {
  e_inode : Z;
  e_ftype : Z;
  e_name : list Z;
  e_slack : list Z
}.

Definition e_rec_len (e : dirent) : Z := 12 + zlen (e_name e) + zlen (e_slack e).

Definition raw (e : dirent) : list Z :=
  le_bytes 8 (e_inode e) ++ le_bytes 2 (e_rec_len e) ++ le_bytes 1 (zlen (e_name e)) ++
  le_bytes 1 (e_ftype e) ++ e_name e ++ e_slack e.

Fixpoint encode (es : list dirent) : list Z :=
  match es with
  | [] => []
  | e :: es => raw e ++ encode es
  end.

Record dirent_ok (e : dirent) : Prop := mkDirentOk {
  ok_inode : 0 <= e_inode e < 2 ^ 64;
  ok_ftype : byte_ok (e_ftype e);
  ok_name : bytes_ok (e_name e);
  ok_name_len : zlen (e_name e) < 256;
  ok_slack : bytes_ok (e_slack e);
  ok_rec_len : e_rec_len e mod 4 = 0 /\ e_rec_len e <= 4096
}.

Lemma zlen_le_bytes n v : zlen (le_bytes n v) = Z.of_nat n.
Proof. unfold zlen. by rewrite length_le_bytes. Qed.

Lemma zlen_raw e : zlen (raw e) = e_rec_len e.
Proof. unfold raw, e_rec_len. rewrite !zlen_app, !zlen_le_bytes. lia. Qed.

Lemma rec_len_bounds e : 12 <= e_rec_len e.
Proof. unfold e_rec_len. pose proof (zlen_nonneg (e_name e)). pose proof (zlen_nonneg (e_slack e)). lia. Qed.

Lemma encode_app a b : encode (a ++ b) = encode a ++ encode b.
Proof. induction a as [| e a IH]; cbn; [done |]. by rewrite IH, app_assoc. Qed.

(** ** Fields of a buffer cut in three *)

Lemma slice_middle (a x b : list Z) : slice (length a) (length x) (a ++ x ++ b) = x.
Proof. unfold slice. by rewrite drop_app_length, take_app_length. Qed.

Lemma get_field n a x b : length x = n -> get_le n (a ++ x ++ b) (zlen a) = Ok (word x).
Proof.
  intros <-. pose proof (zlen_nonneg a). pose proof (zlen_nonneg b).
  rewrite get_le_ok; [| lia | rewrite !zlen_app; unfold zlen in *; lia].
  unfold zlen. by rewrite Nat2Z.id, slice_middle.
Qed.

Lemma put_field a x y b : length x = length y -> put_bytes (a ++ x ++ b) (zlen a) y = Ok (a ++ y ++ b).
Proof.
  intros E. pose proof (zlen_nonneg a). pose proof (zlen_nonneg b).
  rewrite put_bytes_ok; [| lia | rewrite !zlen_app; unfold zlen in *; lia].
  unfold zlen, splice. rewrite Nat2Z.id, take_app_length.
  rewrite <- E, drop_app_add, drop_app_length. done.
Qed.

(** The same with the buffer and the offset given up to an equation. *)
Lemma get_field_eq n buf off a x b : buf = a ++ x ++ b -> off = zlen a -> length x = n ->
  get_le n buf off = Ok (word x).
Proof. intros -> ->. apply get_field. Qed.

Lemma put_field_eq buf off a x y b : buf = a ++ x ++ b -> off = zlen a -> length x = length y ->
  put_bytes buf off y = Ok (a ++ y ++ b).
Proof. intros -> ->. apply put_field. Qed.

(** ** The fields of an entry *)
Section Fields.
Context (pre post : list Z) (e : dirent).
Context (He : dirent_ok e).

Let off := zlen pre.

Lemma raw_inode : pre ++ raw e ++ post = pre ++ le_bytes 8 (e_inode e) ++
  (le_bytes 2 (e_rec_len e) ++ le_bytes 1 (zlen (e_name e)) ++ le_bytes 1 (e_ftype e) ++
   e_name e ++ e_slack e ++ post).
Proof. unfold raw. by list_assoc. Qed.

Lemma get_inode : de_inode (pre ++ raw e ++ post) off = Ok (e_inode e).
Proof using He.
  unfold de_inode. erewrite get_field_eq; [| exact raw_inode | done | apply length_le_bytes].
  rewrite word_le_bytes; [done |]. apply (ok_inode e He).
Qed.

Lemma get_rec_len : de_rec_len (pre ++ raw e ++ post) off = Ok (e_rec_len e).
Proof using He.
  unfold de_rec_len. rewrite (get_field_eq 2 _ _ (pre ++ le_bytes 8 (e_inode e)) (le_bytes 2 (e_rec_len e))
    (le_bytes 1 (zlen (e_name e)) ++ le_bytes 1 (e_ftype e) ++ e_name e ++ e_slack e ++ post));
    [| unfold raw; by list_assoc | unfold off; rewrite zlen_app, zlen_le_bytes; lia | apply length_le_bytes].
  rewrite word_le_bytes; [done |]. pose proof (ok_rec_len e He). pose proof (rec_len_bounds e). cbn. lia.
Qed.

Lemma get_name_len : de_name_len (pre ++ raw e ++ post) off = Ok (zlen (e_name e)).
Proof using He.
  unfold de_name_len.
  rewrite (get_field_eq 1 _ _ (pre ++ le_bytes 8 (e_inode e) ++ le_bytes 2 (e_rec_len e)) (le_bytes 1 (zlen (e_name e)))
    (le_bytes 1 (e_ftype e) ++ e_name e ++ e_slack e ++ post));
    [| unfold raw; by list_assoc | unfold off; rewrite !zlen_app, !zlen_le_bytes; lia | apply length_le_bytes].
  rewrite word_le_bytes; [done |]. pose proof (ok_name_len e He). pose proof (zlen_nonneg (e_name e)). cbn. lia.
Qed.

Lemma get_name : de_name (pre ++ raw e ++ post) off (zlen (e_name e)) = Ok (e_name e).
Proof using Type.
  pose proof (zlen_nonneg (e_name e)). pose proof (zlen_nonneg (e_slack e)). pose proof (zlen_nonneg post).
  pose proof (zlen_nonneg pre).
  assert (E : pre ++ raw e ++ post = (pre ++ le_bytes 8 (e_inode e) ++ le_bytes 2 (e_rec_len e) ++
     le_bytes 1 (zlen (e_name e)) ++ le_bytes 1 (e_ftype e)) ++ e_name e ++ (e_slack e ++ post))
    by (unfold raw; by list_assoc).
  unfold de_name, off. destruct (Z.ltb_spec (zlen pre) 0); [lia |].
  destruct (Z.ltb_spec (zlen (pre ++ raw e ++ post)) (zlen pre + 12 + zlen (e_name e))).
  { exfalso. rewrite !zlen_app, zlen_raw in *. unfold e_rec_len in *. lia. }
  cbn [orb]. rewrite E. f_equal.
  replace (Z.to_nat (zlen pre + 12)) with (length (pre ++ le_bytes 8 (e_inode e) ++ le_bytes 2 (e_rec_len e) ++
     le_bytes 1 (zlen (e_name e)) ++ le_bytes 1 (e_ftype e)))
    by (rewrite !length_app, !length_le_bytes; unfold zlen; lia).
  unfold zlen. rewrite Nat2Z.id. apply slice_middle.
Qed.

Lemma put_inode v :
  set_inode (pre ++ raw e ++ post) off v =
  Ok (pre ++ raw (mkDe v (e_ftype e) (e_name e) (e_slack e)) ++ post).
Proof using Type.
  unfold set_inode, put_le.
  erewrite put_field_eq; [| exact raw_inode | done | by rewrite !length_le_bytes].
  unfold raw, e_rec_len. cbn [e_inode e_ftype e_name e_slack]. by list_assoc.
Qed.
End Fields.

(** The header of an entry, the bytes behind it as [body]. *)
Definition header (inode rec_len name_len ftype : Z) : list Z :=
  le_bytes 8 inode ++ le_bytes 2 rec_len ++ le_bytes 1 name_len ++ le_bytes 1 ftype.

Lemma raw_header e : raw e =
  header (e_inode e) (e_rec_len e) (zlen (e_name e)) (e_ftype e) ++ e_name e ++ e_slack e.
Proof. unfold raw, header. by list_assoc. Qed.

Lemma zlen_header i r n f : zlen (header i r n f) = 12.
Proof. unfold header. rewrite !zlen_app, !zlen_le_bytes. lia. Qed.

Section Header.
Context (pre post : list Z) (i r n f : Z).

Let buf := pre ++ header i r n f ++ post.

Lemma header_set_inode v : set_inode buf (zlen pre) v = Ok (pre ++ header v r n f ++ post).
Proof.
  unfold set_inode, put_le, buf.
  rewrite (put_field_eq _ _ pre (le_bytes 8 i) _ (le_bytes 2 r ++ le_bytes 1 n ++ le_bytes 1 f ++ post));
    [| unfold header; by list_assoc | done | by rewrite !length_le_bytes].
  unfold header. by list_assoc.
Qed.

Lemma header_set_rec_len v : set_rec_len buf (zlen pre) v = Ok (pre ++ header i v n f ++ post).
Proof.
  unfold set_rec_len, put_le, buf.
  rewrite (put_field_eq _ _ (pre ++ le_bytes 8 i) (le_bytes 2 r) _ (le_bytes 1 n ++ le_bytes 1 f ++ post));
    [| unfold header; by list_assoc | rewrite zlen_app, zlen_le_bytes; lia | by rewrite !length_le_bytes].
  unfold header. by list_assoc.
Qed.

Lemma header_set_name_len v : set_name_len buf (zlen pre) v = Ok (pre ++ header i r v f ++ post).
Proof.
  unfold set_name_len, put_le, buf.
  rewrite (put_field_eq _ _ (pre ++ le_bytes 8 i ++ le_bytes 2 r) (le_bytes 1 n) _ (le_bytes 1 f ++ post));
    [| unfold header; by list_assoc | rewrite !zlen_app, !zlen_le_bytes; lia | by rewrite !length_le_bytes].
  unfold header. by list_assoc.
Qed.

Lemma header_set_file_type v : set_file_type buf (zlen pre) v = Ok (pre ++ header i r n v ++ post).
Proof.
  unfold set_file_type, put_le, buf.
  rewrite (put_field_eq _ _ (pre ++ le_bytes 8 i ++ le_bytes 2 r ++ le_bytes 1 n) (le_bytes 1 f) _ post);
    [| unfold header; by list_assoc | rewrite !zlen_app, !zlen_le_bytes; lia | by rewrite !length_le_bytes].
  unfold header. by list_assoc.
Qed.
End Header.

Lemma header_set_name pre post i r n f old name : length old = length name ->
  set_name (pre ++ header i r n f ++ old ++ post) (zlen pre) name =
  Ok (pre ++ header i r n f ++ name ++ post).
Proof.
  intros E. unfold set_name.
  rewrite (put_field_eq _ _ (pre ++ header i r n f) old name post);
    [by list_assoc | by list_assoc | rewrite zlen_app, zlen_header; lia | done].
Qed.

(** ** One round of the walk *)
Section Walk.
Context {S : Type} (fs : filesys) (di : dinode) (flags : Z) (func : dir_func S).
Context (Hrem : flag_set flags OCFS2_DIRENT_FLAG_INCLUDE_REMOVED = false)
        (Hdots : flag_set flags OCFS2_DIRENT_FLAG_EXCLUDE_DOTS = false)
        (Htrl : flag_set flags OCFS2_DIRENT_FLAG_INCLUDE_TRAILER = false).

(** The checks of the walk on a well-formed entry. *)
Lemma entry_checks e offset : dirent_ok e -> offset + e_rec_len e <= fs_blocksize fs ->
  (fs_blocksize fs <? offset + e_rec_len e) || (e_rec_len e <? 8) || negb (e_rec_len e mod 4 =? 0)
  || (e_rec_len e <? zlen (e_name e) + 8) = false.
Proof using Type.
  intros He Ho. pose proof (ok_rec_len e He) as [Hmod _]. pose proof (rec_len_bounds e).
  rewrite Hmod. cbn [Z.eqb negb]. unfold e_rec_len in *. pose proof (zlen_nonneg (e_slack e)).
  destruct (Z.ltb_spec (fs_blocksize fs) (offset + (12 + zlen (e_name e) + zlen (e_slack e)))),
    (Z.ltb_spec (12 + zlen (e_name e) + zlen (e_slack e)) 8),
    (Z.ltb_spec (12 + zlen (e_name e) + zlen (e_slack e)) (zlen (e_name e) + 8)); done || lia.
Qed.

(** The rest of a round, after the callback. *)
Definition continue_walk (fuel : nat) (w : walked S) (offset entry next_real_entry : Z) : res (walked S) :=
  rec_len ← de_rec_len (w_buf w) offset;
  name_len ← de_name_len (w_buf w) offset;
  let next_real_entry :=
    if next_real_entry =? offset then next_real_entry + rec_len else next_real_entry in
  ocfs2_process_dir_entry fuel fs di flags func w (offset + rec_len) entry next_real_entry.

Lemma walk_round fuel w e post entry nre pre :
  w_buf w = pre ++ raw e ++ post -> dirent_ok e -> zlen pre + e_rec_len e <= fs_blocksize fs ->
  ocfs2_skip_dir_trailer fs di (zlen pre) = false ->
  ocfs2_process_dir_entry (Datatypes.S fuel) fs di flags func w (zlen pre) entry nre =
  if (e_inode e =? 0) && negb (flag_set flags OCFS2_DIRENT_FLAG_INCLUDE_EMPTY)
  then continue_walk fuel w (zlen pre) entry nre
  else
    '(priv, buf, ret) ← func (w_priv w)
      (if nre >? zlen pre then OCFS2_DIRENT_DELETED_FILE else entry) (w_buf w) (zlen pre);
    let entry := if entry <? OCFS2_DIRENT_OTHER_FILE then entry + 1 else entry in
    let changed := if flag_set ret OCFS2_DIRENT_CHANGED then w_changed w + 1 else w_changed w in
    let stop := flag_set ret OCFS2_DIRENT_ABORT in
    let abort := if stop then w_abort w + 1 else w_abort w in
    let w := mkWalked buf priv changed abort (w_errcode w) in
    if stop then mret w else continue_walk fuel w (zlen pre) entry nre.
Proof using Hrem Hdots.
  intros Hb He Ho Hs. pose proof (rec_len_bounds e).
  destruct w as [buf0 priv0 changed0 abort0 err0]. cbn [w_buf] in Hb. subst buf0.
  cbn [ocfs2_process_dir_entry w_buf w_priv w_changed w_abort w_errcode].
  destruct (Z.ltb_spec (zlen pre) (fs_blocksize fs)); [| lia].
  rewrite get_rec_len, bind_Ok, get_name_len, bind_Ok, get_inode, bind_Ok by done.
  rewrite entry_checks by done. rewrite Hs, Hdots, Hrem.
  destruct ((e_inode e =? 0) && negb (flag_set flags OCFS2_DIRENT_FLAG_INCLUDE_EMPTY)); cbn [mret res_ret];
    rewrite !bind_Ok.
  - done.
  - destruct (func _ _ _ _) as [[[priv buf] ret] | |]; [| done..]. rewrite !bind_Ok. cbv zeta.
    by destruct (flag_set ret OCFS2_DIRENT_ABORT).
Qed.

(** A walk goes on behind an entry. *)
Lemma continue_entry fuel w pre e post entry nre : w_buf w = pre ++ raw e ++ post -> dirent_ok e ->
  exists nre', continue_walk fuel w (zlen pre) entry nre =
    ocfs2_process_dir_entry fuel fs di flags func w (zlen (pre ++ raw e)) entry nre'.
Proof using Type.
  intros Hb He. unfold continue_walk. rewrite Hb. rewrite get_rec_len, bind_Ok, get_name_len, bind_Ok by done. eexists.
  by rewrite zlen_app, zlen_raw.
Qed.

(** What follows the entries: nothing, or the trailer, which has the layout of
    an unused entry. *)
Definition tail_ok (tl : list Z) : Prop :=
  (ocfs2_dir_has_trailer fs di = false /\ tl = []) \/
  (ocfs2_dir_has_trailer fs di = true /\ zlen tl = trailer_size /\
   exists e, dirent_ok e /\ tl = raw e).

Lemma walk_tail fuel w pre tl entry nre : tail_ok tl -> w_buf w = pre ++ tl ->
  zlen (w_buf w) = fs_blocksize fs -> (1 < fuel)%nat ->
  ocfs2_process_dir_entry fuel fs di flags func w (zlen pre) entry nre = Ok w.
Proof using Hrem Hdots Htrl.
  intros Htl Hb Hlen Hf. destruct fuel as [| [| fuel]]; [lia | lia |].
  destruct Htl as [[_ ->] | (Ht & Hz & e & He & ->)].
  - rewrite app_nil_r in Hb. cbn [ocfs2_process_dir_entry]. rewrite <- Hlen, Hb.
    by destruct (Z.ltb_spec (zlen pre) (zlen pre)); [lia |].
  - assert (Hoff : ocfs2_skip_dir_trailer fs di (zlen pre) = true).
    { unfold ocfs2_skip_dir_trailer, ocfs2_dir_trailer_blk_off. rewrite Ht, <- Hlen, Hb, zlen_app, Hz. cbn [negb].
      by destruct (Z.eqb_spec (zlen pre) (zlen pre + trailer_size - trailer_size)); [| lia]. }
    assert (Hb' : w_buf w = pre ++ raw e ++ []) by (by rewrite app_nil_r).
    assert (Hend : zlen pre + e_rec_len e = fs_blocksize fs) by (rewrite <- zlen_raw, <- zlen_app, <- Hb; done).
    pose proof (rec_len_bounds e). destruct w as [buf0 priv0 changed0 abort0 err0]. cbn [w_buf] in *.
    clear Hb Hlen. subst buf0. cbn [ocfs2_process_dir_entry w_buf w_priv w_changed w_abort w_errcode].
    destruct (Z.ltb_spec (zlen pre) (fs_blocksize fs)); [| lia].
    rewrite get_rec_len, bind_Ok, get_name_len, bind_Ok, get_inode, bind_Ok by done.
    rewrite entry_checks by (done || lia). rewrite Hoff, Htrl. cbn [mret res_ret negb]. rewrite !bind_Ok.
    cbv iota. cbn [w_buf]. rewrite get_rec_len, bind_Ok, get_name_len, bind_Ok by done.
    cbv zeta. rewrite Hrem. cbn [andb]. rewrite Hend.
    by destruct (Z.ltb_spec (fs_blocksize fs) (fs_blocksize fs)); [lia |].
Qed.
End Walk.

Lemma skip_entry_false fs di tl pre e rest : tail_ok fs di tl ->
  zlen (pre ++ raw e ++ rest ++ tl) = fs_blocksize fs ->
  zlen pre + e_rec_len e <= fs_blocksize fs /\ ocfs2_skip_dir_trailer fs di (zlen pre) = false.
Proof.
  intros Htl Hlen. rewrite !zlen_app, zlen_raw in Hlen. pose proof (rec_len_bounds e).
  pose proof (zlen_nonneg rest). pose proof (zlen_nonneg tl). split; [lia |].
  unfold ocfs2_skip_dir_trailer, ocfs2_dir_trailer_blk_off.
  destruct Htl as [[-> _] | (-> & Hz & _)]; [done |]. cbn [negb].
  destruct (Z.eqb_spec (zlen pre) (fs_blocksize fs - trailer_size)); [lia | done].
Qed.

(** ** Names *)

Definition is_used (e : dirent) : bool := negb (e_inode e =? 0).

(** C strings have no zero byte inside. *)
Definition c_name (n : list Z) : Prop := Forall (fun c => c <> 0) n.

Lemma strncmp_eq_spec a : forall b, c_name a -> length a = length b ->
  strncmp_eq a b = bool_decide (a = b).
Proof.
  induction a as [| x a IH]; intros [| y b] Hn Hl; try done.
  apply Forall_cons in Hn as [Hx Hn]. cbn [strncmp_eq]. destruct (Z.eqb_spec x y) as [-> | Hne].
  - destruct (Z.eqb_spec y 0); [done |]. cbn in Hl. rewrite IH by (done || lia).
    apply bool_decide_ext. split; [by intros -> | by intros [= ->]].
  - symmetry. apply bool_decide_eq_false_2. by intros [= ?].
Qed.

(** The comparison of the callbacks: first the lengths, then the bytes. *)
Lemma name_test n e : c_name n ->
  (zlen n =? zlen (e_name e)) && strncmp_eq n (e_name e) = bool_decide (e_name e = n).
Proof.
  intros Hn. destruct (Z.eqb_spec (zlen n) (zlen (e_name e))) as [E | E]; cbn [andb].
  - unfold zlen in E. rewrite strncmp_eq_spec by (done || lia). apply bool_decide_ext. by split.
  - symmetry. apply bool_decide_eq_false_2. intros <-. done.
Qed.

Definition named (n : list Z) (e : dirent) : bool := is_used e && bool_decide (e_name e = n).

(** ** Callbacks that look for one entry

    [hit] entries stop the walk with [ret], after [upd] changed the private data
    and [upd_e] the entry; the others are left alone. *)
Fixpoint update_first (p : dirent -> bool) (f : dirent -> dirent) (es : list dirent) : list dirent :=
  match es with
  | [] => []
  | e :: es => if p e then f e :: es else e :: update_first p f es
  end.

Section SearchWalk.
Context {S : Type} (fs : filesys) (di : dinode) (func : dir_func S).
Context (hit : S -> dirent -> bool) (upd : S -> dirent -> S) (upd_e : dirent -> dirent) (ret : Z).
Context (inv : S -> Prop).
Context (Hret : flag_set ret OCFS2_DIRENT_ABORT = true).
Context (Hfunc : forall s k pre e post, dirent_ok e -> inv s ->
  func s k (pre ++ raw e ++ post) (zlen pre) =
  Ok (if hit s e then (upd s e, pre ++ raw (upd_e e) ++ post, ret) else (s, pre ++ raw e ++ post, 0))).

Definition used_hit (s : S) (e : dirent) : bool := is_used e && hit s e.

(** The outcome, where the walk began at the entries [todo] behind [pre]. *)
Definition searched (w : walked S) (pre : list Z) (todo : list dirent) (tl : list Z) : walked S :=
  match List.find (used_hit (w_priv w)) todo with
  | Some e => mkWalked (pre ++ encode (update_first (used_hit (w_priv w)) upd_e todo) ++ tl)
                (upd (w_priv w) e)
                (if flag_set ret OCFS2_DIRENT_CHANGED then w_changed w + 1 else w_changed w)
                (w_abort w + 1) (w_errcode w)
  | None => w
  end.

Lemma search_walk todo : forall fuel w pre tl entry nre,
  tail_ok fs di tl -> w_buf w = pre ++ encode todo ++ tl -> zlen (w_buf w) = fs_blocksize fs ->
  Forall dirent_ok todo -> inv (w_priv w) -> (length todo + 1 < fuel)%nat ->
  ocfs2_process_dir_entry fuel fs di 0 func w (zlen pre) entry nre = Ok (searched w pre todo tl).
Proof using Hret Hfunc.
  induction todo as [| e todo IH]; intros fuel w pre tl entry nre Htl Hb Hlen Hok Hn Hf.
  - by apply (walk_tail fs di 0 func eq_refl eq_refl eq_refl fuel w pre tl); try done; lia.
  - apply Forall_cons in Hok as [He Hok]. cbn [encode] in Hb. rewrite <- app_assoc in Hb.
    destruct fuel as [| fuel]; [lia |]. cbn in Hf. rewrite Hb in Hlen.
    destruct (skip_entry_false fs di tl pre e (encode todo) Htl Hlen) as [Hfit Hskip].
    rewrite (walk_round fs di 0 func eq_refl eq_refl fuel w e (encode todo ++ tl)) by done.
    assert (Hcont : used_hit (w_priv w) e = false -> forall entry,
      continue_walk fs di 0 func fuel w (zlen pre) entry nre = Ok (searched w pre (e :: todo) tl)).
    { intros Hno entry'.
      destruct (continue_entry fs di 0 func fuel w pre e _ entry' nre Hb He) as [nre' ->].
      rewrite (IH fuel w (pre ++ raw e) tl); try done.
      - f_equal. unfold searched. cbn [List.find update_first]. rewrite Hno.
        destruct (List.find _ todo); [| done]. cbn [encode]. by list_assoc.
      - rewrite Hb. by list_assoc.
      - by rewrite Hb.
      - lia. }
    change (flag_set 0 OCFS2_DIRENT_FLAG_INCLUDE_EMPTY) with false. rewrite andb_true_r.
    destruct (e_inode e =? 0) eqn:Ei; [apply Hcont; unfold used_hit, is_used; by rewrite Ei |].
    pose proof (fun k => Hfunc (w_priv w) k pre e (encode todo ++ tl) He Hn) as Hcall.
    rewrite <- Hb in Hcall. rewrite Hcall, bind_Ok.
    assert (Hh : used_hit (w_priv w) e = hit (w_priv w) e) by (unfold used_hit, is_used; by rewrite Ei).
    destruct (hit (w_priv w) e); cbv zeta.
    + rewrite Hret. unfold searched. cbn [List.find update_first]. rewrite Hh. cbn [encode]. by list_assoc.
    + change (flag_set 0 OCFS2_DIRENT_CHANGED) with false. change (flag_set 0 OCFS2_DIRENT_ABORT) with false.
      cbv iota. replace (mkWalked (w_buf w) (w_priv w) (w_changed w) (w_abort w) (w_errcode w)) with w
        by (by destruct w). by apply Hcont.
Qed.
End SearchWalk.

(** *** Lookup *)

Lemma lookup_proc_entry ls k pre e post : dirent_ok e -> c_name (lk_name ls) ->
  lookup_proc ls k (pre ++ raw e ++ post) (zlen pre) =
  Ok (if bool_decide (e_name e = lk_name ls)
      then (mkLookup (lk_name ls) (e_inode e) (lk_found ls + 1), pre ++ raw (id e) ++ post, OCFS2_DIRENT_ABORT)
      else (ls, pre ++ raw e ++ post, 0)).
Proof.
  intros He Hn. unfold lookup_proc. rewrite get_name_len, bind_Ok by done.
  rewrite <- name_test by done. destruct (zlen (lk_name ls) =? zlen (e_name e)); cbn [negb andb]; [| done].
  rewrite get_name, bind_Ok by done. destruct (strncmp_eq _ _); [| done].
  by rewrite get_inode, bind_Ok.
Qed.

Lemma update_first_id p es : update_first p id es = es.
Proof. induction es as [| e es IH]; cbn; [done |]. rewrite IH. by destruct (p e). Qed.

Lemma lookup_walk fs di fuel es base tl name :
  tail_ok fs di tl -> zlen (base ++ encode es ++ tl) = fs_blocksize fs ->
  Forall dirent_ok es -> c_name name -> (length es + 1 < fuel)%nat ->
  ocfs2_process_dir_entry fuel fs di 0 lookup_proc
    (mkWalked (base ++ encode es ++ tl) (mkLookup name 0 0) 0 0 None) (zlen base) OCFS2_DIRENT_DOT_FILE 0 =
  Ok (match List.find (named name) es with
      | Some e => mkWalked (base ++ encode es ++ tl) (mkLookup name (e_inode e) 1) 0 1 None
      | None => mkWalked (base ++ encode es ++ tl) (mkLookup name 0 0) 0 0 None
      end).
Proof.
  intros Htl Hlen Hok Hn Hf.
  rewrite (search_walk fs di lookup_proc (fun s e => bool_decide (e_name e = lk_name s))
    (fun s e => mkLookup (lk_name s) (e_inode e) (lk_found s + 1)) id OCFS2_DIRENT_ABORT
    (fun s => c_name (lk_name s)) eq_refl) with (todo := es) (tl := tl); try done.
  - f_equal. unfold searched. cbn [w_priv w_changed w_abort w_errcode lk_name].
    change (used_hit (fun s e => bool_decide (e_name e = lk_name s)) (mkLookup name 0 0)) with (named name).
    by rewrite update_first_id.
  - intros s k pre e post He Hs. by apply lookup_proc_entry.
Qed.

(** *** Unlink *)

Definition unlink_hit (ls : unlink_struct) (e : dirent) : bool :=
  match ul_name ls with Some n => bool_decide (e_name e = n) | None => true end &&
  ((ul_inode ls =? 0) || (e_inode e =? ul_inode ls)).

Definition erased (e : dirent) : dirent := mkDe 0 (e_ftype e) (e_name e) (e_slack e).

Lemma unlink_proc_entry ls k pre e post : dirent_ok e ->
  match ul_name ls with Some n => c_name n | None => True end ->
  unlink_proc ls k (pre ++ raw e ++ post) (zlen pre) =
  Ok (if unlink_hit ls e
      then (mkUnlink (ul_name ls) (ul_inode ls) (ul_done ls + 1), pre ++ raw (erased e) ++ post,
            Z.lor OCFS2_DIRENT_ABORT OCFS2_DIRENT_CHANGED)
      else (ls, pre ++ raw e ++ post, 0)).
Proof.
  intros He Hn. unfold unlink_proc, unlink_hit. rewrite get_name_len, bind_Ok by done.
  assert (Hsame : match ul_name ls with
         | None => mret true
         | Some n =>
             if negb (zlen (e_name e) =? zlen n) then mret false else
             name ← de_name (pre ++ raw e ++ post) (zlen pre) (zlen (e_name e));
             mret (strncmp_eq n name)
         end = Ok (match ul_name ls with Some n => bool_decide (e_name e = n) | None => true end)).
  { destruct (ul_name ls) as [n |]; [| done]. rewrite <- name_test by done. rewrite (Z.eqb_sym (zlen n)).
    destruct (zlen (e_name e) =? zlen n); cbn [negb andb]; [| done]. by rewrite get_name, bind_Ok. }
  rewrite Hsame, bind_Ok. clear Hsame.
  set (same := match ul_name ls with Some n => bool_decide (e_name e = n) | None => true end).
  destruct same; cbn [negb andb]; [| done].
  rewrite get_inode, bind_Ok by done.
  destruct (ul_inode ls =? 0), (e_inode e =? ul_inode ls); cbn [negb andb orb]; try done;
    by rewrite put_inode, bind_Ok.
Qed.

Lemma unlink_walk fs di fuel es base tl ls :
  tail_ok fs di tl -> zlen (base ++ encode es ++ tl) = fs_blocksize fs ->
  Forall dirent_ok es -> match ul_name ls with Some n => c_name n | None => True end ->
  (length es + 1 < fuel)%nat ->
  ocfs2_process_dir_entry fuel fs di 0 unlink_proc
    (mkWalked (base ++ encode es ++ tl) ls 0 0 None) (zlen base) OCFS2_DIRENT_DOT_FILE 0 =
  Ok (match List.find (fun e => is_used e && unlink_hit ls e) es with
      | Some e => mkWalked (base ++ encode (update_first (fun e => is_used e && unlink_hit ls e) erased es) ++ tl)
                    (mkUnlink (ul_name ls) (ul_inode ls) (ul_done ls + 1)) 1 1 None
      | None => mkWalked (base ++ encode es ++ tl) ls 0 0 None
      end).
Proof.
  intros Htl Hlen Hok Hn Hf.
  rewrite (search_walk fs di unlink_proc unlink_hit
    (fun s _ => mkUnlink (ul_name s) (ul_inode s) (ul_done s + 1)) erased
    (Z.lor OCFS2_DIRENT_ABORT OCFS2_DIRENT_CHANGED)
    (fun s => match ul_name s with Some n => c_name n | None => True end) eq_refl)
    with (todo := es) (tl := tl); try done.
  intros s k pre e post He Hs. by apply unlink_proc_entry.
Qed.

(** What a directory holds: the names, inode numbers and types in use. *)
Definition listing (es : list dirent) : list (list Z * Z * Z) :=
  map (fun e => (e_name e, e_inode e, e_ftype e)) (List.filter is_used es).

(** ** Link *)

Lemma rec_len_spec n : 0 <= n -> OCFS2_DIR_REC_LEN n mod 4 = 0 /\ n + 12 <= OCFS2_DIR_REC_LEN n < n + 16.
Proof.
  intros Hn. unfold OCFS2_DIR_REC_LEN, OCFS2_DIR_MEMBER_LEN.
  assert (E : Z.land (n + 12 + 3) (Z.lnot 3) = (n + 15) - (n + 15) mod 4).
  { replace (n + 12 + 3) with (n + 15) by lia.
    rewrite <- Z.ldiff_land. change 3 with (Z.ones 2).
    rewrite Z.ldiff_ones_r, Z.shiftl_mul_pow2, Z.shiftr_div_pow2 by lia. change (2 ^ 2) with 4.
    pose proof (Z.div_mod (n + 15) 4 ltac:(lia)). lia. }
  rewrite E. pose proof (Z.mod_pos_bound (n + 15) 4 ltac:(lia)).
  pose proof (Z.div_mod (n + 15) 4 ltac:(lia)). split; [| lia].
  replace (n + 15 - (n + 15) mod 4) with (0 + (n + 15) / 4 * 4) by lia. by rewrite Z.mod_add by lia.
Qed.

Lemma le_bytes_word n l : length l = n -> bytes_ok l -> le_bytes n (word l) = l.
Proof.
  intros <-. induction 1 as [| b l Hb _ IH]; [done |]. cbn [length le_bytes word foldr]. fold (word l).
  rewrite cat_add by done. replace (b + 256 * word l) with (b + word l * 256) by lia.
  rewrite Z.mod_add, Z.div_add by lia. unfold byte_ok in Hb. rewrite Z.mod_small, Z.div_small by lia.
  by rewrite Z.add_0_l, IH.
Qed.

(** Any twelve bytes are the header of some entry. *)
Lemma header_of_bytes h : bytes_ok h -> length h = 12%nat ->
  exists i r n f, h = header i r n f /\ byte_ok f.
Proof.
  intros Hb Hl. do 12 (destruct h as [| ? h]; [discriminate |]). destruct h; [| discriminate].
  exists (word [z; z0; z1; z2; z3; z4; z5; z6]), (word [z7; z8]), (word [z9]), z10.
  unfold header. repeat (apply Forall_cons in Hb as [? Hb]).
  rewrite (le_bytes_word 8), (le_bytes_word 2), (le_bytes_word 1)
    by (done || (repeat apply Forall_cons_2; assumption || constructor)).
  cbn [le_bytes]. rewrite Z.mod_small by done. done.
Qed.

(** [e] with its unused successor. *)
Definition absorbed (e nx : dirent) : dirent :=
  mkDe (e_inode e) (e_ftype e) (e_name e) (e_slack e ++ raw nx).

Lemma bytes_ok_raw e : dirent_ok e -> bytes_ok (raw e).
Proof.
  intros He. unfold raw. repeat (apply Forall_app; split); try apply le_bytes_ok;
    [apply (ok_name e He) | apply (ok_slack e He)].
Qed.

Lemma absorbed_ok e nx : dirent_ok e -> dirent_ok nx -> e_rec_len e + e_rec_len nx <= 4096 ->
  dirent_ok (absorbed e nx) /\ e_rec_len (absorbed e nx) = e_rec_len e + e_rec_len nx.
Proof.
  intros He Hn Hlen.
  assert (Hr : e_rec_len (absorbed e nx) = e_rec_len e + e_rec_len nx).
  { unfold absorbed, e_rec_len at 1. cbn [e_name e_slack]. rewrite zlen_app, zlen_raw. unfold e_rec_len. lia. }
  split; [| done]. pose proof He as [H1 H2 H3 H4 H5 [H6 H7]]. split; try done.
  - apply Forall_app. split; [done | by apply bytes_ok_raw].
  - rewrite Hr. split; [| lia]. destruct (ok_rec_len nx Hn) as [Hm _].
    rewrite Z.add_mod, H6, Hm by lia. done.
Qed.

(** The entry and what follows it after the first part of [link_proc]. *)
Definition absorb (e : dirent) (rest : list dirent) : dirent * list dirent * Z :=
  match rest with
  | nx :: rest' => if e_inode nx =? 0 then (absorbed e nx, rest', OCFS2_DIRENT_CHANGED) else (e, rest, 0)
  | [] => (e, rest, 0)
  end.

Lemma absorb_next_entry ls pre e rest tl : dirent_ok e -> Forall dirent_ok rest ->
  ls_blockend ls = zlen (pre ++ raw e ++ encode rest) -> ls_blockend ls <= 4096 ->
  let '(e1, rest1, ret) := absorb e rest in
  absorb_next ls (pre ++ raw e ++ encode rest ++ tl) (zlen pre) =
    Ok (pre ++ raw e1 ++ encode rest1 ++ tl, ret) /\
  dirent_ok e1 /\ Forall dirent_ok rest1 /\
  zlen (raw e1 ++ encode rest1) = zlen (raw e ++ encode rest).
Proof.
  intros He Hrest Hend Hmax. unfold absorb, absorb_next. rewrite get_rec_len, bind_Ok by done.
  cbv zeta. rewrite !zlen_app, zlen_raw in Hend. pose proof (zlen_nonneg pre).
  destruct rest as [| nx rest'].
  - cbn [encode] in Hend. rewrite app_nil_l. change (zlen (@nil Z)) with 0 in Hend.
    destruct (Z.ltb_spec (zlen pre + e_rec_len e) (ls_blockend ls - 8)); [lia |]. done.
  - apply Forall_cons in Hrest as [Hnx Hrest]. cbn [encode] in Hend |- *. rewrite zlen_app, zlen_raw in Hend.
    pose proof (rec_len_bounds nx). pose proof (rec_len_bounds e). pose proof (zlen_nonneg (encode rest')).
    destruct (Z.ltb_spec (zlen pre + e_rec_len e) (ls_blockend ls - 8)); [| lia].
    assert (Eb : pre ++ raw e ++ (raw nx ++ encode rest') ++ tl = (pre ++ raw e) ++ raw nx ++ encode rest' ++ tl)
      by (by list_assoc).
    assert (Eo : zlen pre + e_rec_len e = zlen (pre ++ raw e)) by (by rewrite zlen_app, zlen_raw).
    rewrite Eo, Eb, get_inode, bind_Ok, get_rec_len, bind_Ok by done. rewrite <- Eo.
    destruct (Z.leb_spec (zlen pre + e_rec_len e + e_rec_len nx) (ls_blockend ls)); [| lia].
    rewrite andb_true_r. destruct (e_inode nx =? 0).
    + destruct (absorbed_ok e nx He Hnx ltac:(lia)) as [Hok Hr].
      rewrite u16_small by lia. rewrite <- Eb. split; [| split; [done | split; [done |]]].
      * rewrite raw_header, <- !app_assoc. rewrite header_set_rec_len, bind_Ok.
        rewrite (raw_header (absorbed e nx)), Hr. cbn [absorbed e_inode e_ftype e_name e_slack]. by list_assoc.
      * rewrite !zlen_app, !zlen_raw, Hr. lia.
    + rewrite <- Eb. split; [done |]. split; [done |]. split; [by constructor | done].
Qed.

(** A used entry cut to its minimal length, and the unused rest. *)
Lemma split_entry e need pre post : dirent_ok e -> 12 <= need ->
  OCFS2_DIR_REC_LEN (zlen (e_name e)) + need <= e_rec_len e -> zlen pre + e_rec_len e <= 4096 ->
  need mod 4 = 0 ->
  exists e2 free, dirent_ok e2 /\ dirent_ok free /\ e_inode free = 0 /\ need <= e_rec_len free /\
    e_name e2 = e_name e /\ e_inode e2 = e_inode e /\ e_ftype e2 = e_ftype e /\
    e_rec_len e2 + e_rec_len free = e_rec_len e /\
    (let min_rec_len := OCFS2_DIR_REC_LEN (zlen (e_name e)) in
     buf ← set_rec_len (pre ++ raw e ++ post) (zlen pre) (u16 min_rec_len);
     let next := zlen pre + u16 min_rec_len in
     buf ← set_inode buf next 0;
     buf ← set_name_len buf next 0;
     set_rec_len buf next (u16 (e_rec_len e - min_rec_len))) =
    Ok (pre ++ raw e2 ++ raw free ++ post).
Proof.
  intros He Hneed Hroom Hmax Hmod. pose proof (zlen_nonneg (e_name e)) as Hn0.
  destruct (rec_len_spec (zlen (e_name e)) Hn0) as [Hm Hmin]. pose proof (zlen_nonneg pre).
  set (m := OCFS2_DIR_REC_LEN (zlen (e_name e))) in *.
  pose proof He as [H1 H2 H3 H4 H5 [H6 H7]].
  set (k := Z.to_nat (m - 12 - zlen (e_name e))).
  assert (Hk : (k + 12 <= length (e_slack e))%nat) by (unfold k, e_rec_len, zlen in *; lia).
  set (s1 := take k (e_slack e)). set (h := take 12 (drop k (e_slack e))). set (body := drop 12 (drop k (e_slack e))).
  assert (Hsl : e_slack e = s1 ++ h ++ body) by (unfold s1, h, body; by rewrite !take_drop).
  assert (Hs1 : zlen s1 = m - 12 - zlen (e_name e)) by (unfold s1, zlen; rewrite length_take; unfold k, zlen in *; lia).
  assert (Hh : length h = 12%nat) by (unfold h; rewrite length_take, length_drop; lia).
  assert (Hbody : zlen body = e_rec_len e - m - 12).
  { unfold e_rec_len. rewrite Hsl, !zlen_app, Hs1. unfold zlen at 4. rewrite Hh. lia. }
  destruct (header_of_bytes h) as (i & r & n & f & Eh & Hf);
    [unfold h; by apply Forall_take, Forall_drop | done |].
  exists (mkDe (e_inode e) (e_ftype e) (e_name e) s1), (mkDe 0 f [] body).
  assert (Hr2 : e_rec_len (mkDe (e_inode e) (e_ftype e) (e_name e) s1) = m)
    by (unfold e_rec_len; cbn [e_name e_slack]; lia).
  assert (Hrf : e_rec_len (mkDe 0 f [] body) = e_rec_len e - m)
    by (unfold e_rec_len at 1; cbn [e_name e_slack]; rewrite Hbody; unfold zlen at 1; cbn [length]; lia).
  split; [| split; [| split_and!; try done; try lia]].
  - split; cbn [e_inode e_ftype e_name e_slack]; try done; [| rewrite Hr2; lia].
    unfold s1, bytes_ok. by apply Forall_take.
  - split; cbn [e_inode e_ftype e_name e_slack]; try done.
    + constructor.
    + unfold body, bytes_ok. by repeat apply Forall_drop.
    + rewrite Hrf. split; [| lia]. rewrite Zminus_mod, H6, Hm. done.
  - cbv zeta. rewrite !u16_small by lia. rewrite raw_header, Hsl, Eh, <- !app_assoc.
    rewrite header_set_rec_len, bind_Ok.
    assert (Eo : zlen pre + m = zlen (pre ++ header (e_inode e) m (zlen (e_name e)) (e_ftype e) ++ e_name e ++ s1))
      by (rewrite !zlen_app, zlen_header; lia).
    assert (Eb : forall x, pre ++ header (e_inode e) m (zlen (e_name e)) (e_ftype e) ++ e_name e ++ s1 ++ x =
      (pre ++ header (e_inode e) m (zlen (e_name e)) (e_ftype e) ++ e_name e ++ s1) ++ x)
      by (intros x; by list_assoc).
    rewrite Eo, Eb, header_set_inode, bind_Ok, header_set_name_len, bind_Ok, header_set_rec_len.
    rewrite (raw_header (mkDe (e_inode e) _ _ _)), (raw_header (mkDe 0 _ _ _)), Hr2, Hrf.
    cbn [e_inode e_ftype e_name e_slack app]. change (zlen (@nil Z)) with 0. by list_assoc.
Qed.

(** The new name in an unused entry that is long enough. *)
Lemma place_entry e pre post ino flags name : dirent_ok e -> 0 <= ino < 2 ^ 64 ->
  bytes_ok name -> zlen name < 256 -> 12 + zlen name <= e_rec_len e ->
  exists e2, dirent_ok e2 /\ e_inode e2 = ino /\ e_name e2 = name /\ e_ftype e2 = u8 flags /\
    e_rec_len e2 = e_rec_len e /\
    (buf ← set_inode (pre ++ raw e ++ post) (zlen pre) ino;
     buf ← set_name_len buf (zlen pre) (u8 (zlen name));
     buf ← set_name buf (zlen pre) name;
     set_file_type buf (zlen pre) (u8 flags)) = Ok (pre ++ raw e2 ++ post).
Proof.
  intros He Hino Hname Hlen Hroom. pose proof He as [H1 H2 H3 H4 H5 [H6 H7]]. pose proof (zlen_nonneg name).
  set (body := e_name e ++ e_slack e). set (old := take (length name) body). set (rest := drop (length name) body).
  assert (Hbody : zlen body = e_rec_len e - 12) by (unfold body, e_rec_len; rewrite zlen_app; lia).
  assert (Hold : length old = length name) by (unfold old; rewrite length_take; unfold zlen in *; lia).
  assert (Hrest : zlen rest = e_rec_len e - 12 - zlen name)
    by (unfold rest; rewrite zlen_drop, Hbody; unfold zlen in *; lia).
  exists (mkDe ino (u8 flags) name rest).
  assert (Hr : e_rec_len (mkDe ino (u8 flags) name rest) = e_rec_len e)
    by (unfold e_rec_len at 1; cbn [e_name e_slack]; lia).
  split; [| split_and!; try done].
  - split; cbn [e_inode e_ftype e_name e_slack]; try done; [apply u8_range | | by rewrite Hr].
    unfold rest, bytes_ok. apply Forall_drop, Forall_app. by split.
  - rewrite raw_header. fold body. replace body with (old ++ rest) by apply take_drop.
    rewrite <- !app_assoc. rewrite header_set_inode, bind_Ok, header_set_name_len, bind_Ok.
    rewrite header_set_name, bind_Ok, header_set_file_type by done.
    rewrite (raw_header (mkDe ino _ _ _)), Hr, u8_small by lia.
    cbn [e_inode e_ftype e_name e_slack]. by list_assoc.
Qed.

(** The entry has room for a record of [need] bytes besides its own. *)
Definition room (need : Z) (e : dirent) : Prop :=
  if is_used e then OCFS2_DIR_REC_LEN (zlen (e_name e)) + need <= e_rec_len e else need <= e_rec_len e.

Definition linked (ls : link_struct) : link_struct :=
  mkLink (ls_name ls) (ls_inode ls) (ls_flags ls) (ls_done ls + 1) (ls_blockend ls).

Record link_ok (ls : link_struct) : Prop := mkLinkOk {
  lok_inode : 0 < ls_inode ls < 2 ^ 64;
  lok_name : bytes_ok (ls_name ls);
  lok_len : zlen (ls_name ls) < 256;
  lok_end : ls_blockend ls <= 4096
}.

Definition link_need (ls : link_struct) : Z := OCFS2_DIR_REC_LEN (zlen (ls_name ls)).

(** The four outcomes of [link_proc] for the entry [e1] that absorbing left. *)
Lemma link_proc_cases ls k pre e rest tl : link_ok ls -> dirent_ok e -> Forall dirent_ok rest ->
  ls_blockend ls = zlen (pre ++ raw e ++ encode rest) ->
  let '(e1, rest1, ret) := absorb e rest in
  dirent_ok e1 /\ Forall dirent_ok rest1 /\ zlen (raw e1 ++ encode rest1) = zlen (raw e ++ encode rest) /\
  ((~ room (link_need ls) e1 /\
    link_proc ls k (pre ++ raw e ++ encode rest ++ tl) (zlen pre) =
      Ok (ls, pre ++ raw e1 ++ encode rest1 ++ tl, ret)) \/
   (is_used e1 = true /\ exists e2 free, dirent_ok e2 /\ dirent_ok free /\ e_inode free = 0 /\
      link_need ls <= e_rec_len free /\ listing [e2] = listing [e1] /\
      e_rec_len e2 + e_rec_len free = e_rec_len e1 /\
      link_proc ls k (pre ++ raw e ++ encode rest ++ tl) (zlen pre) =
        Ok (ls, pre ++ raw e2 ++ encode (free :: rest1) ++ tl, OCFS2_DIRENT_CHANGED)) \/
   (is_used e1 = false /\ exists e2, dirent_ok e2 /\
      listing [e2] = [(ls_name ls, ls_inode ls, u8 (ls_flags ls))] /\ e_rec_len e2 = e_rec_len e1 /\
      link_proc ls k (pre ++ raw e ++ encode rest ++ tl) (zlen pre) =
        Ok (linked ls, pre ++ raw e2 ++ encode rest1 ++ tl, Z.lor OCFS2_DIRENT_ABORT OCFS2_DIRENT_CHANGED))).
Proof.
  intros [L1 L2 L3 L4] He Hrest Hend. pose proof (absorb_next_entry ls pre e rest tl He Hrest Hend L4) as Ha.
  destruct (absorb e rest) as [[e1 rest1] ret]. destruct Ha as (Ha & He1 & Hrest1 & Hlen).
  split; [done |]. split; [done |]. split; [done |]. unfold link_proc. cbv zeta. rewrite Ha, bind_Ok.
  rewrite get_inode, bind_Ok, get_rec_len, bind_Ok by done. fold (link_need ls).
  destruct (rec_len_spec (zlen (ls_name ls)) (zlen_nonneg _)) as [Nm Nb]. fold (link_need ls) in Nm, Nb.
  pose proof (zlen_nonneg (ls_name ls)). pose proof (zlen_nonneg pre).
  assert (Hfit : zlen pre + e_rec_len e1 <= 4096).
  { rewrite !zlen_app in Hend, Hlen. rewrite <- (zlen_raw e1). pose proof (zlen_nonneg (encode rest1)). lia. }
  unfold room, is_used. destruct (e_inode e1 =? 0) eqn:Ei; cbn [negb].
  - destruct (Z.ltb_spec (e_rec_len e1) (link_need ls)); [left; split; [lia | done] | right; right].
    split; [done |]. destruct (place_entry e1 pre (encode rest1 ++ tl) (ls_inode ls) (ls_flags ls) (ls_name ls))
      as (e2 & Ok2 & I2 & N2 & F2 & R2 & E2); [done | lia | done | done | lia |].
    exists e2. split; [done |]. split; [| split; [done |]].
    + unfold listing. cbn [List.filter]. unfold is_used. rewrite I2.
      destruct (Z.eqb_spec (ls_inode ls) 0); [lia |]. cbn. by rewrite N2, I2, F2.
    + apply bind_Ok_inv in E2 as (b1 & -> & E2). apply bind_Ok_inv in E2 as (b2 & E3 & E2).
      rewrite bind_Ok, E3, bind_Ok. apply bind_Ok_inv in E2 as (b3 & E4 & E2).
      by rewrite E4, bind_Ok, E2.
  - rewrite get_name_len, bind_Ok by done.
    destruct (Z.ltb_spec (e_rec_len e1) (OCFS2_DIR_REC_LEN (zlen (e_name e1)) + link_need ls));
      [left; split; [lia | done] | right; left].
    split; [done |]. destruct (split_entry e1 (link_need ls) pre (encode rest1 ++ tl))
      as (e2 & free & S1 & S2 & S3 & S4 & S5 & S6 & S7 & S8 & E2); [done | lia | lia | lia | done |].
    exists e2, free. split_and!; try done.
    + unfold listing. cbn [List.filter]. unfold is_used. rewrite S6, Ei. cbn. by rewrite S5, S6, S7.
    + cbv zeta in E2. apply bind_Ok_inv in E2 as (b1 & -> & E2). apply bind_Ok_inv in E2 as (b2 & E3 & E2).
      rewrite bind_Ok, E3, bind_Ok. apply bind_Ok_inv in E2 as (b3 & E4 & E2).
      rewrite E4, bind_Ok, E2, bind_Ok. cbn [encode]. by list_assoc.
Qed.

Lemma listing_cons e es : listing (e :: es) = listing [e] ++ listing es.
Proof. unfold listing. cbn [List.filter]. by destruct (is_used e). Qed.

Lemma listing_free e : is_used e = false -> listing [e] = [].
Proof. unfold listing. cbn [List.filter]. by intros ->. Qed.

Lemma listing_absorb e rest : let '(e1, rest1, _) := absorb e rest in
  listing (e1 :: rest1) = listing (e :: rest) /\ (length rest1 <= length rest)%nat.
Proof.
  unfold absorb. destruct rest as [| nx rest]; [done |]. destruct (e_inode nx =? 0) eqn:En; [| done].
  split; [| cbn; lia].
  rewrite (listing_cons (absorbed e nx)), (listing_cons e (nx :: rest)), (listing_cons nx rest), (listing_free nx)
    by (unfold is_used; by rewrite En).
  unfold listing. cbn [List.filter]. change (is_used (absorbed e nx)) with (is_used e). by destruct (is_used e).
Qed.

Lemma rec_len_least n r : 0 <= n -> r mod 4 = 0 -> n + 12 <= r -> OCFS2_DIR_REC_LEN n <= r.
Proof.
  intros Hn Hr Hle. destruct (rec_len_spec n Hn) as [Hm Hb].
  pose proof (Z.div_mod r 4 ltac:(lia)). pose proof (Z.div_mod (OCFS2_DIR_REC_LEN n) 4 ltac:(lia)). lia.
Qed.

(** Absorbing keeps the room of both entries. *)
Lemma room_absorb need e rest : dirent_ok e -> Forall dirent_ok rest -> 0 <= need ->
  let '(e1, rest1, _) := absorb e rest in
  ~ room need e1 -> Forall (fun x => ~ room need x) rest1 -> Forall (fun x => ~ room need x) (e :: rest).
Proof.
  intros He Hrest Hneed. unfold absorb. destruct rest as [| nx rest]; [by constructor |].
  apply Forall_cons in Hrest as [Hnx _]. destruct (e_inode nx =? 0) eqn:En; [| by constructor].
  intros Hno Hrest1.
  assert (Hr : e_rec_len (absorbed e nx) = e_rec_len e + e_rec_len nx).
  { unfold absorbed, e_rec_len at 1. cbn [e_name e_slack]. rewrite zlen_app, zlen_raw. unfold e_rec_len. lia. }
  pose proof (rec_len_bounds nx). pose proof (rec_len_bounds e). pose proof (zlen_nonneg (e_slack e)).
  pose proof (rec_len_least (zlen (e_name e)) (e_rec_len e) (zlen_nonneg _) (proj1 (ok_rec_len e He))
    ltac:(unfold e_rec_len; lia)).
  unfold room, is_used in *. rewrite Hr in Hno. cbn [absorbed e_inode e_name] in Hno.
  repeat constructor; [| | done].
  - intros H3. apply Hno. destruct (negb (e_inode e =? 0)); lia.
  - rewrite En. cbn [negb]. intros H3. apply Hno. destruct (negb (e_inode e =? 0)); lia.
Qed.

(** What a walk with [link_proc] over the entries [todo] leaves. *)
Record link_post (w : walked link_struct) (pre : list Z) (todo : list dirent) (tl : list Z)
    (w' : walked link_struct) (es : list dirent) : Prop := mkLinkPost {
  lp_buf : w_buf w' = pre ++ encode es ++ tl;
  lp_ok : Forall dirent_ok es;
  lp_len : zlen (encode es) = zlen (encode todo);
  lp_err : w_errcode w' = w_errcode w;
  lp_changed : w_changed w <= w_changed w' /\ (w_changed w' = w_changed w -> es = todo);
  lp_result :
    (w_priv w' = linked (w_priv w) /\ w_abort w' = w_abort w + 1 /\
     exists u1 u2, listing todo = u1 ++ u2 /\
       listing es = u1 ++ (ls_name (w_priv w), ls_inode (w_priv w), u8 (ls_flags (w_priv w))) :: u2) \/
    (w_priv w' = w_priv w /\ w_abort w' = w_abort w /\ listing es = listing todo /\
     Forall (fun e => ~ room (link_need (w_priv w)) e) todo)
}.

(** The walk went over [e0] and goes on. *)
Lemma link_post_step w w0 pre e todo e0 todo0 tl w' es ret :
  w_priv w0 = w_priv w -> w_abort w0 = w_abort w -> w_errcode w0 = w_errcode w ->
  w_changed w0 = (if flag_set ret OCFS2_DIRENT_CHANGED then w_changed w + 1 else w_changed w) ->
  (flag_set ret OCFS2_DIRENT_CHANGED = false -> e0 = e /\ todo0 = todo) ->
  dirent_ok e0 -> zlen (raw e0 ++ encode todo0) = zlen (raw e ++ encode todo) ->
  listing (e0 :: todo0) = listing (e :: todo) ->
  (Forall (fun x => ~ room (link_need (w_priv w)) x) todo0 ->
   Forall (fun x => ~ room (link_need (w_priv w)) x) (e :: todo)) ->
  link_post w0 (pre ++ raw e0) todo0 tl w' es ->
  link_post w pre (e :: todo) tl w' (e0 :: es).
Proof.
  intros E1 E2 E3 E4 Hsame Hok Hlen Hlist Hroom [P1 P2 P3 P4 [P5 P5'] P6]. split.
  - rewrite P1. cbn [encode]. by list_assoc.
  - by constructor.
  - cbn [encode]. rewrite <- Hlen, !zlen_app, P3. done.
  - by rewrite P4.
  - rewrite E4 in P5, P5'. destruct (flag_set ret OCFS2_DIRENT_CHANGED); [split; [lia | intros; lia] |].
    split; [done |]. intros E. destruct (Hsame eq_refl) as [-> ->]. by rewrite P5'.
  - rewrite E1, E2 in P6. destruct P6 as [(Q1 & Q2 & u1 & u2 & Q3 & Q4) | (Q1 & Q2 & Q3 & Q4)].
    + left. split; [done |]. split; [done |]. exists (listing [e0] ++ u1), u2.
      rewrite <- Hlist, (listing_cons e0 todo0), (listing_cons e0 es), Q3, Q4. by list_assoc.
    + right. split; [done |]. split; [done |]. split; [| by apply Hroom].
      by rewrite <- Hlist, (listing_cons e0 es), Q3, <- (listing_cons e0 todo0).
Qed.

Section LinkWalk.
Context (fs : filesys) (di : dinode) (tl : list Z) (Htl : tail_ok fs di tl).

Abbreviation link_walk_from fuel w pre entry nre :=
  (ocfs2_process_dir_entry fuel fs di OCFS2_DIRENT_FLAG_INCLUDE_EMPTY link_proc w (zlen pre) entry nre).

(** The state of a walk that stands before [todo]. *)
Record link_at (w : walked link_struct) (pre : list Z) (todo : list dirent) : Prop := mkLinkAt {
  la_buf : w_buf w = pre ++ encode todo ++ tl;
  la_len : zlen (w_buf w) = fs_blocksize fs;
  la_ok : Forall dirent_ok todo;
  la_link : link_ok (w_priv w);
  la_end : ls_blockend (w_priv w) = zlen (pre ++ encode todo)
}.

Lemma link_round fuel w pre e todo entry nre : link_at w pre (e :: todo) ->
  exists kind, link_walk_from (S fuel) w pre entry nre =
    ('(priv, buf, ret) ← link_proc (w_priv w) kind (pre ++ raw e ++ encode todo ++ tl) (zlen pre);
     let entry := if entry <? OCFS2_DIRENT_OTHER_FILE then entry + 1 else entry in
     let changed := if flag_set ret OCFS2_DIRENT_CHANGED then w_changed w + 1 else w_changed w in
     let stop := flag_set ret OCFS2_DIRENT_ABORT in
     let abort := if stop then w_abort w + 1 else w_abort w in
     let w := mkWalked buf priv changed abort (w_errcode w) in
     if stop then mret w
     else continue_walk fs di OCFS2_DIRENT_FLAG_INCLUDE_EMPTY link_proc fuel w (zlen pre) entry nre).
Proof using Htl.
  intros [Hb Hlen Hok Hls Hend]. apply Forall_cons in Hok as [He Hok]. cbn [encode] in Hb.
  rewrite <- app_assoc in Hb. rewrite Hb in Hlen.
  destruct (skip_entry_false fs di tl pre e (encode todo) Htl Hlen) as [Hfit Hskip].
  rewrite (walk_round fs di OCFS2_DIRENT_FLAG_INCLUDE_EMPTY link_proc eq_refl eq_refl fuel w e
    (encode todo ++ tl)) by done.
  change (flag_set OCFS2_DIRENT_FLAG_INCLUDE_EMPTY OCFS2_DIRENT_FLAG_INCLUDE_EMPTY) with true.
  cbn [negb]. rewrite andb_false_r. eexists. by rewrite Hb.
Qed.

Lemma link_cases w pre e todo k : link_at w pre (e :: todo) ->
  let '(e1, rest1, ret) := absorb e todo in
  dirent_ok e1 /\ Forall dirent_ok rest1 /\ zlen (raw e1 ++ encode rest1) = zlen (raw e ++ encode todo) /\
  listing (e1 :: rest1) = listing (e :: todo) /\ (length rest1 <= length todo)%nat /\
  (~ room (link_need (w_priv w)) e1 -> Forall (fun x => ~ room (link_need (w_priv w)) x) rest1 ->
   Forall (fun x => ~ room (link_need (w_priv w)) x) (e :: todo)) /\
  (flag_set ret OCFS2_DIRENT_CHANGED = false -> e1 = e /\ rest1 = todo) /\
  flag_set ret OCFS2_DIRENT_ABORT = false /\
  ((~ room (link_need (w_priv w)) e1 /\
    link_proc (w_priv w) k (pre ++ raw e ++ encode todo ++ tl) (zlen pre) =
      Ok (w_priv w, pre ++ raw e1 ++ encode rest1 ++ tl, ret)) \/
   (is_used e1 = true /\ exists e2 free, dirent_ok e2 /\ dirent_ok free /\ e_inode free = 0 /\
      link_need (w_priv w) <= e_rec_len free /\ listing [e2] = listing [e1] /\
      e_rec_len e2 + e_rec_len free = e_rec_len e1 /\
      link_proc (w_priv w) k (pre ++ raw e ++ encode todo ++ tl) (zlen pre) =
        Ok (w_priv w, pre ++ raw e2 ++ encode (free :: rest1) ++ tl, OCFS2_DIRENT_CHANGED)) \/
   (is_used e1 = false /\ exists e2, dirent_ok e2 /\
      listing [e2] = [(ls_name (w_priv w), ls_inode (w_priv w), u8 (ls_flags (w_priv w)))] /\
      e_rec_len e2 = e_rec_len e1 /\
      link_proc (w_priv w) k (pre ++ raw e ++ encode todo ++ tl) (zlen pre) =
        Ok (linked (w_priv w), pre ++ raw e2 ++ encode rest1 ++ tl,
            Z.lor OCFS2_DIRENT_ABORT OCFS2_DIRENT_CHANGED))).
Proof using Type.
  intros [Hb Hlen Hok Hls Hend]. apply Forall_cons in Hok as [He Hok].
  pose proof (link_proc_cases (w_priv w) k pre e todo tl Hls He Hok Hend) as Hcase.
  pose proof (listing_absorb e todo) as Hla.
  destruct (rec_len_spec (zlen (ls_name (w_priv w))) (zlen_nonneg _)) as [_ Nb].
  pose proof (zlen_nonneg (ls_name (w_priv w))). fold (link_need (w_priv w)) in Nb.
  pose proof (room_absorb (link_need (w_priv w)) e todo He Hok ltac:(lia)) as Hra.
  assert (Hret : let '(e1, rest1, ret) := absorb e todo in
    (flag_set ret OCFS2_DIRENT_CHANGED = false -> e1 = e /\ rest1 = todo) /\
    flag_set ret OCFS2_DIRENT_ABORT = false).
  { unfold absorb. destruct todo as [| nx ?]; [done |]. by destruct (e_inode nx =? 0). }
  destruct (absorb e todo) as [[e1 rest1] ret].
  destruct Hcase as (C1 & C2 & C3 & C4), Hla as [A1 A2], Hret as [R1 R2]. by repeat (split; [done |]).
Qed.

(** The entry that [link_proc] is called for, or what it absorbed, takes the name. *)
Lemma link_place w pre e todo e1 rest1 e2 : link_at w pre (e :: todo) ->
  dirent_ok e2 -> Forall dirent_ok rest1 ->
  zlen (raw e1 ++ encode rest1) = zlen (raw e ++ encode todo) -> e_rec_len e2 = e_rec_len e1 ->
  listing (e1 :: rest1) = listing (e :: todo) -> is_used e1 = false ->
  listing [e2] = [(ls_name (w_priv w), ls_inode (w_priv w), u8 (ls_flags (w_priv w)))] ->
  link_post w pre (e :: todo) tl
    (mkWalked (pre ++ raw e2 ++ encode rest1 ++ tl) (linked (w_priv w)) (w_changed w + 1) (w_abort w + 1)
       (w_errcode w)) (e2 :: rest1).
Proof using Type.
  intros Hat H2 Hr1 Hlen Hrl Hlist Hu Hnew. split; cbn [w_buf w_priv w_changed w_abort w_errcode]; try done.
  - cbn [encode]. by list_assoc.
  - by constructor.
  - cbn [encode]. rewrite <- Hlen, !zlen_app, !zlen_raw. lia.
  - split; [lia | intros; lia].
  - left. split; [done |]. split; [done |]. exists [], (listing rest1).
    rewrite <- Hlist, (listing_cons e1), (listing_free e1), (listing_cons e2), Hnew by done. done.
Qed.

(** An unused entry with enough room. *)
Lemma link_free fuel w pre free todo entry nre : link_at w pre (free :: todo) ->
  e_inode free = 0 -> link_need (w_priv w) <= e_rec_len free ->
  exists w' es, link_walk_from (S fuel) w pre entry nre = Ok w' /\ link_post w pre (free :: todo) tl w' es /\
    w_priv w' = linked (w_priv w).
Proof using Htl.
  intros Hat Hi Hroom. destruct (link_round fuel w pre free todo entry nre Hat) as [k ->].
  pose proof (link_cases w pre free todo k Hat) as Hc.
  assert (Hbig : let '(e1, _, _) := absorb free todo in room (link_need (w_priv w)) e1 /\ is_used e1 = false).
  { unfold absorb, room, is_used. destruct todo as [| nx todo'].
    - by rewrite Hi.
    - destruct (e_inode nx =? 0); [| by rewrite Hi].
      cbn [absorbed e_inode]. rewrite Hi. cbn. split; [| done].
      unfold absorbed, e_rec_len in *. cbn [e_name e_slack] in *. rewrite zlen_app.
      pose proof (zlen_nonneg (raw nx)). lia. }
  destruct (absorb free todo) as [[e1 rest1] ret]. destruct Hbig as [Hr Hu].
  destruct Hc as (C1 & C2 & C3 & C4 & C5 & _ & _ & _ & [[Hno _] | [[Hu' _] | (_ & e2 & P1 & P2 & P3 & ->)]]);
    [done | congruence |].
  rewrite bind_Ok. eexists _, (e2 :: rest1). split; [reflexivity |]. split; [| done].
  by apply (link_place w pre free todo e1 rest1 e2).
Qed.

(** The state after a round that goes on behind [e2]. *)
Lemma link_at_next w pre e todo e2 rest2 changed : link_at w pre (e :: todo) ->
  dirent_ok e2 -> Forall dirent_ok rest2 -> zlen (raw e2 ++ encode rest2) = zlen (raw e ++ encode todo) ->
  link_at (mkWalked (pre ++ raw e2 ++ encode rest2 ++ tl) (w_priv w) changed (w_abort w) (w_errcode w))
    (pre ++ raw e2) rest2.
Proof using Type.
  intros [Hb Hlen Hok Hls Hend] H2 Hr2 Hz. cbn [encode] in Hb, Hend.
  split; cbn [w_buf w_priv]; try done.
  - by list_assoc.
  - rewrite <- Hlen, Hb. rewrite !zlen_app in Hz. rewrite !zlen_app. lia.
  - rewrite Hend. rewrite !zlen_app in Hz. rewrite !zlen_app. lia.
Qed.

Lemma link_walk n : forall todo fuel w pre entry nre,
  (length todo <= n)%nat -> link_at w pre todo -> (n + 3 < fuel)%nat ->
  exists w' es, link_walk_from fuel w pre entry nre = Ok w' /\ link_post w pre todo tl w' es.
Proof using Htl.
  assert (Hnil : forall fuel w pre entry nre, link_at w pre [] -> (1 < fuel)%nat ->
    exists w' es, link_walk_from fuel w pre entry nre = Ok w' /\ link_post w pre [] tl w' es).
  { intros fuel w pre entry nre [Hb Hlen _ _ _] Hf. exists w, [].
    split; [by apply (walk_tail fs di OCFS2_DIRENT_FLAG_INCLUDE_EMPTY link_proc eq_refl eq_refl eq_refl fuel w pre tl) |].
    split; [done | constructor | done | done | split; [lia | done] |]. right. by repeat split; try constructor. }
  induction n as [| n IH]; intros todo fuel w pre entry nre Hn Hat Hf;
    (destruct todo as [| e todo]; [apply Hnil; [done | lia] |]); cbn [length] in Hn; [lia |].
  destruct fuel as [| fuel]; [lia |]. destruct (link_round fuel w pre e todo entry nre Hat) as [k ->].
  pose proof (link_cases w pre e todo k Hat) as Hc. destruct (absorb e todo) as [[e1 rest1] ret].
  destruct Hc as (C1 & C2 & C3 & C4 & C5 & C6 & C7 & C8 & [[Hno ->] | [(Hu & e2 & free & S1 & S2 & S3 & S4 & S5 & S6 & ->) |
    (Hu & e2 & P1 & P2 & P3 & ->)]]); rewrite bind_Ok; cbv zeta.
  - rewrite C8. set (w0 := mkWalked _ _ _ _ _).
    destruct (continue_entry fs di OCFS2_DIRENT_FLAG_INCLUDE_EMPTY link_proc fuel w0 pre e1 (encode rest1 ++ tl)
      (if entry <? OCFS2_DIRENT_OTHER_FILE then entry + 1 else entry) nre eq_refl C1) as [nre' ->].
    destruct (IH rest1 fuel w0 (pre ++ raw e1) (if entry <? OCFS2_DIRENT_OTHER_FILE then entry + 1 else entry) nre')
      as (w' & es & -> & Hpost); [lia | by apply (link_at_next w pre e todo) | lia |].
    exists w', (e1 :: es). split; [done |].
    apply (link_post_step w w0 pre e todo e1 rest1 tl w' es ret); try done. intros Hr. by apply C6.
  - change (flag_set OCFS2_DIRENT_CHANGED OCFS2_DIRENT_CHANGED) with true.
    change (flag_set OCFS2_DIRENT_CHANGED OCFS2_DIRENT_ABORT) with false. cbv iota. set (w0 := mkWalked _ _ _ _ _).
    destruct (continue_entry fs di OCFS2_DIRENT_FLAG_INCLUDE_EMPTY link_proc fuel w0 pre e2 (encode (free :: rest1) ++ tl)
      (if entry <? OCFS2_DIRENT_OTHER_FILE then entry + 1 else entry) nre eq_refl S1) as [nre' ->].
    assert (Hz : zlen (raw e2 ++ encode (free :: rest1)) = zlen (raw e ++ encode todo)).
    { rewrite <- C3. cbn [encode]. rewrite !zlen_app, !zlen_raw. lia. }
    assert (Hat0 : link_at w0 (pre ++ raw e2) (free :: rest1))
      by (apply (link_at_next w pre e todo); [done | done | by constructor | done]).
    destruct fuel as [| fuel]; [lia |].
    destruct (link_free fuel w0 (pre ++ raw e2) free rest1
      (if entry <? OCFS2_DIRENT_OTHER_FILE then entry + 1 else entry) nre' Hat0 S3 S4) as (w' & es & -> & Hpost & Hd).
    exists w', (e2 :: es). split; [done |].
    apply (link_post_step w w0 pre e todo e2 (free :: rest1) tl w' es OCFS2_DIRENT_CHANGED); try done.
    + rewrite (listing_cons e2), S5, (listing_cons free), (listing_free free)
        by (unfold is_used; by rewrite S3). by rewrite app_nil_l, <- (listing_cons e1).
    + intros Hr. exfalso. apply Forall_cons in Hr as [Hr _]. apply Hr. unfold room, is_used.
      rewrite S3. exact S4.
  - change (flag_set (Z.lor OCFS2_DIRENT_ABORT OCFS2_DIRENT_CHANGED) OCFS2_DIRENT_CHANGED) with true.
    change (flag_set (Z.lor OCFS2_DIRENT_ABORT OCFS2_DIRENT_CHANGED) OCFS2_DIRENT_ABORT) with true. cbv iota.
    eexists _, (e2 :: rest1). split; [reflexivity |]. by apply (link_place w pre e todo e1 rest1 e2).
Qed.
End LinkWalk.
