(* ===== verification/DirStore.v ===== *)
(** Directory blocks on disk: what [ocfs2_write_dir_block] stores and what
    [ocfs2_read_dir_block] gives back, with and without a trailer. *)

From S2P Require Import Prelude Blockcheck DirBlock DirEntries.

(** The block sizes of the file system. *)
Definition geometry_ok (fs : filesys) : Prop :=
  512 <= fs_blocksize fs <= 4096 /\ fs_blocksize fs mod 4 = 0.

(** ** The check of the entries *)

Lemma swap_entries_encode es : forall fuel pre tl, Forall dirent_ok es -> (length es < fuel)%nat ->
  swap_entries fuel (pre ++ encode es ++ tl) (zlen pre) (zlen (pre ++ encode es)) None = Ok None.
Proof.
  induction es as [| e es IH]; intros fuel pre tl Hok Hf; (destruct fuel as [| fuel]; [cbn in Hf; lia |]).
  - cbn [swap_entries encode]. rewrite app_nil_r. by destruct (Z.ltb_spec (zlen pre) (zlen pre - 12)); [lia |].
  - apply Forall_cons in Hok as [He Hok]. cbn [encode length] in *. cbn [swap_entries].
    destruct (Z.ltb_spec (zlen pre) (zlen (pre ++ raw e ++ encode es) - 12)); [| done].
    rewrite <- (app_assoc (raw e)), get_name_len, bind_Ok, get_rec_len, bind_Ok by done.
    pose proof (ok_rec_len e He) as [Hm _]. pose proof (rec_len_bounds e). rewrite Hm. cbv zeta.
    destruct (Z.ltb_spec (e_rec_len e) 12); [lia |]. cbn [orb negb Z.eqb].
    destruct (Z.ltb_spec (e_rec_len e) (zlen (e_name e) + 12)).
    { unfold e_rec_len in *. pose proof (zlen_nonneg (e_slack e)). lia. }
    replace (zlen pre + e_rec_len e) with (zlen (pre ++ raw e)) by (by rewrite zlen_app, zlen_raw).
    replace (pre ++ raw e ++ encode es ++ tl) with ((pre ++ raw e) ++ encode es ++ tl) by (by list_assoc).
    replace (pre ++ raw e ++ encode es) with ((pre ++ raw e) ++ encode es) by (by list_assoc).
    apply IH; [done | lia].
Qed.

(** Every entry takes 12 bytes. *)
Lemma entries_fit es : Forall dirent_ok es -> 12 * zlen es <= zlen (encode es).
Proof.
  induction 1 as [| e es He _ IH]; [done |]. cbn [encode]. rewrite zlen_app, zlen_cons, zlen_raw.
  pose proof (rec_len_bounds e). lia.
Qed.

(** ** The trailer *)

Lemma splice_app off bs a b : splice (length a + off) bs (a ++ b) = a ++ splice off bs b.
Proof.
  unfold splice. rewrite take_app_add, <- app_assoc, <- Nat.add_assoc, drop_app_add. done.
Qed.

Lemma slice_app off n a b : slice (length a + off) n (a ++ b) = slice off n b.
Proof. unfold slice. by rewrite drop_app_add. Qed.

(** A trailer: an unused entry without a name, the signature in place. *)
Definition trailer_ok (tl : list Z) : Prop :=
  exists i f s, tl = raw (mkDe i f [] s) /\ dirent_ok (mkDe i f [] s) /\ length s = 52%nat /\
    slice 4 7 s = OCFS2_DIR_TRAILER_SIGNATURE.

Definition block_tail (fs : filesys) (di : dinode) (tl : list Z) : Prop :=
  if ocfs2_dir_has_trailer fs di then trailer_ok tl else tl = [].

Lemma trailer_len tl : trailer_ok tl -> zlen tl = trailer_size.
Proof.
  intros (i & f & s & -> & _ & Hs & _). rewrite zlen_raw. unfold e_rec_len, zlen, trailer_size. cbn [e_name e_slack length].
  lia.
Qed.

Lemma trailer_signature tl : trailer_ok tl -> slice 16 7 tl = OCFS2_DIR_TRAILER_SIGNATURE.
Proof.
  intros (i & f & s & -> & _ & Hs & <-). rewrite raw_header. cbn [e_inode e_name e_slack e_ftype].
  rewrite app_nil_l. pose proof (zlen_header i (e_rec_len (mkDe i f [] s)) (zlen (@nil Z)) f) as L.
  set (h := header _ _ _ _) in *. replace 16%nat with (length h + 4)%nat by (unfold zlen in L; lia). apply slice_app.
Qed.

Lemma trailer_store tl bs : trailer_ok tl -> length bs = 8%nat -> bytes_ok bs -> trailer_ok (splice 48 bs tl).
Proof.
  intros (i & f & s & -> & He & Hs & Hsig) Hl Hb. exists i, f, (splice 36 bs s).
  assert (L' : length (splice 36 bs s) = 52%nat) by (rewrite length_splice; lia).
  assert (R : e_rec_len (mkDe i f [] (splice 36 bs s)) = e_rec_len (mkDe i f [] s))
    by (unfold e_rec_len, zlen; cbn [e_name e_slack]; lia).
  split_and!; [| | done |].
  - rewrite !raw_header, R. cbn [e_inode e_name e_slack e_ftype]. rewrite !app_nil_l.
    pose proof (zlen_header i (e_rec_len (mkDe i f [] s)) (zlen (@nil Z)) f) as L.
    set (h := header _ _ _ _) in *. replace 48%nat with (length h + 36)%nat by (unfold zlen in L; lia).
    apply splice_app.
  - destruct He as [H1 H2 H3 H4 H5 H6]. cbn [e_inode e_ftype e_name e_slack] in *. rewrite <- R in H6.
    split; cbn [e_inode e_ftype e_name e_slack]; try assumption. by apply splice_ok.
  - rewrite slice_splice_ne by lia. done.
Qed.

Lemma block_tail_ok fs di tl : block_tail fs di tl -> tail_ok fs di tl.
Proof.
  unfold block_tail, tail_ok. destruct (ocfs2_dir_has_trailer fs di) eqn:E; intros H; [right | by left].
  split; [done |]. split; [by apply trailer_len |]. destruct H as (i & f & s & -> & He & _). eauto.
Qed.

(** ** Blocks on disk *)

Section Store.
Context (align : Z) (fs : filesys) (di : dinode).
Context (Hgeo : geometry_ok fs).

Definition check_off : Z := ocfs2_dir_trailer_blk_off fs + db_check_off.

(** The entries and the tail fill a block. *)
Record block_of (es : list dirent) (tl : list Z) : Prop := mkBlockOf {
  bo_entries : Forall dirent_ok es;
  bo_tail : block_tail fs di tl;
  bo_len : zlen (encode es ++ tl) = fs_blocksize fs
}.

(** Its check was computed, where the block has one. *)
Definition sealed (buf : list Z) : Prop :=
  ocfs2_dir_has_trailer fs di = true ->
  exists data, block_ok data check_off /\ ocfs2_block_check_compute align data check_off = Ok buf.

(** Block [blk] of the disk holds the entries [es]. *)
Definition holds (d : disk) (blk : Z) (es : list dirent) : Prop :=
  exists tl, block_of es tl /\ sealed (encode es ++ tl) /\ d !! blk = Some (encode es ++ tl).

Lemma bytes_ok_encode es : Forall dirent_ok es -> bytes_ok (encode es).
Proof.
  induction 1 as [| e es He _ IH]; [constructor |]. cbn [encode]. apply Forall_app. split; [| exact IH].
  by apply bytes_ok_raw.
Qed.

Lemma has_trailer_ecc : ocfs2_dir_has_trailer fs di = true -> ocfs2_meta_ecc fs = true.
Proof. unfold ocfs2_dir_has_trailer. by destruct (_ && _). Qed.

(** Where the entries end. *)
Definition entries_end : Z :=
  if ocfs2_dir_has_trailer fs di then ocfs2_dir_trailer_blk_off fs else fs_blocksize fs.

Lemma block_of_end es tl : block_of es tl -> zlen (encode es) = entries_end.
Proof using Type.
  intros [H1 H2 H3]. rewrite zlen_app in H3. unfold entries_end, block_tail, ocfs2_dir_trailer_blk_off in *.
  destruct (ocfs2_dir_has_trailer fs di); [rewrite (trailer_len tl) in H3 by done; lia |].
  subst tl. unfold zlen in *. cbn [length] in H3. lia.
Qed.

Lemma block_of_count es tl : block_of es tl -> (12 * length es <= Z.to_nat (fs_blocksize fs))%nat.
Proof using Type.
  intros [H1 H2 H3]. pose proof (entries_fit es H1). rewrite zlen_app in H3. pose proof (zlen_nonneg tl).
  unfold zlen in *. lia.
Qed.

(** The check of the entries passes. *)
Lemma swap_block es tl : block_of es tl ->
  ocfs2_swap_dir_entries_direction (encode es ++ tl) entries_end = Ok None.
Proof using Hgeo.
  intros H. rewrite <- (block_of_end es tl H). unfold ocfs2_swap_dir_entries_direction.
  pose proof (swap_entries_encode es (Z.to_nat (zlen (encode es))) [] tl (bo_entries _ _ H)) as E.
  rewrite !app_nil_l in E. apply E. destruct es as [| e es].
  - exfalso. pose proof (bo_len _ _ H) as L. pose proof (bo_tail _ _ H) as T. cbn [encode app] in L.
    unfold block_tail in T. destruct Hgeo as [[? ?] _].
    destruct (ocfs2_dir_has_trailer fs di); [rewrite (trailer_len tl T) in L; unfold trailer_size in L; lia |].
    subst tl. unfold zlen in L. cbn [length] in L. lia.
  - pose proof (entries_fit (e :: es) (bo_entries _ _ H)). unfold zlen in *. cbn [length] in *. lia.
Qed.

Lemma trailer_block es tl : block_of es tl -> ocfs2_dir_has_trailer fs di = true ->
  trailer_ok tl /\ zlen (encode es) = ocfs2_dir_trailer_blk_off fs /\ block_ok (encode es ++ tl) check_off.
Proof using Hgeo.
  intros H Ht. pose proof (block_of_end es tl H) as He. destruct H as [H1 H2 H3].
  unfold block_tail, entries_end in *. rewrite Ht in H2, He. split; [done |]. split; [done |].
  unfold block_ok. rewrite H3. destruct Hgeo as [[? ?] _].
  unfold check_off, ocfs2_dir_trailer_blk_off, trailer_size, db_check_off.
  split; [| split; [lia | lia]]. apply Forall_app. split; [by apply bytes_ok_encode |].
  destruct H2 as (i & f & s & -> & Hd & _). by apply bytes_ok_raw.
Qed.

Lemma holds_read d blk es : holds d blk es ->
  exists tl, block_of es tl /\ sealed (encode es ++ tl) /\ d !! blk = Some (encode es ++ tl) /\
    ocfs2_read_dir_block align fs di d blk = Ok (encode es ++ tl).
Proof using Hgeo.
  intros (tl & Hbo & Hse & Hd). exists tl. split; [done |]. split; [done |]. split; [done |].
  unfold ocfs2_read_dir_block, read_block. rewrite Hd, bind_Ok. pose proof (swap_block es tl Hbo) as Hsw.
  unfold entries_end in Hsw. unfold ocfs2_swap_dir_entries_to_cpu.
  destruct (ocfs2_dir_has_trailer fs di) eqn:Ht.
  - destruct (trailer_block es tl Hbo Ht) as (T1 & T2 & T3).
    destruct (Hse Ht) as (data & D1 & D2). rewrite compute_spec in D2 by done. injection D2 as D2.
    unfold ocfs2_validate_meta_ecc. rewrite has_trailer_ecc by done.
    pose proof (validate_match align data check_off _ D1
      (block_ecc_range (zeroed data check_off) ltac:(apply zeroed_ok in D1 as (_ & _ & _ & ?); lia))) as V.
    cbv zeta in V. rewrite D2 in V. fold check_off. rewrite V, !bind_Ok. cbn [fail]. rewrite bind_Ok.
    rewrite decide_True.
    2: { rewrite <- (trailer_signature tl T1). rewrite <- T2. unfold zlen.
         replace (Z.to_nat (Z.of_nat (length (encode es)) + 16)) with (length (encode es) + 16)%nat by lia.
         apply slice_app. }
    cbn [mret res_ret]. rewrite bind_Ok, Hsw. done.
  - cbn [mret res_ret]. rewrite bind_Ok, Hsw. done.
Qed.

(** A directory whose inode has no inline data has a trailer exactly when the
    file system has metadata checks. *)
Lemma holds_write d blk es tl : ocfs2_dir_has_trailer fs di = ocfs2_meta_ecc fs -> block_of es tl ->
  exists tl', block_of es tl' /\ sealed (encode es ++ tl') /\
    (ocfs2_dir_has_trailer fs di = false -> tl' = tl) /\
    ocfs2_write_dir_block align fs di d blk (encode es ++ tl) = Ok (<[blk := encode es ++ tl']> d).
Proof using Hgeo.
  intros Hecc Hbo. pose proof (swap_block es tl Hbo) as Hsw. unfold ocfs2_write_dir_block.
  fold entries_end. unfold ocfs2_swap_dir_entries_from_cpu. cbv zeta. rewrite Hsw, bind_Ok. cbn [fail]. rewrite bind_Ok.
  unfold ocfs2_compute_meta_ecc. rewrite <- Hecc. fold check_off.
  destruct (ocfs2_dir_has_trailer fs di) eqn:Ht.
  2: { exists tl. split; [done |]. split; [intros E; congruence |]. done. }
  destruct (trailer_block es tl Hbo Ht) as (T1 & T2 & T3). rewrite compute_spec by done. rewrite bind_Ok.
  unfold with_check. set (bs := _ ++ _).
  assert (Lb : length bs = 8%nat) by (unfold bs; by rewrite !length_app, !length_le_bytes).
  assert (Eb : splice (Z.to_nat check_off) bs (encode es ++ tl) = encode es ++ splice 48 bs tl).
  { rewrite <- splice_app. f_equal. unfold check_off. rewrite <- T2. unfold zlen, db_check_off. lia. }
  assert (Hbs : bytes_ok bs).
  { unfold bs. apply Forall_app. split; [apply le_bytes_ok |]. apply Forall_app. split; [apply le_bytes_ok |].
    apply (zeros_ok 2). }
  pose proof (trailer_store tl bs T1 Lb Hbs) as T1'. exists (splice 48 bs tl). rewrite Eb. refine (conj _ (conj _ (conj _ eq_refl))); [| | done].
  - destruct Hbo as [B1 B2 B3]. split; [done | unfold block_tail; by rewrite Ht |].
    rewrite zlen_app in B3. rewrite zlen_app, (trailer_len _ T1'). rewrite (trailer_len tl T1) in B3. done.
  - intros _. exists (encode es ++ tl). split; [done |]. rewrite compute_spec by done.
    unfold with_check. fold bs. by rewrite Eb.
Qed.
End Store.
