(* ===== verification/Dir.v ===== *)
(** Directories: the rest of [libocfs2/dir_iterate.c], [lookup.c], [link.c],
    [unlink.c] and [expanddir.c], with [ocfs2_check_directory] of [inode.c] and
    the block iterator of [extents.c].

    A volume has blocks and inodes.  An inode is kept with the fields these
    files use: its leaf extent records in order, and its block, which holds the
    entries of a directory with inline data.  Extending an inode by a cluster,
    mapping a block of it and moving inline data out are operations of other
    parts of the library; they are parameters of what calls them. *)

From S2P Require Import Prelude Blockcheck DirBlock DirEntries.

Record extent_rec : Type := mkRec {
  e_cpos : Z;
  e_leaf_clusters : Z;
  e_blkno : Z
}.

Record inode : Type := mkInode {
  in_dir : bool;               (* S_ISDIR(i_mode) *)
  in_di : dinode;
  in_clusters : Z;
  in_recs : list extent_rec;
  in_links : Z;
  in_block : list Z
}.

Record volume : Type := mkVolume {
  v_disk : disk;
  v_inodes : gmap Z inode
}.

Definition OCFS2_SUPER_BLOCK_BLKNO : Z := 2.

(** A call that returned: its [errcode_t] and the state it left. *)
Definition outcome (A : Type) : Type := res (A * option errcode).

Definition ocfs2_read_inode (v : volume) (blkno : Z) : res inode :=
  match v_inodes v !! blkno with
  | Some i => Ok i
  | None => Err OCFS2_ET_IO
  end.

Definition ocfs2_write_inode (v : volume) (blkno : Z) (i : inode) : volume :=
  mkVolume (v_disk v) (<[blkno := i]> (v_inodes v)).

Definition ocfs2_check_directory (fs : filesys) (v : volume) (dir : Z) : res unit :=
  if (dir <? OCFS2_SUPER_BLOCK_BLKNO) || (dir >? fs_blocks fs) then Err OCFS2_ET_BAD_BLKNO else
  i ← ocfs2_read_inode v dir;
  if in_dir i then mret tt else Err OCFS2_ET_NO_DIRECTORY.

(** ** Iterating over the blocks of an inode *)

Definition ocfs2_clusters_to_blocks (fs : filesys) (clusters : Z) : Z :=
  u64 (Z.shiftl clusters (c_to_b_bits fs)).

Section Iterate.
Context {St : Type}.

(** The callback gets the block and its number in the file; its second result
    is [OCFS2_BLOCK_ABORT]. *)
Context (fs : filesys) (i_size_ : Z) (func : St -> Z -> Z -> res (St * bool)).

(** The loop of [block_iterate_func], [n] blocks from [blkno] on. *)
Fixpoint rec_blocks (n : nat) (st : St) (blkno bcount : Z) : res (St * bool) :=
  match n with
  | O => Ok (st, false)
  | S n =>
      if u64 (bcount * fs_blocksize fs) >=? i_size_ then Ok (st, false) else
      '(st, abort) ← func st blkno bcount;
      if (abort : bool) then mret (st, true) else rec_blocks n st (u64 (blkno + 1)) (bcount + 1)
  end.

Definition block_iterate_func (st : St) (rec : extent_rec) : res (St * bool) :=
  let bcount := ocfs2_clusters_to_blocks fs (e_cpos rec) in
  let bend := u64 (bcount + ocfs2_clusters_to_blocks fs (e_leaf_clusters rec)) in
  rec_blocks (Z.to_nat (bend - bcount)) st (e_blkno rec) bcount.

(** The records of the leaves, in order. *)
Fixpoint iterate_recs (st : St) (recs : list extent_rec) : res (St * bool) :=
  match recs with
  | [] => Ok (st, false)
  | rec :: recs =>
      '(st, abort) ← block_iterate_func st rec;
      if (abort : bool) then mret (st, true) else iterate_recs st recs
  end.
End Iterate.

Definition ocfs2_block_iterate_inode {St : Type} (fs : filesys) (i : inode)
    (func : St -> Z -> Z -> res (St * bool)) (st : St) : res St :=
  '(st, _) ← iterate_recs fs (i_size (in_di i)) func st (in_recs i);
  mret st.

(** ** Iterating over the entries of a directory *)

Section Dir.
Context (align : Z) (fs : filesys).

Record dir_context (S : Type) : Type := mkCtx {
  ctx_disk : disk;
  ctx_priv : S;
  ctx_errcode : option errcode
}.
Arguments mkCtx {S} _ _ _.
Arguments ctx_disk {S} _.
Arguments ctx_priv {S} _.
Arguments ctx_errcode {S} _.

Definition ocfs2_process_dir_block {S : Type} (di : dinode) (flags : Z) (func : dir_func S)
    (ctx : dir_context S) (blocknr blockcnt : Z) : res (dir_context S * bool) :=
  let entry := if negb (blockcnt =? 0) then OCFS2_DIRENT_OTHER_FILE else OCFS2_DIRENT_DOT_FILE in
  match ocfs2_read_dir_block align fs di (ctx_disk ctx) blocknr with
  | Fault => Fault
  | Err e => Ok (mkCtx (ctx_disk ctx) (ctx_priv ctx) (Some e), true)
  | Ok buf =>
      w ← ocfs2_process_dir_entry (Z.to_nat (fs_blocksize fs)) fs di flags func
            (mkWalked buf (ctx_priv ctx) 0 0 None) 0 entry 0;
      match w_errcode w with
      | Some e => mret (mkCtx (ctx_disk ctx) (w_priv w) (Some e), true)
      | None =>
          if negb (w_changed w =? 0) then
            match ocfs2_write_dir_block align fs di (ctx_disk ctx) blocknr (w_buf w) with
            | Fault => Fault
            | Err e => mret (mkCtx (ctx_disk ctx) (w_priv w) (Some e), true)
            | Ok d => mret (mkCtx d (w_priv w) None, negb (w_abort w =? 0))
            end
          else mret (mkCtx (ctx_disk ctx) (w_priv w) None, negb (w_abort w =? 0))
      end
  end.

(** [offsetof(struct ocfs2_dinode, id2.i_data.id_data)] *)
Definition id_data_off : Z := 200.

(** [ocfs2_inline_dir_iterate] on the block of the inode.  An error comes back
    as the value of [OCFS2_BLOCK_ABORT], which the caller returns. *)
Definition ocfs2_inline_dir_iterate {S : Type} (i : inode) (flags : Z) (func : dir_func S) (priv : S)
    : res (list Z * S * bool * option errcode) :=
  w ← ocfs2_process_dir_entry (Z.to_nat (fs_blocksize fs)) fs (in_di i) flags func
        (mkWalked (in_block i) priv 0 0 None) id_data_off OCFS2_DIRENT_DOT_FILE 0;
  match w_errcode w with
  | Some _ => mret (in_block i, w_priv w, false, Some (SYS_ERRNO 2))
  | None => mret (w_buf w, w_priv w, negb (w_changed w =? 0), None)
  end.

Definition with_block (i : inode) (b : list Z) : inode :=
  mkInode (in_dir i) (in_di i) (in_clusters i) (in_recs i) (in_links i) b.

Definition is_inline (i : inode) : bool := ocfs2_support_inline_data fs && i_inline (in_di i).

Definition ocfs2_dir_iterate {S : Type} (v : volume) (dir flags : Z) (func : dir_func S) (priv : S)
    : outcome (volume * S) :=
  match (_ ← ocfs2_check_directory fs v dir; ocfs2_read_inode v dir) with
  | Fault => Fault
  | Err e => Ok (v, priv, Some e)
  | Ok i =>
      if is_inline i then
        '(b, priv, changed, err) ← ocfs2_inline_dir_iterate i flags func priv;
        mret (if (changed : bool) then ocfs2_write_inode v (i_blkno (in_di i)) (with_block i b) else v, priv, err)
      else
        ctx ← ocfs2_block_iterate_inode fs i (ocfs2_process_dir_block (in_di i) flags func)
                (mkCtx (v_disk v) priv None);
        mret (mkVolume (ctx_disk ctx) (v_inodes v), ctx_priv ctx, ctx_errcode ctx)
  end.

(** ** Lookup and unlink *)

Definition ocfs2_lookup (v : volume) (dir : Z) (name : list Z) : res Z :=
  '(_, ls, retval) ← ocfs2_dir_iterate v dir 0 lookup_proc (mkLookup name 0 0);
  _ ← fail retval;
  if negb (lk_found ls =? 0) then mret (lk_inode ls) else Err OCFS2_ET_FILE_NOT_FOUND.

Definition ocfs2_unlink (v : volume) (dir : Z) (name : option (list Z)) (ino : Z) : outcome volume :=
  if negb (fs_rw fs) then mret (v, Some OCFS2_ET_RO_FILESYS) else
  '(v, ls, retval) ← ocfs2_dir_iterate v dir 0 unlink_proc (mkUnlink name ino 0);
  match retval with
  | Some e => mret (v, Some e)
  | None => mret (v, if negb (ul_done ls =? 0) then None else Some OCFS2_ET_DIR_NO_SPACE)
  end.

(** ** Expanding a directory, and link *)

Section Expand.
(** [ocfs2_extend_allocation(fs, dir, 1)], [ocfs2_extent_map_get_blocks] of one
    block, and [ocfs2_convert_inline_data_to_extents]. *)
Context (extend_allocation : volume -> Z -> outcome volume)
        (get_blocks : inode -> Z -> res Z)
        (convert_inline : volume -> Z -> outcome volume).

(** The block [ocfs2_expand_dir] writes: one unused entry, and the trailer. *)
Definition new_dir_block (di : dinode) (new_blk : Z) : res (list Z) :=
  let buf := replicate (Z.to_nat (fs_blocksize fs)) 0 in
  if ocfs2_dir_has_trailer fs di then
    buf ← set_rec_len buf 0 (u16 (ocfs2_dir_trailer_blk_off fs));
    ocfs2_init_dir_trailer fs di new_blk buf
  else set_rec_len buf 0 (u16 (fs_blocksize fs)).

Definition with_size (i : inode) (size : Z) : inode :=
  mkInode (in_dir i) (mkDinode (i_blkno (in_di i)) (i_inline (in_di i)) size) (in_clusters i) (in_recs i)
    (in_links i) (in_block i).

(** From [get the next free block] on. *)
Definition append_block (v : volume) (dir used_blks : Z) (i : inode) : res volume :=
  new_blk ← get_blocks i used_blks;
  buf ← new_dir_block (in_di i) new_blk;
  d ← ocfs2_write_dir_block align fs (in_di i) (v_disk v) new_blk buf;
  mret (ocfs2_write_inode (mkVolume d (v_inodes v)) dir
          (with_size i (u64 (i_size (in_di i) + fs_blocksize fs)))).

(** An error after the point where [v] was reached leaves [v]. *)
Definition keep (v : volume) (o : res volume) : outcome volume :=
  match o with
  | Ok v' => Ok (v', None)
  | Err e => Ok (v, Some e)
  | Fault => Fault
  end.

Definition ocfs2_expand_dir (v : volume) (dir : Z) : outcome volume :=
  if negb (fs_rw fs) then mret (v, Some OCFS2_ET_RO_FILESYS) else
  match (_ ← ocfs2_check_directory fs v dir; ocfs2_read_inode v dir) with
  | Fault => Fault
  | Err e => mret (v, Some e)
  | Ok i =>
      if is_inline i then convert_inline v dir else
      let used_blks := i_size (in_di i) / fs_blocksize fs in
      let totl_blks := ocfs2_clusters_to_blocks fs (in_clusters i) in
      if used_blks >=? totl_blks then
        '(v, ret) ← extend_allocation v dir;
        match ret with
        | Some e => mret (v, Some e)
        | None => keep v (i ← ocfs2_read_inode v dir; append_block v dir used_blks i)
        end
      else keep v (append_block v dir used_blks i)
  end.

Definition link_blockend (di : dinode) : Z :=
  if ocfs2_dir_has_trailer fs di then ocfs2_dir_trailer_blk_off fs else fs_blocksize fs.

Definition ocfs2_link (v : volume) (dir : Z) (name : list Z) (ino flags : Z) : outcome volume :=
  if negb (fs_rw fs) then mret (v, Some OCFS2_ET_RO_FILESYS) else
  if (ino <? OCFS2_SUPER_BLOCK_BLKNO) || (ino >? fs_blocks fs)
  then mret (v, Some OCFS2_ET_INVALID_ARGUMENT) else
  match ocfs2_read_inode v dir with
  | Fault => Fault
  | Err e => mret (v, Some e)
  | Ok i =>
      '(v, ls, retval) ← ocfs2_dir_iterate v dir OCFS2_DIRENT_FLAG_INCLUDE_EMPTY link_proc
                           (mkLink name ino flags 0 (link_blockend (in_di i)));
      match retval with
      | Some e => mret (v, Some e)
      | None =>
          if negb (ls_done ls =? 0) then mret (v, None) else
          '(v, retval) ← ocfs2_expand_dir v dir;
          match retval with
          | Some e => mret (v, Some e)
          | None =>
              match ocfs2_read_inode v dir with
              | Fault => Fault
              | Err e => mret (v, Some e)
              | Ok i =>
                  '(v, ls, retval) ← ocfs2_dir_iterate v dir OCFS2_DIRENT_FLAG_INCLUDE_EMPTY link_proc
                    (mkLink name ino flags (ls_done ls) (link_blockend (in_di i)));
                  match retval with
                  | Some e => mret (v, Some e)
                  | None => mret (v, if ls_done ls =? 0 then Some OCFS2_ET_INTERNAL_FAILURE else None)
                  end
              end
          end
      end
  end.

Definition with_links (i : inode) (n : Z) : inode :=
  mkInode (in_dir i) (in_di i) (in_clusters i) (in_recs i) n (in_block i).

(** [offsetof(struct ocfs2_dinode, id2.i_data.id_count)] *)
Definition id_count_off : Z := 192.

(** [heap] is what the block [ocfs2_malloc_block] returned holds. *)
Definition ocfs2_init_dir (heap : list Z) (v : volume) (dir parent_dir : Z) : outcome volume :=
  if negb (fs_rw fs) then mret (v, Some OCFS2_ET_RO_FILESYS) else
  match (_ ← ocfs2_check_directory fs v dir; ocfs2_read_inode v dir) with
  | Fault => Fault
  | Err e => mret (v, Some e)
  | Ok i =>
      (* the parent's link count, then the size of the new directory *)
      let finish (v : volume) (i : inode) (size : Z) :=
        match ocfs2_read_inode v parent_dir with
        | Fault => Fault
        | Err e => Ok (v, Some e)
        | Ok parent =>
            let v := ocfs2_write_inode v parent_dir (with_links parent (u16 (in_links parent + 1))) in
            Ok (ocfs2_write_inode v dir (with_size i size), None)
        end in
      if ocfs2_support_inline_data fs then
        if negb (i_inline (in_di i)) then mret (v, Some OCFS2_ET_DIR_CORRUPTED) else
        size ← get_le 2 (in_block i) id_count_off;
        b ← ocfs2_fill_initial_dirents dir parent_dir (in_block i) id_data_off size;
        finish v (with_block i b) size
      else
        if i_inline (in_di i) then mret (v, Some OCFS2_ET_DIR_CORRUPTED) else
        '(v, ret) ← ocfs2_expand_dir v dir;
        match ret with
        | Some e => mret (v, Some e)
        | None =>
            match (i ← ocfs2_read_inode v dir; blkno ← get_blocks i 0; mret (i, blkno)) with
            | Fault => Fault
            | Err e => mret (v, Some e)
            | Ok (i, blkno) =>
                let size := u16 (if ocfs2_supports_dir_trailer fs then ocfs2_dir_trailer_blk_off fs
                                 else fs_blocksize fs) in
                buf ← ocfs2_fill_initial_dirents dir parent_dir heap 0 size;
                buf ← (if ocfs2_supports_dir_trailer fs
                       then ocfs2_init_dir_trailer fs (in_di i) blkno buf else mret buf);
                match ocfs2_write_dir_block align fs (in_di i) (v_disk v) blkno buf with
                | Fault => Fault
                | Err e => mret (v, Some e)
                | Ok d => finish (mkVolume d (v_inodes v)) i size
                end
            end
        end
  end.
End Expand.
End Dir.

Arguments mkCtx {S} _ _ _.
Arguments ctx_disk {S} _.
Arguments ctx_priv {S} _.
Arguments ctx_errcode {S} _.
