(* ===== verification/DirOps.v ===== *)
(** Directory operations on a volume: [ocfs2_lookup], [ocfs2_unlink],
    [ocfs2_link] and [ocfs2_expand_dir] on directories kept in the inode or in
    blocks, against the list of entries the directory holds. *)

From S2P Require Import Prelude Blockcheck DirBlock DirEntries DirStore Dir.

(** ** The blocks of an inode *)

Section FileBlocks.
Context (fs : filesys).

(** The blocks of an extent that lie below the size, with their place in the file. *)
Fixpoint rec_file_blocks (size : Z) (n : nat) (blkno bcount : Z) : list (Z * Z) :=
  match n with
  | O => []
  | S n => if u64 (bcount * fs_blocksize fs) >=? size then []
           else (blkno, bcount) :: rec_file_blocks size n (u64 (blkno + 1)) (bcount + 1)
  end.

Definition extent_blocks (size : Z) (rec : extent_rec) : list (Z * Z) :=
  let bcount := ocfs2_clusters_to_blocks fs (e_cpos rec) in
  let bend := u64 (bcount + ocfs2_clusters_to_blocks fs (e_leaf_clusters rec)) in
  rec_file_blocks size (Z.to_nat (bend - bcount)) (e_blkno rec) bcount.

Definition file_blocks (i : inode) : list (Z * Z) :=
  flat_map (extent_blocks (i_size (in_di i))) (in_recs i).

(** Calling a function on blocks until it aborts. *)
Fixpoint visit {St : Type} (func : St -> Z -> Z -> res (St * bool)) (st : St) (bs : list (Z * Z)) : res (St * bool) :=
  match bs with
  | [] => Ok (st, false)
  | (blkno, bcount) :: bs =>
      '(st, abort) ← func st blkno bcount;
      if (abort : bool) then mret (st, true) else visit func st bs
  end.

Lemma visit_app {St} (func : St -> Z -> Z -> res (St * bool)) a b : forall st,
  visit func st (a ++ b) = ('(st, abort) ← visit func st a; if (abort : bool) then mret (st, true) else visit func st b).
Proof.
  induction a as [| [blkno bcount] a IH]; intros st; [done |]. cbn [visit app].
  destruct (func st blkno bcount) as [[st' []] | |]; cbn; apply IH || done.
Qed.

Lemma rec_blocks_visit {St} size (func : St -> Z -> Z -> res (St * bool)) n : forall st blkno bcount,
  rec_blocks fs size func n st blkno bcount = visit func st (rec_file_blocks size n blkno bcount).
Proof.
  induction n as [| n IH]; intros st blkno bcount; [done |]. cbn [rec_blocks rec_file_blocks].
  destruct (_ >=? _); [done |]. cbn [visit]. destruct (func st blkno bcount) as [[st' []] | |]; cbn; apply IH || done.
Qed.

Lemma iterate_visit {St} i (func : St -> Z -> Z -> res (St * bool)) st :
  ocfs2_block_iterate_inode fs i func st = ('(st, _) ← visit func st (file_blocks i); mret st).
Proof.
  unfold ocfs2_block_iterate_inode, file_blocks. f_equal. revert st.
  induction (in_recs i) as [| rec recs IH]; intros st; [done |]. cbn [iterate_recs flat_map].
  rewrite visit_app. unfold block_iterate_func, extent_blocks. rewrite rec_blocks_visit.
  destruct (visit _ _ _) as [[st' []] | |]; cbn; apply IH || done.
Qed.

(** Leaf extents that cover the clusters from [c] on without a hole. *)
Fixpoint contiguous (c : Z) (recs : list extent_rec) : Prop :=
  match recs with
  | [] => True
  | rec :: recs => e_cpos rec = c /\ 0 < e_leaf_clusters rec /\ 0 <= e_blkno rec < 18446744073709551616 /\
      contiguous (c + e_leaf_clusters rec) recs
  end.

Definition total_clusters (recs : list extent_rec) : Z := foldr (fun r n => e_leaf_clusters r + n) 0 recs.

Definition blocks_per_cluster : Z := 2 ^ c_to_b_bits fs.

(** The number of blocks a size takes. *)
Definition size_blocks (size : Z) : Z := (size + fs_blocksize fs - 1) / fs_blocksize fs.

Context (Hbs : 0 < fs_blocksize fs) (Hbits : 0 <= c_to_b_bits fs).

Lemma below_size size b : b * fs_blocksize fs >= size <-> size_blocks size <= b.
Proof using Hbs.
  unfold size_blocks. pose proof (Z.div_mod (size + fs_blocksize fs - 1) (fs_blocksize fs) ltac:(lia)).
  pose proof (Z.mod_pos_bound (size + fs_blocksize fs - 1) (fs_blocksize fs) ltac:(lia)). nia.
Qed.

Lemma rec_file_blocks_spec size n : forall blkno b, 0 <= blkno < 18446744073709551616 -> 0 <= b ->
  (b + Z.of_nat n) * fs_blocksize fs < 18446744073709551616 ->
  rec_file_blocks size n blkno b =
  map (fun k => (u64 (blkno + (k - b)), k)) (seqZ b (Z.min (Z.of_nat n) (size_blocks size - b))).
Proof using Hbs.
  induction n as [| n IH]; intros blkno b Hblk Hb Hn; cbn [rec_file_blocks].
  - rewrite seqZ_nil by lia. done.
  - rewrite u64_small by nia. pose proof (below_size size b) as Hs. rewrite Z.geb_leb.
    destruct (Z.leb_spec size (b * fs_blocksize fs)).
    + rewrite seqZ_nil; [done |]. assert (size_blocks size <= b) by (apply Hs; lia). lia.
    + assert (b < size_blocks size) by (destruct (Z.lt_ge_cases b (size_blocks size)); [done |];
        assert (b * fs_blocksize fs >= size) by (apply Hs; lia); lia).
      rewrite IH; [| apply u64_range | lia | lia]. rewrite (seqZ_cons b) by lia. cbn [map].
      f_equal; [rewrite Z.sub_diag, Z.add_0_r, u64_small by done; done |].
      replace (Z.succ b) with (b + 1) by lia.
      replace (Z.pred (Z.min (Z.of_nat (S n)) (size_blocks size - b)))
        with (Z.min (Z.of_nat n) (size_blocks size - (b + 1))) by lia.
      apply map_ext. intros k. f_equal. unfold u64. rewrite Zplus_mod_idemp_l. f_equal. lia.
Qed.

(** The physical block of block [k] of the file. *)
Fixpoint phys (recs : list extent_rec) (k : Z) : Z :=
  match recs with
  | [] => 0
  | rec :: recs =>
      if k <? (e_cpos rec + e_leaf_clusters rec) * blocks_per_cluster
      then u64 (e_blkno rec + (k - e_cpos rec * blocks_per_cluster)) else phys recs k
  end.

Lemma extent_blocks_spec size rec : 0 <= e_blkno rec < 18446744073709551616 -> 0 <= e_cpos rec -> 0 < e_leaf_clusters rec ->
  (e_cpos rec + e_leaf_clusters rec) * blocks_per_cluster * fs_blocksize fs < 18446744073709551616 ->
  extent_blocks size rec =
  map (fun k => (u64 (e_blkno rec + (k - e_cpos rec * blocks_per_cluster)), k))
    (seqZ (e_cpos rec * blocks_per_cluster)
      (Z.min (e_leaf_clusters rec * blocks_per_cluster) (size_blocks size - e_cpos rec * blocks_per_cluster))).
Proof using Hbs Hbits.
  intros Hblk Hc Hl Hfit. unfold extent_blocks, ocfs2_clusters_to_blocks. rewrite !Z.shiftl_mul_pow2 by done.
  fold blocks_per_cluster. assert (Hp : 0 < blocks_per_cluster) by (apply Z.pow_pos_nonneg; lia).
  assert (0 <= e_cpos rec * blocks_per_cluster) by nia.
  assert (0 <= e_leaf_clusters rec * blocks_per_cluster) by nia.
  assert ((e_cpos rec + e_leaf_clusters rec) * blocks_per_cluster < 18446744073709551616) by nia.
  rewrite (u64_small (e_cpos rec * blocks_per_cluster)), (u64_small (e_leaf_clusters rec * blocks_per_cluster)),
    u64_small by lia.
  replace (e_cpos rec * blocks_per_cluster + e_leaf_clusters rec * blocks_per_cluster - e_cpos rec * blocks_per_cluster)
    with (e_leaf_clusters rec * blocks_per_cluster) by lia.
  rewrite rec_file_blocks_spec by nia. by rewrite Z2Nat.id by lia.
Qed.

Lemma total_clusters_nonneg recs : forall c, contiguous c recs -> 0 <= total_clusters recs.
Proof using Type.
  induction recs as [| rec recs IH]; intros c H; cbn [total_clusters foldr]; [lia |].
  destruct H as (_ & ? & _ & H). specialize (IH _ H). unfold total_clusters in IH. lia.
Qed.

Lemma extents_cover size recs : forall c, 0 <= c -> contiguous c recs ->
  (c + total_clusters recs) * blocks_per_cluster * fs_blocksize fs < 18446744073709551616 ->
  flat_map (extent_blocks size) recs =
  map (fun k => (phys recs k, k)) (seqZ (c * blocks_per_cluster)
    (Z.min (total_clusters recs * blocks_per_cluster) (size_blocks size - c * blocks_per_cluster))).
Proof using Hbs Hbits.
  assert (Hp : 0 < blocks_per_cluster) by (apply Z.pow_pos_nonneg; lia).
  induction recs as [| rec recs IH]; intros c Hc Hcont Hfit.
  - cbn [flat_map map total_clusters foldr]. by rewrite seqZ_nil by lia.
  - destruct Hcont as (Ec & Hl & Hblk & Hcont). pose proof (total_clusters_nonneg recs _ Hcont) as Ht.
    cbn [total_clusters foldr] in Hfit. fold (total_clusters recs) in Hfit.
    cbn [flat_map total_clusters foldr]. fold (total_clusters recs).
    rewrite (IH (c + e_leaf_clusters rec)) by (done || nia).
    rewrite extent_blocks_spec by (rewrite ?Ec; nia). rewrite Ec in *. cbn [phys]. rewrite Ec.
    set (N := size_blocks size) in *. set (B := blocks_per_cluster) in *.
    set (x := e_leaf_clusters rec) in *. set (t := total_clusters recs) in *.
    transitivity (map (fun k => (if k <? (c + x) * B then u64 (e_blkno rec + (k - c * B)) else phys recs k, k))
      (seqZ (c * B) (Z.min (x * B) (N - c * B)) ++ seqZ ((c + x) * B) (Z.min (t * B) (N - (c + x) * B)))).
    + rewrite map_app. f_equal; apply map_ext_in; intros k Hk; apply list_elem_of_In, elem_of_seqZ in Hk;
        destruct (Z.ltb_spec k ((c + x) * B)); try done; exfalso; nia.
    + f_equal. destruct (Z.le_ge_cases (N - c * B) (x * B)) as [Hle | Hge].
      * rewrite (seqZ_nil ((c + x) * B)) by nia. rewrite app_nil_r. f_equal. nia.
      * replace (Z.min (x * B) (N - c * B)) with (x * B) by nia.
        replace ((c + x) * B) with (c * B + x * B) by lia.
        rewrite <- seqZ_app by nia. f_equal. nia.
Qed.
End FileBlocks.

(** ** Looking for an entry, block after block *)

Lemma find_app {A} (p : A -> bool) a b :
  List.find p (a ++ b) = match List.find p a with Some x => Some x | None => List.find p b end.
Proof. induction a as [| x a IH]; cbn; [done |]. by destruct (p x). Qed.

Lemma update_first_app p f a b :
  update_first p f (a ++ b) =
  match List.find p a with Some _ => update_first p f a ++ b | None => a ++ update_first p f b end.
Proof. induction a as [| x a IH]; cbn; [done |]. destruct (p x); [done |]. rewrite IH. by destruct (List.find p a). Qed.

Lemma update_first_none p f es : List.find p es = None -> update_first p f es = es.
Proof. induction es as [| e es IH]; cbn; [done |]. destruct (p e); [done |]. intros H. by rewrite IH. Qed.

(** [d'] differs from [d] in the blocks [bs] only. *)
Definition same_but (bs : list Z) (d d' : disk) : Prop := forall b, b ∉ bs -> d' !! b = d !! b.

Lemma same_but_refl bs d : same_but bs d d.
Proof. by intros b _. Qed.

Lemma holds_other align fs di (d d' : disk) blk b es : holds align fs di d b es -> same_but [blk] d d' -> b <> blk ->
  holds align fs di d' b es.
Proof.
  intros (tl & H1 & H2 & H3) Hs Hne. exists tl. split; [done |]. split; [done |]. rewrite Hs; [done | set_solver].
Qed.

Lemma holds_others align fs di (d d' : disk) blk (bs : list (Z * Z)) ess : Forall2 (fun b es => holds align fs di d (fst b) es) bs ess ->
  same_but [blk] d d' -> blk ∉ map fst bs ->
  Forall2 (fun b es => holds align fs di d' (fst b) es) bs ess.
Proof.
  intros F Hs. induction F as [| b es bs ess Hb _ IH]; intros Hni; [constructor |]. cbn [map] in Hni.
  apply not_elem_of_cons in Hni as [Hne Hni]. constructor; [| by apply IH]. by apply (holds_other align fs di d d' blk).
Qed.

(** A callback that stops at the first entry in use it is looking for: [hit]
    recognises the entry, [upd] is what it does to the private data, [upd_e] to
    the entry. *)
Class Searcher {S : Type} (func : dir_func S) : Type := {
  hit : S -> dirent -> bool;
  upd : S -> dirent -> S;
  upd_e : dirent -> dirent;
  ret : Z;
  inv : S -> Prop;
  search_aborts : flag_set ret OCFS2_DIRENT_ABORT = true;
  search_calls : forall s k pre e post, dirent_ok e -> inv s ->
    func s k (pre ++ raw e ++ post) (zlen pre) =
    Ok (if hit s e then (upd s e, pre ++ raw (upd_e e) ++ post, ret) else (s, pre ++ raw e ++ post, 0));
  search_fits : forall e, dirent_ok e -> dirent_ok (upd_e e) /\ e_rec_len (upd_e e) = e_rec_len e;
  search_pure : flag_set ret OCFS2_DIRENT_CHANGED = false -> forall e, upd_e e = e
}.

#[export] Instance lookup_searcher : Searcher lookup_proc := {
  hit s e := bool_decide (e_name e = lk_name s);
  upd s e := mkLookup (lk_name s) (e_inode e) (lk_found s + 1);
  upd_e := id;
  ret := OCFS2_DIRENT_ABORT;
  inv s := c_name (lk_name s);
  search_aborts := eq_refl;
  search_calls s k pre e post He Hs := lookup_proc_entry s k pre e post He Hs;
  search_fits e He := conj He eq_refl;
  search_pure _ e := eq_refl
}.

#[export] Instance unlink_searcher : Searcher unlink_proc.
Proof.
  refine {|
    hit := unlink_hit;
    upd s _ := mkUnlink (ul_name s) (ul_inode s) (ul_done s + 1);
    upd_e := erased;
    ret := Z.lor OCFS2_DIRENT_ABORT OCFS2_DIRENT_CHANGED;
    inv s := match ul_name s with Some n => c_name n | None => True end;
    search_aborts := eq_refl;
    search_calls s k pre e post He Hs := unlink_proc_entry s k pre e post He Hs
  |}; [| discriminate].
  intros e [H1 H2 H3 H4 H5 H6]. split; [| done]. split; try assumption. cbn. lia.
Defined.

Section Search.
Context (align : Z) (fs : filesys) (di : dinode).
Context (Hgeo : geometry_ok fs) (Hecc : ocfs2_dir_has_trailer fs di = ocfs2_meta_ecc fs).
Context {S : Type} (func : dir_func S) `{!Searcher func}.

Abbreviation hits s := (used_hit hit s).

Lemma update_first_ok p es : Forall dirent_ok es ->
  Forall dirent_ok (update_first p upd_e es) /\ zlen (encode (update_first p upd_e es)) = zlen (encode es).
Proof using Type.
  induction 1 as [| e es He Hes [IH1 IH2]]; cbn [update_first]; [done |]. destruct (p e); cbn [encode].
  - destruct (search_fits e He) as [H1 H2]. split; [by constructor |]. by rewrite !zlen_app, !zlen_raw, H2.
  - split; [by constructor |]. by rewrite !zlen_app, IH2.
Qed.

Lemma update_first_pure p es : flag_set ret OCFS2_DIRENT_CHANGED = false -> update_first p upd_e es = es.
Proof using Type.
  intros H. induction es as [| x es IH]; cbn; [done |]. rewrite search_pure, IH by done. by destruct (p x).
Qed.

(** The private data after the walk. *)
Definition after (s : S) (es : list dirent) : S :=
  match List.find (hits s) es with Some e => upd s e | None => s end.

Lemma search_block d s blk cnt es : holds align fs di d blk es -> inv s ->
  exists d', ocfs2_process_dir_block align fs di 0 func (mkCtx d s None) blk cnt =
      Ok (mkCtx d' (after s es) None, match List.find (hits s) es with Some _ => true | None => false end) /\
    holds align fs di d' blk (update_first (hits s) upd_e es) /\ same_but [blk] d d' /\
    (List.find (hits s) es = None -> d' = d).
Proof using Hgeo Hecc.
  intros Hh Hinv. destruct (holds_read align fs di Hgeo d blk es Hh) as (tl & Hbo & Hse & Hd & Hread).
  unfold ocfs2_process_dir_block. cbn [ctx_disk ctx_priv]. rewrite Hread.
  pose proof (block_of_count fs di es tl Hbo) as Hc. destruct Hgeo as [[? ?] _].
  set (entry := if negb (cnt =? 0) then OCFS2_DIRENT_OTHER_FILE else OCFS2_DIRENT_DOT_FILE).
  pose proof (search_walk fs di func hit upd upd_e ret inv search_aborts search_calls es (Z.to_nat (fs_blocksize fs))
    (mkWalked (encode es ++ tl) s 0 0 None) [] tl entry 0 (block_tail_ok fs di tl (bo_tail fs di es tl Hbo)) eq_refl
    (bo_len fs di es tl Hbo) (bo_entries fs di es tl Hbo) Hinv ltac:(lia)) as E.
  change (zlen []) with 0 in E. rewrite E. clear E.
  rewrite bind_Ok. unfold searched, after. cbn [w_priv w_changed w_abort w_errcode].
  destruct (List.find (hits s) es) as [e |] eqn:Ef; cbn [w_errcode w_changed w_priv w_abort w_buf].
  2: { exists d. rewrite update_first_none by done. by split_and!; try apply same_but_refl. }
  destruct (flag_set ret OCFS2_DIRENT_CHANGED) eqn:Ech.
  - cbn [Z.add Z.eqb negb]. rewrite app_nil_l.
    destruct (update_first_ok (hits s) es (bo_entries fs di es tl Hbo)) as [U1 U2].
    assert (Hbo' : block_of fs di (update_first (hits s) upd_e es) tl).
    { destruct Hbo as [B1 B2 B3]. split; [done | done |]. rewrite zlen_app, U2, <- zlen_app. done. }
    destruct (holds_write align fs di Hgeo d blk _ tl Hecc Hbo') as (tl' & W1 & W2 & W3 & ->).
    eexists. split; [reflexivity |]. split; [| split; [| done]].
    + exists tl'. split; [done |]. split; [done |]. apply lookup_insert_eq.
    + intros b Hb. apply lookup_insert_ne. set_solver.
  - exists d. cbn [Z.eqb negb]. split; [done |]. split; [| split; [by intros b _ | done]].
    replace (update_first (hits s) upd_e es) with es; [done |].
    symmetry. by apply update_first_pure.
Qed.

Lemma search_visit bs : forall d s ess, NoDup (map fst bs) ->
  Forall2 (fun b es => holds align fs di d (fst b) es) bs ess -> inv s ->
  exists d' ess' stop,
    visit (ocfs2_process_dir_block align fs di 0 func) (mkCtx d s None) bs =
      Ok (mkCtx d' (after s (concat ess)) None, stop) /\
    Forall2 (fun b es => holds align fs di d' (fst b) es) bs ess' /\
    concat ess' = update_first (hits s) upd_e (concat ess) /\ same_but (map fst bs) d d' /\
    (List.find (hits s) (concat ess) = None -> d' = d).
Proof using Hgeo Hecc.
  induction bs as [| [blk cnt] bs IH]; intros d s ess Hnd H2 Hinv.
  - apply Forall2_nil_inv_l in H2 as ->. exists d, [], false. by split_and!; try constructor.
  - apply Forall2_cons_inv_l in H2 as (es & ess0 & Hh & H2 & ->). cbn [map fst] in *.
    apply NoDup_cons in Hnd as [Hni Hnd]. cbn [visit].
    destruct (search_block d s blk cnt es Hh Hinv) as (d1 & -> & Hh1 & Hs1 & Hn1). rewrite bind_Ok.
    cbn [concat]. unfold after. rewrite find_app, update_first_app.
    destruct (List.find (hits s) es) as [e |] eqn:Ef.
    + exists d1, (update_first (hits s) upd_e es :: ess0), true. split; [done |].
      split; [constructor; [done | by apply (holds_others align fs di d d1 blk)] |]. split; [done |].
      split; [| done]. intros b Hb. apply Hs1. set_solver.
    + rewrite (Hn1 eq_refl) in *. rewrite update_first_none in Hh1 by done.
      replace (after s es) with s by (unfold after; by rewrite Ef).
      destruct (IH d s ess0 Hnd H2 Hinv) as (d' & ess' & stop & -> & F & Hc & Hs & Hn).
      exists d', (es :: ess'), stop. split; [done |]. split.
      { constructor; [| done]. destruct Hh as (tl & T1 & T2 & T3). exists tl. split; [done |]. split; [done |].
        by rewrite Hs. }
      split; [cbn [concat]; by rewrite Hc |]. split; [| done]. intros b Hb. apply Hs. set_solver.
Qed.
End Search.

(** ** Directories *)

(** [dir] is the inode [i] of a directory. *)
Record dir_inode (fs : filesys) (v : volume) (dir : Z) (i : inode) : Prop := mkDirInode {
  dn_valid : OCFS2_SUPER_BLOCK_BLKNO <= dir <= fs_blocks fs;
  dn_inode : v_inodes v !! dir = Some i;
  dn_dir : in_dir i = true;
  dn_blkno : i_blkno (in_di i) = dir
}.

(** The entries of a directory, and the blocks that hold them: none when they
    are in the inode. *)
Inductive dir_layout (align : Z) (fs : filesys) (d : disk) (i : inode) : list Z -> list dirent -> Prop :=
  | InlineDir base es :
      is_inline fs i = true -> in_block i = base ++ encode es -> zlen base = id_data_off ->
      zlen (in_block i) = fs_blocksize fs -> Forall dirent_ok es ->
      dir_layout align fs d i [] es
  | BlockDir ess :
      is_inline fs i = false -> NoDup (map fst (file_blocks fs i)) ->
      Forall2 (fun b es => holds align fs (in_di i) d (fst b) es) (file_blocks fs i) ess ->
      dir_layout align fs d i (map fst (file_blocks fs i)) (concat ess).

(** [v'] differs from [v] in inode [dir] and the blocks [bs] only. *)
Definition confined (dir : Z) (bs : list Z) (v v' : volume) : Prop :=
  same_but bs (v_disk v) (v_disk v') /\ forall n, n <> dir -> v_inodes v' !! n = v_inodes v !! n.

Lemma confined_refl dir bs v : confined dir bs v v.
Proof. split; [apply same_but_refl | done]. Qed.

Section Directory.
Context (align : Z) (fs : filesys) (Hgeo : geometry_ok fs).

Lemma check_directory_ok v dir i : dir_inode fs v dir i ->
  (_ ← ocfs2_check_directory fs v dir; ocfs2_read_inode v dir) = Ok i.
Proof using Type.
  intros [[H1 H2] H3 H4 _]. unfold ocfs2_check_directory, ocfs2_read_inode. rewrite Z.gtb_ltb.
  destruct (Z.ltb_spec dir OCFS2_SUPER_BLOCK_BLKNO), (Z.ltb_spec (fs_blocks fs) dir); try lia.
  cbn [orb]. rewrite H3, bind_Ok, H4. done.
Qed.

Lemma trailer_not_inline i : is_inline fs i = false -> ocfs2_dir_has_trailer fs (in_di i) = ocfs2_meta_ecc fs.
Proof using Type. unfold is_inline, ocfs2_dir_has_trailer. by intros ->. Qed.

Lemma trailer_inline i : is_inline fs i = true -> ocfs2_dir_has_trailer fs (in_di i) = false.
Proof using Type. unfold is_inline, ocfs2_dir_has_trailer. by intros ->. Qed.

Lemma inline_count i base es : in_block i = base ++ encode es -> zlen base = id_data_off ->
  zlen (in_block i) = fs_blocksize fs -> Forall dirent_ok es -> (12 * length es + 200 <= Z.to_nat (fs_blocksize fs))%nat.
Proof using Type.
  intros Hb Hz Hl Hok. pose proof (entries_fit es Hok). rewrite Hb, zlen_app, Hz in Hl. unfold id_data_off, zlen in *. lia.
Qed.

(** Iterating with a searching callback. *)
Lemma search_iterate {S} (func : dir_func S) `{!Searcher func} v dir i bs es s :
  dir_inode fs v dir i -> dir_layout align fs (v_disk v) i bs es -> inv s ->
  exists v' i', ocfs2_dir_iterate align fs v dir 0 func s = Ok (v', after func s es, None) /\
    dir_inode fs v' dir i' /\ dir_layout align fs (v_disk v') i' bs (update_first (used_hit hit s) upd_e es) /\
    confined dir bs v v' /\ (List.find (used_hit hit s) es = None -> v' = v).
Proof using Hgeo.
  intros Hi Hl Hinv. unfold ocfs2_dir_iterate. rewrite (check_directory_ok v dir i Hi).
  destruct Hl as [base es Hin Hb Hz Hlen Hok | ess Hin Hnd H2]; rewrite Hin.
  - pose proof (inline_count i base es Hb Hz Hlen Hok) as Hc. unfold ocfs2_inline_dir_iterate.
    pose proof (search_walk fs (in_di i) func hit upd upd_e ret inv search_aborts search_calls es
      (Z.to_nat (fs_blocksize fs)) (mkWalked (in_block i) s 0 0 None) base [] OCFS2_DIRENT_DOT_FILE 0
      (or_introl (conj (trailer_inline i Hin) eq_refl)) ltac:(cbn [w_buf]; by rewrite Hb, app_nil_r) Hlen Hok Hinv
      ltac:(lia)) as E.
    rewrite Hz in E. rewrite E, bind_Ok. clear E. unfold searched, after. cbn [w_priv w_changed w_abort w_errcode].
    destruct (List.find _ es) as [e |] eqn:Ef; cbn [w_errcode w_buf w_priv w_changed].
    2: { cbn [mret res_ret]. rewrite bind_Ok. cbn [Z.eqb negb]. exists v, i. rewrite update_first_none by done.
         split; [done |]. split; [done |]. split; [by apply (InlineDir align fs _ i base) |].
         split; [apply confined_refl | done]. }
    destruct (update_first_ok func (used_hit hit s) es Hok) as [U1 U2]. rewrite app_nil_r.
    cbn [mret res_ret]. rewrite bind_Ok. set (b := base ++ encode _).
    assert (Hb' : zlen b = fs_blocksize fs) by (unfold b; rewrite zlen_app, U2, <- zlen_app, <- Hb; done).
    destruct (flag_set ret OCFS2_DIRENT_CHANGED) eqn:Ech; cbn [Z.add Z.eqb negb].
    + exists (ocfs2_write_inode v dir (with_block i b)), (with_block i b).
      destruct Hi as [I1 I2 I3 I4]. rewrite I4. split; [done |]. split; [split; [done | apply lookup_insert_eq | done | done] |].
      split; [by apply (InlineDir align fs _ (with_block i b) base) |]. split; [| done].
      split; [apply same_but_refl |]. intros n Hn. by apply lookup_insert_ne.
    + exists v, i. split; [done |]. split; [done |]. split; [| split; [apply confined_refl | done]].
      replace (update_first (used_hit hit s) upd_e es) with es; [by apply (InlineDir align fs _ i base) |].
      symmetry. by apply (update_first_pure func).
  - rewrite iterate_visit.
    destruct (search_visit align fs (in_di i) Hgeo (trailer_not_inline i Hin) func (file_blocks fs i) (v_disk v) s ess
      Hnd H2 Hinv) as (d' & ess' & stop & -> & F & <- & Hs & Hn).
    rewrite !bind_Ok. cbn [mret res_ret]. rewrite ?bind_Ok. cbn [ctx_disk ctx_priv ctx_errcode].
    exists (mkVolume d' (v_inodes v)), i. split; [done |]. destruct Hi as [I1 I2 I3 I4].
    split; [by split |]. split; [by apply BlockDir |]. split; [by split |].
    intros E. rewrite Hn by done. by destruct v.
Qed.

(** A directory that holds the entries [es]. *)
Definition dir_holds (v : volume) (dir : Z) (bs : list Z) (es : list dirent) : Prop :=
  exists i, dir_inode fs v dir i /\ dir_layout align fs (v_disk v) i bs es.
End Directory.
