(* ===== verification/DirLink.v ===== *)
(** Linking a name into a directory: the walk with [link_proc] over the blocks of
    a directory, and the block [ocfs2_expand_dir] appends. *)

From S2P Require Import Prelude Blockcheck DirBlock DirEntries DirStore Dir DirOps.

Definition inserted {A} (x : A) (l l' : list A) : Prop := exists u1 u2, l = u1 ++ u2 /\ l' = u1 ++ x :: u2.

Definition new_entry (ls : link_struct) : list Z * Z * Z := (ls_name ls, ls_inode ls, u8 (ls_flags ls)).

(** What linking makes of the entries [es]: the new one appears, or there was no
    room and the directory holds what it held. *)
Definition link_result (ls : link_struct) (es : list dirent) (ls' : link_struct) (es' : list dirent) : Prop :=
  (ls' = linked ls /\ inserted (new_entry ls) (listing es) (listing es')) \/
  (ls' = ls /\ listing es' = listing es /\ Forall (fun e => ~ room (link_need ls) e) es).

Lemma listing_app a b : listing (a ++ b) = listing a ++ listing b.
Proof.
  induction a as [| e a IH]; [done |]. cbn [app]. rewrite (listing_cons e (a ++ b)), (listing_cons e a), IH. by list_assoc.
Qed.

Lemma inserted_app_l {A} (x : A) l l' r : inserted x l l' -> inserted x (l ++ r) (l' ++ r).
Proof. intros (u1 & u2 & -> & ->). exists u1, (u2 ++ r). by list_assoc. Qed.

Lemma inserted_app_r {A} (x : A) l l' r : inserted x l l' -> inserted x (r ++ l) (r ++ l').
Proof. intros (u1 & u2 & -> & ->). exists (r ++ u1), u2. by list_assoc. Qed.

Section Blocks.
Context (align : Z) (fs : filesys) (di : dinode).
Context (Hgeo : geometry_ok fs) (Hecc : ocfs2_dir_has_trailer fs di = ocfs2_meta_ecc fs).

Abbreviation link_flags := OCFS2_DIRENT_FLAG_INCLUDE_EMPTY.

Lemma link_block d ls blk cnt es : holds align fs di d blk es -> link_ok ls -> ls_blockend ls = entries_end fs di ->
  exists d' ls' es' stop, ocfs2_process_dir_block align fs di link_flags link_proc (mkCtx d ls None) blk cnt =
      Ok (mkCtx d' ls' None, stop) /\
    holds align fs di d' blk es' /\ same_but [blk] d d' /\ link_result ls es ls' es' /\
    (stop = true <-> ls' <> ls).
Proof using Hgeo Hecc.
  intros Hh Hls Hend. destruct (holds_read align fs di Hgeo d blk es Hh) as (tl & Hbo & Hse & Hd & Hread).
  unfold ocfs2_process_dir_block. cbn [ctx_disk ctx_priv]. rewrite Hread.
  pose proof (block_of_count fs di es tl Hbo) as Hc. destruct Hgeo as [[? ?] _].
  set (entry := if negb (cnt =? 0) then OCFS2_DIRENT_OTHER_FILE else OCFS2_DIRENT_DOT_FILE).
  destruct (link_walk fs di tl (block_tail_ok fs di tl (bo_tail fs di es tl Hbo)) (length es) es
    (Z.to_nat (fs_blocksize fs)) (mkWalked (encode es ++ tl) ls 0 0 None) [] entry 0) as (w' & es' & E & [P1 P2 P3 P4 [P5 P5'] P6]);
    [lia | split; cbn [w_buf w_priv]; try done; [apply (bo_len fs di es tl Hbo) | apply (bo_entries fs di es tl Hbo)
     | rewrite Hend, app_nil_l; symmetry; by apply (block_of_end fs di es tl)] | lia |].
  change (zlen []) with 0 in E. rewrite E, bind_Ok. clear E. cbn [w_errcode w_changed w_priv w_abort] in *. rewrite P4.
  rewrite app_nil_l in P1.
  assert (Hbo' : block_of fs di es' tl).
  { destruct Hbo as [B1 B2 B3]. split; [done | done |]. rewrite zlen_app, P3, <- zlen_app. done. }
  assert (Hres : link_result ls es (w_priv w') es' /\ (negb (w_abort w' =? 0) = true <-> w_priv w' <> ls)).
  { destruct P6 as [(Q1 & Q2 & u1 & u2 & Q3 & Q4) | (Q1 & Q2 & Q3 & Q4)]; rewrite Q1, Q2; cbn [Z.add Z.eqb negb].
    - split; [left; split; [done |]; by exists u1, u2 |]. split; [| done]. intros _ E.
      apply (f_equal ls_done) in E. unfold linked in E. cbn [ls_done] in E. lia.
    - split; [by right | done]. }
  destruct Hres as [Hres Hstop]. destruct (Z.eqb_spec (w_changed w') 0) as [E0 | E0]; cbn [negb].
  - exists d, (w_priv w'), es', (negb (w_abort w' =? 0)). rewrite (P5' E0) in *. split; [done |].
    split; [done |]. split; [apply same_but_refl |]. by split.
  - rewrite P1. destruct (holds_write align fs di Hgeo d blk es' tl Hecc Hbo') as (tl' & W1 & W2 & W3 & ->).
    eexists _, (w_priv w'), es', (negb (w_abort w' =? 0)). split; [reflexivity |]. split; [| split; [| by split]].
    + exists tl'. split; [done |]. split; [done |]. apply lookup_insert_eq.
    + intros b Hb. apply lookup_insert_ne. set_solver.
Qed.

Lemma link_visit bs : forall d ls ess, NoDup (map fst bs) ->
  Forall2 (fun b es => holds align fs di d (fst b) es) bs ess -> link_ok ls -> ls_blockend ls = entries_end fs di ->
  exists d' ls' ess' stop,
    visit (ocfs2_process_dir_block align fs di link_flags link_proc) (mkCtx d ls None) bs =
      Ok (mkCtx d' ls' None, stop) /\
    Forall2 (fun b es => holds align fs di d' (fst b) es) bs ess' /\ same_but (map fst bs) d d' /\
    link_result ls (concat ess) ls' (concat ess').
Proof using Hgeo Hecc.
  induction bs as [| [blk cnt] bs IH]; intros d ls ess Hnd H2 Hls Hend.
  - apply Forall2_nil_inv_l in H2 as ->. exists d, ls, [], false. split; [done |]. split; [constructor |].
    split; [apply same_but_refl |]. right. split; [done |]. split; [done | constructor].
  - apply Forall2_cons_inv_l in H2 as (es & ess0 & Hh & H2 & ->). cbn [map fst] in *.
    apply NoDup_cons in Hnd as [Hni Hnd]. cbn [visit].
    destruct (link_block d ls blk cnt es Hh Hls Hend) as (d1 & ls1 & es1 & stop & -> & Hh1 & Hs1 & Hr & Hstop).
    rewrite bind_Ok. apply (holds_others align fs di d d1 blk) in H2; [| done | done]. cbn [concat]. destruct stop.
    + exists d1, ls1, (es1 :: ess0), true. split; [done |]. split; [by constructor |].
      split; [intros b Hb; apply Hs1; set_solver |].
      destruct Hr as [[-> Hin] | [E _]]; [| by destruct (proj1 Hstop eq_refl)].
      left. split; [done |]. cbn [concat]. rewrite !listing_app. by apply inserted_app_l.
    + destruct Hr as [[-> _] | (-> & Hl & Hno)].
      { exfalso. destruct (Z.eq_dec (ls_done ls) (ls_done ls + 1)) as [E | E]; [lia |].
        assert (false = true); [apply Hstop | done]. intros E'. apply E. by rewrite <- E' at 1. }
      destruct (IH d1 ls ess0 Hnd H2 Hls Hend) as (d' & ls' & ess' & stop & -> & F & Hs & Hr).
      exists d', ls', (es1 :: ess'), stop. split; [done |]. split.
      { constructor; [| done]. destruct Hh1 as (tl & T1 & T2 & T3). exists tl. split; [done |]. split; [done |].
        by rewrite Hs. }
      split; [intros b Hb; rewrite Hs, Hs1 by set_solver; done |]. cbn [concat].
      destruct Hr as [[-> Hin] | (-> & Hl' & Hno')].
      * left. split; [done |]. rewrite !listing_app, Hl. by apply inserted_app_r.
      * right. split; [done |]. rewrite !listing_app, Hl, Hl'. split; [done |]. by apply Forall_app.
Qed.
End Blocks.

(** The walk over a directory of either layout. *)
Lemma link_iterate align fs v dir i bs es ls : geometry_ok fs ->
  dir_inode fs v dir i -> dir_layout align fs (v_disk v) i bs es ->
  link_ok ls -> ls_blockend ls = link_blockend fs (in_di i) ->
  exists v' i' ls' es', ocfs2_dir_iterate align fs v dir OCFS2_DIRENT_FLAG_INCLUDE_EMPTY link_proc ls = Ok (v', ls', None) /\
    dir_inode fs v' dir i' /\ dir_layout align fs (v_disk v') i' bs es' /\ confined dir bs v v' /\
    link_result ls es ls' es' /\ (is_inline fs i = false -> i' = i).
Proof.
  intros Hgeo Hi Hl Hls Hend. unfold ocfs2_dir_iterate. rewrite (check_directory_ok fs v dir i Hi).
  destruct Hl as [base es Hin Hb Hz Hlen Hok | ess Hin Hnd H2]; rewrite Hin.
  - pose proof (inline_count fs i base es Hb Hz Hlen Hok) as Hc. unfold ocfs2_inline_dir_iterate.
    unfold link_blockend in Hend. rewrite (trailer_inline fs i Hin) in Hend.
    destruct (link_walk fs (in_di i) [] (or_introl (conj (trailer_inline fs i Hin) eq_refl)) (length es) es
      (Z.to_nat (fs_blocksize fs)) (mkWalked (in_block i) ls 0 0 None) base OCFS2_DIRENT_DOT_FILE 0)
      as (w' & es' & E & [P1 P2 P3 P4 [P5 P5'] P6]);
      [lia | split; cbn [w_buf w_priv]; try done; [by rewrite app_nil_r | by rewrite Hend, <- Hlen, Hb] | lia |].
    rewrite Hz in E. rewrite E, bind_Ok. clear E. cbn [w_errcode w_changed w_priv w_abort] in *. rewrite P4.
    cbn [mret res_ret]. rewrite bind_Ok. rewrite app_nil_r in P1.
    assert (Hres : link_result ls es (w_priv w') es').
    { destruct P6 as [(Q1 & Q2 & u1 & u2 & Q3 & Q4) | (Q1 & Q2 & Q3 & Q4)]; rewrite Q1; [left | by right].
      split; [done |]. by exists u1, u2. }
    destruct (Z.eqb_spec (w_changed w') 0) as [E0 | E0]; cbn [negb].
    + exists v, i, (w_priv w'), es'. rewrite (P5' E0) in *. split; [done |]. split; [done |].
      split; [by apply (InlineDir align fs _ i base) |]. split; [apply confined_refl | by split].
    + rewrite P1. set (b := base ++ encode es').
      assert (Hb' : zlen b = fs_blocksize fs) by (unfold b; rewrite zlen_app, P3, <- zlen_app, <- Hb; done).
      exists (ocfs2_write_inode v dir (with_block i b)), (with_block i b), (w_priv w'), es'.
      destruct Hi as [I1 I2 I3 I4]. rewrite I4. split; [done |].
      split; [split; [done | apply lookup_insert_eq | done | done] |].
      split; [by apply (InlineDir align fs _ (with_block i b) base) |].
      split; [| split; [done |]; intros E; congruence]. split; [apply same_but_refl |].
      intros n Hn. by apply lookup_insert_ne.
  - rewrite iterate_visit.
    destruct (link_visit align fs (in_di i) Hgeo (trailer_not_inline fs i Hin) (file_blocks fs i) (v_disk v) ls ess
      Hnd H2 Hls Hend) as (d' & ls' & ess' & stop & -> & F & Hs & Hr).
    rewrite !bind_Ok. cbn [mret res_ret]. rewrite ?bind_Ok. cbn [ctx_disk ctx_priv ctx_errcode].
    exists (mkVolume d' (v_inodes v)), i, ls', (concat ess'). split; [done |]. destruct Hi as [I1 I2 I3 I4].
    split; [by split |]. split; [by apply BlockDir |]. by split.
Qed.

(** ** Appending a block *)

Lemma put_behind a x k y : 0 <= k -> k + zlen y <= zlen x ->
  put_bytes (a ++ x) (zlen a + k) y = Ok (a ++ splice (Z.to_nat k) y x).
Proof.
  intros Hk H. pose proof (zlen_nonneg a). rewrite put_bytes_ok by (rewrite ?zlen_app; lia). f_equal.
  rewrite <- splice_app. f_equal. unfold zlen. lia.
Qed.

(** The trailer [ocfs2_init_dir_trailer] writes, and its bytes behind the header. *)
Definition trailer_body (blkno ino : Z) : list Z :=
  replicate 4 0 ++ OCFS2_DIR_TRAILER_SIGNATURE ++ replicate 9 0 ++ le_bytes 8 blkno ++ le_bytes 8 ino ++ replicate 16 0.

Definition fresh_trailer (blkno ino : Z) : list Z := raw (mkDe 0 0 [] (trailer_body blkno ino)).

Lemma fresh_trailer_ok blkno ino : trailer_ok (fresh_trailer blkno ino).
Proof.
  exists 0, 0, (trailer_body blkno ino). split; [done |].
  assert (L : length (trailer_body blkno ino) = 52%nat)
    by (unfold trailer_body; rewrite !length_app, !length_replicate, !length_le_bytes; done).
  split; [| split; [done | reflexivity]].
  split; cbn [e_inode e_ftype e_name e_slack]; [lia | unfold byte_ok; lia | constructor | unfold zlen; cbn; lia | |].
  - unfold trailer_body. repeat (apply Forall_app; split); try apply le_bytes_ok; try apply zeros_ok.
    repeat constructor; unfold byte_ok; lia.
  - unfold e_rec_len, zlen. cbn [e_name e_slack]. rewrite L. done.
Qed.

Lemma init_dir_trailer_ok fs di blkno a z : zlen a = ocfs2_dir_trailer_blk_off fs -> length z = 64%nat ->
  ocfs2_init_dir_trailer fs di blkno (a ++ z) = Ok (a ++ fresh_trailer blkno (i_blkno di)).
Proof.
  intros Ha Hz. unfold ocfs2_init_dir_trailer. rewrite <- Ha. cbv zeta.
  pose proof (put_behind a z 0 (replicate (Z.to_nat trailer_size) 0) ltac:(lia)
    ltac:(unfold zlen; rewrite length_replicate, Hz; done)) as E.
  rewrite Z.add_0_r in E. rewrite E, bind_Ok. clear E.
  assert (E0 : splice (Z.to_nat 0) (replicate (Z.to_nat trailer_size) 0) z = replicate 64 0).
  { unfold splice. rewrite length_replicate. change (Z.to_nat 0 + Z.to_nat trailer_size)%nat with 64%nat.
    rewrite drop_ge by lia. by rewrite app_nil_r. }
  rewrite E0. clear E0. unfold put_le.
  rewrite put_behind, bind_Ok by (done || lia).
  rewrite put_behind, bind_Ok by (done || lia).
  rewrite put_behind, bind_Ok by (done || lia).
  rewrite put_behind by (done || lia). reflexivity.
Qed.

(** The entry of an empty block. *)
Definition free_entry (size : Z) : dirent := mkDe 0 0 [] (replicate (Z.to_nat (size - 12)) 0).

Lemma free_entry_len size : 12 <= size -> e_rec_len (free_entry size) = size.
Proof. intros H. unfold e_rec_len, free_entry, zlen. cbn [e_name e_slack length]. rewrite length_replicate. lia. Qed.

Lemma free_entry_ok size : 12 <= size <= 4096 -> size mod 4 = 0 -> dirent_ok (free_entry size).
Proof.
  intros H Hm. pose proof (free_entry_len size ltac:(lia)) as L.
  split; [| | | | | by rewrite L; split; [| lia]]; unfold free_entry; cbn [e_inode e_ftype e_name e_slack].
  - lia.
  - unfold byte_ok. lia.
  - constructor.
  - unfold zlen. cbn. lia.
  - apply zeros_ok.
Qed.

Lemma new_dir_block_ok fs di new_blk : geometry_ok fs ->
  exists tl, new_dir_block fs di new_blk = Ok (encode [free_entry (entries_end fs di)] ++ tl) /\
    block_of fs di [free_entry (entries_end fs di)] tl.
Proof.
  intros [[G1 G2] G3].
  assert (Hz : forall size, 12 <= size <= 4096 -> forall r,
    set_rec_len (replicate (Z.to_nat (size + r)) 0) 0 (u16 size) =
    Ok (raw (free_entry size) ++ replicate (Z.to_nat (size + r) - Z.to_nat size) 0) \/ r < 0).
  { intros size Hs r. destruct (Z.lt_ge_cases r 0); [by right | left]. rewrite u16_small by lia.
    replace (Z.to_nat (size + r)) with (12 + (Z.to_nat (size - 12) + Z.to_nat r))%nat by lia.
    rewrite replicate_add, replicate_add. change (replicate 12 0) with (header 0 0 0 0).
    rewrite raw_header, free_entry_len by lia. cbn [e_inode e_name e_slack e_ftype free_entry].
    pose proof (header_set_rec_len [] (replicate (Z.to_nat (size - 12)) 0 ++ replicate (Z.to_nat r) 0) 0 0 0 0 size) as E.
    rewrite !app_nil_l in E. change (zlen []) with 0 in E. rewrite E, app_nil_l. rewrite <- app_assoc.
    do 4 f_equal. lia. }
  unfold new_dir_block. unfold entries_end, ocfs2_dir_trailer_blk_off, trailer_size in *.
  destruct (ocfs2_dir_has_trailer fs di) eqn:Ht.
  - destruct (Hz (fs_blocksize fs - 64) ltac:(lia) 64) as [E | E]; [| lia].
    replace (fs_blocksize fs - 64 + 64) with (fs_blocksize fs) in E by lia. rewrite E, bind_Ok.
    rewrite init_dir_trailer_ok; [| rewrite zlen_raw, free_entry_len by lia; done | rewrite length_replicate; lia].
    exists (fresh_trailer new_blk (i_blkno di)). split; [cbn [encode]; by rewrite app_nil_r |].
    pose proof (fresh_trailer_ok new_blk (i_blkno di)) as Hft. split.
    + constructor; [| constructor]. apply free_entry_ok; [lia |].
      pose proof (Z.div_mod (fs_blocksize fs) 4 ltac:(lia)). replace (fs_blocksize fs - 64)
        with (0 + (fs_blocksize fs / 4 - 16) * 4) by lia. rewrite Z.mod_add by lia. done.
    + unfold block_tail. by rewrite Ht.
    + cbn [encode]. rewrite app_nil_r, zlen_app, zlen_raw, free_entry_len, (trailer_len _ Hft) by lia.
      unfold trailer_size. lia.
  - destruct (Hz (fs_blocksize fs) ltac:(lia) 0) as [E | E]; [| lia].
    rewrite Z.add_0_r, Nat.sub_diag in E. cbn [replicate] in E. rewrite E. exists [].
    split; [cbn [encode]; by rewrite !app_nil_r |]. split.
    + constructor; [apply free_entry_ok; [lia | done] | constructor].
    + unfold block_tail. by rewrite Ht.
    + cbn [encode]. rewrite !app_nil_r, zlen_raw, free_entry_len by lia. done.
Qed.

(** A directory whose clusters reach beyond its size, which is a number of blocks. *)
Record spare_block (fs : filesys) (i : inode) (k : Z) : Prop := mkSpare {
  sp_extents : contiguous 0 (in_recs i);
  sp_clusters : in_clusters i = total_clusters (in_recs i);
  sp_fit : total_clusters (in_recs i) * blocks_per_cluster fs * fs_blocksize fs < 18446744073709551616;
  sp_size : i_size (in_di i) = k * fs_blocksize fs;
  sp_next : 0 <= k < total_clusters (in_recs i) * blocks_per_cluster fs;
  sp_nodup : NoDup (map (phys fs (in_recs i)) (seqZ 0 (total_clusters (in_recs i) * blocks_per_cluster fs)))
}.

Definition sized (fs : filesys) (i : inode) : inode := with_size i (i_size (in_di i) + fs_blocksize fs).

(** Whether a block holds entries depends on the inode for its trailer only. *)
Lemma holds_resize align fs di di' d blk es : ocfs2_dir_has_trailer fs di = ocfs2_dir_has_trailer fs di' ->
  holds align fs di d blk es -> holds align fs di' d blk es.
Proof.
  intros E (tl & [B1 B2 B3] & Hse & Hd). exists tl. split; [split; [done | | done] | split; [| done]].
  - unfold block_tail in *. by rewrite <- E.
  - unfold sealed in *. by rewrite <- E.
Qed.

Section Grow.
Context (align : Z) (fs : filesys) (Hgeo : geometry_ok fs) (Hbits : 0 <= c_to_b_bits fs).

(** The blocks of an inode of [k] blocks. *)
Lemma file_blocks_phys i k : contiguous 0 (in_recs i) ->
  total_clusters (in_recs i) * blocks_per_cluster fs * fs_blocksize fs < 18446744073709551616 ->
  i_size (in_di i) = k * fs_blocksize fs -> 0 <= k <= total_clusters (in_recs i) * blocks_per_cluster fs ->
  file_blocks fs i = map (fun k => (phys fs (in_recs i) k, k)) (seqZ 0 k).
Proof using Hgeo Hbits.
  intros Hc Hf Hs Hk. destruct Hgeo as [[? ?] _]. unfold file_blocks.
  rewrite (extents_cover fs ltac:(lia) Hbits _ _ 0) by (done || lia). do 2 f_equal.
  assert (E : size_blocks fs (i_size (in_di i)) = k).
  { unfold size_blocks. rewrite Hs. replace (k * fs_blocksize fs + fs_blocksize fs - 1)
      with (fs_blocksize fs - 1 + k * fs_blocksize fs) by lia.
    rewrite Z.div_add by lia. rewrite Z.div_small by lia. lia. }
  rewrite E. lia.
Qed.

Lemma spare_blocks i k : spare_block fs i k ->
  file_blocks fs (sized fs i) = file_blocks fs i ++ [(phys fs (in_recs i) k, k)] /\
  NoDup (map fst (file_blocks fs (sized fs i))).
Proof using Hgeo Hbits.
  intros [H1 H2 H3 H4 H5 H6].
  assert (E : file_blocks fs (sized fs i) = map (fun k => (phys fs (in_recs i) k, k)) (seqZ 0 (k + 1))).
  { apply (file_blocks_phys (sized fs i) (k + 1)); cbn [sized with_size in_recs]; [done | done | | lia]. cbn [sized with_size in_di i_size]. lia. }
  split.
  - rewrite E, (file_blocks_phys i k H1 H3 H4) by lia. rewrite seqZ_app by lia. by rewrite map_app.
  - rewrite E, map_map. cbn [fst].
    replace (total_clusters (in_recs i) * blocks_per_cluster fs)
      with ((k + 1) + (total_clusters (in_recs i) * blocks_per_cluster fs - (k + 1))) in H6 by lia.
    rewrite seqZ_app, map_app in H6 by lia. by apply NoDup_app in H6 as [? _].
Qed.

Context (extend_allocation : volume -> Z -> outcome volume) (get_blocks : inode -> Z -> res Z)
        (convert_inline : volume -> Z -> outcome volume).

(** [ocfs2_extent_map_get_blocks] finds the blocks of the extents. *)
Definition maps_blocks : Prop := forall i k, contiguous 0 (in_recs i) ->
  0 <= k < total_clusters (in_recs i) * blocks_per_cluster fs -> get_blocks i k = Ok (phys fs (in_recs i) k).

Context (Hget : maps_blocks) (Hrw : fs_rw fs = true).

Abbreviation expand := (ocfs2_expand_dir align fs extend_allocation get_blocks convert_inline).

Lemma expand_appends v dir i bs es k : dir_inode fs v dir i -> is_inline fs i = false ->
  dir_layout align fs (v_disk v) i bs es -> spare_block fs i k ->
  let blk := phys fs (in_recs i) k in
  let free := free_entry (link_blockend fs (in_di i)) in
  exists v', expand v dir = Ok (v', None) /\ dir_inode fs v' dir (sized fs i) /\
    dir_layout align fs (v_disk v') (sized fs i) (bs ++ [blk]) (es ++ [free]) /\
    confined dir (bs ++ [blk]) v v'.
Proof using Hgeo Hbits Hget Hrw.
  intros Hi Hin Hl Hsp blk free. destruct (spare_blocks i k Hsp) as [Hfb Hnd].
  pose proof Hsp as [H1 H2 H3 H4 H5 H6]. pose proof Hgeo as [[G1 G2] _].
  inversion Hl as [? ? E |? _ Hnd0 HF Ebs Ees]; subst; [congruence |].
  unfold ocfs2_expand_dir. rewrite Hrw, (check_directory_ok fs v dir i Hi), Hin. cbn [negb].
  assert (Hp : 0 < blocks_per_cluster fs) by (apply Z.pow_pos_nonneg; lia).
  assert (Hu : i_size (in_di i) / fs_blocksize fs = k) by (rewrite H4; apply Z.div_mul; lia).
  assert (Ht : ocfs2_clusters_to_blocks fs (in_clusters i) = total_clusters (in_recs i) * blocks_per_cluster fs).
  { unfold ocfs2_clusters_to_blocks. rewrite Z.shiftl_mul_pow2, H2 by done. fold (blocks_per_cluster fs).
    rewrite u64_small by nia. done. }
  rewrite Hu, Ht, Z.geb_leb. cbv zeta.
  destruct (Z.leb_spec (total_clusters (in_recs i) * blocks_per_cluster fs) k); [lia |].
  unfold append_block. rewrite (Hget i k) by (done || lia). rewrite bind_Ok. fold blk.
  destruct (new_dir_block_ok fs (in_di i) blk Hgeo) as (tl & -> & Hbo). rewrite bind_Ok.
  change (entries_end fs (in_di i)) with (link_blockend fs (in_di i)) in *. fold free in Hbo |- *.
  destruct (holds_write align fs (in_di i) Hgeo (v_disk v) blk [free] tl (trailer_not_inline fs i Hin) Hbo)
    as (tl' & W1 & W2 & W3 & ->). rewrite bind_Ok. cbn [keep mret res_ret].
  rewrite u64_small by nia. fold (sized fs i). set (d' := <[blk := _]> (v_disk v)).
  exists (ocfs2_write_inode (mkVolume d' (v_inodes v)) dir (sized fs i)). split; [done |].
  destruct Hi as [I1 I2 I3 I4]. split; [split; [done | apply lookup_insert_eq | done | done] |].
  rewrite Hfb, map_app in Hnd. apply NoDup_app in Hnd as (N1 & N2 & N3).
  assert (Hsame : same_but [blk] (v_disk v) d').
  { intros b Hb. apply lookup_insert_ne. set_solver. }
  split.
  - replace (concat ess ++ [free]) with (concat (ess ++ [[free]])) by (rewrite concat_app; done).
    replace (map fst (file_blocks fs i) ++ [blk]) with (map fst (file_blocks fs (sized fs i))) by (rewrite Hfb, map_app; done).
    apply BlockDir; [done | rewrite Hfb, map_app; apply NoDup_app; done |].
    rewrite Hfb. apply (Forall2_impl (fun b es => holds align fs (in_di i) d' (fst b) es));
      [| intros b es; by apply holds_resize]. apply Forall2_app.
    + apply (holds_others align fs (in_di i) (v_disk v) d' blk); [done | done |].
      intros Hb. apply (N2 blk); [done | by left].
    + constructor; [| constructor]. exists tl'. split; [done |]. split; [done |]. apply lookup_insert_eq.
  - split; [intros b Hb; apply Hsame; set_solver |]. intros n Hn. by apply lookup_insert_ne.
Qed.
End Grow.
