(* ===== verification/DirSpec.v ===== *)
(** What the directory operations promise, in terms of the names a directory
    lists: the theorems on [dirblock.c], [dir_iterate.c], [lookup.c], [unlink.c],
    [link.c] and [expanddir.c]. *)

From S2P Require Import Prelude Blockcheck DirBlock DirEntries DirStore Dir DirOps DirLink.

(** The inode number the listing gives a name. *)
Fixpoint assoc (n : list Z) (l : list (list Z * Z * Z)) : option Z :=
  match l with
  | [] => None
  | (m, ino, _) :: l => if decide (m = n) then Some ino else assoc n l
  end.

Lemma find_named n es :
  match List.find (named n) es with Some e => Some (e_inode e) | None => None end = assoc n (listing es).
Proof.
  induction es as [| e es IH]; [done |]. cbn [List.find]. unfold named at 1, listing. cbn [List.filter].
  destruct (is_used e); cbn [andb]; [| exact IH]. cbn [map assoc].
  destruct (decide (e_name e = n)) as [E | E]; [by rewrite bool_decide_eq_true_2 |].
  by rewrite bool_decide_eq_false_2.
Qed.

Lemma assoc_inserted n ino f l l' : inserted (n, ino, f) l l' -> assoc n l = None -> assoc n l' = Some ino.
Proof.
  intros (u1 & u2 & -> & ->). induction u1 as [| [[m i] g] u1 IH]; cbn [app assoc].
  - intros _. by rewrite decide_True.
  - by destruct (decide (m = n)).
Qed.

Lemma assoc_other n m ino f l l' : inserted (m, ino, f) l l' -> n <> m -> assoc n l' = assoc n l.
Proof.
  intros (u1 & u2 & -> & ->) Hn. induction u1 as [| [[m' i] g] u1 IH]; cbn [app assoc].
  - by rewrite decide_False.
  - by destruct (decide (m' = n)).
Qed.

Lemma listing_erased p es e : List.find (fun e => is_used e && p e) es = Some e ->
  inserted (e_name e, e_inode e, e_ftype e) (listing (update_first (fun e => is_used e && p e) erased es)) (listing es).
Proof.
  induction es as [| x es IH]; [done |]. cbn [List.find update_first].
  destruct (is_used x) eqn:Eu; cbn [andb].
  - destruct (p x).
    + intros [= ->]. exists [], (listing es). rewrite app_nil_l, !app_nil_l. unfold listing. cbn [List.filter].
      rewrite Eu. split; [| done]. by change (is_used (erased e)) with false.
    + intros H. rewrite (listing_cons x (update_first _ _ _)), (listing_cons x es). by apply inserted_app_r, IH.
  - intros H. rewrite (listing_cons x (update_first _ _ _)), (listing_cons x es). by apply inserted_app_r, IH.
Qed.

(** ** Blocks *)


Definition sample_fs : filesys := mkFs 512 10000 true 1 true false.

Definition sample_inode (k : Z) : inode :=
  mkInode true (mkDinode 20 false (k * 512)) 3 [mkRec 0 1 100; mkRec 1 2 300] 2 [].



Lemma sample_geometry : geometry_ok sample_fs.
Proof. split; [cbn; lia | done]. Qed.

Lemma sample_block_of : block_of sample_fs (mkDinode 20 false 512) [free_entry 448] (fresh_trailer 100 20).
Proof.
  split; [constructor; [apply free_entry_ok; [lia | done] | constructor] | apply fresh_trailer_ok | reflexivity].
Qed.


(** ** Names *)

Lemma lookup_listing align fs v dir bs es name :
  geometry_ok fs -> dir_holds align fs v dir bs es -> c_name name ->
  ocfs2_lookup align fs v dir name =
  match assoc name (listing es) with Some ino => Ok ino | None => Err OCFS2_ET_FILE_NOT_FOUND end.
Proof.
  intros Hgeo (i & Hi & Hl) Hn. unfold ocfs2_lookup.
  destruct (search_iterate align fs Hgeo lookup_proc v dir i bs es (mkLookup name 0 0) Hi Hl)
    as (v' & i' & -> & _); [exact Hn |]. rewrite bind_Ok. cbn [fail]. rewrite bind_Ok. unfold after.
  change (used_hit hit (mkLookup name 0 0)) with (named name). rewrite <- find_named.
  by destruct (List.find (named name) es).
Qed.


Definition plain_fs : filesys := mkFs 512 10000 true 1 false false.

Definition dot : dirent := mkDe 20 2 [46] [0; 0; 0].
Definition dotdot : dirent := mkDe 5 2 [46; 46] (replicate 482 0).
Definition file_f : dirent := mkDe 30 1 [102] (replicate 499 0).

Definition sample_volume : volume :=
  mkVolume {[ 100 := encode [dot; dotdot]; 101 := encode [file_f] ]} {[ 20 := sample_inode 2 ]}.

Lemma sample_entries_ok : Forall dirent_ok [dot; dotdot; file_f].
Proof.
  repeat (constructor; [split; cbn; [lia | unfold byte_ok; lia | repeat constructor; unfold byte_ok; lia | unfold zlen; cbn; lia
    | repeat constructor; unfold byte_ok; lia | split; [done |]; vm_compute; discriminate] |]). constructor.
Qed.

Lemma sample_dir_inode : dir_inode plain_fs sample_volume 20 (sample_inode 2).
Proof. split; [unfold OCFS2_SUPER_BLOCK_BLKNO; cbn; lia | done | done | done]. Qed.

Lemma sample_layout :
  dir_layout 0 plain_fs (v_disk sample_volume) (sample_inode 2) [100; 101] [dot; dotdot; file_f].
Proof.
  pose proof sample_entries_ok as H. apply Forall_cons in H as [H1 H]. apply Forall_cons in H as [H2 H].
  apply (BlockDir 0 plain_fs _ (sample_inode 2) [[dot; dotdot]; [file_f]]); [done | |].
  - apply (bool_decide_unpack _). vm_compute. done.
  - change (file_blocks plain_fs (sample_inode 2)) with [(100, 0); (101, 1)].
    constructor; [| constructor; [| constructor]]; exists [];
      (split; [split; [| reflexivity | reflexivity] | split; [intros E; discriminate E | reflexivity]]).
    + constructor; [exact H1 |]. constructor; [exact H2 | constructor].
    + exact H.
Qed.

Lemma sample_dir_holds : dir_holds 0 plain_fs sample_volume 20 [100; 101] [dot; dotdot; file_f].
Proof. exists (sample_inode 2). split; [apply sample_dir_inode | apply sample_layout]. Qed.

Lemma plain_geometry : geometry_ok plain_fs.
Proof. split; [cbn; lia | done]. Qed.




(** ** Linking *)

Lemma link_blockend_range fs di : geometry_ok fs -> 448 <= link_blockend fs di <= 4096.
Proof.
  intros [[H1 H2] _]. unfold link_blockend, ocfs2_dir_trailer_blk_off, trailer_size.
  destruct (ocfs2_dir_has_trailer fs di); lia.
Qed.

Section Link.
Context (align : Z) (fs : filesys) (Hgeo : geometry_ok fs) (Hrw : fs_rw fs = true).
Context (extend_allocation : volume -> Z -> outcome volume) (get_blocks : inode -> Z -> res Z)
        (convert_inline : volume -> Z -> outcome volume).
Context (name : list Z) (ino flags : Z).
Context (Hino : OCFS2_SUPER_BLOCK_BLKNO <= ino <= fs_blocks fs) (Hblocks : fs_blocks fs < 2 ^ 64).
Context (Hname : bytes_ok name) (Hlen : zlen name < 256).

Abbreviation link := (ocfs2_link align fs extend_allocation get_blocks convert_inline).
Abbreviation request di := (mkLink name ino flags 0 (link_blockend fs di)).

Lemma request_ok di : link_ok (request di).
Proof using Hgeo Hino Hblocks Hname Hlen.
  unfold OCFS2_SUPER_BLOCK_BLKNO in Hino. pose proof (link_blockend_range fs di Hgeo).
  split; cbn [ls_inode ls_name ls_blockend]; [lia | done | done | lia].
Qed.

Lemma link_enter v dir i : dir_inode fs v dir i ->
  link v dir name ino flags =
  ('(v, ls, retval) ← ocfs2_dir_iterate align fs v dir OCFS2_DIRENT_FLAG_INCLUDE_EMPTY link_proc (request (in_di i));
   match retval with
   | Some e => mret (v, Some e)
   | None =>
       if negb (ls_done ls =? 0) then mret (v, None) else
       '(v, retval) ← ocfs2_expand_dir align fs extend_allocation get_blocks convert_inline v dir;
       match retval with
       | Some e => mret (v, Some e)
       | None =>
           match ocfs2_read_inode v dir with
           | Fault => Fault
           | Err e => mret (v, Some e)
           | Ok i =>
               '(v, ls, retval) ← ocfs2_dir_iterate align fs v dir OCFS2_DIRENT_FLAG_INCLUDE_EMPTY link_proc
                 (mkLink name ino flags (ls_done ls) (link_blockend fs (in_di i)));
               match retval with
               | Some e => mret (v, Some e)
               | None => mret (v, if ls_done ls =? 0 then Some OCFS2_ET_INTERNAL_FAILURE else None)
               end
           end
       end
   end).
Proof using Hrw Hino.
  intros [_ Hi _ _]. unfold ocfs2_link. rewrite Hrw, Z.gtb_ltb. cbn [negb].
  destruct (Z.ltb_spec ino OCFS2_SUPER_BLOCK_BLKNO), (Z.ltb_spec (fs_blocks fs) ino); try lia. cbn [orb].
  unfold ocfs2_read_inode. by rewrite Hi.
Qed.

(** Either an entry has room, or the directory has a block to spare. *)
Definition can_link (i : inode) (es : list dirent) : Prop :=
  Exists (room (OCFS2_DIR_REC_LEN (zlen name))) es \/ (is_inline fs i = false /\ exists k, spare_block fs i k).

(** The second walk, over the directory with an empty block appended. *)
Lemma link_again v dir i bs es : dir_inode fs v dir i ->
  dir_layout align fs (v_disk v) i bs (es ++ [free_entry (link_blockend fs (in_di i))]) ->
  exists v' i' es', ocfs2_dir_iterate align fs v dir OCFS2_DIRENT_FLAG_INCLUDE_EMPTY link_proc (request (in_di i)) =
      Ok (v', linked (request (in_di i)), None) /\
    dir_inode fs v' dir i' /\ dir_layout align fs (v_disk v') i' bs es' /\ confined dir bs v v' /\
    inserted (name, ino, u8 flags) (listing es) (listing es').
Proof using Hgeo Hino Hblocks Hname Hlen.
  intros Hi Hl. set (free := free_entry _) in *.
  destruct (link_iterate align fs v dir i bs (es ++ [free]) (request (in_di i)) Hgeo Hi Hl (request_ok _) eq_refl)
    as (v' & i' & ls' & es' & -> & Hi' & Hl' & Hc & [[-> Hin] | (_ & _ & Hno)] & _).
  - exists v', i', es'. rewrite listing_app, (listing_free free), app_nil_r in Hin by done. by split.
  - exfalso. apply Forall_app in Hno as [_ Hno]. apply Forall_cons in Hno as [Hno _]. apply Hno.
    pose proof (link_blockend_range fs (in_di i) Hgeo). unfold room. change (is_used free) with false. cbv iota.
    unfold free. rewrite free_entry_len by lia. unfold link_need. cbn [ls_name].
    pose proof (rec_len_spec (zlen name) (zlen_nonneg _)). lia.
Qed.

Lemma link_total v dir i bs es : 0 <= c_to_b_bits fs -> maps_blocks fs get_blocks ->
  dir_inode fs v dir i -> dir_layout align fs (v_disk v) i bs es -> can_link i es ->
  exists v' bs' es', link v dir name ino flags = Ok (v', None) /\ bs `prefix_of` bs' /\
    dir_holds align fs v' dir bs' es' /\ confined dir bs' v v' /\
    inserted (name, ino, u8 flags) (listing es) (listing es').
Proof using Hgeo Hrw Hino Hblocks Hname Hlen.
  intros Hbits Hget Hi Hl Hcan. rewrite (link_enter v dir i Hi).
  destruct (link_iterate align fs v dir i bs es (request (in_di i)) Hgeo Hi Hl (request_ok _) eq_refl)
    as (v1 & i1 & ls1 & es1 & -> & Hi1 & Hl1 & [Hc1 Hc1'] & [[-> Hins] | (-> & Hlist & Hno)] & Hsame); rewrite bind_Ok.
  { exists v1, bs, es1. split; [done |]. split; [done |]. split; [by exists i1 |]. by split. }
  destruct Hcan as [Hroom | (Hin & k & Hsp)].
  { exfalso. apply Exists_exists in Hroom as (e & He & Hr). rewrite Forall_forall in Hno. by apply (Hno e He). }
  rewrite (Hsame Hin) in *. clear i1 Hsame. cbn [ls_done Z.eqb negb].
  destruct (expand_appends align fs Hgeo Hbits extend_allocation get_blocks convert_inline Hget Hrw v1 dir i bs es1 k
    Hi1 Hin Hl1 Hsp) as (v2 & -> & Hi2 & Hl2 & [Hc2 Hc2']). rewrite bind_Ok.
  unfold ocfs2_read_inode. rewrite (dn_inode _ _ _ _ Hi2).
  change (link_blockend fs (in_di i)) with (link_blockend fs (in_di (sized fs i))) in Hl2.
  destruct (link_again v2 dir (sized fs i) _ es1 Hi2 Hl2) as (v3 & i3 & es3 & -> & Hi3 & Hl3 & [Hc3 Hc3'] & Hins).
  rewrite bind_Ok. eexists v3, _, es3. split; [done |]. split; [by apply prefix_app_r |]. split; [by exists i3 |].
  rewrite <- Hlist. split; [| done]. split.
  - intros b Hb. rewrite Hc3, Hc2, Hc1; [done | | done | done]. intros E. apply Hb, elem_of_app. by left.
  - intros n Hn. by rewrite Hc3', Hc2', Hc1'.
Qed.
End Link.



Definition sample_get_blocks (i : inode) (k : Z) : res Z := Ok (phys plain_fs (in_recs i) k).

Lemma sample_name_ok : bytes_ok [103].
Proof. repeat constructor; unfold byte_ok; lia. Qed.

Lemma sample_can_link : can_link plain_fs [103] (sample_inode 2) [dot; dotdot; file_f].
Proof. left. apply Exists_cons_tl, Exists_cons_hd. unfold room. vm_compute. discriminate. Qed.


