(* ===== verification/DirInit.v ===== *)
(** New directories, and what the directory code does on input it should reject:
    theorems on [expanddir.c], [dirblock.c] and [dir_iterate.c]. *)

From S2P Require Import Prelude Blockcheck DirBlock DirEntries DirStore Dir DirOps DirLink DirSpec.

(** ** The first entries *)

(** Writing a whole entry over 12 bytes and a name. *)
Lemma fill_entry pre h old post ino rec_len name : bytes_ok h -> length h = 12%nat -> length old = length name ->
  (buf ← set_inode (pre ++ h ++ old ++ post) (zlen pre) ino;
   buf ← set_name_len buf (zlen pre) (zlen name);
   buf ← set_rec_len buf (zlen pre) rec_len;
   buf ← set_name buf (zlen pre) name;
   set_file_type buf (zlen pre) OCFS2_FT_DIR) =
  Ok (pre ++ header ino rec_len (zlen name) OCFS2_FT_DIR ++ name ++ post).
Proof.
  intros Hh Hl Ho. destruct (header_of_bytes h Hh Hl) as (i & r & n & f & -> & _).
  by rewrite header_set_inode, bind_Ok, header_set_name_len, bind_Ok, header_set_rec_len, bind_Ok,
    header_set_name, bind_Ok, header_set_file_type by done.
Qed.

(** The writes of the second entry come in another order, and its name with the
    byte that ends the string. *)
Lemma fill_second pre h old post ino rec_len : bytes_ok h -> length h = 12%nat -> length old = 3%nat ->
  (buf ← set_inode (pre ++ h ++ old ++ post) (zlen pre) ino;
   buf ← set_rec_len buf (zlen pre) rec_len;
   buf ← set_name_len buf (zlen pre) 2;
   buf ← set_name buf (zlen pre) [46; 46; 0];
   set_file_type buf (zlen pre) OCFS2_FT_DIR) =
  Ok (pre ++ header ino rec_len 2 OCFS2_FT_DIR ++ [46; 46; 0] ++ post).
Proof.
  intros Hh Hl Ho. destruct (header_of_bytes h Hh Hl) as (i & r & n & f & -> & _).
  by rewrite header_set_inode, bind_Ok, header_set_rec_len, bind_Ok, header_set_name_len, bind_Ok,
    header_set_name, bind_Ok, header_set_file_type by done.
Qed.

(** A list cut at a place inside it. *)
Lemma cut {A} n (l : list A) : (n <= length l)%nat -> exists a b, l = a ++ b /\ length a = n.
Proof. intros H. exists (take n l), (drop n l). rewrite take_drop, length_take. split; [done | lia]. Qed.

Lemma zlen_nat {A} (l : list A) n : length l = n -> zlen l = Z.of_nat n.
Proof. by intros <-. Qed.

Definition first_entries (dir parent : Z) (es : list dirent) : Prop :=
  listing es = [([46], dir, OCFS2_FT_DIR); ([46; 46], parent, OCFS2_FT_DIR)] /\ length es = 2%nat.

Lemma fill_entries dir parent pre mid post size : bytes_ok mid -> zlen mid = size -> 32 <= size <= 4096 ->
  size mod 4 = 0 -> 0 < dir < 2 ^ 64 -> 0 < parent < 2 ^ 64 ->
  exists es, ocfs2_fill_initial_dirents dir parent (pre ++ mid ++ post) (zlen pre) size =
      Ok (pre ++ encode es ++ post) /\
    Forall dirent_ok es /\ zlen (encode es) = size /\ first_entries dir parent es.
Proof.
  intros Hb Hl Hs Hm Hd Hp. unfold zlen in Hl.
  destruct (cut 12 mid) as (h1 & m1 & -> & L1); [lia |]. apply Forall_app in Hb as [B1 Hb]. rewrite length_app in Hl.
  destruct (cut 1 m1) as (n1 & m2 & -> & L2); [lia |]. apply Forall_app in Hb as [B2 Hb]. rewrite length_app in Hl.
  destruct (cut 3 m2) as (s1 & m3 & -> & L3); [lia |]. apply Forall_app in Hb as [B3 Hb]. rewrite length_app in Hl.
  destruct (cut 12 m3) as (h2 & m4 & -> & L4); [lia |]. apply Forall_app in Hb as [B4 Hb]. rewrite length_app in Hl.
  destruct (cut 3 m4) as (n2 & s2 & -> & L5); [lia |]. apply Forall_app in Hb as [B5 B6]. rewrite length_app in Hl.
  pose (e1 := mkDe dir OCFS2_FT_DIR [46] s1). pose (e2 := mkDe parent OCFS2_FT_DIR [46; 46] (0 :: s2)).
  assert (R1 : e_rec_len e1 = 16) by (unfold e_rec_len, e1, zlen; cbn [e_name e_slack length]; lia).
  assert (R2 : e_rec_len e2 = size - 16) by (unfold e_rec_len, e2, zlen; cbn [e_name e_slack length]; lia).
  exists [e1; e2]. split; [| split; [| split; [| split; [| done]]]].
  - unfold ocfs2_fill_initial_dirents. change (OCFS2_DIR_REC_LEN 1) with 16. rewrite u16_small by lia.
    pose proof (fill_entry pre h1 n1 (s1 ++ h2 ++ n2 ++ s2 ++ post) dir 16 [46] B1 L1 L2) as E1.
    pose proof (fill_second (pre ++ raw e1) h2 n2 (s2 ++ post) parent (size - 16) B4 L4 L5) as E2.
    assert (X1 : pre ++ header dir 16 (zlen [46]) OCFS2_FT_DIR ++ [46] ++ s1 ++ h2 ++ n2 ++ s2 ++ post =
      (pre ++ raw e1) ++ h2 ++ n2 ++ s2 ++ post).
    { rewrite raw_header, R1. unfold e1. cbn [e_inode e_name e_slack e_ftype]. by list_assoc. }
    rewrite X1 in E1. rewrite zlen_app, zlen_raw, R1 in E2.
    assert (X2 : (pre ++ raw e1) ++ header parent (size - 16) 2 OCFS2_FT_DIR ++ [46; 46; 0] ++ s2 ++ post =
      pre ++ encode [e1; e2] ++ post).
    { cbn [encode]. rewrite (raw_header e2), R2. unfold e2. cbn [e_inode e_name e_slack e_ftype]. by list_assoc. }
    rewrite X2 in E2. clear X1 X2 R1 R2.
    replace (pre ++ (h1 ++ n1 ++ s1 ++ h2 ++ n2 ++ s2) ++ post) with (pre ++ h1 ++ n1 ++ s1 ++ h2 ++ n2 ++ s2 ++ post)
      by (by list_assoc).
    change (zlen [46]) with 1 in E1. cbv zeta.
    revert E1. generalize (set_inode (pre ++ h1 ++ n1 ++ s1 ++ h2 ++ n2 ++ s2 ++ post) (zlen pre) dir). intros r E1.
    apply bind_Ok_inv in E1 as (b1 & -> & E1). apply bind_Ok_inv in E1 as (b2 & E1' & E1). rewrite bind_Ok, E1', bind_Ok.
    apply bind_Ok_inv in E1 as (b3 & E1'' & E1). rewrite E1'', bind_Ok.
    apply bind_Ok_inv in E1 as (b4 & E1''' & E1). rewrite E1''', bind_Ok, E1, bind_Ok. exact E2.
  - constructor; [| constructor; [| constructor]].
    + split; cbn [e1 e_inode e_ftype e_name e_slack]; [lia | unfold byte_ok, OCFS2_FT_DIR; lia
        | repeat constructor; unfold byte_ok; lia | unfold zlen; cbn; lia | exact B3 | rewrite R1; split; [done | lia]].
    + split; cbn [e2 e_inode e_ftype e_name e_slack]; [lia | unfold byte_ok, OCFS2_FT_DIR; lia
        | repeat constructor; unfold byte_ok; lia | unfold zlen; cbn; lia | |].
      * constructor; [unfold byte_ok; lia | exact B6].
      * rewrite R2. split; [| lia]. replace (size - 16) with (size + -4 * 4) by lia. by rewrite Z.mod_add by lia.
  - cbn [encode]. rewrite app_nil_r, zlen_app, !zlen_raw, R1, R2. lia.
  - unfold listing. cbn [List.filter]. unfold is_used. cbn [e1 e2 e_inode].
    destruct (Z.eqb_spec dir 0), (Z.eqb_spec parent 0); try lia. done.
Qed.

(** A directory inode with inline data that fills its block. *)
Record inline_inode (fs : filesys) (i : inode) : Prop := mkInlineInode {
  ii_inline : is_inline fs i = true;
  ii_bytes : bytes_ok (in_block i);
  ii_len : zlen (in_block i) = fs_blocksize fs;
  ii_count : get_le 2 (in_block i) id_count_off = Ok (fs_blocksize fs - id_data_off)
}.

Section InitDir.
Context (align : Z) (fs : filesys) (Hgeo : geometry_ok fs) (Hrw : fs_rw fs = true) (Hblocks : fs_blocks fs < 2 ^ 64).
Context (extend_allocation : volume -> Z -> outcome volume) (get_blocks : inode -> Z -> res Z)
        (convert_inline : volume -> Z -> outcome volume) (heap : list Z).

Abbreviation init_dir := (ocfs2_init_dir align fs extend_allocation get_blocks convert_inline heap).

Lemma init_dir_inline v dir parent i p : dir_inode fs v dir i -> inline_inode fs i ->
  v_inodes v !! parent = Some p -> 0 < parent < 2 ^ 64 ->
  exists b es,
    let i' := with_size (with_block i b) (fs_blocksize fs - id_data_off) in
    init_dir v dir parent =
      Ok (mkVolume (v_disk v) (<[dir := i']> (<[parent := with_links p (u16 (in_links p + 1))]> (v_inodes v))), None) /\
    (forall d, dir_layout align fs d i' [] es) /\ first_entries dir parent es.
Proof using Hgeo Hrw Hblocks.
  intros Hi [I1 I2 I3 I4] Hp Hpar. unfold ocfs2_init_dir. rewrite Hrw, (check_directory_ok fs v dir i Hi). cbn [negb].
  unfold is_inline in I1. apply andb_prop in I1 as [S1 S2]. rewrite S1, S2. cbn [negb]. rewrite I4, bind_Ok.
  destruct Hgeo as [[G1 G2] G3]. unfold id_data_off in *.
  destruct (cut 200 (in_block i)) as (pre & mid & Eb & Lp); [unfold zlen in I3; lia |].
  assert (Zp : zlen pre = 200) by (unfold zlen; lia).
  rewrite Eb in I2. apply Forall_app in I2 as [Bp Bm]. rewrite Eb, zlen_app, Zp in I3.
  destruct (fill_entries dir parent pre mid [] (fs_blocksize fs - 200)) as (es & E & Hok & Hlen & Hfirst); try done; try lia.
  { replace (fs_blocksize fs - 200) with (fs_blocksize fs + -50 * 4) by lia. by rewrite Z.mod_add by lia. }
  { destruct Hi as [[V1 V2] _ _ _]. unfold OCFS2_SUPER_BLOCK_BLKNO in V1. lia. }
  rewrite !app_nil_r, <- Eb, Zp in E. rewrite E, bind_Ok. clear E. unfold ocfs2_read_inode. rewrite Hp.
  exists (pre ++ encode es), es. split; [done |]. split; [| done]. intros d.
  apply (InlineDir align fs d _ pre es); [unfold is_inline; cbn; by rewrite S1, S2 | done | done | | done].
  cbn [with_size with_block in_block]. rewrite zlen_app, Hlen. lia.
Qed.
End InitDir.


Definition inline_fs : filesys := mkFs 512 10000 true 1 true true.

Definition inline_sample : inode :=
  mkInode true (mkDinode 20 true 0) 0 [] 2 (replicate 192 0 ++ [56; 1] ++ replicate 318 7).

Definition inline_volume : volume := mkVolume ∅ {[ 20 := inline_sample; 5 := sample_inode 2 ]}.

Lemma inline_sample_ok : inline_inode inline_fs inline_sample.
Proof.
  split; [done | | reflexivity | reflexivity]. unfold inline_sample. cbn [in_block].
  apply Forall_app. split; [apply zeros_ok |]. apply Forall_app. split; [repeat constructor; unfold byte_ok; lia |].
  apply Forall_replicate. unfold byte_ok. lia.
Qed.

Lemma inline_sample_dir : dir_inode inline_fs inline_volume 20 inline_sample.
Proof. split; [unfold OCFS2_SUPER_BLOCK_BLKNO; cbn; lia | done | done | done]. Qed.

Lemma inline_geometry : geometry_ok inline_fs.
Proof. split; [cbn; lia | done]. Qed.

Definition no_extend (v : volume) (_ : Z) : outcome volume := Ok (v, Some OCFS2_ET_IO).


(** ** Findings *)

(** A directory initialised as its own parent keeps its link count: the
    count is raised in the parent's block, which the cached inode then
    overwrites. *)
Theorem init_dir_own_parent_keeps_links align fs extend_allocation get_blocks convert_inline heap v dir i :
  geometry_ok fs -> fs_rw fs = true -> fs_blocks fs < 2 ^ 64 -> dir_inode fs v dir i -> inline_inode fs i ->
  exists v' i',
    ocfs2_init_dir align fs extend_allocation get_blocks convert_inline heap v dir dir = Ok (v', None) /\
    v_inodes v' !! dir = Some i' /\ in_links i' = in_links i.
Proof.
  intros Hgeo Hrw Hb Hi Hin. pose proof Hi as [[V1 V2] V3 _ _]. unfold OCFS2_SUPER_BLOCK_BLKNO in V1.
  destruct (init_dir_inline align fs Hgeo Hrw Hb extend_allocation get_blocks convert_inline heap v dir dir i i
    Hi Hin V3 ltac:(lia)) as (b & es & -> & _).
  eexists _, _. split; [reflexivity |]. cbn [v_inodes]. split; [apply lookup_insert_eq | done].
Qed.

Lemma init_dir_own_parent_keeps_links_witness : exists v' i',
  ocfs2_init_dir 0 inline_fs no_extend sample_get_blocks no_extend [] inline_volume 20 20 = Ok (v', None) /\
  v_inodes v' !! 20 = Some i' /\ in_links i' = 2.
Proof.
  apply (init_dir_own_parent_keeps_links 0 inline_fs no_extend sample_get_blocks no_extend [] inline_volume 20 inline_sample);
    [apply inline_geometry | done | cbn; lia | apply inline_sample_dir | apply inline_sample_ok].
Defined.

(** A volume with metadata checks and no inline data, its directory new. *)
Definition ecc_volume : volume := mkVolume {[ 101 := replicate 512 0 ]} {[ 20 := sample_inode 0; 5 := sample_inode 2 ]}.


(** A corrupt entry in an inline directory is reported as the number 2, the
    value of [OCFS2_BLOCK_ABORT], where the same entry in a block is reported as
    [OCFS2_ET_DIR_CORRUPTED]. *)
Theorem inline_corruption_is_errno :
  ocfs2_lookup 0 inline_fs (mkVolume ∅ {[ 20 := with_block inline_sample (replicate 512 0) ]}) 20 [46] =
    Err (SYS_ERRNO 2) /\
  ocfs2_lookup 0 plain_fs (mkVolume {[ 100 := replicate 512 0 ]} {[ 20 := sample_inode 1 ]}) 20 [46] =
    Err OCFS2_ET_DIR_CORRUPTED.
Proof. by vm_compute. Qed.

(** The last 12 bytes of this block hold an entry of 8 bytes. *)
Definition short_last : list Z :=
  encode [mkDe 5 2 [46] (replicate 487 0)] ++ header 0 8 0 0.

