(* ===== verification/Features.v ===== *)
(** Feature flags: [libocfs2/feature_string.c], and the flags of
    [include/ocfs2-kernel/ocfs2_fs.h] it names.

    Strings are the lists of their bytes, without the terminator.  [qsort] is a
    parameter of the functions that sort. *)

From Stdlib Require Import String Ascii.
From S2P Require Import Prelude.

Definition str (s : string) : list Z := map (fun c => Z.of_N (N_of_ascii c)) (list_ascii_of_string s).

(** ** The flags *)

Record ocfs2_fs_options : Type := mkOpts {
  opt_compat : Z;
  opt_incompat : Z;
  opt_ro_compat : Z
}.

#[global] Instance options_eq_dec : EqDecision ocfs2_fs_options.
Proof. solve_decision. Defined.

Definition OCFS2_FEATURE_INCOMPAT_HEARTBEAT_DEV : Z := 0x0002.
Definition OCFS2_FEATURE_INCOMPAT_RESIZE_INPROG : Z := 0x0004.
Definition OCFS2_FEATURE_INCOMPAT_LOCAL_MOUNT : Z := 0x0008.
Definition OCFS2_FEATURE_INCOMPAT_SPARSE_ALLOC : Z := 0x0010.
Definition OCFS2_FEATURE_INCOMPAT_TUNEFS_INPROG : Z := 0x0020.
Definition OCFS2_FEATURE_INCOMPAT_INLINE_DATA : Z := 0x0040.
Definition OCFS2_FEATURE_INCOMPAT_USERSPACE_STACK : Z := 0x0080.
Definition OCFS2_FEATURE_INCOMPAT_EXTENDED_SLOT_MAP : Z := 0x100.
Definition OCFS2_FEATURE_INCOMPAT_XATTR : Z := 0x0200.
Definition OCFS2_FEATURE_INCOMPAT_META_ECC : Z := 0x0800.
Definition OCFS2_FEATURE_COMPAT_BACKUP_SB : Z := 0x0001.
Definition OCFS2_FEATURE_COMPAT_JBD2_SB : Z := 0x0002.
Definition OCFS2_FEATURE_RO_COMPAT_UNWRITTEN : Z := 0x0001.
Definition OCFS2_TUNEFS_INPROG_REMOVE_SLOT : Z := 0x0001.
Definition OCFS2_TUNEFS_INPROG_DIR_TRAILER : Z := 0x0002.

(** ** The tables; the entry with a null name that ends them is not kept *)

(** [ff_own_flags] is the flag of the feature, [ff_flags] has those of the
    features it depends on too. *)
Record fs_feature_flags : Type := mkFeature {
  ff_str : list Z;
  ff_own_flags : ocfs2_fs_options;
  ff_flags : ocfs2_fs_options
}.

Definition OCFS2_FEATURE_LEVEL_DEFAULT : Z := 0.
Definition OCFS2_FEATURE_LEVEL_MAX_COMPAT : Z := 1.
Definition OCFS2_FEATURE_LEVEL_MAX_FEATURES : Z := 2.

Definition ocfs2_feature_levels_table : list (list Z * Z) :=
  [(str "default", OCFS2_FEATURE_LEVEL_DEFAULT);
   (str "max-compat", OCFS2_FEATURE_LEVEL_MAX_COMPAT);
   (str "max-features", OCFS2_FEATURE_LEVEL_MAX_FEATURES)].

Definition feature_level_defaults : list ocfs2_fs_options :=
  [mkOpts (Z.lor OCFS2_FEATURE_COMPAT_BACKUP_SB OCFS2_FEATURE_COMPAT_JBD2_SB)
          (Z.lor OCFS2_FEATURE_INCOMPAT_SPARSE_ALLOC OCFS2_FEATURE_INCOMPAT_INLINE_DATA)
          OCFS2_FEATURE_RO_COMPAT_UNWRITTEN;
   mkOpts (Z.lor OCFS2_FEATURE_COMPAT_BACKUP_SB OCFS2_FEATURE_COMPAT_JBD2_SB) 0 0;
   mkOpts (Z.lor OCFS2_FEATURE_COMPAT_BACKUP_SB OCFS2_FEATURE_COMPAT_JBD2_SB)
          (Z.lor OCFS2_FEATURE_INCOMPAT_SPARSE_ALLOC
            (Z.lor OCFS2_FEATURE_INCOMPAT_EXTENDED_SLOT_MAP
              (Z.lor OCFS2_FEATURE_INCOMPAT_INLINE_DATA
                (Z.lor OCFS2_FEATURE_INCOMPAT_META_ECC OCFS2_FEATURE_INCOMPAT_XATTR))))
          OCFS2_FEATURE_RO_COMPAT_UNWRITTEN].

(** A feature that depends on no other. *)
Definition alone (name : list Z) (own : ocfs2_fs_options) : fs_feature_flags := mkFeature name own own.

Definition ocfs2_supported_features : list fs_feature_flags :=
  [alone (str "local") (mkOpts 0 OCFS2_FEATURE_INCOMPAT_LOCAL_MOUNT 0);
   alone (str "sparse") (mkOpts 0 OCFS2_FEATURE_INCOMPAT_SPARSE_ALLOC 0);
   alone (str "backup-super") (mkOpts OCFS2_FEATURE_COMPAT_BACKUP_SB 0 0);
   mkFeature (str "unwritten") (mkOpts 0 0 OCFS2_FEATURE_RO_COMPAT_UNWRITTEN)
     (mkOpts 0 OCFS2_FEATURE_INCOMPAT_SPARSE_ALLOC OCFS2_FEATURE_RO_COMPAT_UNWRITTEN);
   alone (str "extended-slotmap") (mkOpts 0 OCFS2_FEATURE_INCOMPAT_EXTENDED_SLOT_MAP 0);
   alone (str "inline-data") (mkOpts 0 OCFS2_FEATURE_INCOMPAT_INLINE_DATA 0);
   alone (str "metaecc") (mkOpts 0 OCFS2_FEATURE_INCOMPAT_META_ECC 0);
   alone (str "xattr") (mkOpts 0 OCFS2_FEATURE_INCOMPAT_XATTR 0)].

Definition ocfs2_feature_names : list (list Z * ocfs2_fs_options) :=
  [(str "heartbeat-device", mkOpts 0 OCFS2_FEATURE_INCOMPAT_HEARTBEAT_DEV 0);
   (str "aborted-resize", mkOpts 0 OCFS2_FEATURE_INCOMPAT_RESIZE_INPROG 0);
   (str "local", mkOpts 0 OCFS2_FEATURE_INCOMPAT_LOCAL_MOUNT 0);
   (str "sparse", mkOpts 0 OCFS2_FEATURE_INCOMPAT_SPARSE_ALLOC 0);
   (str "extended-slotmap", mkOpts 0 OCFS2_FEATURE_INCOMPAT_EXTENDED_SLOT_MAP 0);
   (str "aborted-tunefs", mkOpts 0 OCFS2_FEATURE_INCOMPAT_TUNEFS_INPROG 0);
   (str "userspace-stack", mkOpts 0 OCFS2_FEATURE_INCOMPAT_USERSPACE_STACK 0);
   (str "backup-super", mkOpts OCFS2_FEATURE_COMPAT_BACKUP_SB 0 0);
   (str "unwritten", mkOpts 0 0 OCFS2_FEATURE_RO_COMPAT_UNWRITTEN);
   (str "inline-data", mkOpts 0 OCFS2_FEATURE_INCOMPAT_INLINE_DATA 0);
   (str "strict-journal-super", mkOpts OCFS2_FEATURE_COMPAT_JBD2_SB 0 0);
   (str "metaecc", mkOpts 0 OCFS2_FEATURE_INCOMPAT_META_ECC 0);
   (str "xattr", mkOpts 0 OCFS2_FEATURE_INCOMPAT_XATTR 0)].

Definition ocfs2_tunefs_flag_names : list (list Z * Z) :=
  [(str "remove-slot", OCFS2_TUNEFS_INPROG_REMOVE_SLOT);
   (str "dir-trailer", OCFS2_TUNEFS_INPROG_DIR_TRAILER)].

(** ** Sets of features *)

Definition merge_features (features new_features : ocfs2_fs_options) : ocfs2_fs_options :=
  mkOpts (Z.lor (opt_compat features) (opt_compat new_features))
         (Z.lor (opt_incompat features) (opt_incompat new_features))
         (Z.lor (opt_ro_compat features) (opt_ro_compat new_features)).

(** [x & y] as a condition *)
Definition meets (x y : Z) : bool := negb (Z.land x y =? 0).

Definition check_feature_flags (fs_flags fs_r_flags : ocfs2_fs_options) : bool :=
  if negb (opt_compat fs_r_flags =? 0) && meets (opt_compat fs_flags) (opt_compat fs_r_flags) then false
  else if negb (opt_incompat fs_r_flags =? 0) && meets (opt_incompat fs_flags) (opt_incompat fs_r_flags) then false
  else if negb (opt_ro_compat fs_r_flags =? 0) && meets (opt_ro_compat fs_flags) (opt_ro_compat fs_r_flags) then false
  else true.

Definition feature_match (a b : ocfs2_fs_options) : bool :=
  meets (opt_compat a) (opt_compat b) || meets (opt_incompat a) (opt_incompat b) ||
  meets (opt_ro_compat a) (opt_ro_compat b).

Fixpoint clear_deps_loop (features : list fs_feature_flags) (reverse_set : ocfs2_fs_options) : ocfs2_fs_options :=
  match features with
  | [] => reverse_set
  | f :: features =>
      clear_deps_loop features
        (if feature_match reverse_set (ff_flags f) then merge_features reverse_set (ff_own_flags f) else reverse_set)
  end.

Definition ocfs2_feature_clear_deps (reverse_set : ocfs2_fs_options) : ocfs2_fs_options :=
  clear_deps_loop ocfs2_supported_features reverse_set.

Definition no_features : ocfs2_fs_options := mkOpts 0 0 0.

(** [dest &= ~reverse], on 32 bits *)
Definition clear_features (dest reverse : ocfs2_fs_options) : ocfs2_fs_options :=
  mkOpts (Z.ldiff (opt_compat dest) (opt_compat reverse))
         (Z.ldiff (opt_incompat dest) (opt_incompat reverse))
         (Z.ldiff (opt_ro_compat dest) (opt_ro_compat reverse)).

(** Returns [*dest]; [*reverse_set] is changed to its closure.  A level outside
    the table reads past its end. *)
Definition ocfs2_merge_feature_flags_with_level (level : Z) (feature_set reverse_set : ocfs2_fs_options)
    : res ocfs2_fs_options :=
  level_set ← (if level <? 0 then Fault else must (feature_level_defaults !! Z.to_nat level));
  let reverse_set := ocfs2_feature_clear_deps reverse_set in
  if negb (check_feature_flags feature_set reverse_set) then Err OCFS2_ET_CONFLICTING_FEATURES else
  mret (clear_features (merge_features level_set feature_set) reverse_set).

(** ** Parsing *)

Definition bytes_eqb (a b : list Z) : bool := bool_decide (a = b).

Definition ocfs2_parse_feature_level (typestr : list Z) : res Z :=
  match List.find (fun e => bytes_eqb typestr (fst e)) ocfs2_feature_levels_table with
  | Some (_, fl_type) => Ok fl_type
  | None => Err OCFS2_ET_UNSUPP_FEATURE
  end.

(** [strchr(token, ',')] and the cut there: the token, and what is behind the
    comma. *)
Fixpoint cut_comma (s : list Z) : list Z * option (list Z) :=
  match s with
  | [] => ([], None)
  | c :: s => if c =? 44 then ([], Some s) else let '(token, next) := cut_comma s in (c :: token, next)
  end.

(** A leading "no". *)
Definition strip_no (token : list Z) : bool * list Z :=
  match token with
  | 110 :: 111 :: token' => (true, token')
  | _ => (false, token)
  end.

(** The loop over the tokens; each one takes at least a byte. *)
Fixpoint parse_tokens (fuel : nat) (token : list Z) (feature_flags reverse_flags : ocfs2_fs_options)
    : res (ocfs2_fs_options * ocfs2_fs_options) :=
  match token with
  | [] => Ok (feature_flags, reverse_flags)
  | _ =>
      match fuel with
      | O => Fault
      | S fuel =>
          let '(token, next) := cut_comma token in
          let '(reverse, token) := strip_no token in
          match List.find (fun f => bytes_eqb token (ff_str f)) ocfs2_supported_features with
          | None => Err OCFS2_ET_UNSUPP_FEATURE
          | Some f =>
              let feature_flags :=
                if (reverse : bool) then feature_flags else merge_features feature_flags (ff_flags f) in
              let reverse_flags :=
                if reverse then merge_features reverse_flags (ff_own_flags f) else reverse_flags in
              match next with
              | None => Ok (feature_flags, reverse_flags)
              | Some next => parse_tokens fuel next feature_flags reverse_flags
              end
          end
      end
  end.

Definition ocfs2_parse_feature (opts : list Z) : res (ocfs2_fs_options * ocfs2_fs_options) :=
  '(feature_flags, reverse_flags) ← parse_tokens (length opts) opts no_features no_features;
  let reverse_flags := ocfs2_feature_clear_deps reverse_flags in
  if negb (check_feature_flags feature_flags reverse_flags) then Err OCFS2_ET_CONFLICTING_FEATURES else
  mret (feature_flags, reverse_flags).

(** ** Visiting the features of a set *)

Definition nothing : fs_feature_flags := mkFeature [] no_features no_features.

Definition feature_at (i : nat) : fs_feature_flags := nth i ocfs2_supported_features nothing.

Definition compare_feature_forward (ia ib : nat) : Z :=
  let fa := feature_at ia in
  let fb := feature_at ib in
  if feature_match (ff_flags fb) (ff_own_flags fa) then -1
  else if feature_match (ff_flags fa) (ff_own_flags fb) then 1
  else 0.

Definition compare_feature_backward (ia ib : nat) : Z := compare_feature_forward ib ia.

Section Foreach.
Context (qsort : (nat -> nat -> Z) -> list nat -> list nat).
Context {S : Type} (func : S -> ocfs2_fs_options -> S * bool).

(** Calling [func] until it returns other than 0. *)
Fixpoint call_each (indices : list nat) (user_data : S) : S :=
  match indices with
  | [] => user_data
  | i :: indices =>
      let '(user_data, stop) := func user_data (ff_own_flags (feature_at i)) in
      if (stop : bool) then user_data else call_each indices user_data
  end.

Definition matching_indices (feature_set : ocfs2_fs_options) : list nat :=
  List.filter (fun i => feature_match feature_set (ff_own_flags (feature_at i)))
    (seq 0 (length ocfs2_supported_features)).

Definition feature_foreach (reverse : bool) (feature_set : ocfs2_fs_options) (user_data : S) : S :=
  call_each (qsort (if reverse then compare_feature_backward else compare_feature_forward)
               (matching_indices feature_set)) user_data.

Definition ocfs2_feature_foreach (feature_set : ocfs2_fs_options) (user_data : S) : S :=
  feature_foreach false feature_set user_data.

Definition ocfs2_feature_reverse_foreach (reverse_set : ocfs2_fs_options) (user_data : S) : S :=
  feature_foreach true reverse_set user_data.
End Foreach.

(** ** Printing *)

(** [snprintf(buf + off, size, text)]: what is stored. *)
Definition snprintf_at (buf : list Z) (off size : Z) (text : list Z) : res (list Z) :=
  if size <=? 0 then Ok buf
  else put_bytes buf off (take (Z.to_nat (size - 1)) text ++ [0]).

(** A piece with its separator at [ptr], where [remain] bytes are left. *)
Definition print_piece (buf : list Z) (ptr remain : Z) (name : list Z) : res (list Z * Z * Z * option errcode) :=
  let text := (if ptr =? 0 then [] else [32]) ++ name in
  let printed := zlen text in
  buf ← snprintf_at buf ptr remain text;
  mret (buf, ptr + printed, remain - printed, if printed >=? remain then Some OCFS2_ET_NO_SPACE else None).

Section Print.
Context {F : Type} `{!EqDecision F} (matches : F -> F -> bool) (merge : F -> F -> F) (empty : F).
Context (names : list (list Z * F)).

Fixpoint print_loop (names : list (list Z * F)) (flags : F) (buf : list Z) (ptr remain : Z) (found : F)
    : res (list Z * Z * Z * F * option errcode) :=
  match names with
  | [] => Ok (buf, ptr, remain, found, None)
  | (name, flag) :: names =>
      if negb (matches flags flag) then print_loop names flags buf ptr remain found else
      let found := merge found flag in
      '(buf, ptr, remain, err) ← print_piece buf ptr remain name;
      match err with
      | Some e => mret (buf, ptr, remain, found, Some e)
      | None => print_loop names flags buf ptr remain found
      end
  end.

Definition snprint_flags (buf : list Z) (size : Z) (flags : F) : res (list Z * option errcode) :=
  '(buf, ptr, remain, found, err) ← print_loop names flags buf 0 size empty;
  match err with
  | Some e => mret (buf, Some e)
  | None =>
      if decide (found = flags) then mret (buf, None) else
      '(buf, _, _, err) ← print_piece buf ptr remain (str "unknown");
      mret (buf, err)
  end.
End Print.

Definition ocfs2_snprint_feature_flags (buf : list Z) (size : Z) (flags : ocfs2_fs_options) : res (list Z * option errcode) :=
  snprint_flags feature_match merge_features no_features ocfs2_feature_names buf size flags.

Definition ocfs2_snprint_tunefs_flags (buf : list Z) (size : Z) (flags : Z) : res (list Z * option errcode) :=
  snprint_flags meets Z.lor 0 ocfs2_tunefs_flag_names buf size flags.
