(* ===== verification/FeaturesSpec.v ===== *)
(** What the feature functions promise: dependencies, parsing and printing. *)

From Stdlib Require Import String.
From S2P Require Import Prelude Features.

(** ** Sets of features as sets of bits *)

Lemma meets_bit x k : 0 <= k -> meets x (2 ^ k) = Z.testbit x k.
Proof.
  intros Hk. unfold meets. destruct (Z.testbit x k) eqn:E.
  - destruct (Z.eqb_spec (Z.land x (2 ^ k)) 0) as [H |]; [| done]. exfalso.
    apply (f_equal (fun z => Z.testbit z k)) in H. rewrite Z.land_spec, Z.pow2_bits_true, Z.bits_0, E in H by done. done.
  - destruct (Z.eqb_spec (Z.land x (2 ^ k)) 0) as [| H]; [done |]. exfalso. apply H. apply Z.bits_inj'. intros n Hn.
    rewrite Z.land_spec, Z.pow2_bits_eqb, Z.bits_0 by done. destruct (Z.eqb_spec k n) as [<- |]; [by rewrite E |].
    apply andb_false_r.
Qed.

Lemma meets_0_r x : meets x 0 = false.
Proof. unfold meets. by rewrite Z.land_0_r. Qed.

Lemma meets_0_l x : meets 0 x = false.
Proof. unfold meets. by rewrite Z.land_0_l. Qed.

Lemma meets_false x y : meets x y = false <-> Z.land x y = 0.
Proof. unfold meets. by destruct (Z.eqb_spec (Z.land x y) 0). Qed.

(** Setting a bit that is set. *)
Lemma lor_bit x k : 0 <= k -> Z.testbit x k = true -> Z.lor x (2 ^ k) = x.
Proof.
  intros Hk E. apply Z.bits_inj'. intros n Hn. rewrite Z.lor_spec, Z.pow2_bits_eqb by done.
  destruct (Z.eqb_spec k n) as [<- |]; [by rewrite E | apply orb_false_r].
Qed.

(** [a] has every flag of [b]. *)
Definition includes (a b : ocfs2_fs_options) : Prop :=
  Z.land (opt_compat b) (opt_compat a) = opt_compat b /\
  Z.land (opt_incompat b) (opt_incompat a) = opt_incompat b /\
  Z.land (opt_ro_compat b) (opt_ro_compat a) = opt_ro_compat b.

(** A set with each supported feature has what the feature depends on. *)
Definition closed (o : ocfs2_fs_options) : Prop :=
  Forall (fun f => feature_match o (ff_own_flags f) = true -> includes o (ff_flags f)) ocfs2_supported_features.

Definition has_sparse (o : ocfs2_fs_options) : bool := Z.testbit (opt_incompat o) 4.
Definition has_unwritten (o : ocfs2_fs_options) : bool := Z.testbit (opt_ro_compat o) 0.

Lemma land_bit x k : 0 <= k -> Z.testbit x k = true -> Z.land (2 ^ k) x = 2 ^ k.
Proof.
  intros Hk E. apply Z.bits_inj'. intros n Hn. rewrite Z.land_spec, Z.pow2_bits_eqb by done.
  destruct (Z.eqb_spec k n) as [<- |]; [by rewrite E | done].
Qed.

Lemma match_compat o k : 0 <= k -> feature_match o (mkOpts (2 ^ k) 0 0) = Z.testbit (opt_compat o) k.
Proof. intros. unfold feature_match. cbn [opt_compat opt_incompat opt_ro_compat]. by rewrite meets_bit, !meets_0_r, !orb_false_r. Qed.

Lemma match_incompat o k : 0 <= k -> feature_match o (mkOpts 0 (2 ^ k) 0) = Z.testbit (opt_incompat o) k.
Proof. intros. unfold feature_match. cbn [opt_compat opt_incompat opt_ro_compat]. by rewrite meets_bit, !meets_0_r, !orb_false_r. Qed.

Lemma match_ro_compat o k : 0 <= k -> feature_match o (mkOpts 0 0 (2 ^ k)) = Z.testbit (opt_ro_compat o) k.
Proof. intros. unfold feature_match. cbn [opt_compat opt_incompat opt_ro_compat]. by rewrite meets_bit, !meets_0_r, !orb_false_r. Qed.

Lemma match_unwritten o : feature_match o (mkOpts 0 OCFS2_FEATURE_INCOMPAT_SPARSE_ALLOC OCFS2_FEATURE_RO_COMPAT_UNWRITTEN) =
  has_sparse o || has_unwritten o.
Proof.
  unfold feature_match. cbn [opt_compat opt_incompat opt_ro_compat]. rewrite meets_0_r.
  by rewrite (meets_bit _ 4), (meets_bit _ 0).
Qed.

Lemma match_unwritten_own o :
  feature_match o (mkOpts 0 0 OCFS2_FEATURE_RO_COMPAT_UNWRITTEN) = has_unwritten o.
Proof. by apply (match_ro_compat o 0). Qed.

(** The table has a single dependency. *)
Lemma closed_spec o : closed o <-> (has_unwritten o = true -> has_sparse o = true).
Proof.
  assert (Hi : forall k, 0 <= k -> feature_match o (mkOpts 0 (2 ^ k) 0) = true -> includes o (mkOpts 0 (2 ^ k) 0)).
  { intros k Hk. rewrite match_incompat by done. intros E. split_and!; cbn; try apply Z.land_0_l. by apply land_bit. }
  assert (Hc : forall k, 0 <= k -> feature_match o (mkOpts (2 ^ k) 0 0) = true -> includes o (mkOpts (2 ^ k) 0 0)).
  { intros k Hk. rewrite match_compat by done. intros E. split_and!; cbn; try apply Z.land_0_l. by apply land_bit. }
  unfold closed, ocfs2_supported_features, alone. split.
  - intros H Hu. do 3 apply Forall_cons in H as [_ H]. apply Forall_cons in H as [H _]. cbn [ff_own_flags ff_flags] in H.
    rewrite match_unwritten_own in H. destruct (H Hu) as (_ & E & _). cbn [opt_incompat] in E.
    unfold has_sparse. apply (f_equal (fun z => Z.testbit z 4)) in E. rewrite Z.land_spec in E.
    by destruct (Z.testbit (opt_incompat o) 4).
  - intros H. constructor; [exact (Hi 3 ltac:(done)) |]. constructor; [exact (Hi 4 ltac:(done)) |].
    constructor; [exact (Hc 0 ltac:(done)) |]. constructor.
    + cbn [ff_own_flags ff_flags]. intros E. rewrite match_unwritten_own in E. split_and!; cbn [opt_compat opt_incompat opt_ro_compat].
      * apply Z.land_0_l.
      * apply (land_bit _ 4); [done | by apply H].
      * by apply (land_bit _ 0).
    + constructor; [exact (Hi 8 ltac:(done)) |]. constructor; [exact (Hi 6 ltac:(done)) |].
      constructor; [exact (Hi 11 ltac:(done)) |]. constructor; [exact (Hi 9 ltac:(done)) |]. constructor.
Qed.

Lemma check_is_match a b : check_feature_flags a b = negb (feature_match a b).
Proof.
  assert (H : forall x y, negb (y =? 0) && meets x y = meets x y).
  { intros x y. destruct (Z.eqb_spec y 0) as [-> |]; [by rewrite meets_0_r | done]. }
  unfold check_feature_flags, feature_match. rewrite !H.
  by destruct (meets (opt_compat a) (opt_compat b)), (meets (opt_incompat a) (opt_incompat b)),
    (meets (opt_ro_compat a) (opt_ro_compat b)).
Qed.

(** ** Clearing what depends on a feature *)

(** A round for a feature that depends on none changes nothing. *)
Lemma clear_incompat r k : 0 <= k ->
  (if feature_match r (mkOpts 0 (2 ^ k) 0) then merge_features r (mkOpts 0 (2 ^ k) 0) else r) = r.
Proof.
  intros Hk. rewrite match_incompat by done. destruct (Z.testbit (opt_incompat r) k) eqn:E; [| done].
  unfold merge_features. cbn [opt_compat opt_incompat opt_ro_compat]. rewrite !Z.lor_0_r, lor_bit by done. by destruct r.
Qed.

Lemma clear_compat r k : 0 <= k ->
  (if feature_match r (mkOpts (2 ^ k) 0 0) then merge_features r (mkOpts (2 ^ k) 0 0) else r) = r.
Proof.
  intros Hk. rewrite match_compat by done. destruct (Z.testbit (opt_compat r) k) eqn:E; [| done].
  unfold merge_features. cbn [opt_compat opt_incompat opt_ro_compat]. rewrite !Z.lor_0_r, lor_bit by done. by destruct r.
Qed.

Lemma clear_deps_spec r : ocfs2_feature_clear_deps r =
  if has_sparse r || has_unwritten r
  then mkOpts (opt_compat r) (opt_incompat r) (Z.lor (opt_ro_compat r) OCFS2_FEATURE_RO_COMPAT_UNWRITTEN) else r.
Proof.
  unfold ocfs2_feature_clear_deps, ocfs2_supported_features, alone. cbn [clear_deps_loop ff_flags ff_own_flags].
  change OCFS2_FEATURE_INCOMPAT_LOCAL_MOUNT with (2 ^ 3). rewrite clear_incompat by done.
  change (mkOpts 0 OCFS2_FEATURE_INCOMPAT_SPARSE_ALLOC 0) with (mkOpts 0 (2 ^ 4) 0). rewrite clear_incompat by done.
  change OCFS2_FEATURE_COMPAT_BACKUP_SB with (2 ^ 0). rewrite clear_compat by done. rewrite match_unwritten.
  set (r' := if has_sparse r || has_unwritten r then _ else r).
  change OCFS2_FEATURE_INCOMPAT_EXTENDED_SLOT_MAP with (2 ^ 8). rewrite clear_incompat by done.
  change OCFS2_FEATURE_INCOMPAT_INLINE_DATA with (2 ^ 6). rewrite clear_incompat by done.
  change OCFS2_FEATURE_INCOMPAT_META_ECC with (2 ^ 11). rewrite clear_incompat by done.
  change OCFS2_FEATURE_INCOMPAT_XATTR with (2 ^ 9). rewrite clear_incompat by done.
  unfold r', merge_features. cbn [opt_compat opt_incompat opt_ro_compat]. by rewrite !Z.lor_0_r.
Qed.

(** In a cleared set everything that depends on a feature goes with it. *)
Lemma clear_deps_unwritten r : has_sparse (ocfs2_feature_clear_deps r) = true ->
  has_unwritten (ocfs2_feature_clear_deps r) = true.
Proof.
  rewrite clear_deps_spec. destruct (has_sparse r || has_unwritten r) eqn:E.
  - intros _. unfold has_unwritten. cbn [opt_ro_compat]. rewrite Z.lor_spec. apply orb_true_r.
  - intros H. by rewrite H in E.
Qed.

Lemma clear_deps_idem r : ocfs2_feature_clear_deps (ocfs2_feature_clear_deps r) = ocfs2_feature_clear_deps r.
Proof.
  rewrite (clear_deps_spec (ocfs2_feature_clear_deps r)).
  destruct (has_sparse (ocfs2_feature_clear_deps r) || has_unwritten (ocfs2_feature_clear_deps r)) eqn:E; [| done].
  assert (Hu : has_unwritten (ocfs2_feature_clear_deps r) = true).
  { apply orb_true_iff in E as [E | E]; [by apply clear_deps_unwritten | done]. }
  unfold has_unwritten in Hu. rewrite (lor_bit _ 0) by done. by destruct (ocfs2_feature_clear_deps r).
Qed.

(** ** Setting and clearing *)

Lemma match_false a b : feature_match a b = false ->
  Z.land (opt_compat a) (opt_compat b) = 0 /\ Z.land (opt_incompat a) (opt_incompat b) = 0 /\
  Z.land (opt_ro_compat a) (opt_ro_compat b) = 0.
Proof.
  unfold feature_match. intros H. apply orb_false_iff in H as [H H3]. apply orb_false_iff in H as [H1 H2].
  by rewrite <- !meets_false.
Qed.

Lemma cleared_disjoint a b : feature_match (clear_features a b) b = false.
Proof.
  unfold feature_match, clear_features. cbn [opt_compat opt_incompat opt_ro_compat].
  assert (H : forall x y, meets (Z.ldiff x y) y = false).
  { intros x y. apply meets_false. apply Z.bits_inj'. intros n _. rewrite Z.land_spec, Z.ldiff_spec, Z.bits_0.
    by destruct (Z.testbit x n), (Z.testbit y n). }
  by rewrite !H.
Qed.

(** What was asked for is there: it does not meet what is cleared. *)
Lemma keeps_asked l s r : feature_match s r = false -> includes (clear_features (merge_features l s) r) s.
Proof.
  intros H. apply match_false in H as (H1 & H2 & H3). unfold includes, clear_features, merge_features.
  cbn [opt_compat opt_incompat opt_ro_compat].
  assert (G : forall x y z, Z.land y z = 0 -> Z.land y (Z.ldiff (Z.lor x y) z) = y).
  { intros x y z E. apply Z.bits_inj'. intros n _. apply (f_equal (fun v => Z.testbit v n)) in E.
    rewrite Z.land_spec, Z.bits_0 in E. rewrite Z.land_spec, Z.ldiff_spec, Z.lor_spec.
    by destruct (Z.testbit x n), (Z.testbit y n), (Z.testbit z n). }
  by rewrite !G.
Qed.

Lemma level_closed level l : feature_level_defaults !! level = Some l -> closed l.
Proof.
  intros H. apply closed_spec. apply list_elem_of_lookup_2 in H. unfold feature_level_defaults in H.
  repeat (apply elem_of_cons in H as [-> | H]; [done |]). by apply elem_of_nil in H.
Qed.



(** ** Parsing *)

Lemma cut_comma_app a b : Forall (fun c => c <> 44) a -> cut_comma (a ++ 44 :: b) = (a, Some b).
Proof.
  induction 1 as [| c a Hc _ IH]; [done |]. cbn [cut_comma app]. destruct (Z.eqb_spec c 44); [done |]. by rewrite IH.
Qed.

Lemma cut_comma_last a : Forall (fun c => c <> 44) a -> cut_comma a = (a, None).
Proof.
  induction 1 as [| c a Hc _ IH]; [done |]. cbn [cut_comma]. destruct (Z.eqb_spec c 44); [done |]. by rewrite IH.
Qed.

Lemma cut_comma_shorter s token next : cut_comma s = (token, Some next) -> (length next < length s)%nat.
Proof.
  revert token. induction s as [| c s IH]; intros token; cbn [cut_comma]; [done |].
  destruct (c =? 44); [intros [= _ <-]; cbn; lia |]. destruct (cut_comma s) as [t [n |]] eqn:E; [| done].
  intros [= _ ->]. specialize (IH t eq_refl). cbn. lia.
Qed.

(** A request: set or clear the feature at an index. *)
Record request : Type := mkReq { rq_clear : bool; rq_index : nat }.

Definition request_ok (q : request) : Prop := (rq_index q < length ocfs2_supported_features)%nat.

Definition show_request (q : request) : list Z :=
  (if rq_clear q then [110; 111] else []) ++ ff_str (feature_at (rq_index q)).

(** The option string that makes the requests. *)
Fixpoint show_requests (qs : list request) : list Z :=
  match qs with
  | [] => []
  | [q] => show_request q
  | q :: qs => show_request q ++ 44 :: show_requests qs
  end.

Definition apply_request (acc : ocfs2_fs_options * ocfs2_fs_options) (q : request) : ocfs2_fs_options * ocfs2_fs_options :=
  let f := feature_at (rq_index q) in
  if rq_clear q then (fst acc, merge_features (snd acc) (ff_own_flags f))
  else (merge_features (fst acc) (ff_flags f), snd acc).

Lemma index_cases (P : nat -> Prop) : P 0%nat -> P 1%nat -> P 2%nat -> P 3%nat -> P 4%nat -> P 5%nat -> P 6%nat -> P 7%nat ->
  forall i, (i < length ocfs2_supported_features)%nat -> P i.
Proof. intros. do 8 (destruct i as [| i]; [done |]). cbn in *. lia. Qed.

(** The names of the table, with or without "no" in front, are read back. *)
Lemma request_token q : request_ok q ->
  Forall (fun c => c <> 44) (show_request q) /\ show_request q <> [] /\
  strip_no (show_request q) = (rq_clear q, ff_str (feature_at (rq_index q))) /\
  List.find (fun f => bytes_eqb (ff_str (feature_at (rq_index q))) (ff_str f)) ocfs2_supported_features =
    Some (feature_at (rq_index q)).
Proof.
  destruct q as [[] i]; unfold request_ok, show_request; cbn [rq_clear rq_index];
    revert i; apply index_cases; (split; [apply (bool_decide_unpack _); vm_compute; exact I | split; [discriminate | split; vm_compute; reflexivity]]).
Qed.

Lemma parse_one fuel q next acc : request_ok q ->
  parse_tokens (S fuel) (show_request q ++ match next with Some n => 44 :: n | None => [] end) (fst acc) (snd acc) =
  match next with
  | None => Ok (apply_request acc q)
  | Some n => parse_tokens fuel n (fst (apply_request acc q)) (snd (apply_request acc q))
  end.
Proof.
  intros Hq. destruct (request_token q Hq) as (H1 & H2 & H3 & H4).
  assert (Hcut : cut_comma (show_request q ++ match next with Some n => 44 :: n | None => [] end) = (show_request q, next)).
  { destruct next; [by apply cut_comma_app | rewrite app_nil_r; by apply cut_comma_last]. }
  destruct (show_request q ++ match next with Some n => 44 :: n | None => [] end) as [| c s] eqn:Es.
  { apply app_eq_nil in Es as [Es _]. done. }
  cbn [parse_tokens]. rewrite Hcut, H3, H4. unfold apply_request. destruct next, (rq_clear q); done.
Qed.

Lemma parse_requests qs : forall fuel acc, Forall request_ok qs -> (length qs <= fuel)%nat ->
  parse_tokens fuel (show_requests qs) (fst acc) (snd acc) = Ok (fold_left apply_request qs acc).
Proof.
  induction qs as [| q qs IH]; intros fuel acc Hqs Hf.
  - destruct fuel; by destruct acc.
  - apply Forall_cons in Hqs as [Hq Hqs]. destruct fuel as [| fuel]; [cbn in Hf; lia |]. cbn [length] in Hf.
    destruct qs as [| q' qs].
    + cbn [show_requests fold_left]. pose proof (parse_one fuel q None acc Hq) as E. by rewrite app_nil_r in E.
    + change (show_requests (q :: q' :: qs)) with (show_request q ++ 44 :: show_requests (q' :: qs)).
      pose proof (parse_one fuel q (Some (show_requests (q' :: qs))) acc Hq) as E. cbn match in E. rewrite E.
      rewrite IH by (done || lia). done.
Qed.

Lemma requests_length qs : Forall request_ok qs -> (length qs <= length (show_requests qs))%nat.
Proof.
  induction 1 as [| q qs Hq _ IH]; [done |]. destruct (request_token q Hq) as (_ & H & _ & _).
  destruct qs as [| q' qs].
  - cbn [show_requests length]. destruct (show_request q); [done | cbn; lia].
  - change (show_requests (q :: q' :: qs)) with (show_request q ++ 44 :: show_requests (q' :: qs)).
    rewrite length_app. cbn [length] in *. lia.
Qed.

(** C30: an option string made from requests to set and clear features, joined
    by commas, is parsed to exactly those requests: features to set with what
    they depend on, features to clear with what depends on them; it is refused
    when the two meet. *)
Theorem parse_feature_correct qs :
  Forall request_ok qs ->
  let '(set, clear) := fold_left apply_request qs (no_features, no_features) in
  ocfs2_parse_feature (show_requests qs) =
  if feature_match set (ocfs2_feature_clear_deps clear) then Err OCFS2_ET_CONFLICTING_FEATURES
  else Ok (set, ocfs2_feature_clear_deps clear).
Proof.
  intros Hqs. unfold ocfs2_parse_feature.
  pose proof (parse_requests qs (length (show_requests qs)) (no_features, no_features) Hqs (requests_length qs Hqs)) as E.
  cbn [fst snd] in E. rewrite E. clear E.
  destruct (fold_left apply_request qs (no_features, no_features)) as [set clear]. rewrite bind_Ok.
  rewrite check_is_match, negb_involutive. by destruct (feature_match _ _).
Qed.

Lemma parse_feature_correct_witness :
  ocfs2_parse_feature (str "unwritten,noxattr,metaecc") = Ok (mkOpts 0 0x810 1, mkOpts 0 0x200 0).
Proof.
  assert (H : Forall request_ok [mkReq false 3; mkReq true 7; mkReq false 6]).
  { repeat (constructor; [unfold request_ok; cbn; lia |]). constructor. }
  exact (parse_feature_correct _ H).
Defined.

(** The features to set stay closed. *)
Lemma closed_merge a b : closed a -> closed b -> closed (merge_features a b).
Proof.
  rewrite !closed_spec. unfold has_unwritten, has_sparse, merge_features. cbn [opt_incompat opt_ro_compat].
  rewrite !Z.lor_spec. intros Ha Hb E. apply orb_true_iff in E as [E | E]; [rewrite Ha | rewrite Hb, orb_true_r]; done.
Qed.

Lemma closed_feature f : In f ocfs2_supported_features -> closed (ff_flags f).
Proof.
  intros H. apply closed_spec. unfold ocfs2_supported_features in H.
  repeat (destruct H as [<- | H]; [done |]). done.
Qed.

Lemma parse_tokens_sound fuel : forall s ff rf, (length s <= fuel)%nat -> closed ff ->
  match parse_tokens fuel s ff rf with
  | Ok (ff', _) => closed ff'
  | Err e => e = OCFS2_ET_UNSUPP_FEATURE
  | Fault => False
  end.
Proof.
  induction fuel as [| fuel IH]; intros s ff rf Hf Hc; (destruct s as [| c s]; [done |]); cbn [length] in Hf; [lia |].
  cbn [parse_tokens]. destruct (cut_comma (c :: s)) as [token next] eqn:Ec. destruct (strip_no token) as [rev token'].
  destruct (List.find _ _) as [f |] eqn:Ef; [| done]. apply find_some in Ef as [Ef _].
  assert (Hc' : closed (if rev then ff else merge_features ff (ff_flags f))).
  { destruct rev; [done | by apply closed_merge, closed_feature]. }
  destruct next as [next |]; [| done]. apply cut_comma_shorter in Ec. cbn [length] in Ec. apply IH; [lia | done].
Qed.


(** ** Visiting *)




(** ** Printing *)

(** The words with a space between them. *)
Fixpoint words (ws : list (list Z)) : list Z :=
  match ws with
  | [] => []
  | [w] => w
  | w :: ws => w ++ 32 :: words ws
  end.

Lemma words_snoc ws w : words (ws ++ [w]) = match ws with [] => w | _ => words ws ++ 32 :: w end.
Proof.
  induction ws as [| v ws IH]; [done |]. cbn [app]. destruct ws as [| v' ws]; [done |].
  change (words (v :: (v' :: ws) ++ [w])) with (v ++ 32 :: words ((v' :: ws) ++ [w])). rewrite IH.
  change (words (v :: v' :: ws)) with (v ++ 32 :: words (v' :: ws)). by list_assoc.
Qed.

(** The buffer after the text [t] was printed to it: untouched, or the text and
    its terminator. *)
Definition printed_to (buf t : list Z) : list Z :=
  match t with [] => buf | _ => t ++ 0 :: drop (S (length t)) buf end.

Lemma printed_take buf t : take (length t) (printed_to buf t) = t.
Proof. destruct t as [| c t]; [done |]. unfold printed_to. by rewrite take_app_length. Qed.

Lemma printed_drop buf t k : drop (length t + S k) (printed_to buf t) = drop (length t + S k) buf.
Proof.
  destruct t as [| c t]; [done |]. unfold printed_to. rewrite drop_app_add. cbn [drop].
  rewrite drop_drop. f_equal. cbn. lia.
Qed.

Lemma printed_length buf t : (length t < length buf)%nat -> length (printed_to buf t) = length buf.
Proof.
  destruct t as [| c t]; [done |]. unfold printed_to. intros H. rewrite length_app. cbn [length]. rewrite length_drop.
  cbn in *. lia.
Qed.

Section Print.
Context (buf : list Z) (size : Z) (Hsize : 0 <= size <= zlen buf).

(** One more word, behind [ws]. *)
Lemma print_word ws w : Forall (fun w => w <> []) ws -> w <> [] ->
  ws = [] \/ zlen (words ws) < size ->
  let t := words (ws ++ [w]) in
  exists buf', print_piece (printed_to buf (words ws)) (zlen (words ws)) (size - zlen (words ws)) w =
      Ok (buf', zlen t, size - zlen t, if zlen t <? size then None else Some OCFS2_ET_NO_SPACE) /\
    length buf' = length buf /\ (zlen t < size -> buf' = printed_to buf t).
Proof using Hsize.
  intros Hws Hw Hfit t. set (s := words ws) in *.
  assert (Hs : s = [] <-> ws = []).
  { unfold s. split; [| by intros ->]. destruct Hws as [| v [| v' ws'] Hv _]; [done | done |].
    intros E. apply app_eq_nil in E as [E _]. done. }
  set (text := (if zlen s =? 0 then [] else [32]) ++ w).
  assert (Ht : t = s ++ text).
  { unfold t, text. rewrite words_snoc. fold s. destruct ws as [| v ws].
    - rewrite (proj2 Hs eq_refl). done.
    - destruct (Z.eqb_spec (zlen s) 0) as [E |]; [| done].
      assert (s = []) as E' by (destruct s; [done | unfold zlen in E; cbn in E; lia]). by apply Hs in E'. }
  assert (Hlen : zlen s <= size /\ (s <> [] -> zlen s < size)).
  { destruct Hfit as [-> | ?]; [| lia]. rewrite (proj2 Hs eq_refl). split; [unfold zlen; cbn; lia | done]. }
  assert (Hzt : zlen t = zlen s + zlen text) by (rewrite Ht; apply zlen_app).
  assert (Hpl : length (printed_to buf s) = length buf).
  { destruct s as [| c s0]; [done |]. apply printed_length. destruct Hlen as [_ Hlen]. specialize (Hlen ltac:(done)).
    unfold zlen in *. lia. }
  unfold print_piece. fold text. unfold snprintf_at. pose proof (zlen_nonneg s) as Hs0.
  assert (Ho : (zlen text >=? size - zlen s) = negb (zlen t <? size)).
  { rewrite Z.geb_leb. destruct (Z.leb_spec (size - zlen s) (zlen text)), (Z.ltb_spec (zlen t) size); try lia; done. }
  replace (size - zlen s - zlen text) with (size - zlen t) by lia. rewrite Ho, <- Hzt.
  destruct (Z.leb_spec (size - zlen s) 0).
  { rewrite bind_Ok. pose proof (zlen_nonneg text). destruct (Z.ltb_spec (zlen t) size); [lia |]. cbn [negb mret res_ret].
    exists (printed_to buf s). split; [done |]. split; [done | lia]. }
  set (out := take (Z.to_nat (size - zlen s - 1)) text ++ [0]).
  assert (Lo : (length out <= Z.to_nat (size - zlen s))%nat).
  { unfold out. rewrite length_app, length_take. cbn [length]. lia. }
  rewrite put_bytes_ok by (unfold zlen in *; lia). rewrite bind_Ok. eexists. split; [by destruct (zlen t <? size) |]. split.
  - rewrite length_splice; [done |]. unfold zlen in *. lia.
  - intros Hlt. assert (Eo : out = text ++ [0]) by (unfold out; rewrite take_ge; [done | unfold zlen in *; lia]).
    rewrite Eo. unfold splice. replace (Z.to_nat (zlen s)) with (length s) by (unfold zlen; lia).
    rewrite printed_take, length_app. cbn [length]. replace (length s + (length text + 1))%nat with (length s + S (length text))%nat by lia.
    rewrite printed_drop. destruct t as [| c t0] eqn:Et.
    { exfalso. destruct s; [| done]. unfold text in Ht. rewrite app_nil_l in Ht. by rewrite Ht in Hw || (cbn in Ht; congruence). }
    unfold printed_to. rewrite Ht, length_app. list_assoc. do 4 f_equal. lia.
Qed.

Lemma words_mono ws more : zlen (words ws) <= zlen (words (ws ++ more)).
Proof using Type.
  revert ws. induction more as [| w more IH]; intros ws; [rewrite app_nil_r; lia |].
  replace (ws ++ w :: more) with ((ws ++ [w]) ++ more) by (by list_assoc). specialize (IH (ws ++ [w])).
  rewrite words_snoc in IH. destruct ws as [| v ws]; [change (zlen (words [])) with 0; apply zlen_nonneg |].
  rewrite zlen_app, zlen_cons in IH. pose proof (zlen_nonneg w). lia.
Qed.

(** The outcome of printing the words [ws] into the buffer. *)
Definition print_outcome (ws : list (list Z)) (r : res (list Z * option errcode)) : Prop :=
  if decide (ws = [] \/ zlen (words ws) < size) then r = Ok (printed_to buf (words ws), None)
  else exists buf', r = Ok (buf', Some OCFS2_ET_NO_SPACE) /\ length buf' = length buf.

Context {F : Type} `{!EqDecision F} (matches : F -> F -> bool) (merge : F -> F -> F) (flags : F).

Definition selected (names : list (list Z * F)) : list (list Z) :=
  map fst (List.filter (fun e => matches flags (snd e)) names).

Definition found_flags (names : list (list Z * F)) (found : F) : F :=
  fold_left merge (map snd (List.filter (fun e => matches flags (snd e)) names)) found.

Lemma print_loop_spec names : forall ws found, Forall (fun e => fst e <> []) names -> Forall (fun w => w <> []) ws ->
  ws = [] \/ zlen (words ws) < size ->
  let all := ws ++ selected names in
  let run := print_loop matches merge names flags (printed_to buf (words ws)) (zlen (words ws)) (size - zlen (words ws)) found in
  if decide (all = [] \/ zlen (words all) < size)
  then run = Ok (printed_to buf (words all), zlen (words all), size - zlen (words all), found_flags names found, None)
  else exists buf' p r f, run = Ok (buf', p, r, f, Some OCFS2_ET_NO_SPACE) /\ length buf' = length buf.
Proof using Hsize.
  induction names as [| [w flag] names IH]; intros ws found Hn Hws Hfit.
  - cbn [selected List.filter map]. rewrite app_nil_r. cbv zeta. by rewrite decide_True.
  - apply Forall_cons in Hn as [Hw Hn]. cbn [fst] in Hw. unfold selected, found_flags. cbn [List.filter snd].
    cbn [print_loop]. destruct (matches flags flag); cbn [negb map fst snd]; [| by apply IH]. cbv zeta.
    destruct (print_word ws w Hws Hw Hfit) as (buf' & -> & Hl & Hb). rewrite bind_Ok.
    replace (ws ++ w :: map fst (List.filter (fun e => matches flags (snd e)) names))
      with ((ws ++ [w]) ++ selected names) by (unfold selected; by list_assoc).
    destruct (Z.ltb_spec (zlen (words (ws ++ [w]))) size) as [Hlt | Hge].
    + rewrite (Hb Hlt). apply (IH (ws ++ [w]) (merge found flag) Hn); [| by right].
      apply Forall_app. by split; [| constructor].
    + rewrite decide_False; [by eexists _, _, _, _ |].
      pose proof (words_mono (ws ++ [w]) (selected names)). intros [E | E]; [| lia].
      apply app_eq_nil in E as [E _]. by apply app_eq_nil in E as [_ E].
Qed.

Lemma snprint_flags_spec names empty : Forall (fun e => fst e <> []) names ->
  print_outcome (selected names ++ if decide (found_flags names empty = flags) then [] else [str "unknown"])
    (snprint_flags matches merge empty names buf size flags).
Proof using Hsize.
  intros Hn. unfold snprint_flags, print_outcome.
  pose proof (print_loop_spec names [] empty Hn ltac:(constructor) ltac:(by left)) as H. cbv zeta in H.
  rewrite !app_nil_l in H. cbn [words printed_to] in H. change (zlen []) with 0 in H. rewrite Z.sub_0_r in H.
  assert (Hsel : Forall (fun w => w <> []) (selected names)).
  { unfold selected. apply Forall_map, Forall_forall. intros e He. rewrite Forall_forall in Hn. apply Hn.
    apply list_elem_of_In, filter_In in He as [He _]. by apply list_elem_of_In. }
  destruct (decide (selected names = [] \/ zlen (words (selected names)) < size)) as [Hfit | Hno].
  - rewrite H, bind_Ok. destruct (decide (found_flags names empty = flags)).
    + rewrite app_nil_r. by rewrite decide_True.
    + destruct (print_word (selected names) (str "unknown") Hsel ltac:(discriminate) Hfit) as (buf' & -> & Hl & Hb).
      rewrite bind_Ok. destruct (Z.ltb_spec (zlen (words (selected names ++ [str "unknown"]))) size).
      * rewrite decide_True by (by right). by rewrite Hb.
      * rewrite decide_False; [by exists buf' |]. intros [E | E]; [by apply app_eq_nil in E as [_ E] | lia].
  - destruct H as (buf' & p & r & f & -> & Hl). rewrite bind_Ok.
    pose proof (words_mono (selected names) (if decide (found_flags names empty = flags) then [] else [str "unknown"])).
    rewrite decide_False; [by exists buf' |]. intros [E | E]; apply Hno; [left; by apply app_eq_nil in E as [E _] | right; lia].
Qed.
End Print.

#[export] Instance includes_dec a b : Decision (includes a b).
Proof. unfold includes. apply _. Defined.

(** Every flag that has a name. *)
Definition named_flags : ocfs2_fs_options := mkOpts 0x3 0xbfe 0x1.

Lemma land_flag x k : 0 <= k -> Z.land x (2 ^ k) = if Z.testbit x k then 2 ^ k else 0.
Proof.
  intros Hk. destruct (Z.testbit x k) eqn:E; [rewrite Z.land_comm; by apply land_bit |].
  apply meets_false. by rewrite meets_bit.
Qed.

(** What one entry of the table adds to the flags found. *)
Lemma add_compat flags c i r k : 0 <= k ->
  (if feature_match flags (mkOpts (2 ^ k) 0 0) then merge_features (mkOpts c i r) (mkOpts (2 ^ k) 0 0) else mkOpts c i r) =
  mkOpts (Z.lor c (Z.land (opt_compat flags) (2 ^ k))) i r.
Proof.
  intros Hk. rewrite match_compat, land_flag by done. unfold merge_features. cbn [opt_compat opt_incompat opt_ro_compat].
  destruct (Z.testbit _ k); by rewrite ?Z.lor_0_r.
Qed.

Lemma add_incompat flags c i r k : 0 <= k ->
  (if feature_match flags (mkOpts 0 (2 ^ k) 0) then merge_features (mkOpts c i r) (mkOpts 0 (2 ^ k) 0) else mkOpts c i r) =
  mkOpts c (Z.lor i (Z.land (opt_incompat flags) (2 ^ k))) r.
Proof.
  intros Hk. rewrite match_incompat, land_flag by done. unfold merge_features. cbn [opt_compat opt_incompat opt_ro_compat].
  destruct (Z.testbit _ k); by rewrite ?Z.lor_0_r.
Qed.

Lemma add_ro_compat flags c i r k : 0 <= k ->
  (if feature_match flags (mkOpts 0 0 (2 ^ k)) then merge_features (mkOpts c i r) (mkOpts 0 0 (2 ^ k)) else mkOpts c i r) =
  mkOpts c i (Z.lor r (Z.land (opt_ro_compat flags) (2 ^ k))).
Proof.
  intros Hk. rewrite match_ro_compat, land_flag by done. unfold merge_features. cbn [opt_compat opt_incompat opt_ro_compat].
  destruct (Z.testbit _ k); by rewrite ?Z.lor_0_r.
Qed.

Lemma found_step flags w f names acc :
  found_flags feature_match merge_features flags ((w, f) :: names) acc =
  found_flags feature_match merge_features flags names (if feature_match flags f then merge_features acc f else acc).
Proof. unfold found_flags. cbn [List.filter snd]. by destruct (feature_match flags f). Qed.

Lemma found_named flags :
  found_flags feature_match merge_features flags ocfs2_feature_names no_features =
  mkOpts (Z.land (opt_compat flags) (opt_compat named_flags)) (Z.land (opt_incompat flags) (opt_incompat named_flags))
         (Z.land (opt_ro_compat flags) (opt_ro_compat named_flags)).
Proof.
  unfold ocfs2_feature_names, no_features. rewrite !found_step.
  rewrite (add_incompat flags _ _ _ 1 : _ -> _ = mkOpts _ _ _) by done.
  rewrite (add_incompat flags _ _ _ 2 : _ -> _ = mkOpts _ _ _) by done.
  rewrite (add_incompat flags _ _ _ 3 : _ -> _ = mkOpts _ _ _) by done.
  rewrite (add_incompat flags _ _ _ 4 : _ -> _ = mkOpts _ _ _) by done.
  rewrite (add_incompat flags _ _ _ 8 : _ -> _ = mkOpts _ _ _) by done.
  rewrite (add_incompat flags _ _ _ 5 : _ -> _ = mkOpts _ _ _) by done.
  rewrite (add_incompat flags _ _ _ 7 : _ -> _ = mkOpts _ _ _) by done.
  rewrite (add_compat flags _ _ _ 0 : _ -> _ = mkOpts _ _ _) by done.
  rewrite (add_ro_compat flags _ _ _ 0 : _ -> _ = mkOpts _ _ _) by done.
  rewrite (add_incompat flags _ _ _ 6 : _ -> _ = mkOpts _ _ _) by done.
  rewrite (add_compat flags _ _ _ 1 : _ -> _ = mkOpts _ _ _) by done.
  rewrite (add_incompat flags _ _ _ 11 : _ -> _ = mkOpts _ _ _) by done.
  rewrite (add_incompat flags _ _ _ 9 : _ -> _ = mkOpts _ _ _) by done.
  unfold found_flags. cbn [List.filter map fold_left]. rewrite !Z.lor_0_l, <- !Z.land_lor_distr_r. done.
Qed.

(** C32: printing a set of flags gives the names of its features in the order of
    the table, a space between them, and "unknown" behind them exactly when a
    flag has no name.  The buffer then holds the text and its terminator; it is
    untouched when there is nothing to print.  A text that does not fit, the
    terminator included, is reported as [OCFS2_ET_NO_SPACE]; no byte beyond the
    buffer is written. *)
Theorem snprint_feature_flags_correct buf size flags :
  0 <= size <= zlen buf ->
  let words := map fst (List.filter (fun e => feature_match flags (snd e)) ocfs2_feature_names) ++
               (if decide (includes named_flags flags) then [] else [str "unknown"]) in
  print_outcome buf size words (ocfs2_snprint_feature_flags buf size flags).
Proof.
  intros Hs words. pose proof (snprint_flags_spec buf size Hs feature_match merge_features flags
    ocfs2_feature_names no_features) as H.
  rewrite found_named in H.
  replace (if decide (mkOpts _ _ _ = flags) then [] else [str "unknown"])
    with (if decide (includes named_flags flags) then [] else [str "unknown"]) in H.
  - apply H. repeat (constructor; [discriminate |]). constructor.
  - destruct flags as [c i r]. cbn [opt_compat opt_incompat opt_ro_compat].
    destruct (decide (includes named_flags (mkOpts c i r))) as [(E1 & E2 & E3) | Hn]; cbn [opt_compat opt_incompat opt_ro_compat] in *.
    + rewrite E1, E2, E3. by rewrite decide_True.
    + rewrite decide_False; [done |]. intros E. apply Hn. injection E as E1 E2 E3. by split_and!.
Qed.

Lemma snprint_feature_flags_correct_witness :
  ocfs2_snprint_feature_flags (replicate 30 255) 30 (mkOpts 0 0x1010 1) =
    Ok (str "sparse unwritten unknown" ++ 0 :: replicate 5 255, None).
Proof.
  pose proof (snprint_feature_flags_correct (replicate 30 255) 30 (mkOpts 0 0x1010 1) ltac:(vm_compute; split; discriminate)) as H.
  vm_compute in H |- *. exact H.
Defined.

Lemma found_tunefs flags :
  found_flags meets Z.lor flags ocfs2_tunefs_flag_names 0 = Z.land flags 0x3.
Proof.
  unfold found_flags, ocfs2_tunefs_flag_names. cbn [List.filter snd].
  pose proof (meets_bit flags 0 ltac:(done)) as E0. pose proof (meets_bit flags 1 ltac:(done)) as E1.
  change (2 ^ 0) with OCFS2_TUNEFS_INPROG_REMOVE_SLOT in E0. change (2 ^ 1) with OCFS2_TUNEFS_INPROG_DIR_TRAILER in E1.
  rewrite E0, E1. change 0x3 with (Z.lor (2 ^ 0) (2 ^ 1)). rewrite Z.land_lor_distr_r, !land_flag by done.
  by destruct (Z.testbit flags 0), (Z.testbit flags 1).
Qed.

(** The same for the flags of an interrupted [tunefs]. *)
Theorem snprint_tunefs_flags_correct buf size flags :
  0 <= size <= zlen buf ->
  let words := map fst (List.filter (fun e => meets flags (snd e)) ocfs2_tunefs_flag_names) ++
               (if decide (Z.land flags 0x3 = flags) then [] else [str "unknown"]) in
  print_outcome buf size words (ocfs2_snprint_tunefs_flags buf size flags).
Proof.
  intros Hs words. pose proof (snprint_flags_spec buf size Hs meets Z.lor flags ocfs2_tunefs_flag_names 0) as H.
  rewrite found_tunefs in H. apply H. repeat (constructor; [discriminate |]). constructor.
Qed.
